(* ===== verification/_CoqProject ===== *)
-Q . S2P
Prelude.v
BTreeMap.v
Types.v
PrioHeap.v
BlockInfoStore.v
LeaderSchedule.v
DataCache.v
TxService.v
CacheTasks.v
QuicConn.v
Tpu.v
Pipeline.v
AccountStore.v
AccountService.v
BlockMapping.v
Multiplex.v
Feed.v
RpcPolling.v
AddressLookup.v
PrioFees.v
Stakes.v
StakeLoop.v
BlockStore.v
PgSession.v
Bridge.v
PubSub.v
Proxy.v
Forwarder.v
ProxyServer.v
Logger.v
Startup.v
Support.v
Floats.v
Histogram.v
Inspect.v
Metrics.v
Bench.v
Bench1.v
BenchRunner.v
UnitTests.v
TpuExample.v
StakeNotify.v
QuicGauges.v
ProxyLink.v
Interface.v
PgStore.v
Server.v
BenchService.v
System.v
