(* ===== verification/Prelude.v ===== *)
(** * A verification development of lite-rpc

    lite-rpc is a lightweight RPC server for Solana.  It follows the chain
    through geyser (gRPC) streams or by polling a node, keeps the recent
    blocks, transactions, accounts and fees in memory, answers JSON-RPC
    requests and subscriptions from there, and sends the transactions it
    accepts straight to the QUIC ports of the next leaders, or to a forward
    proxy that does so.  This library models the program's own code, under
    src/, as executable functions and proves theorems about them.

    ** The parts and their files

    How the parts interact: a stream ([Multiplex] or [RpcPolling], whose
    blocks are built by [BlockMapping]) feeds the data cache ([DataCache],
    with the block information store of [BlockInfoStore]), the fee services
    ([PrioFees], which resolve accounts through [AddressLookup]) and the
    account service ([AccountService] over the store of [AccountStore]).  The
    server ([Bridge], [PubSub]) reads these and passes transactions to the
    transaction service ([TxService]), which sends and replays them through
    the TPU service ([Tpu]), whose connections ([QuicConn]) each have a heap
    ([PrioHeap]) and go to the leaders of [LeaderSchedule]; with a proxy
    configured they go through [Proxy] and [Forwarder] instead.  [Logger]
    writes what was sent to a database, [BlockStore], [PgSession] and [PgStore]
    keep the blocks in one, [Stakes], [StakeNotify] and [StakeLoop] compute leader
    schedules from stake accounts.  [Startup] reads the configuration and
    builds the first data cache, [Interface] names what clients call, and
    [System] starts and watches all tasks.  The tools around the server are
    [Inspect] (checks on the block stream), the benchmarks ([Bench],
    [Bench1], with [Metrics] and the statistics of [Histogram] over [Floats]),
    the service that runs them ([BenchRunner]) and an example client
    ([TpuExample]).

    Six files put components together as the program does, over their
    channels: [CacheTasks] (the tasks of the caching service over the stores
    they share), [Pipeline] (the path of a transaction from the request to the
    leaders), [Feed] (the path of a block from the sources to the cache),
    [ProxyServer] (the whole proxy), [Server] (requests by name over all
    handlers) and [BenchService] (the tasks of all tenants).

    - [Prelude]: results, panics, machine integers, state machines, lists.
    - [BTreeMap]: ordered maps as sorted association lists.
    - [Types]: core/src/structures, core/src/commitment_utils.rs.
    - [PrioHeap]: core/src/structures/prioritization_fee_heap.rs.
    - [BlockInfoStore]: core/src/stores/block_information_store.rs.
    - [LeaderSchedule]: core/src/structures/epoch.rs and leaderschedule.rs, the
      two leader getters of cluster-endpoints.
    - [DataCache]: core/src/stores, services/src/data_caching_service.rs.
    - [TxService]: services/src/transaction_service.rs, tx_sender.rs and
      transaction_replayer.rs.
    - [CacheTasks]: the tasks of services/src/data_caching_service.rs with the
      sender and the subscribers, stopped after every access to a store, in
      [task_step].
    - [QuicConn], [QuicGauges]: services/src/quic_connection.rs,
      quic_connection_utils.rs.
    - [Tpu]: services/src/tpu_utils/tpu_service.rs, tpu_connection_manager.rs;
      the tasks of a connection, in [conn_step], which says of every
      transaction it drops why.
    - [Pipeline]: [TxService], [CacheTasks], [Tpu] and [PrioHeap] as one system:
      the accepted calls, the channel to the sender, the replay queue, the
      broadcast channel and the tasks of the connections, those told to exit
      included, in [pl_step].
    - [AccountStore], [AccountService]: accounts, accounts-on-demand.
    - [BlockMapping]: cluster-endpoints/src/grpc_subscription.rs and the mapping
      of rpc_polling/poll_blocks.rs.
    - [Multiplex]: cluster-endpoints/src/grpc_multiplex.rs, grpc_stream_utils.rs.
    - [Feed]: the tasks of [Multiplex] with their channels and the reconnect
      loop of grpc_multiplex.rs, and the caching service behind them, in
      [feed_step]; the merging task during a restart, in [merger_step].
    - [RpcPolling]: cluster-endpoints/src/rpc_polling, grpc/grpc_accounts_streaming.rs;
      the workers of the block poller, which may end, in [poll_step].
    - [AddressLookup]: address-lookup-tables.
    - [PrioFees]: prioritization_fees.
    - [Stakes], [StakeNotify], [StakeLoop]: stake_vote.
    - [BlockStore], [PgSession], [PgStore]: blockstore; [PgStore] has the opening
      of the sessions, the start of the store and the creation of an epoch
      statement by statement, each answered, refused or carried out without an
      answer.
    - [Bridge], [PubSub], [Server]: lite-rpc/src/bridge.rs and bridge_pubsub.rs;
      a subscription is its task with its queue of a broadcast channel, in
      [subscription_step].
    - [Proxy], [ProxyLink], [Forwarder]: quic-forward-proxy, and its client in
      services/src/tpu_utils (quic_proxy_connection_manager.rs,
      quinn_auto_reconnect.rs).
    - [ProxyServer]: quic-forward-proxy/src/main.rs, proxy.rs,
      validator_identity.rs, with the listener and the forwarder, in
      [server_step].
    - [Support]: the settings of the QUIC endpoints (core/src/network_utils.rs
      and the functions that create endpoints in services and the proxy), the
      Prometheus responses, util/src/secrets.rs, core/src/iterutils.rs.
    - [Logger]: lite-rpc/src/postgres_logger.
    - [Startup]: lite-rpc/src/cli.rs, main.rs and rpc_tester.rs.
    - [Interface]: lite-rpc/src/rpc.rs, rpc_pubsub.rs, core/src/encoding.rs.
    - [System]: lite-rpc/src/main.rs, service_spawner.rs, start_server.rs, the
      creation of the subscriptions in cluster-endpoints,
      services/src/metrics_capture.rs.
    - [Inspect]: cluster-endpoints/src/grpc_inspect.rs.
    - [Floats], [Histogram]: floating-point numbers, util/src.
    - [Metrics], [Bench], [Bench1]: bench/src.
    - [BenchRunner], [BenchService]: benchrunner-service, bench/src/main.rs,
      helpers.rs and benches/confirmation_slot.rs.
    - [TpuExample]: examples/custom-tpu-send-transactions.
    - [UnitTests]: the unit tests of the crates, as statements about the model
      that are proved: the model passes the tests of the code.

    A definition that models code is preceded by a comment that names the
    symbol, the file under src/ and its lines.

    ** How code is represented

    A u64 or usize is an integer of type [Z]; where the code adds without a
    check the sum is written [+64] and wraps, where overflow would panic or
    saturate the operation is the checked or saturating one.  Keys, hashes and
    signatures are integers.  A [HashMap] or [DashMap] is a [gmap], a
    [BTreeMap] a sorted association list, a [Vec] a list.  A fallible function
    returns [result], one that may panic (an index, an [unwrap], an [assert])
    returns [outcome].  A task, which is a loop around a channel or a
    [select!], is a step function on its state; its events carry what the
    outside did (a message, a timeout, a failed connection, the clock), and
    [run] and [orun] iterate it, so that a theorem about all lists of events
    is one about all schedules.  Where several tasks or callers share state
    under locks, a system of atomic actions, one per critical section, is
    stepped in any order: [add_step] in [BlockInfoStore], [get_connection] in
    [QuicConn], the account store's updates, accounts on demand, the session
    caches, [refresh] in [Proxy], the agents of [Forwarder], the waiting
    requests of [StakeNotify], the three tasks of [Bench1], the tasks of
    [CacheTasks], [Pipeline], [Feed], [RpcPolling] and [ProxyServer], the
    tenants of [BenchService].  A
    bounded channel whose sender waits is a list with a guard on its length, a
    broadcast channel one that drops its oldest message ([bc_push], [bc_lost]).  An f64 or f32 is
    a float of the standard library's [SpecFloat] at its precision, rounded to
    nearest even after each operation; a [Duration] is its nanoseconds.

    Code outside src/ is a parameter: the SDK's epoch schedule
    ([EpochSchedule]), the codecs ([Codec], [WireCodec], [BridgeSdk]), the
    node's answers, the database server's choices, tokio's notifiers
    ([NotifyLike]), the text encodings ([TextCodecs]), the database driver
    ([Driver]).  What is assumed of it is a
    class of laws ([EpochScheduleLaws], [CodecLaws], [WireCodecLaws],
    [NotifyLaws], [TextCodecsLaws]) with a concrete instance, or a hypothesis the witnesses discharge.  Interfaces
    between components are classes too: [LeaderFetcher] (the two leader
    getters), [AccountStorage] (the in-memory store and accounts on demand),
    [AddressLookupTableInterface], [TakableContent] (stakes and votes); the
    clients' theorems are proved against the class and its laws.

    ** What is shown

    - Sending.  The heap refines a bounded priority queue without duplicates
      and evicts the least fee; transactions that are confirmed or expired
      stay so and are no longer replayed; replays are bounded; the pool
      bounds the load of a connection and callers of a connection never
      panic whatever the interleaving; the TPU service is connected to the
      leaders of the fanout and to no others; connecting with its gauges
      refines connecting, and every gauge grows by the attempts it counts;
      [sendTransaction] has exactly the effects it answers for; every
      transaction forwarded is logged, once if no answer of the database is
      lost.
    - The whole path of a transaction ([Pipeline]).  Whatever the interleaving
      of requests, sender, replayer, cache, slots and connections, nothing
      panics and a leader is sent only what was accepted, at most as often as
      was asked for; once a block with a transaction is cached only what had
      passed the check before is sent; an accepted transaction is on its way,
      written to the leader, or dropped for one of the reasons a connection
      has.
    - The proxy.  A batch arrives as it was sent at the nodes that take it;
      every transaction is sent once by one agent; the whole server neither
      loses nor repeats a transaction while no agent is overrun ([calm_run]),
      and writes them all if no stream fails; the client conserves
      transactions, racing callers reconnect once, and the client survives
      timeouts, but not an unexpected error of a connection.
    - Blocks.  The multiplexer emits a slot once per commitment and confirms
      the blocks it knows; polling accounts for every slot; the two mappings of
      blocks agree up to the version of messages and the commission of rewards; the information store stays consistent under interleaved calls;
      a blockhash the server announces stays valid from the start of the
      server on; a subscriber is notified once, however the tasks interleave;
      signature statuses reflect the
      last block.  A status the server reports is backed by a block and metas
      that sources delivered, across the multiplexer's restarts; a restart
      itself may hang.
    - Requests.  After a new block the registered methods answer from it,
      whatever requests come between, and only [sendTransaction] has effects.
    - Accounts.  The store stays well formed, confirmed data is visible in
      either order of its two tasks, queries by program are complete, missing
      accounts are loaded once, the three account calls agree and a program
      subscription delivers in order what matches of the changes its queue has
      not lost.
    - Fees and lookup tables.  Percentiles are the ones of the sorted fees
      and lookups resolve after a reload.
    - Stakes.  The takable stores refine a log of the values added, have one owner at a time,
      and requests are answered once; requests that wait for a store are all
      served, within six steps each; a schedule survives its conversion to
      nodes and back.
    - Storage.  A saved block is read back; calls of the session cache return;
      the store starts exactly when it can connect and write; preparing a slot
      creates the tables of its epoch and the next if every statement is
      answered, and an epoch that fails half way stays as it is.
    - Start and end.  The watch on the node stops the server exactly after
      eleven failures in a row; the process ends exactly when a watched task
      ends, the watch gives up or the user interrupts it; every method is
      reachable under one name; encoded data is read back.
    - Tools.  The inspection warns exactly about blocks out of order; the
      benchmarks count every transaction they send once, as confirmed or not,
      and report for each transaction of a batch what the node said of it; the
      float percentiles are quantiles of the sorted values and a histogram
      counts every value; the runner goes through all combinations of its
      configurations, reads its tenants back and keeps them apart; the example client counts a
      transaction once, funds its signers once, and returns the funds exactly
      if more than two blocks were tracked.

    Theorems that show a flaw are kept beside the others; the names say what
    happens, such as [stored_transaction_empties_block],
    [update_lost_when_insert_fails], [lagged_task_never_restarts],
    [write_session_never_returns], [packet_without_agents_panics],
    [three_schedules_stall], [lagged_slots_stop_server], [restart_may_hang],
    [interrupted_epoch_stays], [second_subscription_silences],
    [overtaken_height_revives], [lost_answer_doubles_row] or
    [burst_loses_changes].

    ** Bounds and fuel

    Recursion that is not structural has fuel: [chunks] takes the length of
    the list, the string functions the length of the string plus one,
    [decimal] 20 digits, which is every u64 ([parse_decimal]); [heap_drain]
    is used with the size of the heap, with a theorem that this is enough
    ([heap_drain_sorted]); the event
    loops of [StakeLoop] have fuel 2, since an event generates at most one
    further event.  The 500 polls of [poll_next_slot_start] and the tries of
    [confirm_tries] are bounds of the code, as are the capacities of the
    channels in [Pipeline], [Feed], [PubSub] and [ProxyServer].
    Hypotheses that bound numbers keep a slot or height plus a constant below
    2 ^ 64.

    ** Not modelled

    Log lines, and the Prometheus gauges other than those of [QuicGauges]; TLS,
    certificates and sockets (of an endpoint only its settings); the gRPC
    streams and their reconnection; the JSON-RPC server's transport, the
    parsing of parameters and what serde derives; clustering and layout of tables in SQL; command
    lines parsed by clap, the CSV format, the text of a Prometheus page; the
    setup of the example client and of the block store importer, which repeats
    that of lite-rpc; the integration tests, which need a node, a server or a
    database.  They are calls of libraries, or do not change the state of the
    programs.  What remains of the sources beside these is module lists, trait
    declarations, constructors that fill a struct and forwarding methods.
    Copies of a file (the database sessions of the logger and of the benchmark
    runner, the encodings of util) are modelled once, from one of them.
    stake_vote is modelled as it is written, although it is not a member of the
    workspace and its lib.rs:161 calls a method the block information store no longer
    has. *)

From stdpp Require Export base gmap list strings numbers sorting relations.
From Stdlib Require Export ZArith Lia.

(** ** Scopes, hint databases and tactics *)

Declare Scope literpc_scope.
Delimit Scope literpc_scope with rpc.
Create HintDb literpc.

#[global] Open Scope Z_scope.

(** Split every [match] and [if] of the goal and the context, keeping the
    equations, and discharge the contradictory branches. *)
Ltac cases := repeat case_match; simplify_eq/=.

(** Turn boolean comparisons into propositions [lia] understands. *)
Ltac bool_lia :=
  repeat match goal with
  | H : (_ <=? _) = true |- _ => apply Z.leb_le in H
  | H : (_ <=? _) = false |- _ => apply Z.leb_gt in H
  | H : (_ <? _) = true |- _ => apply Z.ltb_lt in H
  | H : (_ <? _) = false |- _ => apply Z.ltb_ge in H
  | H : (_ =? _) = true |- _ => apply Z.eqb_eq in H
  | H : (_ =? _) = false |- _ => apply Z.eqb_neq in H
  | H : bool_decide _ = true |- _ => apply bool_decide_eq_true in H
  | H : bool_decide _ = false |- _ => apply bool_decide_eq_false in H
  end; try lia.

(** ** Error values

    [result] is Rust's [Result]; [outcome] adds the possibility that the
    code panics (an [unwrap] of [None], an [expect], an explicit [panic!]). *)

Inductive result (E A : Type) : Type :=
| Ok (a : A)
| Err (e : E).
Arguments Ok {E A} a.
Arguments Err {E A} e.

Inductive outcome (A : Type) : Type :=
| Done (a : A)
| Panic.
Arguments Done {A} a.
Arguments Panic {A}.

#[export] Instance result_ret E : MRet (result E) := fun A a => Ok a.
#[export] Instance result_bind E : MBind (result E) :=
  fun A B f r => match r with Ok a => f a | Err e => Err e end.
#[export] Instance result_fmap E : FMap (result E) :=
  fun A B f r => match r with Ok a => Ok (f a) | Err e => Err e end.
#[export] Instance outcome_ret : MRet outcome := fun A a => Done a.
#[export] Instance outcome_bind : MBind outcome :=
  fun A B f r => match r with Done a => f a | Panic => Panic end.
#[export] Instance outcome_fmap : FMap outcome :=
  fun A B f r => match r with Done a => Done (f a) | Panic => Panic end.

#[export] Instance result_eq_dec `{EqDecision E, EqDecision A} :
  EqDecision (result E A).
Proof. solve_decision. Defined.
#[export] Instance outcome_eq_dec `{EqDecision A} : EqDecision (outcome A).
Proof. solve_decision. Defined.

Definition unwrap {A} (o : option A) : outcome A :=
  match o with Some a => Done a | None => Panic end.

Definition expect_ok {E A} (r : result E A) : outcome A :=
  match r with Ok a => Done a | Err _ => Panic end.

Definition is_ok {E A} (r : result E A) : bool :=
  match r with Ok _ => true | Err _ => false end.

(** ** Machine integers

    Unsigned integers are [Z] in their range.  The workspace sets no
    [overflow-checks], so a release build wraps; [checked_*] is what a build
    with checks computes ([None] where it panics). *)

Definition u8_size : Z := 256.
Definition u16_size : Z := 65536.
Definition u64_size : Z := 18446744073709551616.
Definition u64_max : Z := 18446744073709551615.
Definition i64_max : Z := 9223372036854775807.

Definition in_u8 (x : Z) : Prop := 0 <= x < u8_size.
Definition in_u64 (x : Z) : Prop := 0 <= x < u64_size.
Definition in_u16 (x : Z) : Prop := 0 <= x < u16_size.

Definition wrap_u8 (x : Z) : Z := x mod u8_size.
Definition wrap_u16 (x : Z) : Z := x mod u16_size.
Definition wrap_u64 (x : Z) : Z := x mod u64_size.

Definition checked_sub_u64 (a b : Z) : option Z :=
  if b <=? a then Some (a - b) else None.
Definition saturating_sub_u64 (a b : Z) : Z := Z.max 0 (a - b).
Definition saturating_add_u64 (a b : Z) : Z := Z.min u64_max (a + b).

Notation "a +64 b" := (wrap_u64 (a + b)) (at level 50, left associativity) : literpc_scope.
Notation "a -64 b" := (wrap_u64 (a - b)) (at level 50, left associativity) : literpc_scope.

Lemma wrap_u64_range x : in_u64 (wrap_u64 x).
Proof. apply Z.mod_pos_bound. unfold u64_size. lia. Qed.

Lemma wrap_u64_id x : in_u64 x -> wrap_u64 x = x.
Proof. intros. by apply Z.mod_small. Qed.

Lemma wrap_u64_neg x : - u64_size <= x < 0 -> wrap_u64 x = x + u64_size.
Proof.
  intros. unfold wrap_u64.
  rewrite <- (Z.mod_small (x + u64_size) u64_size) by (unfold u64_size in *; lia).
  by rewrite <- (Z_mod_plus_full x 1 u64_size).
Qed.

Lemma wrap_u8_id x : in_u8 x -> wrap_u8 x = x.
Proof. intros. by apply Z.mod_small. Qed.

Lemma wrap_u16_id x : in_u16 x -> wrap_u16 x = x.
Proof. intros. by apply Z.mod_small. Qed.

#[export] Hint Resolve wrap_u64_range : literpc.

(** ** State machines

    A task of the program is a loop that receives an event, updates its
    state and emits messages.  [step] is the body of the loop, [run] the
    loop over a finite sequence of events. *)

Section machine.
Context {S E O : Type} (step : S -> E -> S * list O).

Fixpoint run (s : S) (es : list E) : S * list O :=
  match es with
  | [] => (s, [])
  | e :: es' =>
      let '(s1, o1) := step s e in
      let '(s2, o2) := run s1 es' in
      (s2, o1 ++ o2)
  end.

Lemma run_app s es1 es2 :
  run s (es1 ++ es2) =
  ((run (run s es1).1 es2).1, (run s es1).2 ++ (run (run s es1).1 es2).2).
Proof.
  revert s. induction es1 as [|e es1 IH]; intros s; simpl.
  - by destruct (run s es2).
  - destruct (step s e) as [s1 o1]. rewrite IH.
    destruct (run s1 es1) as [s2 o2]; simpl. by rewrite app_assoc.
Qed.

Lemma run_invariant (I : S -> Prop) :
  (forall s e, I s -> I (step s e).1) ->
  forall es s, I s -> I (run s es).1.
Proof.
  intros Hstep es. induction es as [|e es IH]; intros s Hs; simpl; [done|].
  specialize (Hstep s e Hs). destruct (step s e) as [s1 o1]; simpl in *.
  specialize (IH s1 Hstep). by destruct (run s1 es).
Qed.

(** An invariant of the state together with the messages sent so far. *)
Lemma run_history (I : S -> list O -> Prop) :
  (forall s h e, I s h -> I (step s e).1 (h ++ (step s e).2)) ->
  forall es s h, I s h -> I (run s es).1 (h ++ (run s es).2).
Proof.
  intros Hstep es. induction es as [|e es IH]; intros s h Hs; simpl.
  - by rewrite app_nil_r.
  - specialize (Hstep s h e Hs). destruct (step s e) as [s1 o1]; simpl in *.
    specialize (IH s1 (h ++ o1) Hstep). destruct (run s1 es); simpl in *.
    by rewrite app_assoc.
Qed.

(** The same when the events are known to satisfy a predicate. *)
Lemma run_history_on (P : E -> Prop) (I : S -> list O -> Prop) :
  (forall s h e, P e -> I s h -> I (step s e).1 (h ++ (step s e).2)) ->
  forall es s h, Forall P es -> I s h -> I (run s es).1 (h ++ (run s es).2).
Proof.
  intros Hstep es s h Hes. revert s h. induction Hes as [|e es He Hes IH]; intros s h Hs; simpl.
  - by rewrite app_nil_r.
  - specialize (Hstep s h e He Hs). destruct (step s e) as [s1 o1]; simpl in *.
    specialize (IH s1 (h ++ o1) Hstep). destruct (run s1 es); simpl in *.
    by rewrite app_assoc.
Qed.
End machine.

(** The same for a task whose body may panic, which ends the task. *)
Section panicking_machine.
Context {S E O : Type} (step : S -> E -> outcome (S * list O)).

Fixpoint orun (s : S) (es : list E) : outcome (S * list O) :=
  match es with
  | [] => Done (s, [])
  | e :: es' => '(s1, o1) ← step s e; '(s2, o2) ← orun s1 es'; mret (s2, o1 ++ o2)
  end.

(** A task whose body is total under an invariant, on the events of interest,
    is total, and relates its first state to its last by any preorder each
    step respects. *)
Lemma orun_total (P : E -> Prop) (I : S -> Prop) (R : relation S) `{!PreOrder R} :
  (forall s e, P e -> I s -> exists s' o, step s e = Done (s', o) /\ I s' /\ R s s') ->
  forall es s, Forall P es -> I s -> exists s' o, orun s es = Done (s', o) /\ I s' /\ R s s'.
Proof.
  intros Hstep es s Hes. revert s. induction Hes as [|e es He Hes IH]; intros s Hs; simpl; [by exists s, []|].
  destruct (Hstep s e He Hs) as (s1 & o1 & -> & H1 & R1). simpl.
  destruct (IH s1 H1) as (s2 & o2 & -> & H2 & R2). simpl.
  exists s2, (o1 ++ o2). split_and!; [done..|]. by transitivity s1.
Qed.

Lemma orun_app s es1 es2 :
  orun s (es1 ++ es2) =
  '(s1, o1) ← orun s es1; '(s2, o2) ← orun s1 es2; mret (s2, o1 ++ o2).
Proof.
  revert s. induction es1 as [|e es1 IH]; intros s; simpl.
  - destruct (orun s es2) as [[]|]; done.
  - destruct (step s e) as [[s1 o1]|]; simpl; [|done]. rewrite IH.
    destruct (orun s1 es1) as [[s2 o2]|]; simpl; [|done].
    destruct (orun s2 es2) as [[s3 o3]|]; simpl; [|done]. by rewrite app_assoc.
Qed.

(** The messages sent so far, under an invariant of state and history. *)
Lemma orun_history (P : E -> Prop) (I : S -> list O -> Prop) :
  (forall s h e, P e -> I s h -> exists s' o, step s e = Done (s', o) /\ I s' (h ++ o)) ->
  forall es s h, Forall P es -> I s h -> exists s' o, orun s es = Done (s', o) /\ I s' (h ++ o).
Proof.
  intros Hstep es s h Hes. revert s h. induction Hes as [|e es He Hes IH]; intros s h Hs; simpl.
  - exists s, []. by rewrite app_nil_r.
  - destruct (Hstep s h e He Hs) as (s1 & o1 & -> & H1). simpl.
    destruct (IH s1 (h ++ o1) H1) as (s2 & o2 & -> & H2). simpl.
    exists s2, (o1 ++ o2). by rewrite app_assoc.
Qed.
Lemma orun_cons s e es s1 o1 s2 o2 :
  step s e = Done (s1, o1) -> orun s1 es = Done (s2, o2) -> orun s (e :: es) = Done (s2, o1 ++ o2).
Proof. intros H1 H2. simpl. rewrite H1. simpl. by rewrite H2. Qed.

(** A message was sent by one of the events. *)
Lemma orun_elem es s s' out x :
  orun s es = Done (s', out) -> x ∈ out ->
  exists es1 e es2 s1 o1 s2 o2, es = es1 ++ e :: es2 /\ orun s es1 = Done (s1, o1) /\
    step s1 e = Done (s2, o2) /\ x ∈ o2.
Proof.
  revert s out. induction es as [|e es IH]; intros s out; simpl; [intros [= <- <-]; by intros ?%not_elem_of_nil|].
  destruct (step s e) as [[s1 o1]|] eqn:He; simpl; [|done].
  destruct (orun s1 es) as [[s2 o2]|] eqn:Hr; simpl; [|done]. intros [= <- <-] [Hx|Hx]%elem_of_app.
  - exists [], e, es, s, [], s1, o1. done.
  - destruct (IH s1 o2 Hr Hx) as (es1 & e' & es2 & s3 & o3 & s4 & o4 & -> & Hr1 & Hs1 & Hx1).
    exists (e :: es1), e', es2, s3, (o1 ++ o3), s4, o4. split; [done|]. simpl. by rewrite He; simpl; rewrite Hr1.
Qed.
End panicking_machine.

(** A message sent on a tokio broadcast channel, as a receiver sees its queue:
    one that falls behind finds the oldest messages gone. *)
Definition bc_push {A} (capacity : nat) (q : list A) (x : A) : list A :=
  drop (length q + 1 - capacity) (q ++ [x]).

Lemma bc_push_sub {A} capacity (q : list A) x : bc_push capacity q x ⊆+ q ++ [x].
Proof. apply sublist_submseteq, sublist_drop. Qed.

Lemma bc_push_elem {A} capacity (q : list A) x y : y ∈ bc_push capacity q x -> y ∈ q \/ y = x.
Proof.
  intros Hy. pose proof (elem_of_submseteq _ _ _ Hy (bc_push_sub capacity q x)) as H.
  by rewrite elem_of_app, list_elem_of_singleton in H.
Qed.

(** What such a send makes a receiver lose. *)
Definition bc_lost {A} (capacity : nat) (q : list A) (x : A) : list A :=
  take (length q + 1 - capacity) (q ++ [x]).

Lemma bc_push_split {A} capacity (q : list A) x : bc_lost capacity q x ++ bc_push capacity q x = q ++ [x].
Proof. apply take_drop. Qed.

(** What is left of a list, as a multiset, without the elements of another. *)
Fixpoint remove_one {A} `{EqDecision A} (x : A) (l : list A) : list A :=
  match l with
  | [] => []
  | y :: l' => if decide (x = y) then l' else y :: remove_one x l'
  end.
Definition list_minus {A} `{EqDecision A} (l k : list A) : list A := foldl (fun l x => remove_one x l) l k.

Lemma remove_one_perm {A} `{EqDecision A} (x : A) l : x ∈ l -> x :: remove_one x l ≡ₚ l.
Proof.
  induction l as [|y l IH]; [by intros ?%not_elem_of_nil|]. cbn [remove_one]. case_decide as He; [by subst|].
  intros [?|Hx]%elem_of_cons; [done|]. rewrite (Permutation_swap y x). by rewrite (IH Hx).
Qed.

Lemma list_minus_perm {A} `{EqDecision A} (l k : list A) : k ⊆+ l -> k ++ list_minus l k ≡ₚ l.
Proof.
  revert l. induction k as [|x k IH]; intros l Hk; [done|]. cbn [app list_minus foldl].
  assert (x ∈ l) as Hx by (eapply elem_of_submseteq; [|exact Hk]; apply elem_of_cons; auto).
  pose proof (remove_one_perm x l Hx) as Hp. transitivity (x :: remove_one x l); [|done]. apply perm_skip, IH.
  apply submseteq_cons_l in Hk as (l' & Hl & Hs). assert (x :: remove_one x l ≡ₚ x :: l') as Hc by by rewrite Hp.
  apply Permutation_cons_inv in Hc. by rewrite Hc.
Qed.

(** Rust's [slice::chunks]: consecutive pieces of [n] elements, the last one
    possibly shorter; it panics when [n] is zero. *)
Fixpoint chunks_fuel {A} (fuel n : nat) (l : list A) : list (list A) :=
  match fuel with
  | 0%nat => []
  | Datatypes.S fuel' =>
      match l with [] => [] | _ => take n l :: chunks_fuel fuel' n (drop n l) end
  end.

Definition chunks {A} (n : nat) (l : list A) : outcome (list (list A)) :=
  if decide (n = 0%nat) then Panic else Done (chunks_fuel (length l) n l).

(** ** List lemmas shared by the components *)

Lemma chunks_fuel_concat {A} fuel n (l : list A) :
  n <> 0%nat -> (length l <= fuel)%nat -> concat (chunks_fuel fuel n l) = l.
Proof.
  intros Hn. revert l. induction fuel as [|fuel IH]; intros [|x l] Hl; simpl in *; try done; [lia|].
  rewrite IH by (rewrite length_drop; simpl; lia). by rewrite take_drop.
Qed.

Lemma chunks_concat {A} n (l : list A) ls : chunks n l = Done ls -> concat ls = l.
Proof.
  unfold chunks. case_decide; intros; simplify_eq. by apply chunks_fuel_concat.
Qed.

Lemma chunks_elem {A} n (l : list A) ls x :
  chunks n l = Done ls -> x ∈ l -> exists b, b ∈ ls /\ x ∈ b.
Proof.
  intros <-%chunks_concat. rewrite list_elem_of_In, in_concat.
  intros (b & Hb & Hx). exists b. by rewrite !list_elem_of_In.
Qed.

Lemma Forall_filter_sub {A} (P : A -> Prop) (Q : A -> Prop) `{!forall x, Decision (Q x)} l :
  Forall P l -> Forall P (filter Q l).
Proof. rewrite !Forall_forall. intros Hl x [_ Hx]%list_elem_of_filter. auto. Qed.

Lemma foldl_invariant {A B} (f : A -> B -> A) (I : A -> Prop) l a :
  (forall a b, b ∈ l -> I a -> I (f a b)) -> I a -> I (foldl f a l).
Proof.
  revert a. induction l as [|b l IH]; intros a Hf Ha; simpl; [done|].
  apply IH; [|apply Hf; [left|done]].
  intros ????. by apply Hf; [right|].
Qed.

Lemma Forall_sublist {A} (P : A -> Prop) l1 l2 :
  l1 `sublist_of` l2 -> Forall P l2 -> Forall P l1.
Proof. induction 1; rewrite ?Forall_cons; naive_solver. Qed.

Lemma StronglySorted_sublist {A} (R : relation A) l1 l2 :
  l1 `sublist_of` l2 -> StronglySorted R l2 -> StronglySorted R l1.
Proof.
  induction 1 as [|x l1 l2 Hs IH|x l1 l2 Hs IH]; intros Hl; [done| |].
  - inversion Hl; subst. constructor; [auto|]. by eapply Forall_sublist.
  - inversion Hl; subst. auto.
Qed.

Lemma Forall_fst {A B} (P : A -> Prop) (l : list (A * B)) :
  Forall P l.*1 <-> Forall (fun e => P e.1) l.
Proof. by rewrite Forall_fmap. Qed.

Lemma NoDup_fmap_inj_on {A B} (f : A -> B) (l : list A) x y :
  NoDup (f <$> l) -> x ∈ l -> y ∈ l -> f x = f y -> x = y.
Proof.
  induction l as [|z l IH]; simpl; [by intros _ ?%not_elem_of_nil|].
  rewrite NoDup_cons. intros [Hz Hn] [->|Hx]%elem_of_cons [->|Hy]%elem_of_cons Hf;
    [done|exfalso..|auto]; apply Hz; apply list_elem_of_fmap; eauto.
Qed.

Lemma list_filter_ext_in {A} (P Q : A -> Prop) `{!forall x, Decision (P x), !forall x, Decision (Q x)}
    (l : list A) :
  (forall x, x ∈ l -> P x <-> Q x) -> filter P l = filter Q l.
Proof.
  induction l as [|x l IH]; intros Hpq; [done|]. rewrite !filter_cons.
  rewrite IH by (intros; apply Hpq; by right). destruct (Hpq x ltac:(left)).
  do 2 case_decide; naive_solver.
Qed.

Lemma NoDup_omap_key {A B} (f : A -> option B) (g : B -> A) l :
  (forall x y, f x = Some y -> g y = x) -> NoDup l -> NoDup (g <$> omap f l).
Proof.
  intros Hf. induction 1 as [|x l Hx Hl IH]; simpl; [constructor|].
  destruct (f x) as [y|] eqn:E; simpl; [|done]. constructor; [|done].
  rewrite (Hf _ _ E). intros (z & Hz & (x' & Hin & Hx')%list_elem_of_omap)%list_elem_of_fmap.
  apply Hx. rewrite Hz. by rewrite (Hf _ _ Hx').
Qed.

(** ** Sums of integers *)

Definition list_sum (l : list Z) : Z := foldr Z.add 0 l.

Lemma list_sum_cons x l : list_sum (x :: l) = x + list_sum l.
Proof. done. Qed.

Lemma list_sum_nonneg l : Forall (fun y => 0 <= y) l -> 0 <= list_sum l.
Proof. induction 1; simpl; lia. Qed.

Lemma list_sum_ge l x : Forall (fun y => 0 <= y) l -> x ∈ l -> x <= list_sum l.
Proof.
  induction 1 as [|y l Hy Hl IH]; [by intros ?%not_elem_of_nil|]. simpl.
  pose proof (list_sum_nonneg l Hl).
  intros [->|Hx]%elem_of_cons; [lia|]. specialize (IH Hx). lia.
Qed.

Lemma list_sum_perm l1 l2 : l1 ≡ₚ l2 -> list_sum l1 = list_sum l2.
Proof. unfold list_sum. induction 1; simpl; lia. Qed.

Lemma list_sum_insert (l : list Z) i n m :
  l !! i = Some n -> list_sum (<[i := m]> l) = list_sum l - n + m.
Proof.
  revert i. induction l as [|x l IH]; intros [|i] H; simplify_eq/=; [lia|]. rewrite (IH i) by done. lia.
Qed.

Lemma list_sum_app l1 l2 : list_sum (l1 ++ l2) = list_sum l1 + list_sum l2.
Proof. induction l1; simpl; lia. Qed.

Lemma list_sum_replicate_0 n : list_sum (replicate n 0) = 0.
Proof. induction n; simpl; lia. Qed.
