(* ===== verification/BTreeMap.v ===== *)
(** * Ordered maps and sets

    Rust's [std::collections::BTreeMap] and [BTreeSet] with [u64] keys, as the
    list of their entries in strictly increasing key order.  The operations
    the sources use ([get], [insert], [remove], [first_key_value],
    [last_key_value], [pop_first], [retain]) are executable; [bt_model]
    refines them to stdpp's finite maps. *)

From S2P Require Import Prelude.

(** ** Operations *)

Section btree.
Context {V : Type}.
Implicit Types (m : list (Z * V)) (k : Z) (v : V).

Fixpoint bt_get (k : Z) (m : list (Z * V)) : option V :=
  match m with
  | [] => None
  | (k', v) :: m' => if k =? k' then Some v else bt_get k m'
  end.

Fixpoint bt_insert (k : Z) (v : V) (m : list (Z * V)) : list (Z * V) :=
  match m with
  | [] => [(k, v)]
  | (k', v') :: m' =>
      if k <? k' then (k, v) :: m
      else if k =? k' then (k, v) :: m'
      else (k', v') :: bt_insert k v m'
  end.

Fixpoint bt_remove (k : Z) (m : list (Z * V)) : list (Z * V) :=
  match m with
  | [] => []
  | (k', v') :: m' => if k =? k' then m' else (k', v') :: bt_remove k m'
  end.

Definition bt_first (m : list (Z * V)) : option (Z * V) := head m.
Definition bt_last (m : list (Z * V)) : option (Z * V) := last m.
Definition bt_pop_first (m : list (Z * V)) : list (Z * V) := tail m.
Definition bt_contains (k : Z) (m : list (Z * V)) : bool := bool_decide (is_Some (bt_get k m)).

(** Well-formedness: keys strictly increase. *)
Definition bt_wf (m : list (Z * V)) : Prop := StronglySorted Z.lt m.*1.

(** The abstract map. *)
Definition bt_model (m : list (Z * V)) : gmap Z V := list_to_map m.

(** ** Well-formedness is preserved *)

Lemma bt_wf_nil : bt_wf [].
Proof. constructor. Qed.

Lemma bt_wf_cons k v m : bt_wf ((k, v) :: m) <-> bt_wf m /\ Forall (Z.lt k) m.*1.
Proof.
  unfold bt_wf. simpl. split.
  - intros H. inversion H; subst. done.
  - intros [??]. by constructor.
Qed.

Lemma bt_insert_keys k v m k' :
  k' ∈ (bt_insert k v m).*1 <-> k' = k \/ k' ∈ m.*1.
Proof.
  induction m as [|[k0 v0] m IH]; simpl; [set_solver|].
  destruct (k <? k0) eqn:?; simpl; [set_solver|].
  destruct (k =? k0) eqn:?; simpl; bool_lia; subst; set_solver.
Qed.

Lemma bt_wf_insert k v m : bt_wf m -> bt_wf (bt_insert k v m).
Proof.
  induction m as [|[k0 v0] m IH]; simpl; intros Hwf.
  - apply bt_wf_cons. split; [apply bt_wf_nil|constructor].
  - pose proof (proj1 (bt_wf_cons _ _ _) Hwf) as [Hm Hall].
    destruct (k <? k0) eqn:?; [|destruct (k =? k0) eqn:?]; bool_lia.
    + apply bt_wf_cons. split; [done|]. simpl. constructor; [lia|].
      eapply Forall_impl; [done|]. simpl. lia.
    + subst. by apply bt_wf_cons.
    + apply bt_wf_cons. split; [auto|]. apply Forall_forall. intros k'.
      rewrite bt_insert_keys. rewrite Forall_forall in Hall. intros [->|?]; [lia|auto].
Qed.

Lemma bt_remove_sublist k m : bt_remove k m `sublist_of` m.
Proof.
  induction m as [|[k0 v0] m IH]; simpl; [done|].
  destruct (k =? k0); by constructor.
Qed.

Lemma bt_wf_sublist m1 m2 : m1 `sublist_of` m2 -> bt_wf m2 -> bt_wf m1.
Proof.
  intros Hs. apply StronglySorted_sublist. induction Hs; simpl; by constructor.
Qed.

Lemma bt_wf_remove k m : bt_wf m -> bt_wf (bt_remove k m).
Proof. apply bt_wf_sublist, bt_remove_sublist. Qed.

Lemma bt_wf_pop_first m : bt_wf m -> bt_wf (bt_pop_first m).
Proof. apply bt_wf_sublist. destruct m; simpl; [done|]. by constructor. Qed.

Lemma bt_wf_filter (P : Z * V -> Prop) `{!forall x, Decision (P x)} m :
  bt_wf m -> bt_wf (filter P m).
Proof. apply bt_wf_sublist, sublist_filter. Qed.

(** ** Refinement to finite maps *)

Lemma bt_wf_NoDup m : bt_wf m -> NoDup m.*1.
Proof.
  unfold bt_wf. induction (m.*1) as [|k l IH]; intros H; [constructor|].
  inversion H; subst. constructor; [|auto].
  intros Hin. rewrite Forall_forall in H3. specialize (H3 _ Hin). lia.
Qed.

Lemma bt_get_model k m : bt_get k m = bt_model m !! k.
Proof.
  unfold bt_model. induction m as [|[k0 v0] m IH]; simpl; [by rewrite lookup_empty|].
  destruct (k =? k0) eqn:?; bool_lia; subst.
  - by rewrite lookup_insert_eq.
  - by rewrite lookup_insert_ne by congruence.
Qed.

Lemma bt_model_insert k v m : bt_model (bt_insert k v m) = <[k:=v]> (bt_model m).
Proof.
  unfold bt_model. induction m as [|[k0 v0] m IH]; simpl; [done|].
  destruct (k <? k0) eqn:?; [done|].
  destruct (k =? k0) eqn:?; bool_lia; subst; simpl.
  - by rewrite insert_insert_eq.
  - rewrite IH. by rewrite insert_insert_ne by congruence.
Qed.

Lemma bt_model_remove k m : bt_wf m -> bt_model (bt_remove k m) = delete k (bt_model m).
Proof.
  unfold bt_model. induction m as [|[k0 v0] m IH]; simpl; intros Hwf.
  - by rewrite delete_empty.
  - apply bt_wf_cons in Hwf as [Hm Hall].
    destruct (k =? k0) eqn:?; bool_lia; subst; simpl.
    + rewrite delete_insert_id; [done|].
      apply not_elem_of_list_to_map_1. intros Hin.
      rewrite Forall_forall in Hall. specialize (Hall _ Hin). lia.
    + rewrite delete_insert_ne by congruence. by rewrite IH.
Qed.

Lemma bt_get_insert_eq k v m : bt_get k (bt_insert k v m) = Some v.
Proof. by rewrite bt_get_model, bt_model_insert, lookup_insert_eq. Qed.

Lemma bt_get_insert_ne k k' v m : k <> k' -> bt_get k' (bt_insert k v m) = bt_get k' m.
Proof. intros. by rewrite !bt_get_model, bt_model_insert, lookup_insert_ne. Qed.

Lemma bt_get_remove_eq k m : bt_wf m -> bt_get k (bt_remove k m) = None.
Proof. intros. by rewrite bt_get_model, bt_model_remove, lookup_delete_eq. Qed.

Lemma bt_get_remove_ne k k' m : bt_wf m -> k <> k' -> bt_get k' (bt_remove k m) = bt_get k' m.
Proof. intros. by rewrite !bt_get_model, bt_model_remove, lookup_delete_ne. Qed.

Lemma bt_get_elem k v m : bt_wf m -> bt_get k m = Some v <-> (k, v) ∈ m.
Proof.
  intros Hwf. rewrite bt_get_model. unfold bt_model.
  rewrite <- elem_of_list_to_map by (by apply bt_wf_NoDup). done.
Qed.

Lemma bt_get_elem_1 k v m : bt_get k m = Some v -> (k, v) ∈ m.
Proof. rewrite bt_get_model. apply elem_of_list_to_map_2. Qed.

(** The entry found by [bt_get] splits the list of entries. *)
Lemma bt_get_split k v m :
  bt_wf m -> bt_get k m = Some v ->
  exists m1 m2, m = m1 ++ (k, v) :: m2 /\ Forall (fun e => e.1 < k) m1 /\ Forall (fun e => k < e.1) m2.
Proof.
  induction m as [|[k0 v0] m IH]; simpl; intros Hwf Hg; [done|].
  apply bt_wf_cons in Hwf as [Hm Hall].
  destruct (k =? k0) eqn:?; bool_lia; simplify_eq.
  - exists [], m. split_and!; [done|by apply Forall_nil|by apply Forall_fst in Hall].
  - destruct (IH Hm Hg) as (m1 & m2 & -> & H1 & H2).
    exists ((k0, v0) :: m1), m2. split_and!; [done| |done].
    constructor; [|done]. simpl. rewrite Forall_forall in Hall. apply Hall.
    rewrite fmap_app. set_solver.
Qed.

(** [bt_insert] acts at one place: on a bound key it replaces the entry, on a
    fresh key it splits the entries into the smaller and the larger keys. *)
Lemma bt_insert_split_present k v v' m1 m2 :
  Forall (fun e => e.1 < k) m1 ->
  bt_insert k v (m1 ++ (k, v') :: m2) = m1 ++ (k, v) :: m2.
Proof.
  induction 1 as [|[k0 v0] m1 Hk Hm1 IH]; simpl in *.
  - by rewrite Z.ltb_irrefl, Z.eqb_refl.
  - destruct (k <? k0) eqn:?; bool_lia. destruct (k =? k0) eqn:?; bool_lia. by rewrite IH.
Qed.

Lemma bt_insert_split_fresh k v m :
  bt_wf m -> bt_get k m = None ->
  exists m1 m2, m = m1 ++ m2 /\ bt_insert k v m = m1 ++ (k, v) :: m2 /\
    Forall (fun e => e.1 < k) m1 /\ Forall (fun e => k < e.1) m2.
Proof.
  induction m as [|[k0 v0] m IH]; simpl; intros Hwf Hg.
  - exists [], []. done.
  - apply bt_wf_cons in Hwf as [Hm Hall].
    destruct (k =? k0) eqn:?; [done|]. bool_lia.
    destruct (k <? k0) eqn:?; bool_lia.
    + exists [], ((k0, v0) :: m). split_and!; [done..|].
      constructor; [done|]. apply Forall_fst in Hall.
      eapply Forall_impl; [done|]. simpl. lia.
    + destruct (IH Hm Hg) as (m1 & m2 & -> & -> & H1 & H2).
      exists ((k0, v0) :: m1), m2. split_and!; [done..| |done]. constructor; simpl; [lia|done].
Qed.

(** The first entry has the least key, the last entry the greatest. *)
Lemma bt_first_least k v m k' :
  bt_wf m -> bt_first m = Some (k, v) -> k' ∈ m.*1 -> k <= k'.
Proof.
  destruct m as [|[k0 v0] m]; simpl; intros Hwf ?; simplify_eq.
  apply bt_wf_cons in Hwf as [_ Hall]. rewrite Forall_forall in Hall.
  intros [->|Hin]%elem_of_cons; [lia|]. specialize (Hall _ Hin). lia.
Qed.

Lemma bt_last_snoc k v m : bt_last m = Some (k, v) -> exists m', m = m' ++ [(k, v)].
Proof. unfold bt_last. apply last_Some. Qed.

Lemma bt_last_greatest k v m k' :
  bt_wf m -> bt_last m = Some (k, v) -> k' ∈ m.*1 -> k' <= k.
Proof.
  intros Hwf (m' & ->)%bt_last_snoc. induction m' as [|[k0 v0] m' IH]; simpl in *.
  - intros ->%list_elem_of_singleton. lia.
  - apply bt_wf_cons in Hwf as [Hm Hall]. intros [->|Hin]%elem_of_cons.
    + rewrite Forall_forall in Hall. specialize (Hall k).
      rewrite fmap_app in Hall. set_solver by lia.
    + auto.
Qed.

End btree.

(** Two well-formed maps with the same bindings are the same. *)
Lemma bt_wf_ext {V} (m1 m2 : list (Z * V)) :
  bt_wf m1 -> bt_wf m2 -> (forall k, bt_get k m1 = bt_get k m2) -> m1 = m2.
Proof.
  revert m2. induction m1 as [|[k1 v1] m1 IH]; intros [|[k2 v2] m2] H1 H2 Hk; [done|..].
  - specialize (Hk k2). simpl in Hk. by rewrite Z.eqb_refl in Hk.
  - specialize (Hk k1). simpl in Hk. by rewrite Z.eqb_refl in Hk.
  - apply bt_wf_cons in H1 as [H1 F1], H2 as [H2 F2].
    assert (k1 = k2) as ->.
    { pose proof (Hk k1) as A. pose proof (Hk k2) as B. cbn [bt_get] in A, B. rewrite Z.eqb_refl in A, B.
      destruct (k1 =? k2) eqn:E1; bool_lia. destruct (k2 =? k1) eqn:E2; bool_lia.
      symmetry in A. apply bt_get_elem_1, (list_elem_of_fmap_2 fst) in A.
      apply bt_get_elem_1, (list_elem_of_fmap_2 fst) in B.
      rewrite Forall_forall in F1, F2. specialize (F1 _ B). specialize (F2 _ A). simpl in *. lia. }
    pose proof (Hk k2) as A. cbn [bt_get] in A. rewrite Z.eqb_refl in A. simplify_eq. f_equal.
    apply IH; [done..|]. intros k. specialize (Hk k). cbn [bt_get] in Hk. destruct (k =? k2) eqn:E; bool_lia; [|done].
    subst k. assert (forall m, Forall (Z.lt k2) m.*1 -> @bt_get V k2 m = None) as Hnone.
    { clear. intros m. induction m as [|[k v] m IH]; simpl; [done|]. intros [? ?]%Forall_cons.
      destruct (k2 =? k) eqn:E; bool_lia. by apply IH. }
    by rewrite !Hnone.
Qed.

#[export] Hint Resolve bt_wf_nil bt_wf_insert bt_wf_remove bt_wf_pop_first bt_wf_filter : literpc.

(** ** Sets of slots *)

Definition bset : Type := list (Z * unit).
Definition bs_insert (k : Z) (s : bset) : bset := bt_insert k tt s.
Definition bs_contains (k : Z) (s : bset) : bool := bt_contains k s.
Definition bs_remove (k : Z) (s : bset) : bset := bt_remove k s.
Definition bs_first (s : bset) : option Z := fst <$> bt_first s.
