(* ===== verification/Types.v ===== *)
(** * Data shared by the components

    The structures of core/src/structures and core/src/commitment_utils.rs.
    Keys, hashes and signatures are fixed-width byte strings that the program
    only compares and copies; they are the integers those bytes spell.  Values
    of foreign types that the program only copies ([TransactionError],
    [VersionedMessage], [Reward]) are their serialised text. *)

From S2P Require Import Prelude.

Notation Signature := Z (only parsing).
Notation Pubkey := Z (only parsing).
Notation Hash := Z (only parsing).
Notation Slot := Z (only parsing).

(** ** Commitment levels *)

(** The Solana SDK's [CommitmentLevel] and the [CommitmentConfig] around it. *)
Inductive CommitmentLevel := ClProcessed | ClConfirmed | ClFinalized.

Record CommitmentConfig := mkCommitmentConfig { cc_commitment : CommitmentLevel }.

Definition cc_processed := mkCommitmentConfig ClProcessed.
Definition cc_confirmed := mkCommitmentConfig ClConfirmed.
Definition cc_finalized := mkCommitmentConfig ClFinalized.

(** [CommitmentConfig::default()] of the SDK is finalized. *)
Definition cc_default := cc_finalized.

#[export] Instance CommitmentLevel_eq_dec : EqDecision CommitmentLevel.
Proof. solve_decision. Defined.
#[export] Instance CommitmentConfig_eq_dec : EqDecision CommitmentConfig.
Proof. solve_decision. Defined.

Definition is_finalized (c : CommitmentConfig) : bool :=
  match cc_commitment c with ClFinalized => true | _ => false end.
Definition is_confirmed (c : CommitmentConfig) : bool :=
  match cc_commitment c with ClConfirmed => true | _ => false end.
Definition is_processed (c : CommitmentConfig) : bool :=
  match cc_commitment c with ClProcessed => true | _ => false end.

(** [Commitment], core/src/commitment_utils.rs:3-9. *)
Inductive Commitment := Processed | Confirmed | Finalized.

#[export] Instance Commitment_eq_dec : EqDecision Commitment.
Proof. solve_decision. Defined.

#[export] Instance Commitment_countable : Countable Commitment.
Proof.
  refine (inj_countable'
    (fun c => match c with Processed => 0%nat | Confirmed => 1%nat | Finalized => 2%nat end)
    (fun n => match n with 0%nat => Processed | 1%nat => Confirmed | _ => Finalized end) _).
  by intros [].
Defined.

(** [Commitment::from], core/src/commitment_utils.rs:11-43. *)
Definition commitment_of_level (l : CommitmentLevel) : Commitment :=
  match l with
  | ClFinalized => Finalized
  | ClConfirmed => Confirmed
  | ClProcessed => Processed
  end.

Definition commitment_of_config (c : CommitmentConfig) : Commitment :=
  commitment_of_level (cc_commitment c).

(** [Commitment::into_commitment_level], core/src/commitment_utils.rs:46-52. *)
Definition into_commitment_level (c : Commitment) : CommitmentLevel :=
  match c with
  | Confirmed => ClConfirmed
  | Processed => ClProcessed
  | Finalized => ClFinalized
  end.

(** [Commitment::into_commiment_config], core/src/commitment_utils.rs:54-58. *)
Definition into_commiment_config (c : Commitment) : CommitmentConfig :=
  mkCommitmentConfig (into_commitment_level c).

(** The derived [Ord] follows the discriminants. *)
Definition commitment_rank (c : Commitment) : Z :=
  match c with Processed => 0 | Confirmed => 1 | Finalized => 2 end.

(** ** Blocks *)

(** [BlockInfo], core/src/structures/block_info.rs:4-12. *)
Record BlockInfo := mkBlockInfo {
  bi_slot : Slot;
  bi_parent : Slot;
  bi_block_height : Z;
  bi_blockhash : Hash;
  bi_commitment_config : CommitmentConfig;
  bi_block_time : Z;
}.

(** The SDK's [MessageAddressTableLookup]. *)
Record MessageAddressTableLookup := mkLookup {
  lut_account_key : Pubkey;
  lut_writable_indexes : list Z;
  lut_readonly_indexes : list Z;
}.

(** *** The SDK's transactions *)

Record CompiledInstruction := mkInstruction {
  ix_program_id_index : Z;
  ix_accounts : list Z;
  ix_data : list Z;
}.

Record MessageHeader := mkMessageHeader {
  mh_num_required_signatures : Z;
  mh_num_readonly_signed_accounts : Z;
  mh_num_readonly_unsigned_accounts : Z;
}.

(** [VersionedMessage]: a legacy message has no table lookups. *)
Record VersionedMessage := mkVersionedMessage {
  vm_header : MessageHeader;
  vm_account_keys : list Pubkey;
  vm_recent_blockhash : Hash;
  vm_instructions : list CompiledInstruction;
  vm_address_table_lookups : option (list MessageAddressTableLookup);
}.

Inductive ComputeBudgetInstruction :=
| SetComputeUnitLimit (limit : Z)
| SetComputeUnitPrice (price : Z)
| OtherBudgetInstruction.

(** A decoded transaction: its signatures and its message. *)
Record VersionedTransaction := mkVersionedTransaction {
  vt_signatures : list Signature;
  vt_message : VersionedMessage;
}.

(** [CompiledInstruction::program_id] indexes the static keys. *)
Definition program_id (keys : list Pubkey) (ix : CompiledInstruction) : outcome Pubkey :=
  unwrap (keys !! Z.to_nat (ix_program_id_index ix)).

(** [TransactionInfo], core/src/structures/produced_block.rs:13-26. *)
Record TransactionInfo := mkTransactionInfo {
  ti_signature : Signature;
  ti_is_vote : bool;
  ti_err : option string;
  ti_cu_requested : option Z;
  ti_prioritization_fees : option Z;
  ti_cu_consumed : option Z;
  ti_recent_blockhash : Hash;
  ti_message : string;
  ti_writable_accounts : list Pubkey;
  ti_readable_accounts : list Pubkey;
  ti_address_lookup_tables : list MessageAddressTableLookup;
}.

(** [ProducedBlockInner], core/src/structures/produced_block.rs:63-73. *)
Record ProducedBlockInner := mkProducedBlockInner {
  pb_transactions : list TransactionInfo;
  pb_leader_id : option string;
  pb_blockhash : Hash;
  pb_block_height : Z;
  pb_slot : Slot;
  pb_parent_slot : Slot;
  pb_block_time : Z;
  pb_previous_blockhash : Hash;
  pb_rewards : option (list string);
}.

(** [ProducedBlock], core/src/structures/produced_block.rs:28-42. *)
Record ProducedBlock := mkProducedBlock {
  pb_inner : ProducedBlockInner;
  pb_commitment_config : CommitmentConfig;
}.

(** [ProducedBlock::to_confirmed_block], core/src/structures/produced_block.rs:76-82. *)
Definition to_confirmed_block (b : ProducedBlock) : ProducedBlock :=
  mkProducedBlock (pb_inner b) cc_confirmed.

(** [ProducedBlock::to_finalized_block], core/src/structures/produced_block.rs:84-90. *)
Definition to_finalized_block (b : ProducedBlock) : ProducedBlock :=
  mkProducedBlock (pb_inner b) cc_finalized.

(** [SlotNotification], core/src/structures/slot_notification.rs:7-11. *)
Record SlotNotification := mkSlotNotification {
  processed_slot : Slot;
  estimated_processed_slot : Slot;
}.

(** [SentTransactionInfo], core/src/structures/transaction_sent_info.rs:6-15. *)
Record SentTransactionInfo := mkSentTransactionInfo {
  si_signature : Signature;
  si_slot : Slot;
  si_transaction : list Z;
  si_last_valid_block_height : Z;
  si_prioritization_fee : Z;
}.

#[export] Instance SentTransactionInfo_eq_dec : EqDecision SentTransactionInfo.
Proof. solve_decision. Defined.

(** ** Lemmas *)

Lemma commitment_roundtrip c : commitment_of_config (into_commiment_config c) = c.
Proof. by destruct c. Qed.

Lemma commitment_config_roundtrip c : into_commiment_config (commitment_of_config c) = c.
Proof. by destruct c as [[]]. Qed.

#[export] Instance commitment_of_config_inj : Inj (=) (=) commitment_of_config.
Proof. intros c1 c2 H. by rewrite <- (commitment_config_roundtrip c1), H, commitment_config_roundtrip. Qed.
