(* ===== verification/PrioHeap.v ===== *)
(** * The prioritization fee heap

    core/src/structures/prioritization_fee_heap.rs: the bounded queue the
    transaction replayer and sender draw from.  Each method holds the mutex
    for its whole body, so it is one atomic operation on the state.

    [heap_txs] lists the queued transactions in the order [pop] returns them;
    the [pq_*] functions are the reference queue on that list, and the
    theorems show that the two-index structure of the code (a map of deques
    plus a set of signatures) implements it. *)

From S2P Require Import Prelude BTreeMap Types.

(** ** State and operations *)

(** [PrioritizationFeesHeap], core/src/structures/prioritization_fee_heap.rs:11-21. *)
Record PrioritizationFeesHeap := mkHeap {
  heap_map : list (Z * list SentTransactionInfo);
  heap_signatures : gset Signature;
  max_number_of_transactions : Z;
}.

(** [PrioritizationFeesHeap::new], core/src/structures/prioritization_fee_heap.rs:24-29. *)
Definition heap_new (max : Z) : PrioritizationFeesHeap := mkHeap [] ∅ max.

(** An entry of the map after its front element was taken: [entry.remove()]
    when the deque became empty. *)
Definition heap_put_back (k : Z) (q : list SentTransactionInfo)
    (m : list (Z * list SentTransactionInfo)) : list (Z * list SentTransactionInfo) :=
  match q with [] => bt_remove k m | _ => bt_insert k q m end.

(** [PrioritizationFeesHeap::pop], core/src/structures/prioritization_fee_heap.rs:31-42. *)
Definition heap_pop (h : PrioritizationFeesHeap) :
    outcome (option SentTransactionInfo * PrioritizationFeesHeap) :=
  match bt_last (heap_map h) with
  | Some (k, q) =>
      match q with
      | [] => Panic
      | element :: q' =>
          Done (Some element,
                mkHeap (heap_put_back k q' (heap_map h))
                       (heap_signatures h ∖ {[si_signature element]})
                       (max_number_of_transactions h))
      end
  | None => Done (None, h)
  end.

(** The eviction at the end of [PrioritizationFeesHeap::insert],
    core/src/structures/prioritization_fee_heap.rs:72-84: the oldest transaction with
    the lowest fee leaves. *)
Definition heap_evict (h : PrioritizationFeesHeap) : outcome PrioritizationFeesHeap :=
  match bt_first (heap_map h) with
  | Some (k, tx_info :: q') =>
      Done (mkHeap (heap_put_back k q' (heap_map h))
                   (heap_signatures h ∖ {[si_signature tx_info]})
                   (max_number_of_transactions h))
  | Some (_, []) => Panic
  | None => Panic
  end.

(** The transaction joins its deque, created when the fee is new:
    [PrioritizationFeesHeap::insert], core/src/structures/prioritization_fee_heap.rs:59-70. *)
Definition heap_enqueue (h : PrioritizationFeesHeap) (tx : SentTransactionInfo) :
    PrioritizationFeesHeap :=
  let fee := si_prioritization_fee tx in
  mkHeap
    (match bt_get fee (heap_map h) with
     | Some value => bt_insert fee (value ++ [tx]) (heap_map h)
     | None => bt_insert fee [tx] (heap_map h)
     end)
    ({[si_signature tx]} ∪ heap_signatures h)
    (max_number_of_transactions h).

(** [PrioritizationFeesHeap::insert], core/src/structures/prioritization_fee_heap.rs:44-86. *)
Definition heap_insert (h : PrioritizationFeesHeap) (tx : SentTransactionInfo) :
    outcome PrioritizationFeesHeap :=
  if bool_decide (si_signature tx ∈ heap_signatures h) then Done h
  else
    let len := Z.of_nat (size (heap_signatures h)) in
    reject ← (if max_number_of_transactions h <=? len
              then first ← unwrap (bt_first (heap_map h));
                   mret (si_prioritization_fee tx <=? first.1)
              else mret false);
    if (reject : bool) then Done h
    else
      let h' := heap_enqueue h tx in
      if max_number_of_transactions h <? Z.of_nat (size (heap_signatures h'))
      then heap_evict h'
      else Done h'.

(** The closure of [retain] in [remove_expired_transactions]. *)
Definition heap_retains (current_blockheight : Z) (x : SentTransactionInfo) : bool :=
  current_blockheight <? si_last_valid_block_height x.

(** [PrioritizationFeesHeap::remove_expired_transactions],
    core/src/structures/prioritization_fee_heap.rs:88-112. *)
Definition heap_remove_expired (h : PrioritizationFeesHeap) (current_blockheight : Z) :
    nat * PrioritizationFeesHeap :=
  let retain x := heap_retains current_blockheight x in
  let map' := (fun e => (e.1, filter (fun x => retain x = true) e.2)) <$> heap_map h in
  let signatures_to_remove :=
    heap_map h ≫= (fun e => si_signature <$> filter (fun x => retain x = false) e.2) in
  let cells_to_remove := (filter (fun e => e.2 = []) map').*1 in
  (length signatures_to_remove,
   mkHeap (foldl (fun m p => bt_remove p m) map' cells_to_remove)
          (foldl (fun s sig => s ∖ {[sig]}) (heap_signatures h) signatures_to_remove)
          (max_number_of_transactions h)).

(** [PrioritizationFeesHeap::size], core/src/structures/prioritization_fee_heap.rs:114-116. *)
Definition heap_size (h : PrioritizationFeesHeap) : nat := size (heap_signatures h).

(** [PrioritizationFeesHeap::clear], core/src/structures/prioritization_fee_heap.rs:118-124. *)
Definition heap_clear (h : PrioritizationFeesHeap) : nat * PrioritizationFeesHeap :=
  (size (heap_signatures h), mkHeap [] ∅ (max_number_of_transactions h)).

(** ** The reference queue *)

(** Queued transactions in the order [pop] returns them. *)
Definition map_txs (m : list (Z * list SentTransactionInfo)) : list SentTransactionInfo :=
  concat (reverse m.*2).

Definition heap_txs (h : PrioritizationFeesHeap) : list SentTransactionInfo :=
  map_txs (heap_map h).

(** Insert behind every transaction that pays at least as much. *)
Fixpoint pq_enqueue (tx : SentTransactionInfo) (l : list SentTransactionInfo) :
    list SentTransactionInfo :=
  match l with
  | [] => [tx]
  | x :: l' =>
      if si_prioritization_fee x <? si_prioritization_fee tx then tx :: l
      else x :: pq_enqueue tx l'
  end.

(** Drop the first transaction with the given fee. *)
Fixpoint pq_drop_fee (fee : Z) (l : list SentTransactionInfo) : list SentTransactionInfo :=
  match l with
  | [] => []
  | x :: l' => if si_prioritization_fee x =? fee then l' else x :: pq_drop_fee fee l'
  end.

Definition pq_evict (l : list SentTransactionInfo) : list SentTransactionInfo :=
  match last l with
  | Some x => pq_drop_fee (si_prioritization_fee x) l
  | None => []
  end.

Definition pq_insert (max : Z) (tx : SentTransactionInfo) (l : list SentTransactionInfo) :
    list SentTransactionInfo :=
  if bool_decide (si_signature tx ∈ si_signature <$> l) then l
  else if (max <=? Z.of_nat (length l)) &&
          match last l with
          | Some x => si_prioritization_fee tx <=? si_prioritization_fee x
          | None => false
          end then l
  else
    let l' := pq_enqueue tx l in
    if max <? Z.of_nat (length l') then pq_evict l' else l'.

(** The invariant that ties the map, the set of signatures and the bound. *)
Definition cell_ok (e : Z * list SentTransactionInfo) : Prop :=
  e.2 <> [] /\ Forall (fun x => si_prioritization_fee x = e.1) e.2.

Record heap_core (h : PrioritizationFeesHeap) : Prop := {
  hi_sorted : bt_wf (heap_map h);
  hi_cells : Forall cell_ok (heap_map h);
  hi_nodup : NoDup (si_signature <$> heap_txs h);
  hi_signatures : heap_signatures h = list_to_set (si_signature <$> heap_txs h);
}.

Definition heap_inv (h : PrioritizationFeesHeap) : Prop :=
  heap_core h /\ Z.of_nat (length (heap_txs h)) <= max_number_of_transactions h.

(** ** The reference queue keeps its order *)

Definition fee_ge (x y : SentTransactionInfo) : Prop :=
  si_prioritization_fee y <= si_prioritization_fee x.

Lemma pq_enqueue_perm tx l : pq_enqueue tx l ≡ₚ tx :: l.
Proof.
  induction l as [|x l IH]; simpl; [done|].
  destruct (_ <? _); [done|]. rewrite IH. constructor.
Qed.

Lemma pq_enqueue_split tx l1 l2 :
  Forall (fun x => si_prioritization_fee tx <= si_prioritization_fee x) l1 ->
  Forall (fun x => si_prioritization_fee x < si_prioritization_fee tx) l2 ->
  pq_enqueue tx (l1 ++ l2) = l1 ++ tx :: l2.
Proof.
  intros H1 H2. induction H1 as [|x l1 Hx _ IH]; simpl.
  - destruct H2 as [|x l2 Hx ?]; [done|]. simpl.
    by destruct (_ <? _) eqn:?; bool_lia.
  - destruct (_ <? _) eqn:?; bool_lia. by rewrite IH.
Qed.

Lemma pq_drop_fee_sublist fee l : pq_drop_fee fee l `sublist_of` l.
Proof.
  induction l as [|x l IH]; simpl; [done|]. destruct (_ =? _); by constructor.
Qed.

Lemma pq_drop_fee_split fee l1 x l2 :
  Forall (fun y => si_prioritization_fee y <> fee) l1 -> si_prioritization_fee x = fee ->
  pq_drop_fee fee (l1 ++ x :: l2) = l1 ++ l2.
Proof.
  intros H1 Hx. induction H1 as [|y l1 Hy _ IH]; simpl.
  - by destruct (_ =? _) eqn:?; bool_lia.
  - destruct (_ =? _) eqn:?; bool_lia. by rewrite IH.
Qed.

(** ** The order of the map *)

Lemma map_txs_app m1 m2 : map_txs (m1 ++ m2) = map_txs m2 ++ map_txs m1.
Proof. unfold map_txs. by rewrite fmap_app, reverse_app, concat_app. Qed.

Lemma map_txs_cons k q m : map_txs ((k, q) :: m) = map_txs m ++ q.
Proof. unfold map_txs. simpl. rewrite reverse_cons, concat_app. simpl. by rewrite app_nil_r. Qed.

Lemma map_txs_elem x m :
  x ∈ map_txs m <-> exists k q, (k, q) ∈ m /\ x ∈ q.
Proof.
  induction m as [|[k q] m IH]; [set_solver|].
  rewrite map_txs_cons, elem_of_app, IH. set_solver.
Qed.

Lemma map_txs_fees (P : Z -> Prop) m :
  Forall cell_ok m -> Forall (fun e => P e.1) m ->
  Forall (fun x => P (si_prioritization_fee x)) (map_txs m).
Proof.
  rewrite !Forall_forall. intros Hc HP x (k & q & Hin & Hx)%map_txs_elem.
  destruct (Hc _ Hin) as [_ Hq]. rewrite Forall_forall in Hq. rewrite (Hq _ Hx).
  by apply (HP _ Hin).
Qed.

Lemma map_txs_sorted m :
  bt_wf m -> Forall cell_ok m -> StronglySorted fee_ge (map_txs m).
Proof.
  induction m as [|[k q] m IH]; intros Hwf Hc; [constructor|].
  apply bt_wf_cons in Hwf as [Hm Hall]. apply Forall_cons in Hc as [[_ Hq] Hc].
  rewrite map_txs_cons. simpl in Hq. apply StronglySorted_app_2.
  - intros x y Hx Hy. unfold fee_ge. rewrite Forall_forall in Hq. rewrite (Hq _ Hy).
    apply Forall_fst in Hall. pose proof (map_txs_fees (Z.lt k) m Hc Hall) as H.
    rewrite Forall_forall in H. specialize (H _ Hx). lia.
  - auto.
  - clear -Hq. induction Hq as [|x q Hx Hq IH]; constructor; [done|].
    eapply Forall_impl; [done|]. unfold fee_ge. simpl. lia.
Qed.

Lemma cells_put_back k q m :
  Forall cell_ok m -> Forall (fun x => si_prioritization_fee x = k) q ->
  Forall cell_ok (heap_put_back k q m).
Proof.
  intros Hm Hq. destruct q as [|x q]; simpl.
  - eapply Forall_sublist; [apply bt_remove_sublist|done].
  - induction Hm as [|[k0 q0] m H0 Hm IH]; simpl.
    + apply Forall_singleton. by split.
    + assert (cell_ok (k, x :: q)) by done.
      destruct (_ <? _) eqn:?; [|destruct (_ =? _) eqn:?]; bool_lia;
        rewrite ?Forall_cons; auto.
Qed.

Lemma bt_remove_split {V} k (v : V) m1 m2 :
  Forall (fun e => e.1 < k) m1 -> bt_remove k (m1 ++ (k, v) :: m2) = m1 ++ m2.
Proof.
  induction 1 as [|[k0 v0] m1 Hk _ IH]; simpl in *; [by rewrite Z.eqb_refl|].
  destruct (k =? k0) eqn:?; bool_lia. by rewrite IH.
Qed.

(** Putting a deque back changes one group of [map_txs]. *)
Lemma map_txs_put_back k q q' m1 m2 :
  Forall (fun e => e.1 < k) m1 ->
  map_txs (heap_put_back k q' (m1 ++ (k, q) :: m2)) = map_txs m2 ++ q' ++ map_txs m1.
Proof.
  intros H. destruct q' as [|x q']; simpl.
  - by rewrite bt_remove_split, map_txs_app.
  - by rewrite bt_insert_split_present, map_txs_app, map_txs_cons, <- app_assoc.
Qed.

Lemma bt_wf_put_back k q m : bt_wf m -> bt_wf (heap_put_back k q m).
Proof. destruct q; simpl; auto with literpc. Qed.

#[export] Hint Resolve cells_put_back bt_wf_put_back : literpc.

Lemma bt_wf_app_lt {V} (m1 m2 : list (Z * V)) k v :
  bt_wf (m1 ++ (k, v) :: m2) -> Forall (fun e => e.1 < k) m1.
Proof.
  induction m1 as [|[k0 v0] m1 IH]; simpl; intros Hwf; [constructor|].
  apply bt_wf_cons in Hwf as [Hm Hall]. constructor; [|auto].
  simpl. rewrite Forall_forall in Hall. apply Hall. rewrite fmap_app. set_solver.
Qed.

Lemma heap_size_txs h : heap_core h -> size (heap_signatures h) = length (heap_txs h).
Proof.
  intros Hi. rewrite (hi_signatures h Hi), size_list_to_set by apply (hi_nodup h Hi).
  apply length_fmap.
Qed.

Lemma heap_sigs_remove (tx : SentTransactionInfo) l1 l2 :
  NoDup (si_signature <$> l1 ++ tx :: l2) ->
  (list_to_set (si_signature <$> l1 ++ tx :: l2) : gset Signature) ∖ {[si_signature tx]} =
  list_to_set (si_signature <$> l1 ++ l2).
Proof.
  rewrite !fmap_app. simpl. rewrite NoDup_app, NoDup_cons. intros (_ & Hd & Hn & _).
  apply set_eq. intros s. specialize (Hd s).
  rewrite elem_of_difference, !elem_of_list_to_set, !elem_of_app, elem_of_cons,
    elem_of_singleton. set_solver.
Qed.

(** Replacing the transactions of a heap by those with one taken out. *)
Lemma heap_core_take h m' tx l1 l2 :
  heap_core h -> bt_wf m' -> Forall cell_ok m' ->
  heap_txs h = l1 ++ tx :: l2 -> map_txs m' = l1 ++ l2 ->
  heap_core (mkHeap m' (heap_signatures h ∖ {[si_signature tx]}) (max_number_of_transactions h)).
Proof.
  intros Hi Hwf Hc Ht Hm. pose proof (hi_nodup h Hi) as Hn. rewrite Ht in Hn.
  split; unfold heap_txs; simpl; [done|done| |]; rewrite ?Hm.
  - eapply sublist_NoDup; [exact Hn|]. apply fmap_sublist.
    apply sublist_app; [done|]. by constructor.
  - rewrite (hi_signatures h Hi), Ht. by apply heap_sigs_remove.
Qed.

(** ** The operations implement the reference queue *)

Lemma heap_pop_cons h tx l :
  heap_core h -> heap_txs h = tx :: l ->
  exists h', heap_pop h = Done (Some tx, h') /\ heap_core h' /\ heap_txs h' = l /\
    max_number_of_transactions h' = max_number_of_transactions h.
Proof.
  intros Hi Ht. unfold heap_pop, bt_last. destruct (last (heap_map h)) as [[k q]|] eqn:Hl.
  2:{ apply last_None in Hl. unfold heap_txs in Ht. by rewrite Hl in Ht. }
  apply last_Some in Hl as [m1 Hm].
  pose proof (hi_cells h Hi) as Hc. pose proof (hi_sorted h Hi) as Hwf.
  pose proof Hc as Hc'. pose proof Ht as Ht'. unfold heap_txs in Ht'.
  rewrite Hm, map_txs_app, map_txs_cons in Ht'. rewrite Hm in Hc', Hwf.
  apply Forall_app in Hc' as [_ [[Hne Hq] _]%Forall_cons]. simpl in *.
  destruct q as [|x q]; [done|]. simplify_eq/=. inversion Hq; subst.
  pose proof (bt_wf_app_lt _ _ _ _ Hwf) as Hlt.
  assert (map_txs (heap_put_back (si_prioritization_fee tx) q (heap_map h)) = q ++ map_txs m1) as Hp
    by (rewrite Hm; apply (map_txs_put_back _ _ q m1 []), Hlt).
  eexists. split_and!; [done| |exact Hp|done].
  apply (heap_core_take _ _ tx [] (q ++ map_txs m1)); try done; rewrite Hm in *;
    auto with literpc.
Qed.

Lemma last_same_fee k x q :
  Forall (fun y => si_prioritization_fee y = k) (x :: q) ->
  exists y, last (x :: q) = Some y /\ si_prioritization_fee y = k.
Proof.
  intros Hq. destruct (last (x :: q)) as [y|] eqn:Hy; [|by apply last_None in Hy].
  exists y. split; [done|]. apply last_Some_elem_of in Hy. rewrite Forall_forall in Hq. auto.
Qed.

(** The first key of the map is the fee of the last transaction in line. *)
Lemma heap_first_fee h :
  heap_core h -> heap_txs h <> [] ->
  exists k q x, bt_first (heap_map h) = Some (k, q) /\ last (heap_txs h) = Some x /\
    si_prioritization_fee x = k.
Proof.
  unfold heap_txs, bt_first. intros Hi Hne. pose proof (hi_cells h Hi) as Hc.
  destruct (heap_map h) as [|[k q] m]; [done|]. apply Forall_cons in Hc as [[Hq0 Hq] _].
  simpl in *. destruct q as [|x q]; [done|]. destruct (last_same_fee _ _ _ Hq) as (y & Hy & ?).
  exists k, (x :: q), y. split_and!; [done| |done]. by rewrite map_txs_cons, last_app_cons.
Qed.

Lemma heap_evict_spec h :
  bt_wf (heap_map h) -> Forall cell_ok (heap_map h) -> heap_txs h <> [] ->
  exists x l1 l2 m',
    heap_evict h = Done (mkHeap m' (heap_signatures h ∖ {[si_signature x]}) (max_number_of_transactions h)) /\
    bt_wf m' /\ Forall cell_ok m' /\
    heap_txs h = l1 ++ x :: l2 /\ map_txs m' = l1 ++ l2 /\ pq_evict (heap_txs h) = l1 ++ l2.
Proof.
  unfold heap_txs, heap_evict, bt_first. intros Hwf Hc Hne.
  destruct (heap_map h) as [|[k q] m] eqn:Hm; [done|]. simpl.
  pose proof Hc as [[Hq0 Hq] Hcm]%Forall_cons. simpl in *.
  destruct q as [|x q]; [done|]. inversion Hq as [|? ? Hx Hq']; subst.
  exists x, (map_txs m), q. eexists. split_and!; [done| | | | |].
  - by apply bt_wf_put_back.
  - by apply cells_put_back.
  - by rewrite map_txs_cons.
  - pose proof (map_txs_put_back (si_prioritization_fee x) (x :: q) q [] m) as Hp.
    rewrite app_nil_r in Hp. by apply Hp.
  - apply bt_wf_cons in Hwf as [_ Hlt%Forall_fst].
    unfold pq_evict. rewrite map_txs_cons, last_app_cons.
    destruct (last_same_fee _ x q Hq) as (y & -> & ->).
    apply pq_drop_fee_split; [|done].
    eapply Forall_impl; [apply (map_txs_fees _ m Hcm Hlt)|]. simpl. lia.
Qed.

(** The state after the transaction was put in its deque. *)
Lemma heap_enqueue_txs h tx :
  heap_core h ->
  bt_wf (heap_map (heap_enqueue h tx)) /\ Forall cell_ok (heap_map (heap_enqueue h tx)) /\
  heap_txs (heap_enqueue h tx) = pq_enqueue tx (heap_txs h).
Proof.
  intros Hi. set (fee := si_prioritization_fee tx). pose proof (hi_sorted h Hi) as Hwf. pose proof (hi_cells h Hi) as Hc.
  unfold heap_txs. simpl. fold fee. destruct (bt_get fee (heap_map h)) as [q|] eqn:Hg.
  - destruct (bt_get_split _ _ _ Hwf Hg) as (m1 & m2 & Hm & H1 & H2).
    assert (Forall (fun x => si_prioritization_fee x = fee) (q ++ [tx])) as Hq.
    { apply Forall_app. split; [|by apply Forall_singleton].
      rewrite Hm in Hc. by apply Forall_app in Hc as [_ [[_ Hq] _]%Forall_cons]. }
    split_and!; [auto with literpc| |].
    + pose proof (cells_put_back fee (q ++ [tx]) _ Hc Hq) as Hp. by destruct q.
    + rewrite Hm in *. apply Forall_app in Hc as [Hc1 [[_ Hq1] Hc2]%Forall_cons].
      simpl in Hq1. rewrite bt_insert_split_present, !map_txs_app, !map_txs_cons, <- !app_assoc by done.
      rewrite (app_assoc (map_txs m2) q (map_txs m1)), pq_enqueue_split; [by rewrite <- app_assoc| |].
      * apply Forall_app. split.
        -- eapply Forall_impl; [apply (map_txs_fees _ m2 Hc2 H2)|]. simpl. lia.
        -- eapply Forall_impl; [exact Hq1|]. simpl. subst fee. lia.
      * apply (map_txs_fees (fun k => k < fee) m1 Hc1 H1).
  - destruct (bt_insert_split_fresh fee [tx] _ Hwf Hg) as (m1 & m2 & Hm & He & H1 & H2).
    split_and!; [auto with literpc|rewrite He|rewrite He].
    + rewrite Hm in Hc. apply Forall_app in Hc as [??]. apply Forall_app. split; [done|].
      constructor; [|done]. split; [done|]. by apply Forall_singleton.
    + rewrite Hm in *. apply Forall_app in Hc as [Hc1 Hc2].
      rewrite !map_txs_app, map_txs_cons, <- app_assoc. symmetry. apply pq_enqueue_split.
      * eapply Forall_impl; [apply (map_txs_fees _ m2 Hc2 H2)|]. simpl. lia.
      * apply (map_txs_fees (fun k => k < fee) m1 Hc1 H1).
Qed.

Lemma pq_enqueue_nodup tx l :
  si_signature tx ∉ si_signature <$> l -> NoDup (si_signature <$> l) ->
  NoDup (si_signature <$> pq_enqueue tx l).
Proof. intros. rewrite pq_enqueue_perm. simpl. by constructor. Qed.

Lemma heap_enqueue_core h tx :
  heap_core h -> si_signature tx ∉ si_signature <$> heap_txs h -> heap_core (heap_enqueue h tx).
Proof.
  intros Hi Hn. destruct (heap_enqueue_txs h tx Hi) as (Hwf & Hc & Ht).
  split; [done|done| |]; rewrite Ht.
  - apply pq_enqueue_nodup; [done|]. apply (hi_nodup h Hi).
  - simpl. rewrite (hi_signatures h Hi). apply set_eq. intros s.
    rewrite elem_of_union, elem_of_singleton, !elem_of_list_to_set, pq_enqueue_perm. set_solver.
Qed.

(** The part of [insert] after the transaction was accepted. *)
Lemma heap_accept h tx :
  heap_inv h -> si_signature tx ∉ si_signature <$> heap_txs h -> 0 < max_number_of_transactions h ->
  exists h',
    (if max_number_of_transactions h <? Z.of_nat (size (heap_signatures (heap_enqueue h tx)))
     then heap_evict (heap_enqueue h tx) else Done (heap_enqueue h tx)) = Done h' /\
    heap_inv h' /\
    heap_txs h' =
      (let l' := pq_enqueue tx (heap_txs h) in
       if max_number_of_transactions h <? Z.of_nat (length l') then pq_evict l' else l') /\
    max_number_of_transactions h' = max_number_of_transactions h.
Proof.
  intros [Hi Hb] Hn Hmax. pose proof (heap_enqueue_core h tx Hi Hn) as Hi'.
  destruct (heap_enqueue_txs h tx Hi) as (Hwf & Hc & Ht).
  assert (length (pq_enqueue tx (heap_txs h)) = S (length (heap_txs h))) as Hlen
    by (by rewrite pq_enqueue_perm).
  rewrite (heap_size_txs _ Hi'), Ht. simpl. destruct (_ <? _) eqn:Hlt; bool_lia.
  - destruct (heap_evict_spec (heap_enqueue h tx)) as (x & l1 & l2 & m' & -> & Hw & Hc' & Hs & Hm & He);
      [done|done|by rewrite Ht; intros Hnil; rewrite Hnil in Hlen|].
    eexists. split_and!; [done| |by rewrite <- Ht, He|done].
    pose proof (heap_core_take _ _ _ _ _ Hi' Hw Hc' Hs Hm) as Ht'. split; [done|].
    unfold heap_txs. simpl. rewrite Hm. rewrite Ht in Hs. rewrite Hs in Hlen.
    rewrite length_app in *. simpl in Hlen. lia.
  - eexists. split_and!; [done| |done|done]. split; [done|]. rewrite Ht. simpl. lia.
Qed.

Lemma heap_insert_spec h tx :
  heap_inv h -> 0 < max_number_of_transactions h ->
  exists h', heap_insert h tx = Done h' /\ heap_inv h' /\
    heap_txs h' = pq_insert (max_number_of_transactions h) tx (heap_txs h) /\
    max_number_of_transactions h' = max_number_of_transactions h.
Proof.
  intros [Hi Hb] Hmax. unfold heap_insert, pq_insert.
  rewrite (bool_decide_ext (si_signature tx ∈ heap_signatures h) (si_signature tx ∈ si_signature <$> heap_txs h))
    by (by rewrite (hi_signatures h Hi), elem_of_list_to_set).
  case_bool_decide as Hin; [by exists h|].
  rewrite (heap_size_txs h Hi).
  destruct (max_number_of_transactions h <=? Z.of_nat (length (heap_txs h))) eqn:Hfull; simpl.
  - assert (heap_txs h <> []) as Hne by (intros Hnil; rewrite Hnil in Hfull; simpl in *; bool_lia).
    destruct (heap_first_fee h Hi Hne) as (k & q & x & -> & -> & Hk). simpl. rewrite Hk.
    destruct (_ <=? k) eqn:?; [by exists h|]. by apply heap_accept.
  - by apply heap_accept.
Qed.

(** ** Expiry *)

Lemma foldl_bt_remove_cons {V} k (v : V) m ks :
  Forall (fun p => p <> k) ks ->
  foldl (fun m p => bt_remove p m) ((k, v) :: m) ks =
  (k, v) :: foldl (fun m p => bt_remove p m) m ks.
Proof.
  intros H. revert m. induction H as [|p ks Hp _ IH]; intros m; simpl; [done|].
  destruct (p =? k) eqn:?; bool_lia. by rewrite IH.
Qed.

Lemma foldl_bt_remove_filter {V} (P : Z * V -> Prop) `{!forall e, Decision (P e)} m :
  bt_wf m ->
  foldl (fun m p => bt_remove p m) m (filter P m).*1 = filter (fun e => ~ P e) m.
Proof.
  induction m as [|[k v] m IH]; intros Hwf; [done|].
  apply bt_wf_cons in Hwf as [Hm Hall]. rewrite !filter_cons.
  destruct (decide (P (k, v))) as [HP|HP]; simpl.
  - rewrite decide_False by auto. rewrite Z.eqb_refl. auto.
  - rewrite decide_True by done. rewrite foldl_bt_remove_cons; [by rewrite IH|].
    rewrite Forall_forall in *. intros p (e & -> & [_ He]%list_elem_of_filter)%list_elem_of_fmap.
    assert (e.1 ∈ m.*1) as Hin by (apply list_elem_of_fmap; eauto).
    specialize (Hall _ Hin). lia.
Qed.

Lemma map_txs_drop_empty m : map_txs (filter (fun e => ~ e.2 = []) m) = map_txs m.
Proof.
  induction m as [|[k q] m IH]; [done|]. rewrite filter_cons, map_txs_cons.
  case_decide as Hq; simpl in *.
  - by rewrite map_txs_cons, IH.
  - destruct q; [by rewrite app_nil_r|discriminate].
Qed.

Lemma map_txs_filter (P : SentTransactionInfo -> Prop) `{!forall x, Decision (P x)} m :
  map_txs ((fun e => (e.1, filter P e.2)) <$> m) = filter P (map_txs m).
Proof.
  induction m as [|[k q] m IH]; [done|]. rewrite fmap_cons. cbn [fst snd].
  by rewrite !map_txs_cons, filter_app, IH.
Qed.

Lemma expired_signatures_perm (P : SentTransactionInfo -> Prop) `{!forall x, Decision (P x)}
    (m : list (Z * list SentTransactionInfo)) :
  m ≫= (fun e => si_signature <$> filter P e.2) ≡ₚ si_signature <$> filter P (map_txs m).
Proof.
  induction m as [|[k q] m IH]; [done|]. rewrite bind_cons. cbn [fst snd].
  rewrite map_txs_cons, filter_app, fmap_app, IH. apply Permutation_app_comm.
Qed.

Lemma foldl_difference (s : gset Signature) l :
  foldl (fun s sig => s ∖ {[sig]}) s l = s ∖ list_to_set l.
Proof.
  revert s. induction l as [|x l IH]; intros s; simpl; [set_solver|].
  rewrite IH. set_solver.
Qed.

Lemma heap_sigs_filter (P : SentTransactionInfo -> Prop) `{!forall x, Decision (P x)} l :
  NoDup (si_signature <$> l) ->
  (list_to_set (si_signature <$> l) : gset Signature) ∖
    list_to_set (si_signature <$> filter (fun x => ~ P x) l) =
  list_to_set (si_signature <$> filter P l).
Proof.
  intros Hn. apply set_eq. intros s.
  rewrite elem_of_difference, !elem_of_list_to_set, !list_elem_of_fmap. split.
  - intros [(x & -> & Hx) Hno]. exists x. rewrite list_elem_of_filter. split_and!; [done| |done].
    destruct (decide (P x)); [done|]. destruct Hno. exists x. by rewrite list_elem_of_filter.
  - intros (x & -> & [HP Hx]%list_elem_of_filter). split; [by exists x|].
    intros (y & He & [HP' Hy]%list_elem_of_filter).
    by rewrite (NoDup_fmap_inj_on _ _ _ _ Hn Hx Hy He) in HP.
Qed.

Lemma heap_remove_expired_spec h bh :
  heap_inv h ->
  let '(n, h') := heap_remove_expired h bh in
  heap_inv h' /\ heap_txs h' = filter (fun x => heap_retains bh x = true) (heap_txs h) /\
  (n + length (heap_txs h') = length (heap_txs h))%nat /\
  max_number_of_transactions h' = max_number_of_transactions h.
Proof.
  intros [Hi Hb]. unfold heap_remove_expired.
  set (keep := fun x => heap_retains bh x = true).
  set (m' := (fun e => (e.1, filter keep e.2)) <$> heap_map h).
  assert (m'.*1 = (heap_map h).*1) as Hk.
  { unfold m'. rewrite <- list_fmap_compose. by apply list_fmap_ext. }
  assert (bt_wf m') as Hwf by (unfold bt_wf; rewrite Hk; apply (hi_sorted h Hi)).
  rewrite (foldl_bt_remove_filter (fun e => e.2 = [])) by done.
  rewrite foldl_difference, (expired_signatures_perm (fun x => heap_retains bh x = false)).
  rewrite length_fmap.
  set (h' := mkHeap _ _ _).
  assert (heap_txs h' = filter keep (heap_txs h)) as Ht.
  { unfold heap_txs, h'. simpl. rewrite map_txs_drop_empty. apply map_txs_filter. }
  assert (Hneg : filter (fun x => heap_retains bh x = false) (heap_txs h) =
                 filter (fun x => ~ keep x) (heap_txs h)).
  { apply list_filter_iff. intros x. unfold keep. destruct (heap_retains bh x); naive_solver. }
  assert (length (filter (fun x => heap_retains bh x = false) (heap_txs h)) +
          length (heap_txs h') = length (heap_txs h))%nat as Hlen.
  { rewrite Ht, Hneg, Nat.add_comm, <- length_app. by rewrite filter_app_complement. }
  split_and!; [|done|done|done]. split; [|simpl; lia]. split.
  - by apply bt_wf_filter.
  - unfold h'. simpl. apply Forall_forall. intros [k q] [Hq Hin]%list_elem_of_filter.
    apply list_elem_of_fmap in Hin as ([k0 q0] & He & Hin). simplify_eq/=.
    split; [done|]. simpl. apply Forall_filter_sub.
    pose proof (hi_cells h Hi) as Hc. rewrite Forall_forall in Hc. by apply (Hc (k0, q0)).
  - rewrite Ht. eapply sublist_NoDup; [apply (hi_nodup h Hi)|].
    apply fmap_sublist, sublist_filter.
  - rewrite Ht. unfold h'. simpl. fold (heap_txs h). rewrite (hi_signatures h Hi), Hneg.
    apply heap_sigs_filter, (hi_nodup h Hi).
Qed.

(** ** Sequences of calls *)

(** The public methods, and what each returns to its caller. *)
Inductive heap_op :=
| OpInsert (tx : SentTransactionInfo)
| OpPop
| OpRemoveExpired (current_blockheight : Z)
| OpSize
| OpClear.

Inductive heap_ret :=
| RetUnit
| RetTx (tx : option SentTransactionInfo)
| RetCount (n : nat).

Definition heap_call (h : PrioritizationFeesHeap) (op : heap_op) :
    outcome (heap_ret * PrioritizationFeesHeap) :=
  match op with
  | OpInsert tx => h' ← heap_insert h tx; mret (RetUnit, h')
  | OpPop => r ← heap_pop h; mret (RetTx r.1, r.2)
  | OpRemoveExpired bh => let '(n, h') := heap_remove_expired h bh in mret (RetCount n, h')
  | OpSize => mret (RetCount (heap_size h), h)
  | OpClear => let '(n, h') := heap_clear h in mret (RetCount n, h')
  end.

Fixpoint heap_calls (h : PrioritizationFeesHeap) (ops : list heap_op) :
    outcome (list heap_ret * PrioritizationFeesHeap) :=
  match ops with
  | [] => mret ([], h)
  | op :: ops' =>
      r ← heap_call h op; rs ← heap_calls r.2 ops'; mret (r.1 :: rs.1, rs.2)
  end.

(** The same calls on the reference queue. *)
Definition pq_call (max : Z) (l : list SentTransactionInfo) (op : heap_op) :
    heap_ret * list SentTransactionInfo :=
  match op with
  | OpInsert tx => (RetUnit, pq_insert max tx l)
  | OpPop => (RetTx (head l), tail l)
  | OpRemoveExpired bh =>
      (RetCount (length (filter (fun x => heap_retains bh x = false) l)),
       filter (fun x => heap_retains bh x = true) l)
  | OpSize => (RetCount (length l), l)
  | OpClear => (RetCount (length l), [])
  end.

Fixpoint pq_calls (max : Z) (l : list SentTransactionInfo) (ops : list heap_op) :
    list heap_ret * list SentTransactionInfo :=
  match ops with
  | [] => ([], l)
  | op :: ops' =>
      let r := pq_call max l op in
      let rs := pq_calls max r.2 ops' in (r.1 :: rs.1, rs.2)
  end.

Lemma heap_new_inv max : 0 <= max -> heap_inv (heap_new max).
Proof. intros. split; [|done]. by split; try constructor. Qed.

Lemma filter_bool_split {A} (f : A -> bool) (l : list A) :
  (length (filter (fun x => f x = false) l) + length (filter (fun x => f x = true) l) = length l)%nat.
Proof. induction l as [|x l IH]; [done|]. rewrite !filter_cons. destruct (f x); simpl; lia. Qed.

(** One call, whatever it is, keeps the invariant and answers as the queue. *)
Lemma heap_call_refines h op :
  heap_inv h -> 0 < max_number_of_transactions h ->
  exists r h', heap_call h op = Done (r, h') /\ heap_inv h' /\
    (r, heap_txs h') = pq_call (max_number_of_transactions h) (heap_txs h) op /\
    max_number_of_transactions h' = max_number_of_transactions h.
Proof.
  intros Hi Hmax. destruct op as [tx| |bh| |]; cbn [heap_call pq_call].
  - destruct (heap_insert_spec h tx Hi Hmax) as (h' & -> & ? & <- & ?). by eexists _, h'.
  - destruct (heap_txs h) as [|tx l] eqn:Ht.
    + assert (heap_pop h = Done (None, h)) as ->; [|simpl; eexists _, h; by rewrite Ht].
      unfold heap_pop, bt_last. destruct (last (heap_map h)) as [[k q]|] eqn:Hl; [|done].
      apply last_Some in Hl as [m Hm]. destruct Hi as [Hi _]. pose proof (hi_cells h Hi) as Hc.
      unfold heap_txs in Ht. rewrite Hm in Ht, Hc. apply Forall_app in Hc as [_ [[Hq _] _]%Forall_cons].
      rewrite map_txs_app, map_txs_cons in Ht. by destruct q.
    + destruct Hi as [Hi Hb]. destruct (heap_pop_cons h tx l Hi Ht) as (h' & -> & Hi' & Hl & Hm).
      simpl. eexists _, h'. split_and!; [done| |by rewrite Hl|done]. split; [done|].
      rewrite Hl, Hm. rewrite Ht in Hb. simpl in Hb. lia.
  - pose proof (heap_remove_expired_spec h bh Hi) as Hs.
    destruct (heap_remove_expired h bh) as [n h']. destruct Hs as (Hi' & Ht & Hn & Hm).
    exists (RetCount n), h'. rewrite Ht in Hn |- *. do 2 (split; [done|]). split; [|done]. do 2 f_equal.
    pose proof (filter_bool_split (heap_retains bh) (heap_txs h)). lia.
  - eexists _, h. do 2 (split; [done|]). split; [|done]. unfold heap_size. by rewrite heap_size_txs by apply Hi.
  - simpl. eexists _, _. split; [done|]. split; [|split; [|done]].
    + apply (heap_new_inv (max_number_of_transactions h)). lia.
    + by rewrite heap_size_txs by apply Hi.
Qed.

Lemma heap_calls_inv h ops :
  heap_inv h -> 0 < max_number_of_transactions h ->
  exists rs h', heap_calls h ops = Done (rs, h') /\ heap_inv h' /\
    (rs, heap_txs h') = pq_calls (max_number_of_transactions h) (heap_txs h) ops.
Proof.
  revert h. induction ops as [|op ops IH]; intros h Hi Hmax; simpl; [by eexists _, h|].
  destruct (heap_call_refines h op Hi Hmax) as (r & h1 & -> & Hi1 & <- & Hm1). simpl.
  rewrite <- Hm1 in Hmax |- *. destruct (IH h1 Hi1 Hmax) as (rs & h2 & -> & Hi2 & <-).
  by eexists _, h2.
Qed.

(** Draining: [pop] until it returns [None]. *)
Fixpoint heap_drain (fuel : nat) (h : PrioritizationFeesHeap) :
    outcome (list SentTransactionInfo * PrioritizationFeesHeap) :=
  match fuel with
  | O => Done ([], h)
  | S fuel' =>
      r ← heap_pop h;
      match r.1 with
      | None => Done ([], r.2)
      | Some tx => rs ← heap_drain fuel' r.2; mret (tx :: rs.1, rs.2)
      end
  end.

Lemma heap_drain_all l h :
  heap_core h -> heap_txs h = l ->
  exists h', heap_drain (length l) h = Done (l, h') /\ heap_txs h' = [].
Proof.
  revert h. induction l as [|tx l IH]; intros h Hi Ht; simpl; [by eexists h|].
  destruct (heap_pop_cons h tx l Hi Ht) as (h1 & -> & Hi1 & Hl & _). simpl.
  destruct (IH h1 Hi1 Hl) as (h2 & -> & Hn). by exists h2.
Qed.

(** ** What an insertion may drop *)

Lemma pq_enqueue_sorted tx l :
  StronglySorted fee_ge l -> StronglySorted fee_ge (pq_enqueue tx l).
Proof.
  induction 1 as [|x l Hs IH Hx]; simpl; [by repeat constructor|].
  destruct (_ <? _) eqn:?; bool_lia; constructor.
  - by constructor.
  - constructor; [unfold fee_ge; lia|]. eapply Forall_impl; [done|]. unfold fee_ge. simpl. lia.
  - done.
  - rewrite pq_enqueue_perm. constructor; [unfold fee_ge; lia|done].
Qed.

Lemma sorted_last_least l x y :
  StronglySorted fee_ge l -> last l = Some x -> y ∈ l ->
  si_prioritization_fee x <= si_prioritization_fee y.
Proof.
  intros Hs (l' & ->)%last_Some [Hy|Hy]%elem_of_app.
  - apply (StronglySorted_app_1_elem_of _ _ _ _ _ Hs Hy). set_solver.
  - apply list_elem_of_singleton in Hy as ->. done.
Qed.

Lemma pq_drop_fee_dropped fee l x :
  x ∈ l -> x ∉ pq_drop_fee fee l -> si_prioritization_fee x = fee.
Proof.
  induction l as [|y l IH]; simpl; [set_solver|].
  destruct (_ =? _) eqn:?; bool_lia; set_solver.
Qed.

Lemma pq_insert_drops max tx l x y :
  StronglySorted fee_ge l -> si_signature tx ∉ si_signature <$> l ->
  x ∈ tx :: l -> x ∉ pq_insert max tx l -> y ∈ pq_insert max tx l ->
  si_prioritization_fee x <= si_prioritization_fee y.
Proof.
  intros Hs Hn Hx. unfold pq_insert. rewrite bool_decide_eq_false_2 by done.
  destruct (last l) as [z|] eqn:Hl.
  - destruct (_ && _) eqn:Hr.
    + apply andb_true_iff in Hr as [_ Hr]. bool_lia.
      apply elem_of_cons in Hx as [->|?]; [|done].
      intros _ Hy. pose proof (sorted_last_least _ _ _ Hs Hl Hy). lia.
    + clear Hr Hl. apply pq_enqueue_sorted with (tx := tx) in Hs.
      rewrite <- pq_enqueue_perm in Hx. revert Hs Hx. generalize (pq_enqueue tx l). intros k Hs Hx.
      destruct (_ <? _); [|done]. unfold pq_evict. destruct (last k) as [w|] eqn:Hw; [|set_solver].
      intros Hd%pq_drop_fee_dropped Hy; [|done]. rewrite Hd.
      eapply sorted_last_least; [done..|].
      eapply elem_of_sublist; [done|apply pq_drop_fee_sublist].
  - apply last_None in Hl as ->. rewrite andb_false_r. apply list_elem_of_singleton in Hx as ->.
    destruct (_ <? _); [|set_solver]. unfold pq_evict. simpl. rewrite Z.eqb_refl. set_solver.
Qed.

(** ** Properties *)

(** C3. Whatever sequence of [insert], [pop], [remove_expired_transactions],
    [size] and [clear] is called on a new heap with room for at least one
    transaction, no call panics, every call returns what the reference queue
    returns, and the heap keeps its invariant: no signature twice, the set of
    signatures is exactly the queued ones, and never more than the maximum. *)
Theorem heap_refines_queue max ops :
  0 < max ->
  exists rs h, heap_calls (heap_new max) ops = Done (rs, h) /\ heap_inv h /\
    pq_calls max [] ops = (rs, heap_txs h).
Proof.
  intros Hmax. destruct (heap_calls_inv (heap_new max) ops) as (rs & h & ? & ? & ?);
    [apply heap_new_inv; lia|done|]. by exists rs, h.
Qed.

Definition sample_tx (sig fee last_valid : Z) : SentTransactionInfo :=
  mkSentTransactionInfo sig 1 [] last_valid fee.

Lemma heap_refines_queue_witness :
  exists rs h,
    heap_calls (heap_new 2)
      [OpInsert (sample_tx 1 5 100); OpInsert (sample_tx 2 7 100); OpInsert (sample_tx 3 6 90);
       OpRemoveExpired 90; OpPop] = Done (rs, h) /\ heap_inv h /\
    pq_calls 2 [] [OpInsert (sample_tx 1 5 100); OpInsert (sample_tx 2 7 100);
       OpInsert (sample_tx 3 6 90); OpRemoveExpired 90; OpPop] = (rs, heap_txs h).
Proof. apply heap_refines_queue. lia. Defined.

(** Draining a heap returns every queued transaction exactly once, highest
    fee first. *)
Theorem heap_drain_sorted h :
  heap_inv h ->
  exists h', heap_drain (heap_size h) h = Done (heap_txs h, h') /\ heap_txs h' = [] /\
    StronglySorted fee_ge (heap_txs h) /\ NoDup (heap_txs h).
Proof.
  intros [Hi _]. unfold heap_size. rewrite heap_size_txs by done.
  destruct (heap_drain_all (heap_txs h) h Hi eq_refl) as (h' & ? & ?).
  exists h'. split_and!; [done|done| |].
  - apply map_txs_sorted; apply Hi.
  - eapply NoDup_fmap_1, (hi_nodup h Hi).
Qed.

Definition sample_heap : PrioritizationFeesHeap :=
  mkHeap [(5, [sample_tx 1 5 100]); (7, [sample_tx 2 7 100; sample_tx 4 7 80])] {[1; 2; 4]} 3.

Lemma sample_heap_inv : heap_inv sample_heap.
Proof.
  split; [|simpl; lia]. split.
  - repeat constructor; lia.
  - repeat (constructor; try done).
  - apply (bool_decide_unpack _). vm_compute. exact I.
  - vm_compute. reflexivity.
Qed.

Lemma heap_drain_sorted_witness :
  exists h', heap_drain (heap_size sample_heap) sample_heap = Done (heap_txs sample_heap, h') /\
    heap_txs h' = [] /\ StronglySorted fee_ge (heap_txs sample_heap) /\ NoDup (heap_txs sample_heap).
Proof. apply heap_drain_sorted, sample_heap_inv. Defined.

(** C20. An insertion never drops a transaction in favour of one that pays less:
    whatever is missing after the call (the new transaction itself, or an
    evicted one) pays at most as much as everything that is queued. *)
Theorem heap_insert_keeps_best h tx x y :
  heap_inv h -> 0 < max_number_of_transactions h ->
  si_signature tx ∉ si_signature <$> heap_txs h ->
  exists h', heap_insert h tx = Done h' /\
    (x ∈ tx :: heap_txs h -> x ∉ heap_txs h' -> y ∈ heap_txs h' ->
     si_prioritization_fee x <= si_prioritization_fee y).
Proof.
  intros Hi Hmax Hn. destruct (heap_insert_spec h tx Hi Hmax) as (h' & -> & _ & Ht & _).
  exists h'. split; [done|]. rewrite Ht. apply pq_insert_drops; [|done].
  apply map_txs_sorted; apply Hi.
Qed.

Lemma heap_insert_keeps_best_witness :
  exists h', heap_insert sample_heap (sample_tx 9 6 100) = Done h' /\
    (sample_tx 1 5 100 ∈ sample_tx 9 6 100 :: heap_txs sample_heap ->
     sample_tx 1 5 100 ∉ heap_txs h' -> sample_tx 4 7 80 ∈ heap_txs h' ->
     si_prioritization_fee (sample_tx 1 5 100) <= si_prioritization_fee (sample_tx 4 7 80)).
Proof.
  apply (heap_insert_keeps_best sample_heap (sample_tx 9 6 100)).
  - apply sample_heap_inv.
  - reflexivity.
  - apply (bool_decide_unpack _). vm_compute. exact I.
Defined.
