(* ===== verification/BlockInfoStore.v ===== *)
(** * The block information store

    core/src/stores/block_information_store.rs: which block hashes are known
    and until which block height they are valid.  The first part gives every
    method as a function on the store.  [add_block] is called by two tasks of
    the data caching service and takes its locks one after the other, so the
    second part splits it into its atomic actions and considers every
    interleaving of two calls. *)

From S2P Require Import Prelude Types.

(** ** State and operations *)

(** The SDK's [MAX_RECENT_BLOCKHASHES]. *)
Definition MAX_RECENT_BLOCKHASHES : Z := 300.

(** [BlockInformation], core/src/stores/block_information_store.rs:14-23. *)
Record BlockInformation := mkBlockInformation {
  binf_slot : Slot;
  binf_block_height : Z;
  binf_last_valid_blockheight : Z;
  binf_cleanup_slot : Slot;
  binf_blockhash : Hash;
  binf_commitment_config : CommitmentConfig;
  binf_block_time : Z;
}.

(** [BlockInformation::from_block], core/src/stores/block_information_store.rs:26-36. *)
Definition from_block (block : ProducedBlock) : BlockInformation :=
  let b := pb_inner block in
  mkBlockInformation (pb_slot b) (pb_block_height b)
    (pb_block_height b +64 MAX_RECENT_BLOCKHASHES)%rpc
    (pb_block_height b +64 1000)%rpc
    (pb_blockhash b) (pb_commitment_config block) (pb_block_time b).

(** [BlockInformation::from_block_info], core/src/stores/block_information_store.rs:37-47. *)
Definition from_block_info (b : BlockInfo) : BlockInformation :=
  mkBlockInformation (bi_slot b) (bi_block_height b)
    (bi_block_height b +64 MAX_RECENT_BLOCKHASHES)%rpc
    (bi_block_height b +64 1000)%rpc
    (bi_blockhash b) (bi_commitment_config b) (bi_block_time b).

(** [BlockInformationStore], core/src/stores/block_information_store.rs:50-61. *)
Record BlockInformationStore := mkBlockInformationStore {
  blocks : gmap Hash BlockInformation;
  last_blockheight : Z;
  latest_confirmed_block : BlockInformation;
  latest_finalized_block : BlockInformation;
}.

(** [BlockInformationStore::new], core/src/stores/block_information_store.rs:64-78. *)
Definition bis_new (latest_finalized : BlockInformation) : BlockInformationStore :=
  mkBlockInformationStore
    {[ binf_blockhash latest_finalized := latest_finalized ]}
    (binf_block_height latest_finalized) latest_finalized latest_finalized.

(** [BlockInformationStore::get_block_info], core/src/stores/block_information_store.rs:80-84. *)
Definition get_block_info (s : BlockInformationStore) (blockhash : Hash) : option BlockInformation :=
  blocks s !! blockhash.

(** [BlockInformationStore::get_latest_block_information],
    core/src/stores/block_information_store.rs:86-112. *)
Definition get_latest_block_information (s : BlockInformationStore) (c : CommitmentConfig) :
    BlockInformation :=
  if is_finalized c then latest_finalized_block s else latest_confirmed_block s.

(** [BlockInformationStore::get_latest_blockhash],
    core/src/stores/block_information_store.rs:97-102. *)
Definition get_latest_blockhash (s : BlockInformationStore) (c : CommitmentConfig) : Hash :=
  binf_blockhash (get_latest_block_information s c).

Definition set_latest (s : BlockInformationStore) (c : CommitmentConfig) (b : BlockInformation) :
    BlockInformationStore :=
  if is_finalized c
  then mkBlockInformationStore (blocks s) (last_blockheight s) (latest_confirmed_block s) b
  else mkBlockInformationStore (blocks s) (last_blockheight s) b (latest_finalized_block s).

Definition set_height (s : BlockInformationStore) (h : Z) : BlockInformationStore :=
  mkBlockInformationStore (blocks s) h (latest_confirmed_block s) (latest_finalized_block s).

Definition set_blocks (s : BlockInformationStore) (m : gmap Hash BlockInformation) :
    BlockInformationStore :=
  mkBlockInformationStore m (last_blockheight s) (latest_confirmed_block s) (latest_finalized_block s).

(** The decision taken on an occupied entry,
    [should_update], core/src/stores/block_information_store.rs:140-149. *)
Definition should_update (old new : CommitmentConfig) : bool :=
  match cc_commitment old with
  | ClFinalized => false
  | ClConfirmed => bool_decide (new = cc_finalized)
  | ClProcessed => bool_decide (new = cc_confirmed) || bool_decide (new = cc_finalized)
  end.

(** The entry of the map, [BlockInformationStore::add_block],
    core/src/stores/block_information_store.rs:138-159. *)
Definition update_entry (s : BlockInformationStore) (b : BlockInformation) :
    bool * BlockInformationStore :=
  match blocks s !! binf_blockhash b with
  | Some old =>
      if should_update (binf_commitment_config old) (binf_commitment_config b)
      then (true, set_blocks s (<[binf_blockhash b := b]> (blocks s)))
      else (false, s)
  | None => (true, set_blocks s (<[binf_blockhash b := b]> (blocks s)))
  end.

(** [BlockInformationStore::add_block], core/src/stores/block_information_store.rs:114-160. *)
Definition add_block (s : BlockInformationStore) (b : BlockInformation) :
    bool * BlockInformationStore :=
  let s1 := if last_blockheight s <? binf_block_height b
            then set_height s (binf_block_height b) else s in
  let c := binf_commitment_config b in
  let s2 := if binf_slot (get_latest_block_information s1 c) <? binf_slot b
            then set_latest s1 c b else s1 in
  update_entry s2 b.

(** [BlockInformationStore::clean], core/src/stores/block_information_store.rs:162-174. *)
Definition bis_clean (s : BlockInformationStore) : BlockInformationStore :=
  let finalized := get_latest_block_information s cc_finalized in
  set_blocks s (filter (fun kv => binf_block_height finalized <= binf_last_valid_blockheight kv.2)
                       (blocks s)).

(** [BlockInformationStore::number_of_blocks_in_store],
    core/src/stores/block_information_store.rs:176-178. *)
Definition number_of_blocks_in_store (s : BlockInformationStore) : nat := size (blocks s).

(** [BlockInformationStore::is_blockhash_valid],
    core/src/stores/block_information_store.rs:180-193. *)
Definition is_blockhash_valid (s : BlockInformationStore) (blockhash : Hash) (c : CommitmentConfig) :
    bool * Slot :=
  let latest_block := get_latest_block_information s c in
  match blocks s !! blockhash with
  | Some b => (binf_block_height latest_block <=? binf_last_valid_blockheight b, binf_slot latest_block)
  | None => (false, binf_slot latest_block)
  end.

(** [BlockInformationStore::get_block_info_by_slot],
    core/src/stores/block_information_store.rs:195-204.  The code scans a
    concurrent map in an unspecified order; the model scans [map_to_list]. *)
Definition get_block_info_by_slot (s : BlockInformationStore) (slot : Slot) : option BlockInformation :=
  snd <$> list_find (fun b => binf_slot b = slot) (map_to_list (blocks s)).*2.

(** [BlockInformationStore::get_last_blockheight],
    core/src/stores/block_information_store.rs:206-209. *)
Definition get_last_blockheight (s : BlockInformationStore) : Z := last_blockheight s.

(** ** Interleaved calls of [add_block] *)

(** Where a running call stands.  Each constructor is one point between two
    atomic actions: the relaxed load and store of the height, the read lock
    and the write lock of the latest block, and the locked map entry. *)
Inductive add_pc :=
| PcLoadHeight
| PcStoreHeight
| PcReadLatest
| PcWriteLatest
| PcEntry
| PcReturned (updated : bool).

#[export] Instance add_pc_eq_dec : EqDecision add_pc.
Proof. solve_decision. Defined.

(** One atomic action of a call, [BlockInformationStore::add_block],
    core/src/stores/block_information_store.rs:114-160. *)
Definition add_action (b : BlockInformation) (pc : add_pc) (s : BlockInformationStore) :
    add_pc * BlockInformationStore :=
  let c := binf_commitment_config b in
  match pc with
  | PcLoadHeight =>
      (if last_blockheight s <? binf_block_height b then PcStoreHeight else PcReadLatest, s)
  | PcStoreHeight => (PcReadLatest, set_height s (binf_block_height b))
  | PcReadLatest =>
      (if binf_slot (get_latest_block_information s c) <? binf_slot b
       then PcWriteLatest else PcEntry, s)
  | PcWriteLatest => (PcEntry, set_latest s c b)
  | PcEntry => let '(r, s') := update_entry s b in (PcReturned r, s')
  | PcReturned r => (PcReturned r, s)
  end.

(** Calls in flight: the block each one adds and where it stands. *)
Definition calls : Type := list (BlockInformation * add_pc).

(** One step of the system: some call performs its next action. *)
Inductive add_step : calls * BlockInformationStore -> calls * BlockInformationStore -> Prop :=
| add_step_intro cs i b pc s pc' s' :
    cs !! i = Some (b, pc) ->
    add_action b pc s = (pc', s') ->
    add_step (cs, s) (<[i := (b, pc')]> cs, s').

(** The calls scheduled one after the other by a list of indices. *)
Fixpoint add_schedule (sched : list nat) (cs : calls) (s : BlockInformationStore) :
    calls * BlockInformationStore :=
  match sched with
  | [] => (cs, s)
  | i :: sched' =>
      match cs !! i with
      | Some (b, pc) =>
          let '(pc', s') := add_action b pc s in
          add_schedule sched' (<[i := (b, pc')]> cs) s'
      | None => add_schedule sched' cs s
      end
  end.

(** ** Well-formedness in every interleaving *)

Definition bis_wf (s : BlockInformationStore) : Prop :=
  map_Forall (fun k b => binf_blockhash b = k) (blocks s) /\
  is_finalized (binf_commitment_config (latest_finalized_block s)) = true.

Lemma bis_wf_new b : is_finalized (binf_commitment_config b) = true -> bis_wf (bis_new b).
Proof. intros. split; [|done]. simpl. by apply map_Forall_singleton. Qed.

Lemma bis_wf_update_entry s b : bis_wf s -> bis_wf (update_entry s b).2.
Proof.
  unfold update_entry. intros [Hk Hf]. cases; split; simpl; try done; by apply map_Forall_insert_2.
Qed.

Lemma bis_wf_action b pc s : bis_wf s -> bis_wf (add_action b pc s).2.
Proof.
  intros Hs. pose proof (bis_wf_update_entry s b Hs). destruct Hs as [Hk Hf].
  destruct pc; simpl; try (by split).
  - unfold set_latest. by destruct (is_finalized (binf_commitment_config b)) eqn:?; split.
  - by destruct (update_entry s b).
Qed.

Lemma bis_wf_steps x y : rtc add_step x y -> bis_wf x.2 -> bis_wf y.2.
Proof.
  induction 1 as [|x y z Hxy _ IH]; [done|]. intros Hx. apply IH.
  destruct Hxy as [? ? b pc s pc' s' ? Ha]. simpl in *.
  pose proof (bis_wf_action b pc s Hx) as Hw. by rewrite Ha in Hw.
Qed.

Lemma bis_wf_clean s : bis_wf s -> bis_wf (bis_clean s).
Proof. intros [Hk Hf]. split; [|done]. intros k b [Hb _]%map_lookup_filter_Some. by apply Hk. Qed.

(** ** Entries only move up *)

Definition config_rank (c : CommitmentConfig) : Z := commitment_rank (commitment_of_config c).

(** Every entry is still there, with a commitment at least as high; a
    finalized entry is untouched. *)
Definition entries_le (m1 m2 : gmap Hash BlockInformation) : Prop :=
  forall k b1, m1 !! k = Some b1 -> exists b2, m2 !! k = Some b2 /\
    config_rank (binf_commitment_config b1) <= config_rank (binf_commitment_config b2) /\
    (is_finalized (binf_commitment_config b1) = true -> b2 = b1).

#[export] Instance entries_le_preorder : PreOrder entries_le.
Proof.
  split.
  - intros m k b ?. exists b. split_and!; [done|lia|done].
  - intros m1 m2 m3 H12 H23 k b1 H1. destruct (H12 k b1 H1) as (b2 & H2 & Hr & Hf).
    destruct (H23 k b2 H2) as (b3 & H3 & Hr' & Hf'). exists b3. split_and!; [done|lia|].
    intros Hb. specialize (Hf Hb) as ->. auto.
Qed.

Lemma should_update_rank old new :
  should_update old new = true ->
  config_rank old < config_rank new /\ is_finalized old = false.
Proof.
  unfold should_update. destruct old as [[]], new as [[]]; simpl; intros; try done; vm_compute; done.
Qed.

Lemma update_entry_le s b : entries_le (blocks s) (blocks (update_entry s b).2).
Proof.
  unfold update_entry. destruct (blocks s !! binf_blockhash b) as [old|] eqn:Ho.
  - destruct (should_update _ _) eqn:Hu; simpl; [|reflexivity].
    apply should_update_rank in Hu as [Hr Hf]. intros k b1 H1.
    destruct (decide (k = binf_blockhash b)) as [->|Hne].
    + simplify_eq. exists b. rewrite lookup_insert_eq. split_and!; [done|lia|congruence].
    + exists b1. rewrite lookup_insert_ne by done. split_and!; [done|lia|done].
  - simpl. intros k b1 H1. exists b1. rewrite lookup_insert_ne by congruence.
    split_and!; [done|lia|done].
Qed.

Lemma add_action_le b pc s : entries_le (blocks s) (blocks (add_action b pc s).2).
Proof.
  destruct pc; simpl; try reflexivity.
  - unfold set_latest. by destruct (is_finalized _).
  - pose proof (update_entry_le s b). by destruct (update_entry s b).
Qed.

Lemma add_steps_le x y : rtc add_step x y -> entries_le (blocks x.2) (blocks y.2).
Proof.
  induction 1 as [|x y z Hxy _ IH]; [done|]. etrans; [|exact IH].
  destruct Hxy as [? ? b pc s pc' s' ? Ha]. simpl.
  pose proof (add_action_le b pc s) as Hle. by rewrite Ha in Hle.
Qed.

(** ** One call at a time *)

(** A call that runs alone performs [add_block]; five actions are enough. *)
Lemma add_alone s b :
  add_schedule [0; 0; 0; 0; 0]%nat [(b, PcLoadHeight)] s =
  ([(b, PcReturned (add_block s b).1)], (add_block s b).2).
Proof.
  unfold add_block. simpl.
  destruct (last_blockheight s <? binf_block_height b); simpl;
    (destruct (_ <? binf_slot b) eqn:?; simpl;
     [destruct (update_entry _ b) eqn:?; simpl; rewrite ?Heqp; reflexivity
     |destruct (update_entry _ b) eqn:?; simpl; rewrite ?Heqp; reflexivity]).
Qed.

Lemma update_entry_latest s b c :
  get_latest_block_information (update_entry s b).2 c = get_latest_block_information s c.
Proof. unfold update_entry. by cases. Qed.

Lemma update_entry_height s b : last_blockheight (update_entry s b).2 = last_blockheight s.
Proof. unfold update_entry. by cases. Qed.

Lemma add_block_height s b :
  last_blockheight (add_block s b).2 = Z.max (last_blockheight s) (binf_block_height b).
Proof.
  unfold add_block. rewrite update_entry_height. unfold set_latest.
  cases; simpl in *; bool_lia.
Qed.

Lemma add_block_latest s b c :
  binf_slot (get_latest_block_information (add_block s b).2 c) =
  if Bool.eqb (is_finalized c) (is_finalized (binf_commitment_config b))
  then Z.max (binf_slot (get_latest_block_information s c)) (binf_slot b)
  else binf_slot (get_latest_block_information s c).
Proof.
  unfold add_block. rewrite update_entry_latest.
  unfold get_latest_block_information, set_latest.
  destruct (is_finalized c) eqn:?, (is_finalized (binf_commitment_config b)) eqn:?; simpl;
    destruct (last_blockheight s <? _); simpl; destruct (_ <? binf_slot b) eqn:?; simpl; bool_lia.
Qed.

Lemma add_schedule_steps sched cs s : rtc add_step (cs, s) (add_schedule sched cs s).
Proof.
  revert cs s. induction sched as [|i sched IH]; intros cs s; simpl; [done|].
  destruct (cs !! i) as [[b pc]|] eqn:Hi; [|done].
  destruct (add_action b pc s) as [pc' s'] eqn:Ha.
  eapply rtc_l; [by econstructor|apply IH].
Qed.

(** ** Properties *)

(** C4. However the atomic actions of any number of [add_block] calls
    interleave, every block stays in the store under its own hash with a
    commitment that never goes down, a finalized entry is never replaced, and
    the latest finalized block is one that was finalized. *)
Theorem add_block_interleaved_safe cs s cs' s' :
  bis_wf s -> rtc add_step (cs, s) (cs', s') ->
  bis_wf s' /\ entries_le (blocks s) (blocks s').
Proof.
  intros Hw Hs. split.
  - by apply (bis_wf_steps _ _ Hs).
  - by apply (add_steps_le _ _ Hs).
Qed.

(** Sample blocks of the witnesses. *)
Definition sample_block (slot height hash : Z) (c : CommitmentConfig) : BlockInformation :=
  mkBlockInformation slot height (height + 300) (height + 1000) hash c 0.

Definition sample_store : BlockInformationStore := bis_new (sample_block 10 8 77 cc_finalized).

Lemma add_block_interleaved_safe_witness :
  let s' := (add_schedule [0; 0; 1; 0; 1; 1; 0; 0; 1; 1]%nat
      [(sample_block 11 9 78 cc_confirmed, PcLoadHeight);
       (sample_block 11 9 78 cc_finalized, PcLoadHeight)] sample_store).2 in
  bis_wf s' /\ entries_le (blocks sample_store) (blocks s').
Proof.
  eapply add_block_interleaved_safe; [by apply bis_wf_new|].
  rewrite <- surjective_pairing. apply add_schedule_steps.
Defined.

(** Calls of [add_block] that do not overlap keep the latest block of each
    commitment the one with the greatest slot, and the last block height the
    greatest height. *)
Theorem add_block_sequential_latest s bs c :
  let s' := foldl (fun s b => (add_block s b).2) s bs in
  last_blockheight s' = foldl (fun h b => Z.max h (binf_block_height b)) (last_blockheight s) bs /\
  binf_slot (get_latest_block_information s' c) =
    foldl (fun m b => if Bool.eqb (is_finalized c) (is_finalized (binf_commitment_config b))
                      then Z.max m (binf_slot b) else m)
          (binf_slot (get_latest_block_information s c)) bs.
Proof.
  revert s. induction bs as [|b bs IH]; intros s; simpl; [done|].
  destruct (IH (add_block s b).2) as [-> ->].
  by rewrite add_block_height, add_block_latest.
Qed.

(** Calls that overlap do not: [add_block] compares the slot under a read
    lock and assigns under a later write lock, so when the data caching
    service's two tasks add two new blocks at once, the older one can be left
    as the latest confirmed block after both calls have returned. *)
Theorem latest_block_race s b1 b2 :
  is_finalized (binf_commitment_config b1) = false ->
  is_finalized (binf_commitment_config b2) = false ->
  last_blockheight s < binf_block_height b1 < binf_block_height b2 ->
  binf_slot (latest_confirmed_block s) < binf_slot b1 < binf_slot b2 ->
  exists cs' s', rtc add_step ([(b1, PcLoadHeight); (b2, PcLoadHeight)], s) (cs', s') /\
    Forall (fun call => exists r, call.2 = PcReturned r) cs' /\
    latest_confirmed_block s' = b1.
Proof.
  intros Hc1 Hc2 Hh Hs.
  set (st := add_schedule [0; 0; 0; 1; 1; 1; 1; 1; 0; 0]%nat
               [(b1, PcLoadHeight); (b2, PcLoadHeight)] s).
  exists st.1, st.2. split; [unfold st; rewrite <- surjective_pairing; apply add_schedule_steps|].
  unfold st. simpl.
  rewrite (proj2 (Z.ltb_lt (last_blockheight s) _)) by lia. simpl.
  unfold get_latest_block_information, set_latest, set_height. rewrite ?Hc1, ?Hc2. simpl.
  rewrite (proj2 (Z.ltb_lt (binf_slot (latest_confirmed_block s)) (binf_slot b1))) by lia. simpl.
  rewrite (proj2 (Z.ltb_lt (binf_block_height b1) _)) by lia. simpl.
  unfold get_latest_block_information, set_latest, set_height. rewrite ?Hc2. simpl.
  rewrite (proj2 (Z.ltb_lt (binf_slot (latest_confirmed_block s)) (binf_slot b2))) by lia. simpl.
  destruct (update_entry _ b2) as [r2 s2] eqn:He2. simpl. rewrite ?Hc1.
  destruct (update_entry _ b1) as [r1 s1] eqn:He1. simpl.
  split; [rewrite !Forall_cons; eauto|].
  pose proof (update_entry_latest (set_latest s2 (binf_commitment_config b1) b1) b1 cc_confirmed) as Hl.
  unfold set_latest in Hl. rewrite Hc1, He1 in Hl. exact Hl.
Qed.

Lemma latest_block_race_witness :
  exists cs' s',
    rtc add_step ([(sample_block 11 9 78 cc_confirmed, PcLoadHeight);
                   (sample_block 12 10 79 cc_confirmed, PcLoadHeight)], sample_store) (cs', s') /\
    Forall (fun call => exists r, call.2 = PcReturned r) cs' /\
    latest_confirmed_block s' = sample_block 11 9 78 cc_confirmed.
Proof. apply latest_block_race; simpl; (reflexivity || lia). Defined.

(** Cleaning is invisible to [is_blockhash_valid]: a block is dropped only
    once its hash is invalid at the finalized height, so no answer changes, for
    any commitment whose latest block is not behind the finalized one. *)
Theorem clean_preserves_validity s hash c :
  binf_block_height (latest_finalized_block s) <=
    binf_block_height (get_latest_block_information s c) ->
  is_blockhash_valid (bis_clean s) hash c = is_blockhash_valid s hash c.
Proof.
  intros Hh. unfold is_blockhash_valid.
  change (get_latest_block_information (bis_clean s) c) with (get_latest_block_information s c).
  simpl.
  destruct (blocks s !! hash) as [b|] eqn:Hb.
  - destruct (decide (binf_block_height (latest_finalized_block s) <= binf_last_valid_blockheight b)).
    + rewrite (map_lookup_filter_Some_2 _ _ hash b); done.
    + rewrite (map_lookup_filter_None_2 _ _ hash); [|by right; intros; simplify_eq].
      f_equal. symmetry. apply Z.leb_gt. lia.
  - by rewrite (map_lookup_filter_None_2 _ _ hash); [|left].
Qed.

Lemma clean_preserves_validity_witness :
  is_blockhash_valid (bis_clean sample_store) 77 cc_confirmed =
  is_blockhash_valid sample_store 77 cc_confirmed.
Proof. apply clean_preserves_validity. simpl. lia. Defined.
