(* ===== verification/LeaderSchedule.v ===== *)
(** * Epochs, leader schedules and the leader getters

    core/src/structures/epoch.rs, core/src/structures/leaderschedule.rs,
    core/src/traits/leaders_fetcher_interface.rs and the two implementations
    of that trait, cluster-endpoints/src/json_rpc_leaders_getter.rs and
    cluster-endpoints/src/grpc_leaders_getter.rs.

    The SDK's [EpochSchedule] and the RPC node's [getSlotLeaders] are
    parameters; what the code relies on is stated in [EpochScheduleLaws] and
    [rpc_leaders_ok]. *)

From S2P Require Import Prelude Types BlockInfoStore.

(** ** Epochs *)

(** The methods of the SDK's [EpochSchedule] the sources call. *)
Record EpochSchedule := mkEpochSchedule {
  es_get_epoch_and_slot_index : Slot -> Z * Z;
  es_get_slots_in_epoch : Z -> Z;
  es_get_first_slot_in_epoch : Z -> Z;
  es_get_last_slot_in_epoch : Z -> Z;
}.

(** Their documented behaviour: epochs partition the slots. *)
Class EpochScheduleLaws (es : EpochSchedule) : Prop := {
  es_index : forall slot, 0 <= slot ->
    let '(epoch, index) := es_get_epoch_and_slot_index es slot in
    0 <= epoch /\ 0 <= index < es_get_slots_in_epoch es epoch /\
    es_get_first_slot_in_epoch es epoch + index = slot;
  es_last : forall epoch, 0 <= epoch ->
    es_get_last_slot_in_epoch es epoch =
    es_get_first_slot_in_epoch es epoch + es_get_slots_in_epoch es epoch - 1;
  es_next : forall epoch, 0 <= epoch ->
    es_get_first_slot_in_epoch es (epoch + 1) = es_get_last_slot_in_epoch es epoch + 1;
}.

(** A schedule without warm-up, as [EpochCache::new_for_tests] builds it. *)
Definition fixed_epoch_schedule (slots_per_epoch : Z) : EpochSchedule :=
  mkEpochSchedule (fun slot => (slot / slots_per_epoch, slot mod slots_per_epoch))
    (fun _ => slots_per_epoch)
    (fun epoch => epoch * slots_per_epoch)
    (fun epoch => epoch * slots_per_epoch + slots_per_epoch - 1).

#[export] Instance fixed_epoch_schedule_laws n : TCEq (0 <? n) true -> EpochScheduleLaws (fixed_epoch_schedule n).
Proof.
  intros Hn%TCEq_eq. bool_lia. split; simpl.
  - intros slot Hs. pose proof (Z.div_mod slot n). pose proof (Z.mod_pos_bound slot n).
    pose proof (Z.div_pos slot n). lia.
  - intros. lia.
  - intros. lia.
Qed.

(** [Epoch], core/src/structures/epoch.rs:10-16. *)
Record Epoch := mkEpoch {
  ep_epoch : Z;
  ep_slot_index : Z;
  ep_slots_in_epoch : Z;
  ep_absolute_slot : Slot;
}.

(** The SDK's [EpochInfo]. *)
Record EpochInfo := mkEpochInfo {
  ei_epoch : Z;
  ei_slot_index : Z;
  ei_slots_in_epoch : Z;
  ei_absolute_slot : Slot;
  ei_block_height : Z;
  ei_transaction_count : option Z;
}.

(** [Epoch::as_epoch_info], core/src/structures/epoch.rs:21-32. *)
Definition as_epoch_info (e : Epoch) (block_height : Z) (transaction_count : option Z) : EpochInfo :=
  mkEpochInfo (ep_epoch e) (ep_slot_index e) (ep_slots_in_epoch e) (ep_absolute_slot e)
    block_height transaction_count.

(** [EpochRef], core/src/structures/epoch.rs:34-58. *)
Record EpochRef := mkEpochRef { er_epoch : Z }.

Definition epoch_ref_of (e : Epoch) : EpochRef := mkEpochRef (ep_epoch e).
Definition get_next_epoch (r : EpochRef) : EpochRef := mkEpochRef (er_epoch r +64 1)%rpc.

(** [EpochCache::get_epoch_at_slot], core/src/structures/epoch.rs:66-75. *)
Definition get_epoch_at_slot (es : EpochSchedule) (slot : Slot) : Epoch :=
  let '(epoch, slot_index) := es_get_epoch_and_slot_index es slot in
  mkEpoch epoch slot_index (es_get_slots_in_epoch es epoch) slot.

(** [EpochCache::bootstrap_epoch], core/src/structures/epoch.rs:93-115: the account of the schedule, its
    content, and the epoch the node is in. *)
Definition bootstrap_epoch {E I : Type} (account : result string (list Z)) (deserialize : list Z -> option E) (epoch_info : result string I) :
    result string (E * I) :=
  data ← account;
  schedule ← match deserialize data with Some es => Ok es | None => Err "Error during bootstrap epoch"%string end;
  info ← epoch_info;
  Ok (schedule, info).

(** ** Leader schedules *)

(** [LeaderScheduleData], core/src/structures/leaderschedule.rs:140-145. *)
Record LeaderScheduleData := mkLeaderScheduleData {
  schedule_by_node : gmap string (list Z);
  schedule_by_slot : list Pubkey;
  lsd_epoch : Z;
}.

(** [CalculatedSchedule], core/src/structures/leaderschedule.rs:38-42. *)
Record CalculatedSchedule := mkCalculatedSchedule {
  cs_current : option LeaderScheduleData;
  cs_next : option LeaderScheduleData;
}.

(** The configuration of [getVoteAccounts] as received and as parsed. *)
Record RpcGetVoteAccountsConfig := mkRpcGetVoteAccountsConfig {
  rva_vote_pubkey : option string;
  rva_commitment : option CommitmentConfig;
  rva_keep_unstaked_delinquents : option bool;
  rva_delinquent_slot_distance : option Z;
}.

(** [GetVoteAccountsConfig], core/src/structures/leaderschedule.rs:12-18. *)
Record GetVoteAccountsConfig := mkGetVoteAccountsConfig {
  va_vote_pubkey : option Pubkey;
  va_commitment : option CommitmentConfig;
  va_keep_unstaked_delinquents : option bool;
  va_delinquent_slot_distance : option Z;
}.

(** [GetVoteAccountsConfig::try_from], core/src/structures/leaderschedule.rs:20-36.
    [Pubkey::from_str] is a parameter. *)
Definition get_vote_accounts_config_try_from {E : Type} (pubkey_from_str : string -> result E Pubkey)
    (config : RpcGetVoteAccountsConfig) : result E GetVoteAccountsConfig :=
  vote_pubkey ← match rva_vote_pubkey config with
                | None => Ok None
                | Some pk => Some <$> pubkey_from_str pk
                end;
  Ok (mkGetVoteAccountsConfig vote_pubkey (rva_commitment config)
        (rva_keep_unstaked_delinquents config) (rva_delinquent_slot_distance config)).

(** [CalculatedSchedule::get_leader_schedule_for_slot],
    core/src/structures/leaderschedule.rs:45-76. *)
Definition get_leader_schedule_for_slot (cs : CalculatedSchedule) (slot : option Slot)
    (commitment : option CommitmentConfig) (store : BlockInformationStore) (es : EpochSchedule) :
    option (gmap string (list Z)) :=
  let commitment := default cc_default commitment in
  let slot := match slot with
              | Some slot => slot
              | None => binf_slot (get_latest_block_information store commitment)
              end in
  let epoch := get_epoch_at_slot es slot in
  let get_schedule (schedule_data : option LeaderScheduleData) :=
    data ← schedule_data;
    if lsd_epoch data =? ep_epoch epoch then Some (schedule_by_node data) else None in
  match get_schedule (cs_current cs) with
  | Some m => Some m
  | None => get_schedule (cs_next cs)
  end.

(** The RPC client's [MAX_GET_SLOT_LEADERS]. *)
Definition MAX_GET_SLOT_LEADERS : Z := 5000.

Inductive LeadersError :=
| InvalidLimit (max : Z)
| ScheduleUnavailable (epoch : Z)
| InvalidArguments
| RpcFailed.

(** The closure [extend_slot_from_epoch],
    core/src/structures/leaderschedule.rs:102-106: the remaining [limit] and the
    leaders collected so far are captured by reference. *)
Definition extend_slot_from_epoch (st : Z * list Pubkey) (leader_schedule : list Pubkey)
    (slot_index : Z) : Z * list Pubkey :=
  let '(limit, slot_leaders) := st in
  let n := saturating_sub_u64 limit (Z.of_nat (length slot_leaders)) in
  let slot_leaders' :=
    slot_leaders ++ take (Z.to_nat n) (drop (Z.to_nat slot_index) leader_schedule) in
  ((limit -64 Z.of_nat (length slot_leaders'))%rpc, slot_leaders').

(** The stored schedules that answer a request starting in [epoch], with the
    index to start from, in the order they are read. *)
Definition schedules_found (cs : CalculatedSchedule) (epoch slot_index : Z) :
    list (LeaderScheduleData * Z) :=
  omap (fun '(epoch_data, slot_index, epoch) =>
          match epoch_data with
          | Some data => if lsd_epoch data =? epoch then Some (data, slot_index) else None
          | None => None
          end)
    [(cs_current cs, slot_index, epoch); (cs_next cs, slot_index, epoch);
     (cs_next cs, 0, (epoch +64 1)%rpc)].

Definition collect_leaders (limit : Z) (found : list (LeaderScheduleData * Z)) : list Pubkey :=
  (foldl (fun st e => extend_slot_from_epoch st (schedule_by_slot e.1) e.2) (limit, []) found).2.

(** [CalculatedSchedule::get_slot_leaders],
    core/src/structures/leaderschedule.rs:78-137. *)
Definition get_slot_leaders (cs : CalculatedSchedule) (start_slot : Slot) (limit : Z)
    (es : EpochSchedule) : result LeadersError (list Pubkey) :=
  if MAX_GET_SLOT_LEADERS <? limit then Err (InvalidLimit MAX_GET_SLOT_LEADERS)
  else
    let '(epoch, slot_index) := es_get_epoch_and_slot_index es start_slot in
    match schedules_found cs epoch slot_index with
    | [] => Err (ScheduleUnavailable epoch)
    | found => Ok (collect_leaders limit found)
    end.

(** ** The leader getters *)

(** [LeaderData], core/src/structures/leader_data.rs:3-7. *)
Record LeaderData := mkLeaderData { leader_slot : Slot; leader_pubkey : Pubkey }.

(** [JsonRpcLeaderGetter], cluster-endpoints/src/json_rpc_leaders_getter.rs:13-18. *)
Record JsonRpcLeaderGetter := mkJsonRpcLeaderGetter {
  leader_queue : list LeaderData;
  leaders_to_cache_count : Z;
  old_slot_leader_cache_size : Z;
}.

Definition set_queue (g : JsonRpcLeaderGetter) (q : list LeaderData) : JsonRpcLeaderGetter :=
  mkJsonRpcLeaderGetter q (leaders_to_cache_count g) (old_slot_leader_cache_size g).

(** [JsonRpcLeaderGetter::new], cluster-endpoints/src/json_rpc_leaders_getter.rs:21-32. *)
Definition json_getter_new (to_cache old_size : Z) : JsonRpcLeaderGetter :=
  mkJsonRpcLeaderGetter [] to_cache old_size.

(** The loop that pops old leaders,
    [JsonRpcLeaderGetter::update_leader_schedule],
    cluster-endpoints/src/json_rpc_leaders_getter.rs:38-42; on an empty queue the
    condition compares [slot] with a smaller bound and the loop ends. *)
Fixpoint pop_old_leaders (bound : Z) (q : list LeaderData) : list LeaderData :=
  match q with
  | [] => []
  | x :: q' => if leader_slot x <? bound then pop_old_leaders bound q' else q
  end.

(** The loop that indexes the RPC answer,
    [JsonRpcLeaderGetter::update_leader_schedule],
    cluster-endpoints/src/json_rpc_leaders_getter.rs:57-64; an index past the
    end of the answer panics. *)
Fixpoint push_leaders (leaders : list Pubkey) (first : Z) (index n : nat) (q : list LeaderData) :
    outcome (list LeaderData) :=
  match n with
  | O => Done q
  | S n' =>
      pubkey ← unwrap (leaders !! index);
      push_leaders leaders first (S index) n' (q ++ [mkLeaderData (first + Z.of_nat index) pubkey])
  end.

Section json_getter.
Context (rpc_get_slot_leaders : Slot -> Z -> result LeadersError (list Pubkey)).

(** [JsonRpcLeaderGetter::update_leader_schedule],
    cluster-endpoints/src/json_rpc_leaders_getter.rs:34-68. *)
Definition update_leader_schedule (g : JsonRpcLeaderGetter) (slot : Slot) :
    outcome (result LeadersError unit * JsonRpcLeaderGetter) :=
  let q := pop_old_leaders (saturating_sub_u64 slot (old_slot_leader_cache_size g)) (leader_queue g) in
  let last_slot_needed := (slot +64 leaders_to_cache_count g)%rpc in
  let first_slot_to_fetch := match last q with Some x => (leader_slot x +64 1)%rpc | None => slot end in
  if first_slot_to_fetch <=? last_slot_needed then
    match rpc_get_slot_leaders first_slot_to_fetch
            (saturating_sub_u64 last_slot_needed first_slot_to_fetch) with
    | Err e => Done (Err e, set_queue g q)
    | Ok leaders =>
        q' ← push_leaders leaders first_slot_to_fetch 0
               (Z.to_nat (last_slot_needed - first_slot_to_fetch)) q;
        Done (Ok tt, set_queue g q')
    end
  else Done (Ok tt, set_queue g q).

(** [JsonRpcLeaderGetter::get_slot_leaders],
    cluster-endpoints/src/json_rpc_leaders_getter.rs:72-98. *)
Definition json_get_slot_leaders (g : JsonRpcLeaderGetter) (from to : Slot) :
    outcome (result LeadersError (list LeaderData) * JsonRpcLeaderGetter) :=
  if (to <=? from) || (leaders_to_cache_count g <? saturating_sub_u64 to from)
  then Done (Err InvalidArguments, g)
  else
    let rebuild :=
      match head (leader_queue g), last (leader_queue g) with
      | Some front, Some back => (from <? leader_slot front) || (leader_slot back <? to)
      | _, _ => true
      end in
    r ← (if (rebuild : bool) then update_leader_schedule g from else Done (Ok tt, g));
    match r with
    | (Err e, g') => Done (Err e, g')
    | (Ok _, g') =>
        Done (Ok (filter (fun x => from <= leader_slot x /\ leader_slot x <= to) (leader_queue g')), g')
    end.

End json_getter.

(** [GrpcLeaderGetter::get_slot_leaders],
    cluster-endpoints/src/grpc_leaders_getter.rs:29-84. *)
Definition grpc_get_slot_leaders (cs : CalculatedSchedule) (es : EpochSchedule) (from to : Slot) :
    result LeadersError (list LeaderData) :=
  let from_epoch := ep_epoch (get_epoch_at_slot es from) in
  let to_epoch := ep_epoch (get_epoch_at_slot es to) in
  let current_epoch := default from_epoch (lsd_epoch <$> cs_current cs) in
  let next_epoch := (default to_epoch (lsd_epoch <$> cs_current cs) +64 1)%rpc in
  if to <? from then Err InvalidArguments
  else if (from_epoch <? current_epoch) || (next_epoch <? from_epoch) then Err InvalidArguments
  else if (to_epoch <? current_epoch) || (next_epoch <? to_epoch) then Err InvalidArguments
  else
    schedule ← get_slot_leaders cs from (saturating_sub_u64 to from) es;
    Ok (imap (fun index pubkey => mkLeaderData (from +64 Z.of_nat index)%rpc pubkey) schedule).

(** ** The interface of the getters *)

(** [LeaderFetcherInterface], core/src/traits/leaders_fetcher_interface.rs:5-9. *)
Class LeaderFetcher (S : Type) := {
  lf_get_slot_leaders : S -> Slot -> Slot -> outcome (result LeadersError (list LeaderData) * S);
}.

(** What both implementations deliver for the slots [valid] admits: correct
    leaders only, none outside the range, and one for every slot from [from]
    up to but not including [to]. *)
Class LeaderFetcherOk (S : Type) `{LeaderFetcher S} (leader : Slot -> Pubkey)
    (valid : S -> Slot -> Slot -> Prop) : Prop :=
  lf_ok : forall s from to, valid s from to ->
    exists l s', lf_get_slot_leaders s from to = Done (Ok l, s') /\
      (forall x, x ∈ l -> from <= leader_slot x <= to /\ leader_pubkey x = leader (leader_slot x)) /\
      (forall slot, from <= slot < to -> mkLeaderData slot (leader slot) ∈ l).

(** ** Slot leaders of one and of two epochs *)

Lemma extend_spec limit l sched idx :
  0 <= limit < u64_size ->
  let l' := l ++ take (Z.to_nat (limit - Z.of_nat (length l))) (drop (Z.to_nat idx) sched) in
  extend_slot_from_epoch (limit, l) sched idx = (wrap_u64 (limit - Z.of_nat (length l')), l').
Proof.
  intros Hl. unfold extend_slot_from_epoch, saturating_sub_u64.
  by replace (Z.to_nat (Z.max 0 (limit - Z.of_nat (length l)))) with
     (Z.to_nat (limit - Z.of_nat (length l))) by lia.
Qed.

Lemma collect_one limit d idx :
  0 <= limit < u64_size ->
  collect_leaders limit [(d, idx)] = take (Z.to_nat limit) (drop (Z.to_nat idx) (schedule_by_slot d)).
Proof.
  intros Hl. unfold collect_leaders. cbn [foldl]. rewrite extend_spec by done. simpl.
  by rewrite Z.sub_0_r.
Qed.

Lemma collect_two limit d1 i1 d2 i2 :
  0 <= limit < u64_size ->
  let l1 := take (Z.to_nat limit) (drop (Z.to_nat i1) (schedule_by_slot d1)) in
  collect_leaders limit [(d1, i1); (d2, i2)] =
  l1 ++ take (Z.to_nat (limit - 2 * Z.of_nat (length l1))) (drop (Z.to_nat i2) (schedule_by_slot d2)).
Proof.
  intros Hl l1. unfold collect_leaders. cbn [foldl fst snd].
  rewrite extend_spec by done. simpl length. rewrite Z.sub_0_r, app_nil_l. fold l1.
  assert (Z.of_nat (length l1) <= limit) by (unfold l1; rewrite length_take; lia).
  rewrite wrap_u64_id by (unfold in_u64; lia). rewrite extend_spec by lia. simpl.
  do 2 f_equal. lia.
Qed.

(** ** The queue of the JSON getter holds consecutive slots *)

Section json_getter_ok.
Context (leader : Slot -> Pubkey).

Definition leader_at (slot : Slot) : LeaderData := mkLeaderData slot (leader slot).

(** Leaders of [n] consecutive slots from [a]. *)
Definition leaders_run (a n : Z) : list LeaderData := leader_at <$> seqZ a n.

(** The documented answer of [getSlotLeaders]: one leader per slot. *)
Definition rpc_leaders_ok (rpc : Slot -> Z -> result LeadersError (list Pubkey)) : Prop :=
  forall start limit, 0 <= start -> 0 <= limit -> rpc start limit = Ok (leader <$> seqZ start limit).

Lemma leaders_run_elem a n x :
  x ∈ leaders_run a n <-> a <= leader_slot x < a + n /\ leader_pubkey x = leader (leader_slot x).
Proof.
  unfold leaders_run. rewrite list_elem_of_fmap. split.
  - intros (s & -> & Hs). apply elem_of_seqZ in Hs. simpl. split; [lia|done].
  - intros [Hs Hp]. exists (leader_slot x). rewrite elem_of_seqZ. split; [|lia].
    destruct x as [s p]. simpl in *. by subst.
Qed.

Lemma leaders_run_app a n m :
  0 <= n -> 0 <= m -> leaders_run a (n + m) = leaders_run a n ++ leaders_run (a + n) m.
Proof. intros. unfold leaders_run. by rewrite seqZ_app, fmap_app by lia. Qed.

Lemma leaders_run_cons a n : 0 < n -> leaders_run a n = leader_at a :: leaders_run (a + 1) (n - 1).
Proof.
  intros. unfold leaders_run. rewrite seqZ_cons by lia. simpl. do 3 f_equal; lia.
Qed.

Lemma leaders_run_nil a n : n <= 0 -> leaders_run a n = [].
Proof. intros. unfold leaders_run. by rewrite seqZ_nil by lia. Qed.

Lemma leaders_run_last a n : 0 < n -> last (leaders_run a n) = Some (leader_at (a + n - 1)).
Proof.
  intros. replace n with ((n - 1) + 1) at 1 by lia.
  rewrite leaders_run_app, (leaders_run_cons (a + (n - 1))) by lia.
  rewrite (leaders_run_nil (a + (n - 1) + 1)) by lia. rewrite last_snoc. do 2 f_equal. lia.
Qed.

Lemma pop_old_leaders_run b a n :
  pop_old_leaders b (leaders_run a n) =
  leaders_run (a + Z.min (Z.max 0 n) (Z.max 0 (b - a))) (n - Z.min (Z.max 0 n) (Z.max 0 (b - a))).
Proof.
  assert (exists k, n <= Z.of_nat k) as [k Hk] by (exists (Z.to_nat n); lia).
  revert a n Hk. induction k as [|k IH]; intros a n Hk.
  - rewrite !leaders_run_nil by lia. done.
  - destruct (decide (n <= 0)); [by rewrite !leaders_run_nil by lia|].
    rewrite leaders_run_cons by lia. simpl. destruct (a <? b) eqn:?; bool_lia.
    + rewrite IH by lia. f_equal; lia.
    + rewrite <- leaders_run_cons by lia. f_equal; lia.
Qed.

Lemma push_leaders_ok first i n (q : list LeaderData) l :
  (forall j, (j < n)%nat -> l !! (i + j)%nat = Some (leader (first + Z.of_nat (i + j)))) ->
  push_leaders l first i n q = Done (q ++ leaders_run (first + Z.of_nat i) (Z.of_nat n)).
Proof.
  revert i q. induction n as [|n IH]; intros i q Hl; cbn [push_leaders].
  - by rewrite leaders_run_nil, app_nil_r by lia.
  - pose proof (Hl 0%nat ltac:(lia)) as H0. rewrite Nat.add_0_r in H0. rewrite H0. simpl.
    rewrite IH.
    + rewrite (leaders_run_cons _ (Z.of_nat (S n))), <- app_assoc by lia. cbn [app].
      replace (first + Z.of_nat i + 1) with (first + Z.of_nat (S i)) by lia.
      by replace (Z.of_nat (S n) - 1) with (Z.of_nat n) by lia.
    + intros j Hj. specialize (Hl (S j)). replace (S i + j)%nat with (i + S j)%nat by lia.
      apply Hl. lia.
Qed.

Context (rpc : Slot -> Z -> result LeadersError (list Pubkey)).
Hypothesis rpc_ok : rpc_leaders_ok rpc.

(** The getter's queue is a run of consecutive slots in range, none of them
    behind which a requested slot would be missed. *)
Definition getter_ok (g : JsonRpcLeaderGetter) (from : Slot) : Prop :=
  0 <= leaders_to_cache_count g /\ 0 <= old_slot_leader_cache_size g /\
  0 <= from /\ from + leaders_to_cache_count g < u64_size /\
  exists a n, leader_queue g = leaders_run a n /\ 0 <= n /\
    (0 < n -> 0 <= a <= from /\ a + n < u64_size).

Lemma update_leader_schedule_ok g from :
  getter_ok g from ->
  exists a n, update_leader_schedule rpc g from = Done (Ok tt, set_queue g (leaders_run a n)) /\
    a <= from /\ from + leaders_to_cache_count g <= a + n.
Proof.
  intros (Hc & Ho & Hf & Hmax & a & n & Hq & Hn & Ha).
  unfold update_leader_schedule. rewrite Hq, pop_old_leaders_run, (wrap_u64_id (from + _)) by (unfold in_u64; lia).
  set (d := Z.min (Z.max 0 n) (Z.max 0 (saturating_sub_u64 from (old_slot_leader_cache_size g) - a))).
  assert (exists a' n', leaders_run (a + d) (n - d) = leaders_run a' n' /\ 0 <= n' /\ a' <= from /\
    0 <= a' /\ a' + n' < u64_size /\ (n' = 0 -> a' = from)) as (a' & n' & -> & Hn' & Ha' & Ha0 & Hr & Hz).
  { unfold d, saturating_sub_u64. destruct (decide (n - d = 0)) as [Hnd|Hnd].
    - exists from, 0. rewrite !leaders_run_nil by (unfold d, saturating_sub_u64 in Hnd; lia). split; [done|]. lia.
    - exists (a + d), (n - d). unfold d, saturating_sub_u64 in *. split; [done|]. lia. }
  assert ((match last (leaders_run a' n') with Some x => (leader_slot x +64 1)%rpc | None => from end) = a' + n') as ->.
  { destruct (decide (n' = 0)) as [->|].
    - rewrite leaders_run_nil by lia. simpl. lia.
    - rewrite leaders_run_last by lia. simpl. rewrite wrap_u64_id; unfold in_u64; lia. }
  destruct (a' + n' <=? _) eqn:Hle; bool_lia.
  - unfold saturating_sub_u64. rewrite Z.max_r, rpc_ok by lia.
    set (m := from + leaders_to_cache_count g - (a' + n')).
    rewrite push_leaders_ok.
    + exists a', (n' + Z.of_nat (Z.to_nat m)). rewrite leaders_run_app, Z.add_0_r by lia.
      split_and!; [done|lia|lia].
    + intros j Hj. rewrite Nat.add_0_l, list_lookup_fmap, lookup_seqZ_lt by lia. done.
  - exists a', n'. split_and!; [done|lia|lia].
Qed.

(** Slots the getter accepts. *)
Definition getter_valid (g : JsonRpcLeaderGetter) (from to : Slot) : Prop :=
  getter_ok g from /\ from < to <= from + leaders_to_cache_count g.

Lemma json_get_complete g from to :
  getter_valid g from to ->
  exists l g', json_get_slot_leaders rpc g from to = Done (Ok l, g') /\
    (forall x, x ∈ l -> from <= leader_slot x <= to /\ leader_pubkey x = leader (leader_slot x)) /\
    (forall slot, from <= slot <= to -> slot < from + leaders_to_cache_count g -> leader_at slot ∈ l).
Proof.
  intros (Hg & Hto). unfold json_get_slot_leaders.
  assert ((to <=? from) || (leaders_to_cache_count g <? saturating_sub_u64 to from) = false) as ->.
  { unfold saturating_sub_u64. apply orb_false_iff. split; [apply Z.leb_gt; lia|apply Z.ltb_ge; lia]. }
  assert (Hans : forall a n g', leader_queue g' = leaders_run a n ->
    a <= from -> to < a + n \/ from + leaders_to_cache_count g <= a + n ->
    let l := filter (fun x => from <= leader_slot x /\ leader_slot x <= to) (leader_queue g') in
    (forall x, x ∈ l -> from <= leader_slot x <= to /\ leader_pubkey x = leader (leader_slot x)) /\
    (forall slot, from <= slot <= to -> slot < from + leaders_to_cache_count g -> leader_at slot ∈ l)).
  { intros a n g' -> Ha Hn l. unfold l. split.
    - intros x [Hx [_ Hp]%leaders_run_elem]%list_elem_of_filter. done.
    - intros slot Hs Hc. apply list_elem_of_filter. simpl. rewrite leaders_run_elem. simpl.
      split; [lia|]. split; [lia|done]. }
  destruct (match head (leader_queue g) with Some _ => _ | None => _ end) eqn:Hr; simpl.
  - destruct (update_leader_schedule_ok g from Hg) as (a & n & -> & Ha & Hn). simpl.
    eexists _, _. split; [done|]. by apply (Hans a n (set_queue g (leaders_run a n)) eq_refl); [|right].
  - eexists _, g. split; [done|].
    destruct Hg as (_ & _ & _ & _ & a & n & Hq & Hn & Ha). rewrite Hq in Hr.
    destruct (decide (n = 0)) as [->|]; [by rewrite leaders_run_nil in Hr by lia|].
    rewrite leaders_run_last, leaders_run_cons in Hr by lia. simpl in Hr.
    apply orb_false_iff in Hr as [Hr1 Hr2]. bool_lia. apply (Hans a n g Hq); lia.
Qed.

#[export] Instance json_fetcher : LeaderFetcher JsonRpcLeaderGetter :=
  { lf_get_slot_leaders := json_get_slot_leaders rpc }.

#[export] Instance json_fetcher_ok : LeaderFetcherOk JsonRpcLeaderGetter leader getter_valid.
Proof.
  intros g from to Hv. destruct (json_get_complete g from to Hv) as (l & g' & ? & ? & Hc).
  exists l, g'. split_and!; [done..|]. intros slot Hs. apply Hc; [lia|]. destruct Hv. lia.
Qed.
End json_getter_ok.

(** ** The gRPC getter inside one epoch *)

(** The schedule stored for an epoch names the leader of each of its slots. *)
Definition schedule_ok (es : EpochSchedule) (leader : Slot -> Pubkey) (data : LeaderScheduleData) : Prop :=
  schedule_by_slot data =
  (fun i => leader (es_get_first_slot_in_epoch es (lsd_epoch data) + i)) <$>
    seqZ 0 (es_get_slots_in_epoch es (lsd_epoch data)).

(** Requests inside the stored current epoch. *)
Definition grpc_valid (leader : Slot -> Pubkey) (s : CalculatedSchedule * EpochSchedule)
    (from to : Slot) : Prop :=
  let '(cs, es) := s in
  EpochScheduleLaws es /\ 0 <= from <= to /\ to < u64_size /\ to - from <= MAX_GET_SLOT_LEADERS /\
  exists data, cs_current cs = Some data /\ schedule_ok es leader data /\
    0 <= lsd_epoch data < u64_max /\
    ep_epoch (get_epoch_at_slot es from) = lsd_epoch data /\
    ep_epoch (get_epoch_at_slot es to) = lsd_epoch data /\
    (forall d, cs_next cs = Some d -> lsd_epoch d <> lsd_epoch data).

#[export] Instance grpc_fetcher : LeaderFetcher (CalculatedSchedule * EpochSchedule) :=
  { lf_get_slot_leaders s from to := Done (grpc_get_slot_leaders s.1 s.2 from to, s) }.

Lemma take_drop_seqZ {A} (f : Z -> A) a n i k :
  0 <= i -> 0 <= k -> i + k <= n ->
  take (Z.to_nat k) (drop (Z.to_nat i) (f <$> seqZ a n)) = f <$> seqZ (a + i) k.
Proof.
  intros Hi Hk Hn. replace n with (i + (k + (n - i - k))) by lia.
  rewrite (seqZ_app a i), (seqZ_app (a + i) k), !fmap_app by lia.
  rewrite drop_app_length' by (rewrite length_fmap, length_seqZ; lia).
  by rewrite take_app_length' by (rewrite length_fmap, length_seqZ; lia).
Qed.

Lemma imap_seqZ {A B} (f : Z -> A) (g : Z -> A -> B) a k :
  imap (fun i x => g (a + Z.of_nat i) x) (f <$> seqZ a k) = (fun z => g z (f z)) <$> seqZ a k.
Proof.
  apply list_eq. intros i. rewrite list_lookup_imap, !list_lookup_fmap.
  destruct (seqZ a k !! i) as [z|] eqn:Hz; [|done]. simpl.
  apply lookup_seqZ in Hz as [-> _]. done.
Qed.

Lemma grpc_get_complete leader cs es from to :
  grpc_valid leader (cs, es) from to ->
  grpc_get_slot_leaders cs es from to = Ok (leaders_run leader from (to - from)).
Proof.
  intros (Hlaws & Hft & Hto & Hlim & data & Hcur & Hsched & Hep & Hef & Het & Hnext).
  unfold grpc_get_slot_leaders. rewrite Hef, Het, Hcur. simpl.
  rewrite wrap_u64_id by (unfold in_u64, u64_max, u64_size in *; lia).
  rewrite !(proj2 (Z.ltb_ge _ _)) by lia. simpl.
  unfold get_slot_leaders, saturating_sub_u64. rewrite Z.max_r, (proj2 (Z.ltb_ge _ _)) by lia.
  pose proof (es_index from) as Hfrom. pose proof (es_index to) as Hto'.
  unfold get_epoch_at_slot in Hef, Het.
  destruct (es_get_epoch_and_slot_index es from) as [e1 i1].
  destruct (es_get_epoch_and_slot_index es to) as [e2 i2]. simpl in Hef, Het. subst e1 e2.
  specialize (Hfrom ltac:(lia)) as (_ & Hi1 & Hs1). specialize (Hto' ltac:(lia)) as (_ & Hi2 & Hs2).
  assert (Hl1 : take (Z.to_nat (to - from)) (drop (Z.to_nat i1) (schedule_by_slot data)) =
                leader <$> seqZ from (to - from)).
  { rewrite Hsched, take_drop_seqZ by lia. apply list_eq. intros i. rewrite !list_lookup_fmap.
    destruct (decide (Z.of_nat i < to - from)).
    - rewrite !lookup_seqZ_lt by lia. simpl. do 2 f_equal. lia.
    - by rewrite !lookup_seqZ_ge by lia. }
  assert (Hcol : collect_leaders (to - from) (schedules_found cs (lsd_epoch data) i1) =
                 leader <$> seqZ from (to - from) /\ schedules_found cs (lsd_epoch data) i1 <> []).
  { unfold schedules_found. simpl. rewrite Hcur. simpl. rewrite Z.eqb_refl.
    destruct (cs_next cs) as [d|] eqn:Hn; simpl.
    - rewrite (proj2 (Z.eqb_neq _ _)) by auto. destruct (_ =? _).
      + split; [|done]. rewrite collect_two by (unfold u64_size in *; lia). rewrite Hl1.
        rewrite length_fmap, length_seqZ.
        replace (Z.to_nat (to - from - 2 * Z.of_nat (Z.to_nat (to - from)))) with 0%nat by lia.
        by rewrite take_0, app_nil_r.
      + split; [|done]. by rewrite collect_one by (unfold u64_size in *; lia).
    - split; [|done]. by rewrite collect_one by (unfold u64_size in *; lia). }
  destruct Hcol as [Hcol Hne]. destruct (schedules_found cs (lsd_epoch data) i1) eqn:Hf; [done|].
  rewrite Hcol. simpl. unfold leaders_run, leader_at. f_equal.
  rewrite <- (imap_seqZ leader mkLeaderData). apply imap_ext. intros i x Hx.
  apply lookup_lt_Some in Hx. rewrite length_fmap, length_seqZ in Hx.
  rewrite wrap_u64_id; [done|]. unfold in_u64. lia.
Qed.

#[export] Instance grpc_fetcher_ok leader :
  LeaderFetcherOk (CalculatedSchedule * EpochSchedule) leader (grpc_valid leader).
Proof.
  intros [cs es] from to Hv. simpl. rewrite (grpc_get_complete leader _ _ _ _ Hv).
  eexists _, _. split; [done|]. destruct Hv as (_ & Hft & _). split.
  - intros x [Hx ?]%leaders_run_elem. split; [lia|done].
  - intros slot Hs. apply leaders_run_elem. simpl. split; [lia|done].
Qed.

(** ** Properties *)

(** A request for slot leaders that stays inside the epoch whose schedule is
    stored is answered with the leaders of exactly the requested slots, in
    order, cut where the schedule ends. *)
Theorem get_slot_leaders_one_epoch (es : EpochSchedule) data other start limit :
  0 <= limit <= MAX_GET_SLOT_LEADERS ->
  lsd_epoch data = (es_get_epoch_and_slot_index es start).1 ->
  (forall d, other = Some d -> lsd_epoch d <> lsd_epoch data /\ lsd_epoch d <> (lsd_epoch data +64 1)%rpc) ->
  get_slot_leaders (mkCalculatedSchedule (Some data) other) start limit es =
  Ok (take (Z.to_nat limit)
       (drop (Z.to_nat (es_get_epoch_and_slot_index es start).2) (schedule_by_slot data))).
Proof.
  intros Hl He Ho. unfold get_slot_leaders, MAX_GET_SLOT_LEADERS in *.
  rewrite (proj2 (Z.ltb_ge _ _)) by lia.
  destruct (es_get_epoch_and_slot_index es start) as [epoch idx]. simpl in He. subst epoch.
  assert (schedules_found (mkCalculatedSchedule (Some data) other) (lsd_epoch data) idx = [(data, idx)]) as ->.
  { unfold schedules_found. simpl. rewrite Z.eqb_refl. destruct other as [d|]; [|done]. simpl.
    destruct (Ho d eq_refl) as [H1 H2]. by rewrite !(proj2 (Z.eqb_neq _ _)) by done. }
  by rewrite collect_one by (unfold u64_size; lia).
Qed.

Definition sample_schedule (epoch : Z) (leaders : list Z) : LeaderScheduleData :=
  mkLeaderScheduleData ∅ leaders epoch.

Lemma get_slot_leaders_one_epoch_witness :
  get_slot_leaders (mkCalculatedSchedule (Some (sample_schedule 2 [1; 2; 3; 4; 5])) None) 11 3
    (fixed_epoch_schedule 5) = Ok [2; 3; 4].
Proof. apply (get_slot_leaders_one_epoch (fixed_epoch_schedule 5)); vm_compute; done. Defined.

(** A request that runs into the next epoch is answered short: the closure
    subtracts the number of leaders collected so far from a limit it has
    already reduced, so the next epoch contributes [limit - 2 * n] leaders
    where [n] came from the current one and [limit - n] are wanted. *)
Theorem get_slot_leaders_crossing_short (es : EpochSchedule) cur next start limit :
  let '(epoch, idx) := es_get_epoch_and_slot_index es start in
  let from_current := drop (Z.to_nat idx) (schedule_by_slot cur) in
  let n := Z.of_nat (length from_current) in
  0 < n < limit -> limit <= MAX_GET_SLOT_LEADERS -> 0 <= epoch < u64_max ->
  lsd_epoch cur = epoch -> lsd_epoch next = epoch + 1 ->
  limit <= Z.of_nat (length (schedule_by_slot next)) ->
  get_slot_leaders (mkCalculatedSchedule (Some cur) (Some next)) start limit es =
    Ok (from_current ++ take (Z.to_nat (limit - 2 * n)) (schedule_by_slot next)) /\
  Z.of_nat (length (from_current ++ take (Z.to_nat (limit - 2 * n)) (schedule_by_slot next))) < limit.
Proof.
  unfold get_slot_leaders, MAX_GET_SLOT_LEADERS.
  destruct (es_get_epoch_and_slot_index es start) as [epoch idx]. intros Hn Hl Hep He He' Hnext.
  rewrite (proj2 (Z.ltb_ge _ _)) by lia.
  assert (schedules_found (mkCalculatedSchedule (Some cur) (Some next)) epoch idx =
          [(cur, idx); (next, 0)]) as ->.
  { unfold schedules_found. simpl. rewrite He, He', Z.eqb_refl, (proj2 (Z.eqb_neq _ _)) by lia.
    by rewrite wrap_u64_id, Z.eqb_refl by (unfold in_u64, u64_max, u64_size in *; lia). }
  rewrite collect_two, take_ge, drop_0 by (unfold u64_size; lia).
  split; [done|]. rewrite length_app, length_take. lia.
Qed.

Lemma get_slot_leaders_crossing_short_witness :
  get_slot_leaders (mkCalculatedSchedule (Some (sample_schedule 2 [1; 2; 3; 4; 5]))
                                         (Some (sample_schedule 3 [6; 7; 8; 9; 10]))) 13 5
    (fixed_epoch_schedule 5) = Ok ([4; 5] ++ [6]) /\ 3 < 5.
Proof.
  apply (get_slot_leaders_crossing_short (fixed_epoch_schedule 5)
           (sample_schedule 2 [1; 2; 3; 4; 5]) (sample_schedule 3 [6; 7; 8; 9; 10]) 13 5);
    vm_compute; intuition discriminate.
Defined.

(** The JSON leader getter, fed by an RPC node that returns one leader per
    slot, answers every accepted request that does not start before its cache
    with the right leader for each slot of the half-open range, and for the
    last slot too when the range is shorter than the cache. *)
Theorem json_getter_answers leader rpc g from to :
  rpc_leaders_ok leader rpc -> getter_valid leader g from to ->
  exists l g', json_get_slot_leaders rpc g from to = Done (Ok l, g') /\
    (forall x, x ∈ l -> from <= leader_slot x <= to /\ leader_pubkey x = leader (leader_slot x)) /\
    (forall slot, from <= slot <= to -> slot < from + leaders_to_cache_count g ->
       mkLeaderData slot (leader slot) ∈ l).
Proof. intros Hrpc Hv. exact (json_get_complete leader rpc Hrpc g from to Hv). Qed.

Definition sample_rpc (start limit : Z) : result LeadersError (list Pubkey) :=
  Ok ((fun s => s / 4) <$> seqZ start limit).

Lemma json_getter_answers_witness :
  exists l g', json_get_slot_leaders sample_rpc (json_getter_new 8 2) 100 104 = Done (Ok l, g') /\
    (forall x, x ∈ l -> 100 <= leader_slot x <= 104 /\ leader_pubkey x = leader_slot x / 4) /\
    (forall slot, 100 <= slot <= 104 -> slot < 100 + 8 -> mkLeaderData slot (slot / 4) ∈ l).
Proof.
  apply (json_getter_answers (fun s => s / 4) sample_rpc (json_getter_new 8 2)).
  - intros ????. reflexivity.
  - split; [|simpl; lia]. unfold getter_ok. simpl. repeat (split; [unfold u64_size; lia|]).
    exists 0, 0. split; [done|]. lia.
Defined.

(** The gRPC leader getter answers a request inside the current epoch with
    the leader of every slot from [from] up to but not including [to], in
    order.  (The trait asks for [to] as well.) *)
Theorem grpc_getter_answers leader cs es from to :
  grpc_valid leader (cs, es) from to ->
  grpc_get_slot_leaders cs es from to =
  Ok ((fun slot => mkLeaderData slot (leader slot)) <$> seqZ from (to - from)).
Proof. apply grpc_get_complete. Qed.

Lemma grpc_getter_answers_witness :
  grpc_get_slot_leaders (mkCalculatedSchedule (Some (sample_schedule 2 [10; 11; 12; 13; 14])) None)
    (fixed_epoch_schedule 5) 11 13 =
  Ok ((fun slot => mkLeaderData slot slot) <$> seqZ 11 2).
Proof.
  apply (grpc_getter_answers (fun s => s)). split; [apply _|].
  unfold u64_size, MAX_GET_SLOT_LEADERS. repeat (split; [lia|]).
  exists (sample_schedule 2 [10; 11; 12; 13; 14]). vm_compute. intuition congruence.
Defined.
