(* ===== verification/DataCache.v ===== *)
(** * The data cache and the service that fills it

    core/src/stores/{tx_store,subscription_store,cluster_info_store,data_cache}.rs,
    core/src/structures/identity_stakes.rs and
    services/src/data_caching_service.rs.

    Each store is a value and each of its methods a function.  The tasks of
    the caching service are loops over broadcast channels; [caching_step] is
    the body of all of them, one event at a time, and the messages a step
    emits are the notifications it sends to subscribers. *)

From S2P Require Import Prelude Types BlockInfoStore LeaderSchedule.

(** ** The transaction store *)

Inductive TransactionConfirmationStatus := TcsProcessed | TcsConfirmed | TcsFinalized.

(** The SDK's [TransactionStatus]. *)
Record TransactionStatus := mkTransactionStatus {
  ts_slot : Slot;
  ts_confirmations : option Z;
  ts_status : result string unit;
  ts_err : option string;
  ts_confirmation_status : option TransactionConfirmationStatus;
}.

(** [TxProps], core/src/stores/tx_store.rs:8-13. *)
Record TxProps := mkTxProps {
  txp_status : option TransactionStatus;
  txp_last_valid_blockheight : Z;
  txp_sent_by_lite_rpc : bool;
}.

(** [TxStore::update_status], core/src/stores/tx_store.rs:21-41. *)
Definition txs_update_status (store : gmap Signature TxProps) (sig : Signature)
    (status : TransactionStatus) (last_valid_blockheight : Z) : bool * gmap Signature TxProps :=
  match store !! sig with
  | Some meta =>
      (txp_sent_by_lite_rpc meta,
       <[sig := mkTxProps (Some status) (txp_last_valid_blockheight meta) (txp_sent_by_lite_rpc meta)]> store)
  | None => (false, <[sig := mkTxProps (Some status) last_valid_blockheight false]> store)
  end.

(** [TxStore::insert], core/src/stores/tx_store.rs:43-45. *)
Definition txs_insert (store : gmap Signature TxProps) (sig : Signature) (props : TxProps) :
    option TxProps * gmap Signature TxProps := (store !! sig, <[sig := props]> store).

(** [TxStore::contains_key], core/src/stores/tx_store.rs:55-57. *)
Definition txs_contains_key (store : gmap Signature TxProps) (sig : Signature) : bool :=
  bool_decide (is_Some (store !! sig)).

(** [TxStore::get], core/src/stores/tx_store.rs:59-61. *)
Definition txs_get (store : gmap Signature TxProps) (sig : Signature) : option TxProps := store !! sig.

(** [TxStore::clean], core/src/stores/tx_store.rs:63-71. *)
Definition txs_clean (store : gmap Signature TxProps) (current_finalized_blockheight : Z) :
    gmap Signature TxProps :=
  filter (fun kv => current_finalized_blockheight <= txp_last_valid_blockheight kv.2) store.

(** [TxStore::is_transaction_confirmed], core/src/stores/tx_store.rs:73-78. *)
Definition is_transaction_confirmed (store : gmap Signature TxProps) (sig : Signature) : bool :=
  match store !! sig with
  | Some props => bool_decide (is_Some (txp_status props))
  | None => false
  end.

(** ** The subscription store *)

(** A subscriber's sink is the handle of its connection; [Instant]s are points
    of the monotonic clock. *)
Record SignatureNotification := mkSignatureNotification {
  sn_sink : Z;
  sn_slot : Slot;
  sn_err : option string;
}.

(** [SubscriptionStore], core/src/stores/subscription_store.rs:10-14. *)
Abbreviation SubscriptionStore := (gmap (Signature * Commitment) (Z * Z)).

(** [SubscriptionStore::signature_subscribe], core/src/stores/subscription_store.rs:17-27. *)
Definition signature_subscribe (subs : SubscriptionStore) (sig : Signature) (c : CommitmentConfig)
    (sink now : Z) : SubscriptionStore := <[(sig, commitment_of_config c) := (sink, now)]> subs.

(** [SubscriptionStore::signature_un_subscribe], core/src/stores/subscription_store.rs:29-36. *)
Definition signature_un_subscribe (subs : SubscriptionStore) (sig : Signature) (c : CommitmentConfig) :
    SubscriptionStore := delete (sig, commitment_of_config c) subs.

(** [SubscriptionStore::notify], core/src/stores/subscription_store.rs:38-59. *)
Definition subs_notify (subs : SubscriptionStore) (slot : Slot) (tx : TransactionInfo)
    (c : CommitmentConfig) : SubscriptionStore * list SignatureNotification :=
  let key := (ti_signature tx, commitment_of_config c) in
  match subs !! key with
  | Some (sink, _) => (delete key subs, [mkSignatureNotification sink slot (ti_err tx)])
  | None => (subs, [])
  end.

(** [SubscriptionStore::clean], core/src/stores/subscription_store.rs:61-64. *)
Definition subs_clean (sink_closed : Z -> bool) (subs : SubscriptionStore) (now ttl : Z) :
    SubscriptionStore :=
  filter (fun kv => sink_closed kv.2.1 = false /\ now - kv.2.2 < ttl) subs.

(** [SubscriptionStore::number_of_subscribers], core/src/stores/subscription_store.rs:66-68. *)
Definition number_of_subscribers (subs : SubscriptionStore) : nat := size subs.

(** ** Slots, nodes and stakes *)

(** [SlotCache], core/src/stores/data_cache.rs:25-29. *)
Record SlotCache := mkSlotCache { current_slot : Slot; estimated_slot : Slot }.

(** [SlotCache::new], core/src/stores/data_cache.rs:100-105. *)
Definition slot_cache_new (slot : Slot) : SlotCache := mkSlotCache slot slot.

(** [SlotCache::update], core/src/stores/data_cache.rs:106-124. *)
Definition slot_cache_update (n : SlotNotification) : SlotCache :=
  mkSlotCache (processed_slot n) (estimated_processed_slot n).

(** The fields of the RPC client's [RpcContactInfo] that the sources read. *)
Record RpcContactInfo := mkRpcContactInfo {
  rci_pubkey : string;
  rci_tpu_quic : option (Z * Z);
  rci_tpu : option (Z * Z);
}.

(** [ClusterInfo::load_cluster_info], core/src/stores/cluster_info_store.rs:14-28. *)
Definition load_cluster_info (pubkey_from_str : string -> option Pubkey)
    (nodes : gmap Pubkey RpcContactInfo) (cluster_nodes : list RpcContactInfo) :
    gmap Pubkey RpcContactInfo :=
  foldl (fun m x => match pubkey_from_str (rci_pubkey x) with
                    | Some pubkey => <[pubkey := x]> m
                    | None => m
                    end) nodes cluster_nodes.

(** The streamer's [ConnectionPeerType]. *)
Inductive ConnectionPeerType := Unstaked | Staked (stake : Z).

(** [IdentityStakesData], core/src/structures/identity_stakes.rs:9-28. *)
Record IdentityStakesData := mkIdentityStakesData {
  isd_peer_type : ConnectionPeerType;
  isd_stakes : Z;
  isd_total_stakes : Z;
  isd_min_stakes : Z;
  isd_max_stakes : Z;
}.

Definition identity_stakes_default : IdentityStakesData := mkIdentityStakesData Unstaked 0 0 0 0.

(** One vote account of the RPC client's [RpcVoteAccountStatus]. *)
Record RpcVoteAccountInfo := mkRpcVoteAccountInfo {
  rvi_vote_pubkey : string;
  rvi_node_pubkey : string;
  rvi_activated_stake : Z;
  rvi_commission : Z;
  rvi_epoch_vote_account : bool;
  rvi_epoch_credits : list (Z * Z * Z);
  rvi_last_vote : Slot;
  rvi_root_slot : Slot;
}.

Record RpcVoteAccountStatus := mkRpcVoteAccountStatus {
  rvs_current : list RpcVoteAccountInfo;
  rvs_delinquent : list RpcVoteAccountInfo;
}.

(** [collect] into a [HashMap]: the last pair of a key wins. *)
Definition map_of_stakes (va : RpcVoteAccountStatus) : gmap string Z :=
  foldl (fun m x => <[rvi_node_pubkey x := rvi_activated_stake x]> m) ∅
    (rvs_current va ++ rvs_delinquent va).

Definition list_min (l : list Z) : Z := match l with [] => 0 | x :: l' => foldr Z.min x l' end.
Definition list_max (l : list Z) : Z := match l with [] => 0 | x :: l' => foldr Z.max x l' end.

(** [IdentityStakes::update_stakes_for_identity],
    core/src/structures/identity_stakes.rs:48-75. *)
Definition update_stakes_for_identity (identity : string) (data : IdentityStakesData)
    (va : RpcVoteAccountStatus) : IdentityStakesData :=
  let stakes_map := map_of_stakes va in
  match stakes_map !! identity with
  | Some stakes =>
      let only_stakes := (map_to_list stakes_map).*2 in
      mkIdentityStakesData (Staked stakes) stakes (wrap_u64 (list_sum only_stakes))
        (list_min only_stakes) (list_max only_stakes)
  | None => data
  end.

(** ** The data cache *)

(** [DataCache], core/src/stores/data_cache.rs:31-42. *)
Record DataCache := mkDataCache {
  block_information_store : BlockInformationStore;
  txs : gmap Signature TxProps;
  tx_subs : SubscriptionStore;
  slot_cache : SlotCache;
  identity_stakes : IdentityStakesData;
  cluster_info : gmap Pubkey RpcContactInfo;
  epoch_data : EpochSchedule;
  leader_schedule : CalculatedSchedule;
}.

Definition set_bis (d : DataCache) s := mkDataCache s (txs d) (tx_subs d) (slot_cache d)
  (identity_stakes d) (cluster_info d) (epoch_data d) (leader_schedule d).
Definition set_txs (d : DataCache) t := mkDataCache (block_information_store d) t (tx_subs d)
  (slot_cache d) (identity_stakes d) (cluster_info d) (epoch_data d) (leader_schedule d).
Definition set_subs (d : DataCache) s := mkDataCache (block_information_store d) (txs d) s
  (slot_cache d) (identity_stakes d) (cluster_info d) (epoch_data d) (leader_schedule d).
Definition set_slots (d : DataCache) s := mkDataCache (block_information_store d) (txs d) (tx_subs d)
  s (identity_stakes d) (cluster_info d) (epoch_data d) (leader_schedule d).
Definition set_stakes (d : DataCache) s := mkDataCache (block_information_store d) (txs d) (tx_subs d)
  (slot_cache d) s (cluster_info d) (epoch_data d) (leader_schedule d).
Definition set_nodes (d : DataCache) n := mkDataCache (block_information_store d) (txs d) (tx_subs d)
  (slot_cache d) (identity_stakes d) n (epoch_data d) (leader_schedule d).

(** [DataCache::clean], core/src/stores/data_cache.rs:45-54. *)
Definition data_cache_clean (sink_closed : Z -> bool) (d : DataCache) (now ttl : Z) : DataCache :=
  let block_info := get_latest_block_information (block_information_store d) cc_finalized in
  let d1 := set_bis d (bis_clean (block_information_store d)) in
  let d2 := set_txs d1 (txs_clean (txs d1) (binf_block_height block_info)) in
  set_subs d2 (subs_clean sink_closed (tx_subs d2) now ttl).

(** [DataCache::check_if_confirmed_or_expired_blockheight],
    core/src/stores/data_cache.rs:56-65. *)
Definition check_if_confirmed_or_expired_blockheight (d : DataCache) (info : SentTransactionInfo) : bool :=
  (si_last_valid_block_height info <? get_last_blockheight (block_information_store d)) ||
  is_transaction_confirmed (txs d) (si_signature info).

(** [DataCache::get_current_epoch], core/src/stores/data_cache.rs:67-73. *)
Definition get_current_epoch (d : DataCache) (c : CommitmentConfig) : Epoch :=
  get_epoch_at_slot (epoch_data d)
    (binf_slot (get_latest_block_information (block_information_store d) c)).

(** ** The caching service *)

(** [confirmation_status], services/src/data_caching_service.rs:76-80. *)
Definition confirmation_status_of (c : CommitmentConfig) : TransactionConfirmationStatus :=
  match cc_commitment c with
  | ClFinalized => TcsFinalized
  | ClConfirmed => TcsConfirmed
  | ClProcessed => TcsProcessed
  end.

(** One transaction of a block,
    [DataCachingService::listen], services/src/data_caching_service.rs:82-120. *)
Definition cache_transaction (block : ProducedBlock)
    (acc : DataCache * list SignatureNotification) (tx : TransactionInfo) :
    DataCache * list SignatureNotification :=
  let '(d, out) := acc in
  let b := pb_inner block in
  let last_valid :=
    match get_block_info (block_information_store d) (ti_recent_blockhash tx) with
    | Some info => binf_last_valid_blockheight info
    | None => (pb_block_height b +64 MAX_RECENT_BLOCKHASHES)%rpc
    end in
  let status := mkTransactionStatus (pb_slot b) None
                  (match ti_err tx with Some e => Err e | None => Ok tt end) (ti_err tx)
                  (Some (confirmation_status_of (pb_commitment_config block))) in
  let d1 := set_txs d (txs_update_status (txs d) (ti_signature tx) status last_valid).2 in
  let '(subs', notes) := subs_notify (tx_subs d1) (pb_slot b) tx (pb_commitment_config block) in
  (set_subs d1 subs', out ++ notes).

(** The block task, [DataCachingService::listen],
    services/src/data_caching_service.rs:57-121. *)
Definition cache_block (d : DataCache) (block : ProducedBlock) :
    DataCache * list SignatureNotification :=
  let d1 := set_bis d (add_block (block_information_store d) (from_block block)).2 in
  foldl (cache_transaction block) (d1, []) (pb_transactions (pb_inner block)).

(** What the tasks of the service receive.  [EvLagged] is a receiver that fell
    behind its broadcast channel: the loop logs and continues. *)
Inductive caching_event :=
| EvBlock (b : ProducedBlock)
| EvBlockInfo (b : BlockInfo)
| EvSlot (n : SlotNotification)
| EvClusterInfo (nodes : list RpcContactInfo)
| EvVoteAccounts (va : RpcVoteAccountStatus)
| EvClean (now : Z)
| EvLagged (n : Z).

Section caching_service.
Context (pubkey_from_str : string -> option Pubkey).
Context (identity : string).
Context (sink_closed : Z -> bool) (clean_duration : Z).

(** [DataCachingService::listen], services/src/data_caching_service.rs:45-206. *)
Definition caching_step (d : DataCache) (ev : caching_event) :
    DataCache * list SignatureNotification :=
  match ev with
  | EvBlock b => cache_block d b
  | EvBlockInfo b =>
      (set_bis d (add_block (block_information_store d) (from_block_info b)).2, [])
  | EvSlot n => (set_slots d (slot_cache_update n), [])
  | EvClusterInfo nodes => (set_nodes d (load_cluster_info pubkey_from_str (cluster_info d) nodes), [])
  | EvVoteAccounts va => (set_stakes d (update_stakes_for_identity identity (identity_stakes d) va), [])
  | EvClean now => (data_cache_clean sink_closed d now clean_duration, [])
  | EvLagged _ => (d, [])
  end.
End caching_service.

(** ** Lemmas on the stores *)

Lemma txs_update_status_eq store sig status lv :
  exists props, (txs_update_status store sig status lv).2 !! sig = Some props /\
    txp_status props = Some status /\
    (forall old, store !! sig = Some old ->
       txp_last_valid_blockheight props = txp_last_valid_blockheight old /\
       txp_sent_by_lite_rpc props = txp_sent_by_lite_rpc old).
Proof.
  unfold txs_update_status. destruct (store !! sig) as [old|]; simpl; rewrite lookup_insert_eq;
    eexists; split_and!; try done; intros; by simplify_eq.
Qed.

Lemma txs_update_status_ne store sig sig' status lv :
  sig <> sig' -> (txs_update_status store sig status lv).2 !! sig' = store !! sig'.
Proof. intros. unfold txs_update_status. cases; by rewrite lookup_insert_ne. Qed.

Lemma subs_notify_out subs slot tx c :
  (subs_notify subs slot tx c).2 =
  match subs !! (ti_signature tx, commitment_of_config c) with
  | Some (sink, _) => [mkSignatureNotification sink slot (ti_err tx)]
  | None => []
  end.
Proof. unfold subs_notify. by destruct (subs !! _) as [[]|]. Qed.

Lemma subs_notify_subs subs slot tx c :
  (subs_notify subs slot tx c).1 = delete (ti_signature tx, commitment_of_config c) subs.
Proof.
  unfold subs_notify. destruct (subs !! _) as [[]|] eqn:Hk; [done|]. simpl.
  by rewrite delete_id.
Qed.

(** The transactions of a block touch the transactions and subscriptions only. *)
Lemma cache_transaction_proj block d out tx :
  exists d', cache_transaction block (d, out) tx =
    (d', out ++ (subs_notify (tx_subs d) (pb_slot (pb_inner block)) tx (pb_commitment_config block)).2) /\
    block_information_store d' = block_information_store d /\
    tx_subs d' = delete (ti_signature tx, commitment_of_config (pb_commitment_config block)) (tx_subs d) /\
    exists status lv, txs d' = (txs_update_status (txs d) (ti_signature tx) status lv).2.
Proof.
  unfold cache_transaction. rewrite (surjective_pairing (subs_notify _ _ _ _)).
  eexists. split; [reflexivity|]. split; [done|]. split; [apply subs_notify_subs|]. simpl. eauto.
Qed.

Definition is_confirmed_tx (d : DataCache) (sig : Signature) : Prop :=
  is_transaction_confirmed (txs d) sig = true.

(** ** Settled transactions stay settled *)

(** A sent transaction needs no more replays: it has expired, or a block with
    it was seen and the store will remember it until it expires. *)
Definition settled (info : SentTransactionInfo) (d : DataCache) : Prop :=
  si_last_valid_block_height info < last_blockheight (block_information_store d) \/
  exists props, txs d !! si_signature info = Some props /\ is_Some (txp_status props) /\
    si_last_valid_block_height info <= txp_last_valid_blockheight props.

(** The finalized block is never ahead of the last seen height. *)
Definition height_inv (d : DataCache) : Prop :=
  binf_block_height (latest_finalized_block (block_information_store d)) <=
  last_blockheight (block_information_store d).

Lemma settled_check info d :
  settled info d -> check_if_confirmed_or_expired_blockheight d info = true.
Proof.
  unfold check_if_confirmed_or_expired_blockheight, is_transaction_confirmed, get_last_blockheight.
  intros [Hh|(props & -> & Hs & _)]; apply orb_true_iff.
  - left. by apply Z.ltb_lt.
  - right. by apply bool_decide_eq_true.
Qed.

Lemma height_inv_add s b :
  binf_block_height (latest_finalized_block s) <= last_blockheight s ->
  binf_block_height (latest_finalized_block (add_block s b).2) <= last_blockheight (add_block s b).2.
Proof.
  intros Hi. rewrite add_block_height.
  assert (latest_finalized_block (add_block s b).2 = latest_finalized_block s \/
          latest_finalized_block (add_block s b).2 = b) as [-> | ->]; [|lia|lia].
  pose proof (update_entry_latest) as Hu. unfold add_block.
  change (latest_finalized_block ?s) with (get_latest_block_information s cc_finalized).
  rewrite Hu. unfold set_latest. cases; simpl; unfold get_latest_block_information; simpl; auto.
Qed.

Lemma settled_add info d b :
  settled info d -> settled info (set_bis d (add_block (block_information_store d) b).2).
Proof.
  intros [Hh|Hp]; [left|by right]. simpl. rewrite add_block_height. lia.
Qed.

Lemma cache_transactions_inv (P : DataCache -> Prop) block l d out :
  (forall d out tx, P d -> P (cache_transaction block (d, out) tx).1) ->
  P d -> P (foldl (cache_transaction block) (d, out) l).1.
Proof.
  intros Hstep. revert d out. induction l as [|tx l IH]; intros d out HP; cbn [foldl]; [done|].
  pose proof (Hstep d out tx HP) as H1. destruct (cache_transaction _ _ _) as [d1 out1].
  by apply IH.
Qed.

Lemma cache_transaction_settled info block d out tx :
  settled info d -> settled info (cache_transaction block (d, out) tx).1.
Proof.
  destruct (cache_transaction_proj block d out tx) as (d' & -> & Hb & _ & status & lv & Ht). simpl.
  intros [Hh|(props & Hp & Hs & Hl)]; [left; by rewrite Hb|right]. rewrite Ht.
  destruct (decide (ti_signature tx = si_signature info)) as [He|Hne].
  - destruct (txs_update_status_eq (txs d) (ti_signature tx) status lv) as (p' & Hp' & Hst & Hold).
    rewrite He in *. exists p'. destruct (Hold _ Hp) as [Hlv _]. rewrite Hlv, Hst. eauto.
  - rewrite txs_update_status_ne by done. eauto.
Qed.

Lemma cache_transaction_height block d out tx :
  height_inv d -> height_inv (cache_transaction block (d, out) tx).1.
Proof.
  destruct (cache_transaction_proj block d out tx) as (d' & -> & Hb & _). simpl.
  unfold height_inv. by rewrite Hb.
Qed.

Lemma cache_transaction_confirmed sig block d out tx :
  is_confirmed_tx d sig -> is_confirmed_tx (cache_transaction block (d, out) tx).1 sig.
Proof.
  destruct (cache_transaction_proj block d out tx) as (d' & -> & _ & _ & status & lv & Ht). simpl.
  unfold is_confirmed_tx, is_transaction_confirmed. rewrite Ht.
  destruct (decide (ti_signature tx = sig)) as [He|Hne].
  - destruct (txs_update_status_eq (txs d) (ti_signature tx) status lv) as (p & Hp & Hs & _).
    rewrite He in Hp. rewrite He, Hp, Hs. intros _. by apply bool_decide_eq_true.
  - by rewrite txs_update_status_ne.
Qed.

Lemma cache_transaction_confirms block d out tx :
  is_confirmed_tx (cache_transaction block (d, out) tx).1 (ti_signature tx).
Proof.
  destruct (cache_transaction_proj block d out tx) as (d' & -> & _ & _ & status & lv & Ht). simpl.
  unfold is_confirmed_tx, is_transaction_confirmed. rewrite Ht.
  destruct (txs_update_status_eq (txs d) (ti_signature tx) status lv) as (p & -> & -> & _).
  by apply bool_decide_eq_true.
Qed.

Lemma cache_transactions_confirm block tx l d out :
  tx ∈ l -> is_confirmed_tx (foldl (cache_transaction block) (d, out) l).1 (ti_signature tx).
Proof.
  intros Htx. revert d out. induction l as [|x l IH]; intros d out; [by apply not_elem_of_nil in Htx|].
  cbn [foldl]. pose proof (cache_transaction_confirms block d out x) as Hc.
  destruct (cache_transaction block (d, out) x) as [d1 out1] eqn:He.
  apply elem_of_cons in Htx as [->|Htx]; [|by apply IH].
  apply (cache_transactions_inv (fun d => is_confirmed_tx d (ti_signature x))); [|done].
  intros. by apply cache_transaction_confirmed.
Qed.

(** A known transaction keeps its expiry and the flag that lite-rpc sent it. *)
Definition keeps_props (sig : Signature) (d d' : DataCache) : Prop :=
  forall old, txs d !! sig = Some old -> exists new, txs d' !! sig = Some new /\
    txp_last_valid_blockheight new = txp_last_valid_blockheight old /\
    txp_sent_by_lite_rpc new = txp_sent_by_lite_rpc old.

Lemma cache_transaction_keeps sig d block d0 out tx :
  keeps_props sig d d0 -> keeps_props sig d (cache_transaction block (d0, out) tx).1.
Proof.
  destruct (cache_transaction_proj block d0 out tx) as (d' & -> & _ & _ & status & lv & Ht). simpl.
  intros Hk old Hold. destruct (Hk old Hold) as (p & Hp & Hlv & Hfl). rewrite Ht.
  destruct (decide (ti_signature tx = sig)) as [He|Hne].
  - destruct (txs_update_status_eq (txs d0) (ti_signature tx) status lv) as (p' & Hp' & _ & Hsame).
    rewrite He in *. exists p'. destruct (Hsame _ Hp) as [-> ->]. done.
  - rewrite txs_update_status_ne by done. eauto.
Qed.

Section caching_lemmas.
Context (pubkey_from_str : string -> option Pubkey) (identity : string).
Context (sink_closed : Z -> bool) (clean_duration : Z).
Abbreviation step := (caching_step pubkey_from_str identity sink_closed clean_duration).

Lemma caching_step_height d ev : height_inv d -> height_inv (step d ev).1.
Proof.
  intros Hi. destruct ev; simpl; try done.
  - apply (cache_transactions_inv height_inv); [intros; by apply cache_transaction_height|].
    by apply height_inv_add.
  - by apply height_inv_add.
Qed.

Lemma caching_step_settled info d ev :
  height_inv d -> settled info d -> settled info (step d ev).1.
Proof.
  intros Hi Hs. destruct ev as [b|b|n|nodes|va|now|n]; simpl; try done.
  - apply (cache_transactions_inv (settled info)); [intros; by apply cache_transaction_settled|]. by apply settled_add.
  - by apply settled_add.
  - destruct Hs as [Hh|(props & Hp & Hs & Hl)]; [by left|].
    destruct (decide (binf_block_height (latest_finalized_block (block_information_store d)) <=
                      txp_last_valid_blockheight props)) as [Hk|Hk].
    + right. exists props. split; [|done]. simpl. by apply map_lookup_filter_Some_2.
    + left. unfold height_inv in Hi. simpl. lia.
Qed.
End caching_lemmas.

(** ** Stakes *)

Lemma foldr_min_le x l y : y ∈ x :: l -> foldr Z.min x l <= y.
Proof.
  induction l as [|z l IH]; simpl.
  - intros ->%list_elem_of_singleton. lia.
  - rewrite elem_of_cons, elem_of_cons. intros [->|[->|Hy]].
    + specialize (IH ltac:(left)). lia.
    + lia.
    + specialize (IH ltac:(by right)). lia.
Qed.

Lemma foldr_max_ge x l y : y ∈ x :: l -> y <= foldr Z.max x l.
Proof.
  induction l as [|z l IH]; simpl.
  - intros ->%list_elem_of_singleton. lia.
  - rewrite elem_of_cons, elem_of_cons. intros [->|[->|Hy]].
    + specialize (IH ltac:(left)). lia.
    + lia.
    + specialize (IH ltac:(by right)). lia.
Qed.

Lemma list_min_le l x : x ∈ l -> list_min l <= x.
Proof. destruct l; [by intros ?%not_elem_of_nil|]. apply foldr_min_le. Qed.

Lemma list_max_ge l x : x ∈ l -> x <= list_max l.
Proof. destruct l; [by intros ?%not_elem_of_nil|]. apply foldr_max_ge. Qed.

(** ** Properties *)

(** Sample data of the witnesses. *)
Definition sample_cache : DataCache :=
  mkDataCache sample_store ∅ (signature_subscribe ∅ 41 cc_confirmed 7 1000) (slot_cache_new 10)
    identity_stakes_default ∅ (fixed_epoch_schedule 1000) (mkCalculatedSchedule None None).

Definition sample_txinfo (sig : Signature) (err : option string) : TransactionInfo :=
  mkTransactionInfo sig false err None None None 77 "" [] [] [].

Definition sample_produced (slot height hash : Z) (c : CommitmentConfig) (l : list TransactionInfo) :
    ProducedBlock :=
  mkProducedBlock (mkProducedBlockInner l None hash height slot (slot - 1) 0 0 None) c.

(** After a block was cached, every transaction in it counts as confirmed,
    and every transaction already in the store keeps its expiry and the flag
    saying whether lite-rpc sent it. *)
Theorem cache_block_confirms (d : DataCache) (block : ProducedBlock) :
  (forall tx, tx ∈ pb_transactions (pb_inner block) ->
     is_transaction_confirmed (txs (cache_block d block).1) (ti_signature tx) = true) /\
  (forall sig, keeps_props sig d (cache_block d block).1).
Proof.
  unfold cache_block. split.
  - intros tx Htx. apply cache_transactions_confirm, Htx.
  - intros sig. apply (cache_transactions_inv (keeps_props sig d)).
    + intros. by apply cache_transaction_keeps.
    + intros old Hold. by exists old.
Qed.

(** Stakes computed for an identity that votes: its stake lies between the
    least and the greatest stake and, when the stakes add up in 64 bits, does
    not exceed the total. *)
Theorem identity_stakes_bounds identity data va stakes :
  map_of_stakes va !! identity = Some stakes ->
  Forall (fun x => 0 <= x) (map_to_list (map_of_stakes va)).*2 ->
  list_sum (map_to_list (map_of_stakes va)).*2 < u64_size ->
  let r := update_stakes_for_identity identity data va in
  isd_stakes r = stakes /\ isd_peer_type r = Staked stakes /\
  isd_min_stakes r <= stakes <= isd_max_stakes r /\ stakes <= isd_total_stakes r.
Proof.
  intros Hs Hpos Hsum. unfold update_stakes_for_identity. rewrite Hs. simpl.
  assert (stakes ∈ (map_to_list (map_of_stakes va)).*2) as Hin.
  { apply list_elem_of_fmap. exists (identity, stakes). split; [done|]. by apply elem_of_map_to_list. }
  pose proof (list_sum_ge _ _ Hpos Hin).
  assert (0 <= stakes) by (rewrite Forall_forall in Hpos; auto).
  rewrite wrap_u64_id by (unfold in_u64; lia).
  split_and!; [done|done|by apply list_min_le|by apply list_max_ge|done].
Qed.

Lemma identity_stakes_bounds_witness :
  let va := let info node stake := mkRpcVoteAccountInfo "v" node stake 0 true [] 0 0 in
            mkRpcVoteAccountStatus [info "a" 5; info "b" 9] [info "c" 2] in
  let r := update_stakes_for_identity "b" identity_stakes_default va in
  isd_stakes r = 9 /\ isd_peer_type r = Staked 9 /\
  isd_min_stakes r <= 9 <= isd_max_stakes r /\ 9 <= isd_total_stakes r.
Proof.
  apply identity_stakes_bounds; [reflexivity| |reflexivity].
  vm_compute. repeat (constructor; try discriminate).
Defined.
