(* ===== verification/TxService.v ===== *)
(** * Accepting, sending and replaying transactions

    services/src/transaction_service.rs, services/src/tx_sender.rs and
    services/src/transaction_replayer.rs.

    The transaction service checks a wire transaction and puts it on two
    channels; the sender task forwards what comes off the first to the TPU
    service, the replayer task sends what comes off the second again until the
    transaction is confirmed, expired, or out of retries. *)

From S2P Require Import Prelude Types BlockInfoStore LeaderSchedule DataCache.

(** ** Accepting a wire transaction *)

(** [TransactionReplay], services/src/transaction_replayer.rs:20-26. *)
Record TransactionReplay := mkTransactionReplay {
  tr_transaction : SentTransactionInfo;
  tr_replay_count : Z;
  tr_max_replay : Z;
  tr_replay_at : Z;
}.

Inductive SendError :=
| DeserializeFailed (msg : string)
| BlockhashNotFound
| BlockhashExpired
| ChannelClosed.

(** What a call puts on the channels, in order. *)
Inductive send_effect :=
| ToSender (info : SentTransactionInfo)
| ToReplayer (r : TransactionReplay).

(** [TransactionService], services/src/transaction_service.rs:113-120: the
    configuration of the service and whether its channels still have a
    receiver. *)
Record TransactionService := mkTransactionService {
  tsv_max_retries : Z;
  tsv_replay_offset : Z;
  tsv_channel_open : bool;
  tsv_replay_open : bool;
}.

Section transaction_service.
Context (deserialize : list Z -> result string VersionedTransaction).
Context (compute_budget_id : Pubkey).
Context (parse_compute_budget : list Z -> option ComputeBudgetInstruction).

(** The loop over the instructions,
    [TransactionService::send_wire_transaction],
    services/src/transaction_service.rs:161-178: the last compute unit price wins;
    an instruction whose program index is out of range panics. *)
Fixpoint prioritization_fee_of (keys : list Pubkey) (ixs : list CompiledInstruction) (fee : Z) : outcome Z :=
  match ixs with
  | [] => Done fee
  | ix :: ixs' =>
      id ← program_id keys ix;
      let fee' :=
        if id =? compute_budget_id then
          match parse_compute_budget (ix_data ix) with
          | Some (SetComputeUnitPrice fees) => fees
          | _ => fee
          end
        else fee in
      prioritization_fee_of keys ixs' fee'
  end.

(** [TransactionService::send_wire_transaction],
    services/src/transaction_service.rs:132-213. *)
Definition send_wire_transaction (service : TransactionService) (store : BlockInformationStore)
    (now : Z) (raw_tx : list Z) (max_retries : option Z) :
    outcome (result SendError Signature * list send_effect) :=
  match deserialize raw_tx with
  | Err msg => Done (Err (DeserializeFailed msg), [])
  | Ok tx =>
      sig ← unwrap (head (vt_signatures tx));
      match get_block_info store (vm_recent_blockhash (vt_message tx)) with
      | None => Done (Err BlockhashNotFound, [])
      | Some info =>
          if binf_last_valid_blockheight info <? get_last_blockheight store
          then Done (Err BlockhashExpired, [])
          else
            fee ← prioritization_fee_of (vm_account_keys (vt_message tx)) (vm_instructions (vt_message tx)) 0;
            let max_replay := default (tsv_max_retries service) max_retries in
            let transaction_info :=
              mkSentTransactionInfo sig (binf_slot info) raw_tx (binf_last_valid_blockheight info) fee in
            if tsv_channel_open service then
              let replay := mkTransactionReplay transaction_info 0 max_replay
                              (now + tsv_replay_offset service) in
              Done (Ok sig,
                    ToSender transaction_info ::
                    (if tsv_replay_open service then [ToReplayer replay] else []))
            else Done (Err ChannelClosed, [])
      end
  end.
End transaction_service.

(** ** The sender task *)

(** [TransactionNotification], core/src/structures/notifications.rs:6-16. *)
Record TransactionNotification := mkTransactionNotification {
  tn_signature : Signature;
  tn_recent_slot : Slot;
  tn_forwarded_slot : Slot;
  tn_forwarded_local_time : Z;
  tn_processed_slot : option Slot;
  tn_cu_consumed : option Z;
  tn_cu_requested : option Z;
  tn_quic_response : Z;
}.

(** What the sender task does to the outside. *)
Inductive sender_output :=
| SendTpu (info : SentTransactionInfo)
| SendNotifications (l : list TransactionNotification)
| SenderStopped.

Record sender_state := mkSenderState {
  ss_cache : DataCache;
  ss_notifications : list TransactionNotification;
}.

(** [TxSender::forward_txs], services/src/tx_sender.rs:50-72. *)
Definition forward_txs (d : DataCache) (info : SentTransactionInfo) : DataCache * list sender_output :=
  (set_txs d (txs_insert (txs d) (si_signature info)
                (mkTxProps None (si_last_valid_block_height info) true)).2,
   [SendTpu info]).

(** The closure [notify_transaction_messages], services/src/tx_sender.rs:83-94. *)
Definition notify_transaction_messages (notifier : bool) (l : list TransactionNotification) :
    list TransactionNotification * list sender_output :=
  match l with
  | [] => ([], [])
  | _ => if notifier then ([], [SendNotifications l]) else (l, [])
  end.

(** What the select of the loop yields: a transaction, the end of the channel,
    or a tick of the interval. *)
Inductive sender_event :=
| RecvTx (info : SentTransactionInfo) (local_time : Z)
| RecvClosed
| Tick.

(** [TxSender::execute], services/src/tx_sender.rs:75-131. *)
Definition sender_step (notifier : bool) (s : sender_state) (ev : sender_event) :
    sender_state * list sender_output :=
  match ev with
  | RecvTx info local_time =>
      let '(d, out) := forward_txs (ss_cache s) info in
      let notifications' :=
        if notifier
        then ss_notifications s ++
             [mkTransactionNotification (si_signature info) (si_slot info)
                (current_slot (slot_cache d)) local_time None None None 0]
        else ss_notifications s in
      (mkSenderState d notifications', out)
  | RecvClosed =>
      let '(l, out) := notify_transaction_messages notifier (ss_notifications s) in
      (mkSenderState (ss_cache s) l, out ++ [SenderStopped])
  | Tick =>
      let '(l, out) := notify_transaction_messages notifier (ss_notifications s) in
      (mkSenderState (ss_cache s) l, out)
  end.

(** ** The replayer task *)

Section replayer.
(** [Duration::mul_f32] of the retry offset by the retry count. *)
Context (retry_offset : Z) (retry_delay : Z -> Z).

(** One iteration of the loop, [TransactionReplayer::start_service],
    services/src/transaction_replayer.rs:60-87, on the message at the front of
    the channel.  [now] is the time of the receive, [after] the time after the
    transaction was sent; the channel is unbounded and the task holds a sender
    of its own, so a message put back joins the end of the queue. *)
Definition replay_one (d : DataCache) (now after : Z) (r : TransactionReplay) :
    list TransactionReplay * list SentTransactionInfo :=
  if (now <? tr_replay_at r) && (now + retry_offset <? tr_replay_at r) then ([r], [])
  else if check_if_confirmed_or_expired_blockheight d (tr_transaction r) then ([], [])
  else
    if tr_replay_count r <? tr_max_replay r then
      ([mkTransactionReplay (tr_transaction r) (tr_replay_count r + 1) (tr_max_replay r)
          (after + retry_delay (tr_replay_count r + 1))], [tr_transaction r])
    else ([], [tr_transaction r]).

Definition replay_recv (d : DataCache) (now after : Z) (q : list TransactionReplay) :
    list TransactionReplay * list SentTransactionInfo :=
  match q with
  | [] => ([], [])
  | r :: q' => let '(back, out) := replay_one d now after r in (q' ++ back, out)
  end.
End replayer.

(** ** The replayer beside the caching service *)

(** The replay queue and the data cache are shared with the transaction service
    and the caching service: their steps come in between. *)
Inductive replay_event :=
| ReCache (ev : caching_event)
| ReEnqueue (r : TransactionReplay)
| ReRecv (now after : Z).

Section replay_system.
Context (pubkey_from_str : string -> option Pubkey) (identity : string).
Context (sink_closed : Z -> bool) (clean_duration : Z).
Context (retry_offset : Z) (retry_delay : Z -> Z).

Definition replay_step (s : DataCache * list TransactionReplay) (ev : replay_event) :
    (DataCache * list TransactionReplay) * list SentTransactionInfo :=
  let '(d, q) := s in
  match ev with
  | ReCache e => (((caching_step pubkey_from_str identity sink_closed clean_duration d e).1, q), [])
  | ReEnqueue r => ((d, q ++ [r]), [])
  | ReRecv now after =>
      let '(q', out) := replay_recv retry_offset retry_delay d now after q in ((d, q'), out)
  end.

(** How often a queued replay may still send [t]. *)
Definition replay_budget (t : SentTransactionInfo) (r : TransactionReplay) : Z :=
  if decide (tr_transaction r = t) then Z.max 0 (tr_max_replay r - tr_replay_count r) + 1 else 0.

Definition queue_budget (t : SentTransactionInfo) (q : list TransactionReplay) : Z :=
  list_sum (replay_budget t <$> q).

(** What the events put in the queue. *)
Definition enqueued (evs : list replay_event) : list TransactionReplay :=
  omap (fun ev => match ev with ReEnqueue r => Some r | _ => None end) evs.

Definition sends_of (t : SentTransactionInfo) (out : list SentTransactionInfo) : Z :=
  Z.of_nat (length (filter (fun x => x = t) out)).

Lemma queue_budget_app t q1 q2 : queue_budget t (q1 ++ q2) = queue_budget t q1 + queue_budget t q2.
Proof. unfold queue_budget. by rewrite fmap_app, list_sum_app. Qed.

Lemma queue_budget_cons t r q : queue_budget t (r :: q) = replay_budget t r + queue_budget t q.
Proof. done. Qed.

Lemma sends_of_app t l1 l2 : sends_of t (l1 ++ l2) = sends_of t l1 + sends_of t l2.
Proof. unfold sends_of. rewrite filter_app, length_app. lia. Qed.

Lemma replay_one_budget t d now after r :
  sends_of t (replay_one retry_offset retry_delay d now after r).2 +
  queue_budget t (replay_one retry_offset retry_delay d now after r).1 <= replay_budget t r.
Proof.
  unfold replay_one, queue_budget, sends_of, replay_budget.
  destruct (_ && _); [simpl; lia|]. destruct (check_if_confirmed_or_expired_blockheight _ _).
  - simpl. case_decide; lia.
  - destruct (_ <? _) eqn:?; bool_lia; simpl; rewrite filter_cons; case_decide; simpl; try lia.
Qed.

Lemma replay_recv_budget t d now after q :
  sends_of t (replay_recv retry_offset retry_delay d now after q).2 +
  queue_budget t (replay_recv retry_offset retry_delay d now after q).1 <= queue_budget t q.
Proof.
  unfold replay_recv. destruct q as [|r q]; [done|].
  pose proof (replay_one_budget t d now after r). destruct (replay_one _ _ _ _ _ _) as [back out].
  simpl in *. rewrite queue_budget_app. rewrite queue_budget_cons. lia.
Qed.

Lemma replay_run_budget t s evs :
  sends_of t (run replay_step s evs).2 + queue_budget t (run replay_step s evs).1.2 <=
  queue_budget t s.2 + queue_budget t (enqueued evs).
Proof.
  revert s. induction evs as [|ev evs IH]; intros [d q]; cbn [run].
  - cbn [fst snd]. change (queue_budget t (enqueued [])) with 0. change (sends_of t []) with 0. lia.
  - assert (Hstep : sends_of t (replay_step (d, q) ev).2 + queue_budget t (replay_step (d, q) ev).1.2 +
                    queue_budget t (enqueued evs) <= queue_budget t q + queue_budget t (enqueued (ev :: evs))).
    { destruct ev as [e|r|now after]; cbn [replay_step fst snd].
      - change (sends_of t []) with 0. change (enqueued (ReCache e :: evs)) with (enqueued evs). lia.
      - rewrite queue_budget_app. change (sends_of t []) with 0.
        change (enqueued (ReEnqueue r :: evs)) with (r :: enqueued evs).
        rewrite !queue_budget_cons. change (queue_budget t []) with 0. lia.
      - pose proof (replay_recv_budget t d now after q).
        destruct (replay_recv _ _ _ _ _ _). simpl in *. change (enqueued (ReRecv now after :: evs)) with (enqueued evs). lia. }
    destruct (replay_step (d, q) ev) as [s1 o1]. specialize (IH s1).
    destruct (run replay_step s1 evs) as [s2 o2]. simpl in *. rewrite sends_of_app. lia.
Qed.

Lemma replay_one_skips info d now after r :
  check_if_confirmed_or_expired_blockheight d info = true ->
  info ∉ (replay_one retry_offset retry_delay d now after r).2.
Proof.
  intros Hc. unfold replay_one. destruct (_ && _); [set_solver|].
  destruct (check_if_confirmed_or_expired_blockheight d (tr_transaction r)) eqn:Hr; [set_solver|].
  assert (info <> tr_transaction r) by (intros ->; congruence).
  destruct (_ <? _); set_solver.
Qed.

Lemma replay_run_skips info s evs :
  height_inv s.1 -> settled info s.1 -> info ∉ (run replay_step s evs).2.
Proof.
  revert s. induction evs as [|ev evs IH]; intros [d q] Hh Hs; cbn [run]; [set_solver|].
  assert (Hstep : info ∉ (replay_step (d, q) ev).2 /\ height_inv (replay_step (d, q) ev).1.1 /\
                  settled info (replay_step (d, q) ev).1.1).
  { destruct ev as [e|r|now after]; simpl.
    - split_and!; [set_solver|by apply caching_step_height|by apply caching_step_settled].
    - split_and!; [set_solver|done|done].
    - destruct q as [|r q]; [split_and!; [set_solver|done|done]|].
      pose proof (replay_one_skips info d now after r (settled_check info d Hs)) as Hr. simpl.
      by destruct (replay_one _ _ _ _ _ _). }
  destruct Hstep as (Ho & Hh1 & Hs1). destruct (replay_step (d, q) ev) as [s1 o1].
  specialize (IH s1 Hh1 Hs1). destruct (run replay_step s1 evs) as [s2 o2]. set_solver.
Qed.
End replay_system.

(** ** Replaying to exhaustion *)

Section replay_due.
Context (retry_offset : Z) (retry_delay : Z -> Z) (d : DataCache).

(** Serve the front of the queue when it is due, [n] times. *)
Fixpoint replay_due (n : nat) (q : list TransactionReplay) :
    list TransactionReplay * list SentTransactionInfo :=
  match n, q with
  | S n', r :: _ =>
      let '(q1, o1) := replay_recv retry_offset retry_delay d (tr_replay_at r) (tr_replay_at r) q in
      let '(q2, o2) := replay_due n' q1 in (q2, o1 ++ o2)
  | _, _ => (q, [])
  end.

Lemma replay_due_S n r q :
  replay_due (S n) (r :: q) =
  let '(q1, o1) := replay_recv retry_offset retry_delay d (tr_replay_at r) (tr_replay_at r) (r :: q) in
  let '(q2, o2) := replay_due n q1 in (q2, o1 ++ o2).
Proof. done. Qed.

Lemma replay_due_all n r :
  check_if_confirmed_or_expired_blockheight d (tr_transaction r) = false ->
  tr_replay_count r + Z.of_nat n = tr_max_replay r ->
  replay_due (S n) [r] = ([], replicate (S n) (tr_transaction r)).
Proof.
  revert r. induction n as [|n IH]; intros r Hc Hn; rewrite replay_due_S;
    unfold replay_recv, replay_one; rewrite Z.ltb_irrefl, Hc; simpl andb.
  - by rewrite (proj2 (Z.ltb_ge _ _)) by lia.
  - rewrite (proj2 (Z.ltb_lt _ _)) by lia. cbn [app]. rewrite IH by (simpl; done || lia). done.
Qed.
End replay_due.

(** ** The sender's notifications *)

(** The notification for a transaction that the sender received. *)
Definition notified (out : list sender_output) : list Signature :=
  out ≫= (fun o => match o with SendNotifications l => tn_signature <$> l | _ => [] end).

Definition forwarded (out : list sender_output) : list SentTransactionInfo :=
  omap (fun o => match o with SendTpu info => Some info | _ => None end) out.

Definition received_txs (evs : list sender_event) : list SentTransactionInfo :=
  omap (fun ev => match ev with RecvTx info _ => Some info | _ => None end) evs.

Lemma notified_app o1 o2 : notified (o1 ++ o2) = notified o1 ++ notified o2.
Proof. apply bind_app. Qed.

Lemma forwarded_app o1 o2 : forwarded (o1 ++ o2) = forwarded o1 ++ forwarded o2.
Proof. apply omap_app. Qed.

Lemma sender_step_notified s ev :
  notified (sender_step true s ev).2 ++ (tn_signature <$> ss_notifications (sender_step true s ev).1) =
  (tn_signature <$> ss_notifications s) ++ (si_signature <$> received_txs [ev]) /\
  forwarded (sender_step true s ev).2 = received_txs [ev].
Proof.
  destruct ev as [info t| |]; simpl.
  - by rewrite fmap_app.
  - destruct (ss_notifications s); simpl; [done|]. by rewrite !app_nil_r.
  - destruct (ss_notifications s); simpl; [done|]. by rewrite !app_nil_r.
Qed.

Lemma sender_run_notified s evs :
  notified (run (sender_step true) s evs).2 ++
    (tn_signature <$> ss_notifications (run (sender_step true) s evs).1) =
  (tn_signature <$> ss_notifications s) ++ (si_signature <$> received_txs evs) /\
  forwarded (run (sender_step true) s evs).2 = received_txs evs.
Proof.
  revert s. induction evs as [|ev evs IH]; intros s; cbn [run].
  - simpl. by rewrite app_nil_r.
  - destruct (sender_step_notified s ev) as [Hn Hf].
    destruct (sender_step true s ev) as [s1 o1]. destruct (IH s1) as [IHn IHf].
    destruct (run (sender_step true) s1 evs) as [s2 o2]. cbn [fst snd] in *.
    change (ev :: evs) with ([ev] ++ evs). unfold received_txs in *.
    rewrite notified_app, forwarded_app, omap_app, fmap_app, Hf, IHf. split; [|done].
    by rewrite <- app_assoc, IHn, app_assoc, Hn, app_assoc.
Qed.

(** ** Properties *)

(** The service accepts a wire transaction exactly as it should: a call
    that succeeds decoded the transaction, found its blockhash in the store, not
    expired at the last seen height, and put it on the sender's channel and (if
    that is open) once on the replayer's, both with the first signature and the
    store's expiry; a call that fails put nothing anywhere. *)
Theorem send_wire_transaction_accepts deserialize compute_budget_id parse_compute_budget
    (service : TransactionService) (store : BlockInformationStore) now raw_tx max_retries r effects :
  send_wire_transaction deserialize compute_budget_id parse_compute_budget service store now raw_tx
    max_retries = Done (r, effects) ->
  match r with
  | Err _ => effects = []
  | Ok sig =>
      exists tx info sent,
        deserialize raw_tx = Ok tx /\ head (vt_signatures tx) = Some sig /\
        get_block_info store (vm_recent_blockhash (vt_message tx)) = Some info /\
        get_last_blockheight store <= binf_last_valid_blockheight info /\
        si_signature sent = sig /\ si_transaction sent = raw_tx /\
        si_last_valid_block_height sent = binf_last_valid_blockheight info /\
        effects = ToSender sent ::
          (if tsv_replay_open service
           then [ToReplayer (mkTransactionReplay sent 0 (default (tsv_max_retries service) max_retries)
                               (now + tsv_replay_offset service))] else [])
  end.
Proof.
  unfold send_wire_transaction. intros H.
  destruct (deserialize raw_tx) as [tx|] eqn:Hd; [|by simplify_eq].
  destruct (head (vt_signatures tx)) as [sig|] eqn:Hs; simpl in H; [|done].
  destruct (get_block_info store (vm_recent_blockhash (vt_message tx))) as [info|] eqn:Hb; [|by simplify_eq].
  destruct (_ <? _) eqn:Hlt; [by simplify_eq|].
  destruct (prioritization_fee_of _ _ _ _ _) as [fee|]; simpl in H; [|done].
  destruct (tsv_channel_open service); [|by simplify_eq].
  injection H as <- <-. bool_lia.
  exists tx, info, (mkSentTransactionInfo sig (binf_slot info) raw_tx (binf_last_valid_blockheight info) fee).
  by split_and!.
Qed.

(** A decoder for the witnesses: the bytes are the signature and the blockhash. *)
Definition sample_tx_message (hash : Hash) : VersionedMessage :=
  mkVersionedMessage (mkMessageHeader 1 0 0) [] hash [] None.
Definition sample_decode (raw : list Z) : result string VersionedTransaction :=
  match raw with
  | [sig; hash] => Ok (mkVersionedTransaction [sig] (sample_tx_message hash))
  | [hash] => Ok (mkVersionedTransaction [] (sample_tx_message hash))
  | _ => Err "io error: unexpected end of file"%string
  end.

Definition sample_service : TransactionService := mkTransactionService 40 2000 true true.

Lemma send_wire_transaction_accepts_witness :
  exists tx info sent,
    sample_decode [41; 77] = Ok tx /\ head (vt_signatures tx) = Some 41 /\
    get_block_info sample_store (vm_recent_blockhash (vt_message tx)) = Some info /\
    get_last_blockheight sample_store <= binf_last_valid_blockheight info /\
    si_signature sent = 41 /\ si_transaction sent = [41; 77] /\
    si_last_valid_block_height sent = binf_last_valid_blockheight info /\
    [ToSender (mkSentTransactionInfo 41 10 [41; 77] 308 0);
     ToReplayer (mkTransactionReplay (mkSentTransactionInfo 41 10 [41; 77] 308 0) 0 40 2005)] =
    ToSender sent :: [ToReplayer (mkTransactionReplay sent 0 40 2005)].
Proof.
  apply (send_wire_transaction_accepts sample_decode 3 (fun _ => None) sample_service sample_store 5
    [41; 77] None (Ok 41)
    [ToSender (mkSentTransactionInfo 41 10 [41; 77] 308 0);
     ToReplayer (mkTransactionReplay (mkSentTransactionInfo 41 10 [41; 77] 308 0) 0 40 2005)]).
  reflexivity.
Defined.

(** A wire transaction that decodes but carries no signature makes the
    call panic instead of returning an error: [tx.signatures[0]] is not
    guarded. *)
Theorem send_wire_transaction_panics deserialize compute_budget_id parse_compute_budget
    service store now raw_tx max_retries tx :
  deserialize raw_tx = Ok tx -> vt_signatures tx = [] ->
  send_wire_transaction deserialize compute_budget_id parse_compute_budget service store now raw_tx
    max_retries = Panic.
Proof. intros Hd Hs. unfold send_wire_transaction. by rewrite Hd, Hs. Qed.

Lemma send_wire_transaction_panics_witness :
  send_wire_transaction sample_decode 3 (fun _ => None) sample_service sample_store 5 [77] None = Panic.
Proof. by eapply send_wire_transaction_panics. Defined.

(** The sender forwards every received transaction to the TPU exactly once,
    in the order received, and with a notifier every forwarded transaction is
    reported exactly once and in order: what has been reported, followed by what
    is still collected for the next batch, is what was received. *)
Theorem sender_forwards_and_notifies (d : DataCache) evs :
  let '(s, out) := run (sender_step true) (mkSenderState d []) evs in
  forwarded out = received_txs evs /\
  notified out ++ (tn_signature <$> ss_notifications s) = si_signature <$> received_txs evs.
Proof.
  pose proof (sender_run_notified (mkSenderState d []) evs) as [Hn Hf].
  by destruct (run _ _ evs).
Qed.

(** A transaction is replayed at most [max_replay + 1] times for each time
    it was queued, whatever the caching service and the other replays do. *)
Theorem replays_bounded pubkey_from_str identity sink_closed clean_duration
    retry_offset retry_delay (t : SentTransactionInfo) (d : DataCache) evs :
  sends_of t (run (replay_step pubkey_from_str identity sink_closed clean_duration retry_offset retry_delay)
                  (d, []) evs).2 <= queue_budget t (enqueued evs).
Proof.
  pose proof (replay_run_budget pubkey_from_str identity sink_closed clean_duration
    retry_offset retry_delay t (d, []) evs) as H.
  assert (Hq : forall q, 0 <= queue_budget t q).
  { intros q. induction q as [|r q IH]; [done|]. rewrite queue_budget_cons.
    unfold replay_budget. case_decide; lia. }
  specialize (Hq (run (replay_step pubkey_from_str identity sink_closed clean_duration
    retry_offset retry_delay) (d, []) evs).1.2).
  change (queue_budget t (d, []).2) with 0 in H. lia.
Qed.

(** A transaction that stays unconfirmed and unexpired is replayed
    [max_replay + 1] times, one more than the replayer's documentation says
    ("They will be replayed max_replay times"). *)
Theorem replays_one_more retry_offset retry_delay (d : DataCache) (info : SentTransactionInfo)
    (max_replay : nat) (replay_at : Z) :
  check_if_confirmed_or_expired_blockheight d info = false ->
  replay_due retry_offset retry_delay d (S max_replay)
    [mkTransactionReplay info 0 (Z.of_nat max_replay) replay_at] = ([], replicate (S max_replay) info).
Proof. intros Hc. by apply replay_due_all. Qed.

Lemma replays_one_more_witness :
  replay_due 2000 (fun n => 2000 * n) sample_cache 3
    [mkTransactionReplay (mkSentTransactionInfo 41 10 [] 308 0) 0 2 2000] =
  ([], replicate 3 (mkSentTransactionInfo 41 10 [] 308 0)).
Proof. apply (replays_one_more 2000 _ sample_cache _ 2). reflexivity. Defined.

(** Once a transaction is settled (expired, or seen in a block), the
    replayer never sends it again, in any interleaving with the caching service
    and with new replays. *)
Theorem settled_never_replayed pubkey_from_str identity sink_closed clean_duration
    retry_offset retry_delay (info : SentTransactionInfo) (d : DataCache) q evs :
  height_inv d -> settled info d ->
  info ∉ (run (replay_step pubkey_from_str identity sink_closed clean_duration retry_offset retry_delay)
              (d, q) evs).2.
Proof. intros Hh Hs. by apply replay_run_skips. Qed.

Lemma settled_never_replayed_witness :
  mkSentTransactionInfo 41 10 [] 5 0 ∉
  (run (replay_step (fun _ => None) "id" (fun _ => false) 5000 2000 (fun n => 2000 * n))
     (sample_cache, [mkTransactionReplay (mkSentTransactionInfo 41 10 [] 5 0) 0 2 2000])
     [ReRecv 2000 2001; ReCache (EvClean 7); ReRecv 9000 9001]).2.
Proof.
  apply settled_never_replayed; [vm_compute; discriminate|]. left. reflexivity.
Defined.

(** Sending a transaction again forgets that it was confirmed: the sender
    overwrites the entry of the store, so a transaction that was already seen in
    a block is reported as unconfirmed and is replayed again. *)
Theorem resend_forgets_confirmation (d : DataCache) (info : SentTransactionInfo) :
  last_blockheight (block_information_store d) <= si_last_valid_block_height info ->
  is_transaction_confirmed (txs (forward_txs d info).1) (si_signature info) = false /\
  check_if_confirmed_or_expired_blockheight (forward_txs d info).1 info = false.
Proof.
  intros Hh.
  assert (is_transaction_confirmed (txs (forward_txs d info).1) (si_signature info) = false) as Hc.
  { unfold is_transaction_confirmed. simpl. by rewrite lookup_insert_eq. }
  split; [done|]. unfold check_if_confirmed_or_expired_blockheight. rewrite Hc, orb_false_r.
  by apply Z.ltb_ge.
Qed.

Lemma resend_forgets_confirmation_witness :
  let d := (cache_block sample_cache (sample_produced 11 9 78 cc_finalized [sample_txinfo 41 None])).1 in
  let info := mkSentTransactionInfo 41 10 [] 308 0 in
  is_transaction_confirmed (txs (forward_txs d info).1) 41 = false /\
  check_if_confirmed_or_expired_blockheight (forward_txs d info).1 info = false.
Proof. apply (resend_forgets_confirmation _ (mkSentTransactionInfo 41 10 [] 308 0)). vm_compute. discriminate. Defined.
