(* ===== verification/CacheTasks.v ===== *)
(** * The tasks of the caching service, action by action

    services/src/data_caching_service.rs starts a task for blocks, one for
    block infos and one that cleans, over the same stores; clients subscribe to
    signatures and the sender stores transactions meanwhile
    (core/src/stores/subscription_store.rs, services/src/tx_sender.rs).
    [caching_step] of DataCache.v is what one task does when no other acts in
    between.  Here a task is stopped after every access to a store, and
    [task_step] is one action of one of them: a sequence of events is an
    interleaving of the tasks. *)

From S2P Require Import Prelude Types BlockInfoStore LeaderSchedule DataCache TxService.

(** ** The tasks *)

(** Where the block task stands: it waits for a block, adds the block's
    information, takes the next transaction of the block, has looked up its
    expiry, has found no entry for it in the store, or has stored its status. *)
Inductive block_pc :=
| BpRecv
| BpAdd (b : ProducedBlock) (pc : add_pc)
| BpTxs (b : ProducedBlock) (rest : list TransactionInfo)
| BpUpdate (b : ProducedBlock) (tx : TransactionInfo) (last_valid : Z) (rest : list TransactionInfo)
| BpInsert (b : ProducedBlock) (tx : TransactionInfo) (last_valid : Z) (rest : list TransactionInfo)
| BpNotify (b : ProducedBlock) (tx : TransactionInfo) (rest : list TransactionInfo).

Inductive info_pc :=
| IpRecv
| IpAdd (b : BlockInformation) (pc : add_pc).

(** The cleaning: [height] is what it read first, [retained] what the block
    store's own cleaning read. *)
Inductive clean_pc :=
| CpSleep
| CpBlocks (height : Z)
| CpRetain (height retained : Z)
| CpTxs (height : Z)
| CpSubs.

Record Tasks := mkTasks {
  tk_cache : DataCache;
  tk_block : block_pc;
  tk_info : info_pc;
  tk_clean : clean_pc;
}.

(** The status the block task stores, [DataCachingService::listen],
    services/src/data_caching_service.rs:76-100. *)
Definition status_in (b : ProducedBlock) (tx : TransactionInfo) : TransactionStatus :=
  mkTransactionStatus (pb_slot (pb_inner b)) None (match ti_err tx with Some e => Err e | None => Ok tt end) (ti_err tx)
    (Some (confirmation_status_of (pb_commitment_config b))).

(** One action of the block task, [DataCachingService::listen],
    services/src/data_caching_service.rs:57-121, with the actions of
    [add_block] and of [TxStore::update_status]. *)
Definition block_action (pc : block_pc) (d : DataCache) : block_pc * DataCache * list SignatureNotification :=
  match pc with
  | BpRecv => (BpRecv, d, [])
  | BpAdd b pc =>
      let '(pc', store) := add_action (from_block b) pc (block_information_store d) in
      (match pc' with PcReturned _ => BpTxs b (pb_transactions (pb_inner b)) | _ => BpAdd b pc' end, set_bis d store, [])
  | BpTxs b [] => (BpRecv, d, [])
  | BpTxs b (tx :: rest) =>
      let last_valid := match get_block_info (block_information_store d) (ti_recent_blockhash tx) with
                        | Some info => binf_last_valid_blockheight info
                        | None => (pb_block_height (pb_inner b) +64 MAX_RECENT_BLOCKHASHES)%rpc
                        end in
      (BpUpdate b tx last_valid rest, d, [])
  | BpUpdate b tx last_valid rest =>
      match txs d !! ti_signature tx with
      | Some meta =>
          (BpNotify b tx rest,
           set_txs d (<[ti_signature tx := mkTxProps (Some (status_in b tx)) (txp_last_valid_blockheight meta)
                                             (txp_sent_by_lite_rpc meta)]> (txs d)), [])
      | None => (BpInsert b tx last_valid rest, d, [])
      end
  | BpInsert b tx last_valid rest =>
      (BpNotify b tx rest,
       set_txs d (<[ti_signature tx := mkTxProps (Some (status_in b tx)) last_valid false]> (txs d)), [])
  | BpNotify b tx rest =>
      let '(subs, notes) := subs_notify (tx_subs d) (pb_slot (pb_inner b)) tx (pb_commitment_config b) in
      (BpTxs b rest, set_subs d subs, notes)
  end.

(** One action of the block info task, [DataCachingService::listen],
    services/src/data_caching_service.rs:123-142. *)
Definition info_action (pc : info_pc) (d : DataCache) : info_pc * DataCache :=
  match pc with
  | IpRecv => (IpRecv, d)
  | IpAdd b pc =>
      let '(pc', store) := add_action b pc (block_information_store d) in
      (match pc' with PcReturned _ => IpRecv | _ => IpAdd b pc' end, set_bis d store)
  end.

(** What the clients, the sender and the channels do.  A task that is busy
    does not receive: a message for it waits in its channel. *)
Inductive task_event :=
| TkRecvBlock (b : ProducedBlock)
| TkRecvInfo (b : BlockInfo)
| TkBlockTask
| TkInfoTask
| TkCleanTask (now : Z)
| TkOther (ev : caching_event)
| TkSubscribe (sig : Signature) (c : CommitmentConfig) (sink now : Z)
| TkUnsubscribe (sig : Signature) (c : CommitmentConfig)
| TkForward (info : SentTransactionInfo).

Section tasks.
Context (pubkey_from_str : string -> option Pubkey) (identity : string).
Context (sink_closed : Z -> bool) (clean_duration : Z).
Abbreviation step := (caching_step pubkey_from_str identity sink_closed clean_duration).

Definition finalized_height (d : DataCache) : Z :=
  binf_block_height (get_latest_block_information (block_information_store d) cc_finalized).

(** One action of the cleaning task, [DataCache::clean],
    core/src/stores/data_cache.rs:45-54, with the two actions of
    [BlockInformationStore::clean]. *)
Definition clean_action (now : Z) (pc : clean_pc) (d : DataCache) : clean_pc * DataCache :=
  match pc with
  | CpSleep => (CpBlocks (finalized_height d), d)
  | CpBlocks height => (CpRetain height (finalized_height d), d)
  | CpRetain height retained =>
      (CpTxs height,
       set_bis d (set_blocks (block_information_store d)
         (filter (fun kv => retained <= binf_last_valid_blockheight kv.2) (blocks (block_information_store d)))))
  | CpTxs height => (CpSubs, set_txs d (txs_clean (txs d) height))
  | CpSubs => (CpSleep, set_subs d (subs_clean sink_closed (tx_subs d) now clean_duration))
  end.

(** [DataCachingService::listen], services/src/data_caching_service.rs:45-206:
    one action of one task, of a client or of the sender. *)
Definition task_step (s : Tasks) (ev : task_event) : Tasks * list SignatureNotification :=
  let d := tk_cache s in
  match ev with
  | TkRecvBlock b =>
      (match tk_block s with BpRecv => mkTasks d (BpAdd b PcLoadHeight) (tk_info s) (tk_clean s) | _ => s end, [])
  | TkRecvInfo b =>
      (match tk_info s with IpRecv => mkTasks d (tk_block s) (IpAdd (from_block_info b) PcLoadHeight) (tk_clean s) | _ => s end, [])
  | TkBlockTask => let '(pc, d, notes) := block_action (tk_block s) d in (mkTasks d pc (tk_info s) (tk_clean s), notes)
  | TkInfoTask => let '(pc, d) := info_action (tk_info s) d in (mkTasks d (tk_block s) pc (tk_clean s), [])
  | TkCleanTask now => let '(pc, d) := clean_action now (tk_clean s) d in (mkTasks d (tk_block s) (tk_info s) pc, [])
  | TkOther (EvBlock _ | EvBlockInfo _ | EvClean _) => (s, [])
  | TkOther ev => (mkTasks (step d ev).1 (tk_block s) (tk_info s) (tk_clean s), [])
  | TkSubscribe sig c sink now =>
      (mkTasks (set_subs d (signature_subscribe (tx_subs d) sig c sink now)) (tk_block s) (tk_info s) (tk_clean s), [])
  | TkUnsubscribe sig c =>
      (mkTasks (set_subs d (signature_un_subscribe (tx_subs d) sig c)) (tk_block s) (tk_info s) (tk_clean s), [])
  | TkForward info => (mkTasks (forward_txs d info).1 (tk_block s) (tk_info s) (tk_clean s), [])
  end.

(** All tasks wait. *)
Definition idle (d : DataCache) : Tasks := mkTasks d BpRecv IpRecv CpSleep.

(** ** A task that is not interrupted does what [caching_step] says *)

Lemma cache_transactions_out block l d out :
  foldl (cache_transaction block) (d, out) l =
  ((foldl (cache_transaction block) (d, []) l).1, out ++ (foldl (cache_transaction block) (d, []) l).2).
Proof.
  revert d out. induction l as [|tx l IH]; intros d out; cbn [foldl fst snd]; [by rewrite app_nil_r|].
  destruct (cache_transaction_proj block d out tx) as (d1 & E1 & _). destruct (cache_transaction_proj block d [] tx) as (d2 & E2 & _).
  assert (d1 = d2) as <-.
  { unfold cache_transaction in E1, E2. destruct (subs_notify _ _ _ _). congruence. }
  rewrite E1, E2. rewrite IH, (IH _ ([] ++ _)). cbn [fst snd app]. by rewrite app_assoc.
Qed.

(** The three or four actions on a transaction are [cache_transaction]. *)
Lemma block_task_tx b tx rest d ip cp :
  exists n, run task_step (mkTasks d (BpTxs b (tx :: rest)) ip cp) (replicate n TkBlockTask) =
    (mkTasks (cache_transaction b (d, []) tx).1 (BpTxs b rest) ip cp, (cache_transaction b (d, []) tx).2).
Proof.
  unfold cache_transaction, txs_update_status. cbn [tx_subs set_txs].
  destruct (subs_notify (tx_subs d) (pb_slot (pb_inner b)) tx (pb_commitment_config b)) as [subs notes] eqn:Hn.
  destruct (txs d !! ti_signature tx) as [meta|] eqn:Hm; [exists 3%nat|exists 4%nat];
    repeat (cbn [replicate run task_step tk_block block_action tk_cache tk_info tk_clean txs set_txs tx_subs app fst snd];
            rewrite ?Hm, ?Hn); by rewrite ?app_nil_r.
Qed.

Lemma block_task_txs b l d ip cp :
  exists n, run task_step (mkTasks d (BpTxs b l) ip cp) (replicate n TkBlockTask) =
    (mkTasks (foldl (cache_transaction b) (d, []) l).1 BpRecv ip cp, (foldl (cache_transaction b) (d, []) l).2).
Proof.
  revert d. induction l as [|tx l IH]; intros d; [by exists 1%nat|]. cbn [foldl].
  destruct (block_task_tx b tx l d ip cp) as (n1 & E1). destruct (cache_transaction b (d, []) tx) as [d1 o1]. cbn [fst snd] in E1.
  destruct (IH d1) as (n2 & E2). exists (n1 + n2)%nat. rewrite replicate_add, run_app, E1. cbn [fst snd]. rewrite E2.
  rewrite (cache_transactions_out b l d1 o1). done.
Qed.

(** The three to five actions of a task that adds a block information are
    [add_block]. *)
Lemma add_task (at_pc : add_pc -> BlockInformationStore -> Tasks) (over : BlockInformationStore -> Tasks) ev b :
  (forall pc s, task_step (at_pc pc s) ev =
     (match (add_action b pc s).1 with
      | PcReturned _ => over (add_action b pc s).2
      | pc' => at_pc pc' (add_action b pc s).2
      end, [])) ->
  forall s, exists n, run task_step (at_pc PcLoadHeight s) (replicate n ev) = (over (add_block s b).2, []).
Proof.
  intros Hstep.
  assert (forall pc s, (exists r, (add_action b pc s).1 = PcReturned r) ->
    exists n, run task_step (at_pc pc s) (replicate n ev) = (over (add_action b pc s).2, [])) as Hlast.
  { intros pc s [r Hr]. exists 1%nat. cbn [replicate run]. by rewrite Hstep, Hr. }
  assert (forall pc s s2, (forall r, (add_action b pc s).1 <> PcReturned r) ->
    (exists n, run task_step (at_pc (add_action b pc s).1 (add_action b pc s).2) (replicate n ev) = (over s2, [])) ->
    exists n, run task_step (at_pc pc s) (replicate n ev) = (over s2, [])) as Hmore.
  { intros pc s s2 Hn [n E]. exists (Datatypes.S n). cbn [replicate run]. rewrite Hstep.
    destruct (add_action b pc s) as [[] s1]; cbn [fst snd] in *; try (by rewrite E). by destruct (Hn updated). }
  assert (forall s, exists n, run task_step (at_pc PcEntry s) (replicate n ev) = (over (update_entry s b).2, [])) as Hentry.
  { intros s. destruct (Hlast PcEntry s) as [n E]; cbn in *; destruct (update_entry s b); eauto. }
  assert (forall s, exists n, run task_step (at_pc PcReadLatest s) (replicate n ev) =
    (over (update_entry (if binf_slot (get_latest_block_information s (binf_commitment_config b)) <? binf_slot b
                         then set_latest s (binf_commitment_config b) b else s) b).2, [])) as Hread.
  { intros s. apply Hmore; cbn; destruct (_ <? binf_slot b); try done. apply Hmore; [done|]. apply Hentry. }
  intros s. unfold add_block. apply Hmore; cbn; destruct (_ <? binf_block_height b); try done.
  apply Hmore; [done|]. apply Hread.
Qed.

Lemma block_task_add b d ip cp :
  exists n, run task_step (mkTasks d (BpAdd b PcLoadHeight) ip cp) (replicate n TkBlockTask) =
    (mkTasks (set_bis d (add_block (block_information_store d) (from_block b)).2)
       (BpTxs b (pb_transactions (pb_inner b))) ip cp, []).
Proof.
  destruct (add_task (fun pc s => mkTasks (set_bis d s) (BpAdd b pc) ip cp)
    (fun s => mkTasks (set_bis d s) (BpTxs b (pb_transactions (pb_inner b))) ip cp) TkBlockTask (from_block b)) with
    (s := block_information_store d) as [n E].
  - intros pc s. cbn. by destruct (add_action _ _ _) as [[] s'].
  - exists n. by destruct d.
Qed.

Lemma info_task_add b d bp cp :
  exists n, run task_step (mkTasks d bp (IpAdd b PcLoadHeight) cp) (replicate n TkInfoTask) =
    (mkTasks (set_bis d (add_block (block_information_store d) b).2) bp IpRecv cp, []).
Proof.
  destruct (add_task (fun pc s => mkTasks (set_bis d s) bp (IpAdd b pc) cp)
    (fun s => mkTasks (set_bis d s) bp IpRecv cp) TkInfoTask b) with (s := block_information_store d) as [n E].
  - intros pc s. cbn. by destruct (add_action _ _ _) as [[] s'].
  - exists n. by destruct d.
Qed.

(** The events of a task that runs through without interruption. *)
Definition alone (ev : caching_event) (n : nat) : list task_event :=
  match ev with
  | EvBlock b => TkRecvBlock b :: replicate n TkBlockTask
  | EvBlockInfo b => TkRecvInfo b :: replicate n TkInfoTask
  | EvClean now => replicate n (TkCleanTask now)
  | ev => [TkOther ev]
  end.

Theorem caching_tasks_alone (d : DataCache) (ev : caching_event) :
  exists n, run task_step (idle d) (alone ev n) = (idle (step d ev).1, (step d ev).2).
Proof.
  destruct ev as [b|b|n|nodes|va|now|n]; cbn [alone caching_step fst snd]; try (by exists 0%nat).
  - destruct (block_task_add b d IpRecv CpSleep) as [n1 E1].
    destruct (block_task_txs b (pb_transactions (pb_inner b)) (set_bis d (add_block (block_information_store d) (from_block b)).2)
      IpRecv CpSleep) as [n2 E2].
    exists (n1 + n2)%nat. cbn [run task_step idle tk_block tk_cache tk_info tk_clean]. rewrite replicate_add, run_app, E1. cbn [fst snd].
    by rewrite E2.
  - destruct (info_task_add (from_block_info b) d BpRecv CpSleep) as [n E]. exists n.
    cbn [run task_step idle tk_block tk_cache tk_info tk_clean]. by rewrite E.
  - by exists 5%nat.
Qed.

(** ** Confirmed transactions *)

(** The store has a status for the signature and keeps it up to height [L]. *)
Definition confirmed_until (L : Z) (sig : Signature) (d : DataCache) : Prop :=
  exists props, txs d !! sig = Some props /\ is_Some (txp_status props) /\ L <= txp_last_valid_blockheight props.

(** The block task has found no entry for the signature and is about to insert one. *)
Definition inserting (sig : Signature) (s : Tasks) : Prop :=
  match tk_block s with BpInsert _ tx _ _ => ti_signature tx = sig | _ => False end.

(** No finalized block above [L] has been seen, is being added, or comes. *)
Definition info_below (L : Z) (b : BlockInformation) : Prop :=
  is_finalized (binf_commitment_config b) = true -> binf_block_height b <= L.
Definition tasks_below (L : Z) (s : Tasks) : Prop :=
  finalized_height (tk_cache s) <= L /\
  match tk_block s with BpAdd b _ => info_below L (from_block b) | _ => True end /\
  match tk_info s with IpAdd b _ => info_below L b | _ => True end /\
  match tk_clean s with CpBlocks h | CpRetain h _ | CpTxs h => h <= L | _ => True end.
Definition event_below (L : Z) (ev : task_event) : Prop :=
  match ev with
  | TkRecvBlock b => info_below L (from_block b)
  | TkRecvInfo b => info_below L (from_block_info b)
  | _ => True
  end.
Definition not_forwarded (sig : Signature) (ev : task_event) : Prop :=
  match ev with TkForward info => si_signature info <> sig | _ => True end.

(** What an action leaves of an entry: a status stays, the expiry is kept. *)
Lemma insert_confirmed_until L sig sig' d props :
  confirmed_until L sig d ->
  (sig' = sig -> is_Some (txp_status props) /\ forall old, txs d !! sig = Some old -> txp_last_valid_blockheight props = txp_last_valid_blockheight old) ->
  confirmed_until L sig (set_txs d (<[sig' := props]> (txs d))).
Proof.
  intros (old & Ho & Hs & Hl) Hn. unfold confirmed_until. cbn [txs set_txs]. destruct (decide (sig' = sig)) as [->|Hne].
  - destruct (Hn eq_refl) as [Hs' Hlv]. exists props. rewrite lookup_insert_eq. by rewrite (Hlv old Ho).
  - exists old. by rewrite lookup_insert_ne.
Qed.

Lemma block_action_confirmed L sig pc d :
  confirmed_until L sig d -> ~ inserting sig (mkTasks d pc IpRecv CpSleep) ->
  confirmed_until L sig (block_action pc d).1.2 /\ ~ inserting sig (mkTasks d (block_action pc d).1.1 IpRecv CpSleep).
Proof.
  intros Hc Hi. unfold inserting in *. cbn [tk_block] in *. destruct pc as [|b pc|b [|tx rest]|b tx lv rest|b tx lv rest|b tx rest]; cbn [block_action]; try done.
  - destruct (add_action _ _ _) as [[] st]; done.
  - destruct (txs d !! ti_signature tx) as [meta|] eqn:Hm; cbn [fst snd].
    + split; [|done]. apply insert_confirmed_until; [done|]. intros <-. split; [by eexists|]. intros old Ho. by simplify_eq.
    + split; [done|]. intros <-. destruct Hc as (p & Hp & _). congruence.
  - cbn [fst snd]. split; [|tauto]. apply insert_confirmed_until; [done|]. intros <-. done.
  - by destruct (subs_notify _ _ _ _).
Qed.

Lemma other_cache ev d :
  match ev with EvBlock _ | EvBlockInfo _ | EvClean _ => True
  | _ => block_information_store (step d ev).1 = block_information_store d /\ txs (step d ev).1 = txs d /\ tx_subs (step d ev).1 = tx_subs d end.
Proof. by destruct ev. Qed.

(** The entry survives every action but a cleaning above its expiry and a new
    transaction with its signature. *)
Lemma task_step_confirmed L sig s ev :
  confirmed_until L sig (tk_cache s) -> ~ inserting sig s -> not_forwarded sig ev ->
  (forall now h props, ev = TkCleanTask now -> tk_clean s = CpTxs h -> txs (tk_cache s) !! sig = Some props -> h <= txp_last_valid_blockheight props) ->
  confirmed_until L sig (tk_cache (task_step s ev).1) /\ ~ inserting sig (task_step s ev).1.
Proof.
  destruct s as [d bp ip cp]. unfold inserting in *. intros Hc Hi Hf Hk. destruct ev as [b|b| | |now|ev|sig' c sink now|sig' c|info]; cbn [task_step tk_cache tk_block tk_info tk_clean] in *.
  - by destruct bp.
  - by destruct ip.
  - pose proof (block_action_confirmed L sig bp d Hc Hi) as [H1 H2]. by destruct (block_action bp d) as [[pc d'] notes].
  - destruct ip as [|b pc]; cbn [info_action fst]; [done|]. destruct (add_action _ _ _) as [pc' st]. done.
  - destruct cp as [|h|h r|h|]; cbn [clean_action fst]; try done. split; [|done].
    destruct Hc as (props & Hp & Hs & Hl). exists props. split; [|done]. cbn. apply map_lookup_filter_Some_2; [done|]. cbn. by eapply Hk.
  - pose proof (other_cache ev d) as Ho. destruct ev; try done.
  - done.
  - done.
  - cbn [not_forwarded] in Hf. split; [|done]. apply insert_confirmed_until; [done|]. intros E. by destruct Hf.
Qed.

Lemma add_action_finalized L b pc st :
  binf_block_height (get_latest_block_information st cc_finalized) <= L -> info_below L b ->
  binf_block_height (get_latest_block_information (add_action b pc st).2 cc_finalized) <= L.
Proof.
  intros Hl Hb. destruct pc; cbn [add_action snd]; try done.
  - unfold set_latest, info_below in *. destruct (is_finalized (binf_commitment_config b)); [by apply Hb|done].
  - rewrite <- (update_entry_latest st b cc_finalized) in Hl. by destruct (update_entry st b).
Qed.

Lemma task_step_below L s ev : tasks_below L s -> event_below L ev -> tasks_below L (task_step s ev).1.
Proof.
  destruct s as [d bp ip cp]. intros (Hf & Hb & Hi & Hc) He. unfold tasks_below, finalized_height in *.
  destruct ev as [b|b| | |now|ev|sig' c sink now|sig' c|info]; cbn [task_step tk_cache tk_block tk_info tk_clean] in *.
  - by destruct bp.
  - by destruct ip.
  - destruct bp as [|b pc|b [|tx rest]|b tx lv rest|b tx lv rest|b tx rest]; cbn [block_action]; try done.
    + pose proof (add_action_finalized L (from_block b) pc _ Hf Hb) as H1. destruct (add_action _ _ _) as [pc' st]. cbn in H1 |- *. by destruct pc'.
    + by destruct (txs d !! _).
    + by destruct (subs_notify _ _ _ _).
  - destruct ip as [|b pc]; cbn [info_action]; [done|].
    pose proof (add_action_finalized L b pc _ Hf Hi) as H1. destruct (add_action _ _ _) as [pc' st]. cbn in H1 |- *. by destruct pc'.
  - by destruct cp.
  - by destruct ev.
  - done.
  - done.
  - done.
Qed.

(** A transaction whose status is stored counts as confirmed until a finalized
    block above its expiry arrives, however the tasks interleave. *)
Lemma confirmed_run L sig s evs :
  confirmed_until L sig (tk_cache s) -> ~ inserting sig s -> tasks_below L s ->
  Forall (not_forwarded sig) evs -> Forall (event_below L) evs ->
  confirmed_until L sig (tk_cache (run task_step s evs).1).
Proof.
  revert s. induction evs as [|ev evs IH]; intros s Hc Hi Hb Hf He; [done|]. apply Forall_cons in Hf as [Hf Hfs], He as [He Hes].
  cbn [run]. destruct (task_step_confirmed L sig s ev Hc Hi Hf) as [Hc1 Hi1].
  { intros now h props -> Hcp Hp. destruct Hc as (p & Hp' & _ & Hl). destruct Hb as (_ & _ & _ & Hcl). rewrite Hcp in Hcl.
    simplify_eq. lia. }
  pose proof (task_step_below L s ev Hb He) as Hb1. destruct (task_step s ev) as [s1 o1]. cbn [fst] in *.
  specialize (IH s1 Hc1 Hi1 Hb1 Hfs Hes). by destruct (run task_step s1 evs).
Qed.

(** ** Settled transactions *)

(** A task stores a height below the one in the store: the other task has
    stored its own since this one has compared. *)
Definition overtaken (s : Tasks) (ev : task_event) : Prop :=
  let height := last_blockheight (block_information_store (tk_cache s)) in
  match ev with
  | TkBlockTask => match tk_block s with BpAdd b PcStoreHeight => binf_block_height (from_block b) < height | _ => False end
  | TkInfoTask => match tk_info s with IpAdd b PcStoreHeight => binf_block_height b < height | _ => False end
  | _ => False
  end.
Fixpoint in_order (s : Tasks) (evs : list task_event) : Prop :=
  match evs with
  | [] => True
  | ev :: evs => ~ overtaken s ev /\ in_order (task_step s ev).1 evs
  end.

(** A task that is past its comparison has seen its block's height stored. *)
Definition add_seen (height : Z) (b : BlockInformation) (pc : add_pc) : Prop :=
  match pc with PcLoadHeight | PcStoreHeight => True | _ => binf_block_height b <= height end.
Definition heights_seen (s : Tasks) : Prop :=
  let height := last_blockheight (block_information_store (tk_cache s)) in
  finalized_height (tk_cache s) <= height /\
  match tk_block s with BpAdd b pc => add_seen height (from_block b) pc | _ => True end /\
  match tk_info s with IpAdd b pc => add_seen height b pc | _ => True end /\
  match tk_clean s with CpBlocks h | CpRetain h _ | CpTxs h => h <= height | _ => True end.

Lemma add_action_seen b pc st :
  (pc = PcStoreHeight -> last_blockheight st <= binf_block_height b) ->
  add_seen (last_blockheight st) b pc -> binf_block_height (get_latest_block_information st cc_finalized) <= last_blockheight st ->
  let st' := (add_action b pc st).2 in
  last_blockheight st <= last_blockheight st' /\ add_seen (last_blockheight st') b (add_action b pc st).1 /\
  binf_block_height (get_latest_block_information st' cc_finalized) <= last_blockheight st'.
Proof.
  intros Ho Hs Hf. destruct pc as [| | | | |r]; cbn [add_action fst snd].
  - destruct (Z.ltb_spec (last_blockheight st) (binf_block_height b)); split_and!; cbn; try done; lia.
  - specialize (Ho eq_refl). split_and!; cbn; [done|lia|]. etrans; [exact Hf|exact Ho].
  - destruct (_ <? binf_slot b); by split_and!.
  - cbn in Hs. unfold set_latest. destruct (is_finalized _); by split_and!.
  - pose proof (update_entry_latest st b cc_finalized) as Hl. pose proof (update_entry_height st b) as Hh.
    destruct (update_entry st b) as [r st']. cbn [fst snd] in *. rewrite Hl, Hh. by split_and!.
  - by split_and!.
Qed.

Lemma add_seen_le h1 h2 b pc : h1 <= h2 -> add_seen h1 b pc -> add_seen h2 b pc.
Proof. intros Hle. destruct pc; cbn; try done; lia. Qed.

Lemma task_step_seen s ev :
  heights_seen s -> ~ overtaken s ev ->
  heights_seen (task_step s ev).1 /\
  last_blockheight (block_information_store (tk_cache s)) <= last_blockheight (block_information_store (tk_cache (task_step s ev).1)).
Proof.
  destruct s as [d bp ip cp]. intros (Hf & Hb & Hi & Hc) Ho. unfold heights_seen, finalized_height, overtaken in *.
  destruct ev as [b|b| | |now|ev|sig' c sink now|sig' c|info]; cbn [task_step tk_cache tk_block tk_info tk_clean] in *.
  - by destruct bp.
  - by destruct ip.
  - destruct bp as [|b pc|b [|tx rest]|b tx lv rest|b tx lv rest|b tx rest]; cbn [block_action]; try done.
    + destruct (add_action_seen (from_block b) pc (block_information_store d)) as (H1 & H2 & H3); [intros ->; by apply Z.le_ngt|done|done|].
      destruct (add_action _ _ _) as [pc' st]. cbn [fst snd tk_cache tk_block tk_info tk_clean block_information_store set_bis] in *.
      split; [|done]. split_and!; [done|by destruct pc'| |by destruct cp; lia].
      destruct ip as [|i ipc]; [done|]. by apply (add_seen_le _ _ _ _ H1).
    + by destruct (txs d !! _).
    + by destruct (subs_notify _ _ _ _).
  - destruct ip as [|b pc]; cbn [info_action]; [done|].
    destruct (add_action_seen b pc (block_information_store d)) as (H1 & H2 & H3); [intros ->; by apply Z.le_ngt|done|done|].
    destruct (add_action _ _ _) as [pc' st]. cbn [fst snd tk_cache tk_block tk_info tk_clean block_information_store set_bis] in *.
    split; [|done]. split_and!; [done| |by destruct pc'|by destruct cp; lia].
    destruct bp as [|i bpc| | | |]; try done. by apply (add_seen_le _ _ _ _ H1).
  - by destruct cp.
  - by destruct ev.
  - done.
  - done.
  - done.
Qed.

(** A sent transaction that is expired, or whose status is stored until it expires. *)
Definition settled_now (info : SentTransactionInfo) (s : Tasks) : Prop :=
  si_last_valid_block_height info < last_blockheight (block_information_store (tk_cache s)) \/
  (confirmed_until (si_last_valid_block_height info) (si_signature info) (tk_cache s) /\ ~ inserting (si_signature info) s).

Lemma task_step_settled info s ev :
  heights_seen s -> ~ overtaken s ev -> not_forwarded (si_signature info) ev -> settled_now info s ->
  settled_now info (task_step s ev).1.
Proof.
  intros Hh Ho Hf Hs. destruct (task_step_seen s ev Hh Ho) as [Hh1 Hle]. destruct Hs as [Hs|[Hc Hi]]; [left; lia|].
  assert ((forall now h props, ev = TkCleanTask now -> tk_clean s = CpTxs h ->
             txs (tk_cache s) !! si_signature info = Some props -> h <= txp_last_valid_blockheight props) \/
          si_last_valid_block_height info < last_blockheight (block_information_store (tk_cache s))) as [Hk|Hk]; [| |left; lia].
  { destruct Hh as (_ & _ & _ & Hcl). destruct (tk_clean s) as [|h|h r|h|]; try (by left).
    destruct Hc as (p & Hp & _ & Hl). destruct (decide (h <= txp_last_valid_blockheight p)); [left; intros; by simplify_eq|right; lia]. }
  right. by apply task_step_confirmed.
Qed.

Lemma settled_run info s evs :
  heights_seen s -> in_order s evs -> Forall (not_forwarded (si_signature info)) evs -> settled_now info s ->
  settled_now info (run task_step s evs).1.
Proof.
  revert s. induction evs as [|ev evs IH]; intros s Hh Ho Hf Hs; [done|]. destruct Ho as [Ho Hos]. apply Forall_cons in Hf as [Hf Hfs]. cbn [run].
  pose proof (task_step_settled info s ev Hh Ho Hf Hs) as Hs1. destruct (task_step_seen s ev Hh Ho) as [Hh1 _].
  destruct (task_step s ev) as [s1 o1]. specialize (IH s1 Hh1 Hos Hfs Hs1). by destruct (run task_step s1 evs).
Qed.

Lemma seen_run s evs : heights_seen s -> in_order s evs -> heights_seen (run task_step s evs).1.
Proof.
  revert s. induction evs as [|ev evs IH]; intros s Hh Ho; [done|]. destruct Ho as [Ho Hos]. cbn [run]. destruct (task_step_seen s ev Hh Ho) as [Hh1 _].
  destruct (task_step s ev) as [s1 o1]. specialize (IH s1 Hh1 Hos). by destruct (run task_step s1 evs).
Qed.

Lemma in_order_app s evs1 evs2 : in_order s (evs1 ++ evs2) <-> in_order s evs1 /\ in_order (run task_step s evs1).1 evs2.
Proof.
  revert s. induction evs1 as [|ev evs1 IH]; intros s; cbn [app in_order run]; [tauto|]. rewrite IH.
  destruct (task_step s ev) as [s1 o1]. cbn [fst]. destruct (run task_step s1 evs1). tauto.
Qed.

(** C7. Once a sent transaction counts as confirmed or expired it does so for
    ever, however the tasks for blocks and block infos, the cleaning, the
    subscribers and the sender interleave, as long as the two tasks do not
    overtake each other between comparing and storing the height and the
    transaction is not sent again.  (The cache is one whose finalized block is not
    above the height it has seen, as a new one is; the expiry the store has for
    the transaction is not before its own, and the block task is not just
    inserting it.) *)
Theorem settled_forever (d : DataCache) (evs1 evs2 : list task_event) (info : SentTransactionInfo) :
  let s1 := (run task_step (idle d) evs1).1 in
  height_inv d -> in_order (idle d) (evs1 ++ evs2) -> Forall (not_forwarded (si_signature info)) evs2 ->
  check_if_confirmed_or_expired_blockheight (tk_cache s1) info = true ->
  (forall props, txs (tk_cache s1) !! si_signature info = Some props ->
     si_last_valid_block_height info <= txp_last_valid_blockheight props) ->
  ~ inserting (si_signature info) s1 ->
  check_if_confirmed_or_expired_blockheight (tk_cache (run task_step s1 evs2).1) info = true.
Proof.
  intros s1 Hh [Ho1 Ho2]%in_order_app Hf Hc Hl Hi.
  assert (heights_seen s1) as Hs1 by (apply seen_run; [by split_and!|done]).
  assert (settled_now info s1) as Hset.
  { unfold check_if_confirmed_or_expired_blockheight, is_transaction_confirmed in Hc. apply orb_true_iff in Hc as [Hc|Hc].
    - left. by apply Z.ltb_lt.
    - right. destruct (txs (tk_cache s1) !! si_signature info) as [props|] eqn:Hp; [|done]. apply bool_decide_eq_true in Hc.
      split; [|done]. exists props. auto. }
  destruct (settled_run info s1 evs2 Hs1 Ho2 Hf Hset) as [Hx|[(props & Hp & Hst & _) _]];
    unfold check_if_confirmed_or_expired_blockheight; apply orb_true_iff; [left; by apply Z.ltb_lt|right].
  unfold is_transaction_confirmed. rewrite Hp. by apply bool_decide_eq_true.
Qed.

(** ** Signature subscriptions *)

(** The transactions the block task has still to notify about, those it takes
    on with a block, and the one an action notifies about. *)
Definition of_block (b : ProducedBlock) (l : list TransactionInfo) : list (ProducedBlock * TransactionInfo) := (fun tx => (b, tx)) <$> l.
Definition remaining (pc : block_pc) : list (ProducedBlock * TransactionInfo) :=
  match pc with
  | BpRecv => []
  | BpAdd b _ => of_block b (pb_transactions (pb_inner b))
  | BpTxs b rest => of_block b rest
  | BpUpdate b tx _ rest | BpInsert b tx _ rest | BpNotify b tx rest => of_block b (tx :: rest)
  end.
Definition taken_on (s : Tasks) (ev : task_event) : list (ProducedBlock * TransactionInfo) :=
  match ev, tk_block s with TkRecvBlock b, BpRecv => of_block b (pb_transactions (pb_inner b)) | _, _ => [] end.
Definition notifying (s : Tasks) (ev : task_event) : list (ProducedBlock * TransactionInfo) :=
  match ev, tk_block s with TkBlockTask, BpNotify b tx _ => [(b, tx)] | _, _ => [] end.
Fixpoint collect {A} (f : Tasks -> task_event -> list A) (s : Tasks) (evs : list task_event) : list A :=
  match evs with [] => [] | ev :: evs => f s ev ++ collect f (task_step s ev).1 evs end.

(** The first transaction with a signature in a block of a commitment, and what
    a subscriber is told of it. *)
Definition about_key (key : Signature * Commitment) (e : ProducedBlock * TransactionInfo) : Prop :=
  (ti_signature e.2, commitment_of_config (pb_commitment_config e.1)) = key.
#[local] Instance about_key_dec key e : Decision (about_key key e).
Proof. unfold about_key. apply _. Defined.
Definition first_about (key : Signature * Commitment) (l : list (ProducedBlock * TransactionInfo)) : option (ProducedBlock * TransactionInfo) :=
  snd <$> list_find (about_key key) l.
Definition note (sink : Z) (e : ProducedBlock * TransactionInfo) : SignatureNotification :=
  mkSignatureNotification sink (pb_slot (pb_inner e.1)) (ti_err e.2).
Definition received (sink : Z) (out : list SignatureNotification) : list SignatureNotification :=
  filter (fun n => sn_sink n = sink) out.

(** The other subscribers leave the subscription alone: none uses its sink, none
    subscribes to or unsubscribes from its key; and a cleaning finds it neither
    closed nor too old. *)
Definition spares (key : Signature * Commitment) (sink t : Z) (ev : task_event) : Prop :=
  match ev with
  | TkSubscribe sig c sink' _ => sink' <> sink /\ (sig, commitment_of_config c) <> key
  | TkUnsubscribe sig c => (sig, commitment_of_config c) <> key
  | TkCleanTask now => sink_closed sink = false /\ now - t < clean_duration
  | _ => True
  end.
(** No other subscription has the sink. *)
Definition unused (sink : Z) (subs : SubscriptionStore) : Prop := forall k t, subs !! k <> Some (sink, t).
Definition only_at (sink : Z) (key : Signature * Commitment) (subs : SubscriptionStore) : Prop :=
  forall k t, subs !! k = Some (sink, t) -> k = key.

Lemma remaining_step s ev :
  notifying s ev ++ remaining (tk_block (task_step s ev).1) = remaining (tk_block s) ++ taken_on s ev.
Proof.
  destruct s as [d bp ip cp], ev as [b|b| | |now|ev|sig c sink now|sig c|info]; cbn [task_step tk_cache tk_block tk_info tk_clean];
    unfold notifying, taken_on; cbn [tk_block app]; rewrite ?app_nil_r; try done.
  - by destruct bp; cbn; rewrite ?app_nil_r.
  - by destruct ip.
  - destruct bp as [|b pc|b [|tx rest]|b tx lv rest|b tx lv rest|b tx rest]; cbn [block_action]; try done.
    + by destruct (add_action _ _ _) as [[] st].
    + by destruct (txs d !! _).
    + by destruct (subs_notify _ _ _ _).
  - destruct ip; cbn [info_action]; [done|]. by destruct (add_action _ _ _).
  - by destruct (clean_action _ _ _).
  - by destruct ev.
Qed.

Lemma remaining_run s evs :
  collect notifying s evs ++ remaining (tk_block (run task_step s evs).1) = remaining (tk_block s) ++ collect taken_on s evs.
Proof.
  revert s. induction evs as [|ev evs IH]; intros s; cbn [collect run]; [by rewrite app_nil_r|]. specialize (IH (task_step s ev).1).
  pose proof (remaining_step s ev) as Hs. destruct (task_step s ev) as [s1 o1]. cbn [fst] in *. destruct (run task_step s1 evs) as [s2 o2]. cbn [fst] in *.
  by rewrite <- app_assoc, IH, !app_assoc, Hs.
Qed.

(** What an action does to the subscriptions and sends. *)
Lemma task_step_subs s ev :
  tx_subs (tk_cache (task_step s ev).1) =
    match ev with
    | TkSubscribe sig c sink now => signature_subscribe (tx_subs (tk_cache s)) sig c sink now
    | TkUnsubscribe sig c => signature_un_subscribe (tx_subs (tk_cache s)) sig c
    | TkCleanTask now => match tk_clean s with CpSubs => subs_clean sink_closed (tx_subs (tk_cache s)) now clean_duration | _ => tx_subs (tk_cache s) end
    | _ => foldl (fun subs e => (subs_notify subs (pb_slot (pb_inner e.1)) e.2 (pb_commitment_config e.1)).1) (tx_subs (tk_cache s)) (notifying s ev)
    end /\
  (task_step s ev).2 = concat ((fun e => (subs_notify (tx_subs (tk_cache s)) (pb_slot (pb_inner e.1)) e.2 (pb_commitment_config e.1)).2) <$> notifying s ev).
Proof.
  destruct s as [d bp ip cp], ev as [b|b| | |now|ev|sig c sink now|sig c|info]; cbn [task_step tk_cache tk_block tk_info tk_clean];
    unfold notifying; cbn [tk_block]; try done.
  - by destruct bp.
  - by destruct ip.
  - destruct bp as [|b pc|b [|tx rest]|b tx lv rest|b tx lv rest|b tx rest]; cbn [block_action]; try done.
    + by destruct (add_action _ _ _) as [[] st].
    + by destruct (txs d !! _).
    + cbn. destruct (subs_notify _ _ _ _) as [subs notes]. cbn. by rewrite app_nil_r.
  - destruct ip; cbn [info_action]; [done|]. by destruct (add_action _ _ _).
  - by destruct cp.
  - by destruct ev.
Qed.

Lemma notifying_one s ev : notifying s ev = [] \/ exists e, notifying s ev = [e] /\ ev = TkBlockTask.
Proof. unfold notifying. destruct ev; auto. destruct (tk_block s); eauto. Qed.

Lemma notify_other sink key subs (e : ProducedBlock * TransactionInfo) :
  only_at sink key subs -> ~ about_key key e ->
  received sink (subs_notify subs (pb_slot (pb_inner e.1)) e.2 (pb_commitment_config e.1)).2 = [].
Proof.
  intros Ho Hn. rewrite subs_notify_out. destruct (subs !! _) as [[sink' t]|] eqn:Hk; [|done]. unfold received.
  rewrite filter_cons_False; [done|]. cbn. intros ->. by apply Hn, (Ho _ _ Hk).
Qed.

(** Without a subscription a sink gets nothing. *)
Lemma unused_step key sink t s ev :
  unused sink (tx_subs (tk_cache s)) -> spares key sink t ev ->
  unused sink (tx_subs (tk_cache (task_step s ev).1)) /\ received sink (task_step s ev).2 = [].
Proof.
  intros Hu Hs. destruct (task_step_subs s ev) as [Hsub Hout]. split.
  - rewrite Hsub. intros k t'. destruct ev as [b|b| | |now|ev|sig c sink' now|sig c|info]; try apply Hu.
    + destruct (notifying_one s TkBlockTask) as [->|(e & -> & _)]; cbn [foldl]; [apply Hu|]. rewrite subs_notify_subs.
      intros [_ Hk]%lookup_delete_Some. by apply Hu in Hk.
    + destruct (tk_clean s); try apply Hu. intros [Hk _]%map_lookup_filter_Some. by apply Hu in Hk.
    + unfold signature_subscribe. intros [[_ [= -> _]]|[_ Hk]]%lookup_insert_Some; [by destruct Hs|by apply Hu in Hk].
    + unfold signature_un_subscribe. intros [_ Hk]%lookup_delete_Some. by apply Hu in Hk.
  - rewrite Hout. destruct (notifying_one s ev) as [->|(e & -> & _)]; [done|]. cbn [fmap list_fmap concat]. rewrite app_nil_r, subs_notify_out.
    destruct (tx_subs (tk_cache s) !! _) as [[sink' t']|] eqn:Hk; [|done]. unfold received. rewrite filter_cons_False; [done|].
    cbn. intros ->. by apply Hu in Hk.
Qed.

Lemma unused_run key sink t s evs :
  unused sink (tx_subs (tk_cache s)) -> Forall (spares key sink t) evs -> received sink (run task_step s evs).2 = [].
Proof.
  revert s. induction evs as [|ev evs IH]; intros s Hu Hs; [done|]. apply Forall_cons in Hs as [Hs Hss]. cbn [run].
  destruct (unused_step key sink t s ev Hu Hs) as [Hu1 Ho]. destruct (task_step s ev) as [s1 o1]. cbn [fst snd] in *.
  specialize (IH s1 Hu1 Hss). destruct (run task_step s1 evs) as [s2 o2]. cbn [snd] in *. unfold received in *. by rewrite filter_app, Ho, IH.
Qed.

(** A subscription stays and is silent until a transaction it is about. *)
Lemma subscribed_step key sink t s ev :
  only_at sink key (tx_subs (tk_cache s)) -> tx_subs (tk_cache s) !! key = Some (sink, t) -> spares key sink t ev ->
  match first_about key (notifying s ev) with
  | Some e => unused sink (tx_subs (tk_cache (task_step s ev).1)) /\ received sink (task_step s ev).2 = [note sink e]
  | None => only_at sink key (tx_subs (tk_cache (task_step s ev).1)) /\
      tx_subs (tk_cache (task_step s ev).1) !! key = Some (sink, t) /\ received sink (task_step s ev).2 = []
  end.
Proof.
  intros Ho Hk Hs. destruct (task_step_subs s ev) as [Hsub Hout]. unfold first_about.
  destruct (notifying_one s ev) as [Hn|(e & Hn & ->)]; rewrite Hn in *; cbn [list_find fmap list_fmap option_fmap option_map concat foldl] in *.
  - rewrite Hout, Hsub. destruct ev as [b|b| | |now|ev|sig c sink' now|sig c|info]; try (by split_and!).
    + destruct (tk_clean s); split_and!; try done.
      * intros k t' [Hk' _]%map_lookup_filter_Some. by eapply Ho.
      * by apply map_lookup_filter_Some_2.
    + destruct Hs as [Hs1 Hs2]. unfold signature_subscribe. split_and!; [|by rewrite lookup_insert_ne|done].
      intros k t' [[_ [= -> _]]|[_ Hk']]%lookup_insert_Some; [done|by eapply Ho].
    + cbn in Hs. unfold signature_un_subscribe. split_and!; [|by rewrite lookup_delete_ne|done].
      intros k t' [_ Hk']%lookup_delete_Some. by eapply Ho.
  - rewrite app_nil_r in Hout. rewrite Hout, Hsub, subs_notify_subs. case_decide as Ha; cbn.
    + split.
      * intros k t' [Hne Hk']%lookup_delete_Some. apply Hne. by rewrite (Ho _ _ Hk').
      * rewrite subs_notify_out. unfold about_key in Ha. rewrite Ha, Hk. unfold received. by rewrite filter_cons_True.
    + split_and!.
      * intros k t' [_ Hk']%lookup_delete_Some. by eapply Ho.
      * by rewrite lookup_delete_ne.
      * by apply (notify_other sink key).
Qed.

Lemma first_about_app key l1 l2 :
  first_about key (l1 ++ l2) = match first_about key l1 with Some e => Some e | None => first_about key l2 end.
Proof.
  unfold first_about. induction l1 as [|e l1 IH]; [done|]. cbn [app list_find]. case_decide; [done|].
  destruct (list_find (about_key key) l1) as [[]|], (list_find (about_key key) (l1 ++ l2)) as [[]|]; by cbn in *.
Qed.

Lemma subscribed_run key sink t s evs :
  only_at sink key (tx_subs (tk_cache s)) -> tx_subs (tk_cache s) !! key = Some (sink, t) -> Forall (spares key sink t) evs ->
  received sink (run task_step s evs).2 = option_list (note sink <$> first_about key (collect notifying s evs)).
Proof.
  revert s. induction evs as [|ev evs IH]; intros s Ho Hk Hs; [done|]. apply Forall_cons in Hs as [Hs Hss]. cbn [run collect].
  pose proof (subscribed_step key sink t s ev Ho Hk Hs) as H1. rewrite first_about_app.
  destruct (first_about key (notifying s ev)) as [e|], (task_step s ev) as [s1 o1]; cbn [fst snd] in *.
  - destruct H1 as [Hu H1]. pose proof (unused_run key sink t s1 evs Hu Hss) as H2. destruct (run task_step s1 evs). cbn [snd] in *.
    unfold received in *. by rewrite filter_app, H1, H2.
  - destruct H1 as (Ho1 & Hk1 & H1). specialize (IH s1 Ho1 Hk1 Hss). destruct (run task_step s1 evs). cbn [snd] in *.
    unfold received in *. by rewrite filter_app, H1, IH.
Qed.

(** C16. A client that subscribes to a signature at a commitment gets exactly
    one notification: the slot and the error of the first transaction with that
    signature in a block of that commitment that the block task notifies about
    from then on; if there is none it gets nothing.  The task notifies about every transaction of
    the blocks it receives, in their order.  This holds however the tasks, the
    sender and other clients interleave, as long as no other client subscribes
    to or unsubscribes from the same signature and commitment, the sink is the
    client's own, and cleaning finds it neither closed nor too old. *)
Theorem subscription_notified_once (s : Tasks) (sig : Signature) (c : CommitmentConfig) (sink t : Z) (evs : list task_event) :
  let key := (sig, commitment_of_config c) in
  let s1 := (task_step s (TkSubscribe sig c sink t)).1 in
  unused sink (tx_subs (tk_cache s)) -> Forall (spares key sink t) evs ->
  received sink (run task_step s1 evs).2 = option_list (note sink <$> first_about key (collect notifying s1 evs)) /\
  collect notifying s1 evs ++ remaining (tk_block (run task_step s1 evs).1) = remaining (tk_block s1) ++ collect taken_on s1 evs.
Proof.
  intros key s1 Hu Hs. split; [|apply remaining_run]. apply (subscribed_run key sink t); [|apply lookup_insert_eq|done].
  intros k t'. subst s1. cbn. unfold signature_subscribe. intros [[<- _]|[_ Hk]]%lookup_insert_Some; [done|]. by apply Hu in Hk.
Qed.

(** A second subscription to the same signature and commitment silences the
    first: its entry is replaced, and its client never hears anything. *)
Theorem second_subscription_silences (s : Tasks) (sig : Signature) (c : CommitmentConfig) (sink1 sink2 t1 t2 : Z) (evs : list task_event) :
  let key := (sig, commitment_of_config c) in
  unused sink1 (tx_subs (tk_cache s)) -> sink2 <> sink1 -> Forall (spares key sink1 t1) evs ->
  received sink1 (run task_step s (TkSubscribe sig c sink1 t1 :: TkSubscribe sig c sink2 t2 :: evs)).2 = [].
Proof.
  intros key Hu Hne Hs. cbn [run task_step tk_cache tk_block tk_info tk_clean].
  match goal with |- context [run task_step ?x evs] => set (s2 := x) end.
  pose proof (unused_run key sink1 t1 s2 evs) as Hr. destruct (run task_step s2 evs). cbn [snd app] in *. apply Hr; [|done].
  intros k t'. cbn. unfold signature_subscribe. rewrite insert_insert_eq.
  intros [[_ [= ? _]]|[_ Hk]]%lookup_insert_Some; [done|by apply Hu in Hk].
Qed.
End tasks.

(** ** Samples *)

Definition sample_task_step := task_step (fun _ => None) "id" (fun _ => false) 5000.
Definition sample_block (c : CommitmentConfig) (l : list TransactionInfo) : ProducedBlock := sample_produced 11 9 78 c l.

(** A block with the transaction is cached while a block info is added and the
    cleaning runs. *)
Definition sample_tasks_run : list task_event :=
  [TkRecvBlock (sample_block cc_confirmed [sample_txinfo 40 None; sample_txinfo 41 (Some "e"%string)]); TkBlockTask; TkCleanTask 2000;
   TkRecvInfo (mkBlockInfo 12 11 10 79 cc_processed 0); TkInfoTask; TkBlockTask; TkInfoTask; TkBlockTask; TkCleanTask 2000] ++
  replicate 12 TkBlockTask ++ replicate 3 (TkCleanTask 2000) ++ replicate 4 TkInfoTask.

Lemma settled_forever_witness :
  check_if_confirmed_or_expired_blockheight
    (tk_cache (run sample_task_step (run sample_task_step (idle sample_cache) sample_tasks_run).1
       (TkRecvInfo (mkBlockInfo 420 419 410 80 cc_finalized 0) :: replicate 5 TkInfoTask ++ replicate 5 (TkCleanTask 3000))).1)
    (mkSentTransactionInfo 41 10 [] 308 0) = true.
Proof.
  apply (settled_forever (fun _ => None) "id" (fun _ => false) 5000 sample_cache sample_tasks_run
    (TkRecvInfo (mkBlockInfo 420 419 410 80 cc_finalized 0) :: replicate 5 TkInfoTask ++ replicate 5 (TkCleanTask 3000))).
  - vm_compute. discriminate.
  - vm_compute. intuition congruence.
  - repeat (constructor; try done).
  - vm_compute. reflexivity.
  - assert (txs (tk_cache (run sample_task_step (idle sample_cache) sample_tasks_run).1) !! 41 = Some (mkTxProps (Some (status_in
      (sample_block cc_confirmed []) (sample_txinfo 41 (Some "e"%string)))) 308 false)) as E by (vm_compute; reflexivity).
    intros props. change (si_signature _) with 41. unfold sample_task_step in E. rewrite E. intros [= <-]. cbn. lia.
  - vm_compute. tauto.
Defined.

Lemma subscription_notified_once_witness :
  let s1 := (sample_task_step (idle sample_cache) (TkSubscribe 41 cc_confirmed 8 1500)).1 in
  received 8 (run sample_task_step s1 sample_tasks_run).2 = [mkSignatureNotification 8 11 (Some "e"%string)].
Proof.
  intros s1. destruct (subscription_notified_once (fun _ => None) "id" (fun _ => false) 5000 (idle sample_cache) 41 cc_confirmed 8 1500
    sample_tasks_run) as [H _].
  - intros k t. cbn. unfold signature_subscribe. intros [[_ [= ]]|[_ Hk]]%lookup_insert_Some. by rewrite lookup_empty in Hk.
  - repeat (constructor; try done).
  - subst s1. unfold sample_task_step. rewrite H. vm_compute. reflexivity.
Defined.

(** The tasks race on the height: both compare with the height 8 of the sample,
    the info task stores 309, and the block task stores 9 after it.  A
    transaction that had expired counts as unexpired again. *)
Theorem overtaken_height_revives :
  let race := [TkRecvBlock (sample_block cc_processed []); TkBlockTask; TkRecvInfo (mkBlockInfo 311 310 309 80 cc_processed 0); TkInfoTask; TkInfoTask] in
  let t := mkSentTransactionInfo 41 10 [] 308 0 in
  check_if_confirmed_or_expired_blockheight (tk_cache (run sample_task_step (idle sample_cache) race).1) t = true /\
  check_if_confirmed_or_expired_blockheight (tk_cache (run sample_task_step (idle sample_cache) (race ++ [TkBlockTask])).1) t = false.
Proof. vm_compute. done. Qed.
