(* ===== verification/QuicConn.v ===== *)
(** * QUIC connections and their pool

    core/src/structures/rotating_queue.rs, services/src/quic_connection.rs and
    the connection logic of services/src/quic_connection_utils.rs.

    The quinn library is outside the sources: what its calls return, and
    whether the exit signal wins a select, is a script (a list of outcomes)
    that the operations consume in order; every theorem holds for every
    script.  A connection is its stable id. *)

From S2P Require Import Prelude Types.

(** ** The rotating queue *)

(** [RotatingQueue], core/src/structures/rotating_queue.rs:6-10. *)
Record RotatingQueue (T : Type) := mkRotatingQueue { rq_elements : list T; rq_current : Z }.
Arguments mkRotatingQueue {T} _ _.
Arguments rq_elements {T} _.
Arguments rq_current {T} _.

(** [RotatingQueue::get], core/src/structures/rotating_queue.rs:23-31. *)
Definition rq_get {T} (q : RotatingQueue T) : option T * RotatingQueue T :=
  match rq_elements q with
  | [] => (None, q)
  | _ =>
      let index := rq_current q mod Z.of_nat (length (rq_elements q)) in
      (rq_elements q !! Z.to_nat index,
       mkRotatingQueue (rq_elements q) (rq_current q +64 1)%rpc)
  end.

(** [n] calls in a row. *)
Fixpoint rq_gets {T} (n : nat) (q : RotatingQueue T) : list (option T) * RotatingQueue T :=
  match n with
  | O => ([], q)
  | S n' => let '(x, q1) := rq_get q in let '(xs, q2) := rq_gets n' q1 in (x :: xs, q2)
  end.

(** ** Connecting *)

(** [QuicConnectionError], services/src/quic_connection_utils.rs:103-106. *)
Inductive QuicConnectionError := TimeOut | ConnectionError (retry : bool).

(** What one attempt to connect comes to: a connection, an error or time-out of
    [make_connection] or [make_connection_0rtt], or the exit signal. *)
Inductive connect_outcome := ConnectOk (stable_id : Z) | ConnectErr | ConnectExit.

(** [QuicConnectionUtils::connect], services/src/quic_connection_utils.rs:272-314.
    A script that has run out is the exit signal. *)
Fixpoint quic_connect (connection_retry_count : nat) (script : list connect_outcome) :
    option Z * list connect_outcome :=
  match connection_retry_count, script with
  | O, _ => (None, script)
  | S _, [] => (None, [])
  | S _, ConnectExit :: script' => (None, script')
  | S _, ConnectOk c :: script' => (Some c, script')
  | S n, ConnectErr :: script' => quic_connect n script'
  end.

(** [QuicConnection], services/src/quic_connection.rs:34-45: the part that
    changes. *)
Record QuicConnection := mkQuicConnection {
  qc_connection : option Z;
  qc_last_stable_id : Z;
  qc_timeout_counters : Z;
  qc_has_connected_once : bool;
}.

(** [QuicConnection::new], services/src/quic_connection.rs:48-64. *)
Definition quic_connection_new : QuicConnection := mkQuicConnection None 0 0 false.

Definition qc_set_connection (q : QuicConnection) (c : option Z) : QuicConnection :=
  mkQuicConnection c (qc_last_stable_id q) (qc_timeout_counters q) (qc_has_connected_once q).
Definition qc_set_once (q : QuicConnection) : QuicConnection :=
  mkQuicConnection (qc_connection q) (qc_last_stable_id q) (qc_timeout_counters q) true.
Definition qc_set_last_stable_id (q : QuicConnection) (id : Z) : QuicConnection :=
  mkQuicConnection (qc_connection q) id (qc_timeout_counters q) (qc_has_connected_once q).
Definition qc_count_timeout (q : QuicConnection) : QuicConnection :=
  mkQuicConnection (qc_connection q) (qc_last_stable_id q) (qc_timeout_counters q +64 1)%rpc
    (qc_has_connected_once q).

(** A running [get_connection]: before the read lock, waiting for the write
    lock in one of the two branches that need it, or returned. *)
Inductive get_pc :=
| GcRead
| GcReset (current_stable_id : Z)
| GcNew
| GcReturned (c : option Z).

(** The first half, [QuicConnection::get_connection],
    services/src/quic_connection.rs:83-125: read the connection and decide. *)
Definition gc_read (q : QuicConnection) : get_pc :=
  match qc_connection q with
  | Some c => if c =? qc_last_stable_id q then GcReset c else GcReturned (Some c)
  | None => GcNew
  end.

(** The second half, [QuicConnection::get_connection],
    services/src/quic_connection.rs:92-124, under the write lock: another call may
    have connected in between. *)
Definition gc_locked (retry : nat) (q : QuicConnection) (pc : get_pc) (script : list connect_outcome) :
    outcome (get_pc * QuicConnection * list connect_outcome) :=
  match pc with
  | GcReset current_stable_id =>
      match qc_connection q with
      | None => Panic
      | Some c =>
          if c =? current_stable_id then
            let '(new_conn, script') := quic_connect retry script in
            match new_conn with
            | Some n => Done (GcReturned (Some n), qc_set_connection q (Some n), script')
            | None => Done (GcReturned None, q, script')
            end
          else Done (GcReturned (Some c), q, script)
      end
  | GcNew =>
      match qc_connection q with
      | Some c => Done (GcReturned (Some c), q, script)
      | None =>
          let '(connection, script') := quic_connect retry script in
          Done (GcReturned connection, qc_set_once (qc_set_connection q connection), script')
      end
  | pc => Done (pc, q, script)
  end.

(** [QuicConnection::get_connection], services/src/quic_connection.rs:83-126, with
    nothing in between the two halves. *)
Definition get_connection (retry : nat) (q : QuicConnection) (script : list connect_outcome) :
    outcome (option Z * QuicConnection * list connect_outcome) :=
  match gc_read q with
  | GcReturned c => Done (c, q, script)
  | pc =>
      r ← gc_locked retry q pc script;
      match r with
      | (GcReturned c, q', script') => Done (c, q', script')
      | (_, q', script') => Done (None, q', script')
      end
  end.

(** ** Sending a transaction *)

Inductive open_outcome := OpenOk | OpenErr | OpenTimeout | OpenExit.
Inductive write_outcome := WriteOk | WriteErr | WriteTimeout | FinishErr | WriteExit.

(** [QuicConnectionUtils::open_unistream],
    services/src/quic_connection_utils.rs:380-389; [None] is the exit signal. *)
Definition open_unistream (o : open_outcome) : option (result QuicConnectionError unit) :=
  match o with
  | OpenOk => Some (Ok tt)
  | OpenErr => Some (Err (ConnectionError true))
  | OpenTimeout => Some (Err TimeOut)
  | OpenExit => None
  end.

(** [QuicConnectionUtils::write_all],
    services/src/quic_connection_utils.rs:316-378; [None] is the exit signal. *)
Definition write_all (w : write_outcome) : option (result QuicConnectionError unit) :=
  match w with
  | WriteOk => Some (Ok tt)
  | WriteErr => Some (Err (ConnectionError true))
  | WriteTimeout => Some (Err TimeOut)
  | FinishErr => Some (Err (ConnectionError false))
  | WriteExit => None
  end.

(** The scripts of one call and what it did: how often a stream was opened, and
    whether the transaction was written. *)
Record send_script := mkSendScript {
  sc_connect : list connect_outcome;
  sc_open : list open_outcome;
  sc_write : list write_outcome;
}.

Record send_report := mkSendReport { sr_tries : nat; sr_written : bool }.

(** [QuicConnection::send_transaction], services/src/quic_connection.rs:128-207.
    [n] is what is left of [0..connection_retry_count]; every [break] leaves the
    loop. *)
Fixpoint send_loop (retry n : nat) (q : QuicConnection) (s : send_script) (rep : send_report) :
    outcome (QuicConnection * send_report) :=
  match n with
  | O => Done (q, rep)
  | S n' =>
      r ← get_connection retry q (sc_connect s);
      let '(connection, q1, connects) := r in
      match connection with
      | None => Done (q1, rep)
      | Some current_stable_id =>
          let rep1 := mkSendReport (S (sr_tries rep)) (sr_written rep) in
          match open_unistream (default OpenExit (head (sc_open s))) with
          | None => Done (q1, rep1)
          | Some open_res =>
              let write_res :=
                match open_res with
                | Ok _ => write_all (default WriteExit (head (sc_write s)))
                | Err e => Some (Err e)
                end in
              match write_res with
              | None => Done (q1, rep1)
              | Some res =>
                  let '(do_retry, q2, rep2) :=
                    match res with
                    | Ok _ => (false, q1, mkSendReport (sr_tries rep1) true)
                    | Err (ConnectionError retry) => (retry, q1, rep1)
                    | Err TimeOut => (false, qc_count_timeout q1, rep1)
                    end in
                  if (do_retry : bool) then Done (qc_set_last_stable_id q2 current_stable_id, rep2)
                  else if negb do_retry then Done (q2, rep2)
                  else send_loop retry n' q2
                         (mkSendScript connects (tail (sc_open s)) (tail (sc_write s))) rep2
              end
          end
      end
  end.

Definition send_transaction (connection_retry_count : nat) (q : QuicConnection) (s : send_script) :
    outcome (QuicConnection * send_report) :=
  send_loop connection_retry_count connection_retry_count q s (mkSendReport 0 false).

(** ** The pool *)

(** A connection of the pool: has it connected once, is it open, and how many
    permits its semaphore has left. *)
Record pooled := mkPooled { po_connected_once : bool; po_is_connected : bool; po_permits : Z }.

(** [QuicConnectionPool], services/src/quic_connection.rs:237-244. *)
Record QuicConnectionPool := mkQuicConnectionPool {
  pool_connections : list pooled;
  pool_threshold : Z;
}.

(** [QuicConnectionPool::new], services/src/quic_connection.rs:251-287. *)
Definition pool_new (nb_connection : nat) (max_unistreams percentage : Z) : QuicConnectionPool :=
  mkQuicConnectionPool (replicate nb_connection (mkPooled false false max_unistreams))
    (Z.min u64_max (max_unistreams * Z.min percentage 100) / 100).

(** The condition of the first loop of [get_permit_and_index],
    services/src/quic_connection.rs:291-303, and the [try_acquire_owned] behind it. *)
Definition preferred (threshold : Z) (p : pooled) : bool :=
  (negb (po_connected_once p) || (po_is_connected p && (threshold <? po_permits p))) &&
  (0 <? po_permits p).

(** [QuicConnectionPool::get_permit_and_index],
    services/src/quic_connection.rs:289-313: the index whose permit is taken, or
    [None] while every semaphore is empty. *)
Definition get_permit_and_index (pool : QuicConnectionPool) : option nat :=
  match list_find (fun p => preferred (pool_threshold pool) p = true) (pool_connections pool) with
  | Some (i, _) => Some i
  | None => fst <$> list_find (fun p => 0 < po_permits p) (pool_connections pool)
  end.

Definition add_permits (d : Z) (p : pooled) : pooled :=
  mkPooled (po_connected_once p) (po_is_connected p) (po_permits p + d).

Definition pool_alter (f : pooled -> pooled) (i : nat) (pool : QuicConnectionPool) : QuicConnectionPool :=
  mkQuicConnectionPool (alter f i (pool_connections pool)) (pool_threshold pool).

(** What happens to a pool: a task asks for a connection, a task that holds a
    permit of connection [i] ends, connection [i] completes an attempt to
    connect, or it closes. *)
Inductive pool_event :=
| PoolAcquire
| PoolRelease (i : nat)
| PoolAttempt (i : nat) (connected : bool)
| PoolClosed (i : nat).

(** The pool beside the number of tasks sending on each connection. *)
Definition pool_step (s : QuicConnectionPool * list Z) (ev : pool_event) : QuicConnectionPool * list Z :=
  let '(pool, sending) := s in
  match ev with
  | PoolAcquire =>
      match get_permit_and_index pool with
      | Some i => (pool_alter (add_permits (-1)) i pool, alter (fun n => n + 1) i sending)
      | None => (pool, sending)
      end
  | PoolRelease i =>
      match sending !! i with
      | Some n => if 0 <? n then (pool_alter (add_permits 1) i pool, alter (fun n => n - 1) i sending)
                  else (pool, sending)
      | None => (pool, sending)
      end
  | PoolAttempt i b => (pool_alter (fun p => mkPooled true b (po_permits p)) i pool, sending)
  | PoolClosed i => (pool_alter (fun p => mkPooled (po_connected_once p) false (po_permits p)) i pool, sending)
  end.

(** ** Interleaved calls of [get_connection] *)

(** Some call takes its next step: it reads, or it runs its locked half with
    whatever the network answers. *)
Inductive gc_step (retry : nat) : list get_pc * QuicConnection -> list get_pc * QuicConnection -> Prop :=
| gc_step_read cs i q :
    cs !! i = Some GcRead -> gc_step retry (cs, q) (<[i := gc_read q]> cs, q)
| gc_step_locked cs i q pc script pc' q' script' :
    cs !! i = Some pc -> pc <> GcRead ->
    gc_locked retry q pc script = Done (pc', q', script') ->
    gc_step retry (cs, q) (<[i := pc']> cs, q')
| gc_step_call cs q : gc_step retry (cs, q) (cs ++ [GcRead], q)
| gc_step_mark cs q id : gc_step retry (cs, q) (cs, qc_set_last_stable_id q id).

(** While a call is about to reset the connection there is one. *)
Definition gc_inv (s : list get_pc * QuicConnection) : Prop :=
  forall i id, s.1 !! i = Some (GcReset id) -> is_Some (qc_connection s.2).

Lemma gc_locked_keeps retry q pc script pc' q' script' :
  gc_locked retry q pc script = Done (pc', q', script') ->
  (is_Some (qc_connection q) -> is_Some (qc_connection q')) /\ (forall id, pc' <> GcReset id \/ pc' = pc).
Proof.
  unfold gc_locked. destruct pc as [|id0| |c]; intros H; simplify_eq/=.
  - split; auto.
  - destruct (qc_connection q) as [c|] eqn:Hc; [|done]. destruct (c =? id0).
    + destruct (quic_connect retry script) as [[n|] sc]; simplify_eq/=; split; eauto; naive_solver.
    + simplify_eq. split; [by rewrite Hc|]. auto.
  - destruct (qc_connection q) as [c|] eqn:Hc.
    + simplify_eq. split; [by rewrite Hc|]. auto.
    + destruct (quic_connect retry script) as [c sc]. simplify_eq/=. split; [by intros []|]. auto.
  - split; auto.
Qed.

Lemma gc_inv_step retry s s' : gc_step retry s s' -> gc_inv s -> gc_inv s'.
Proof.
  unfold gc_inv. destruct 1 as [cs i q Hi|cs i q pc script pc' q' script' Hi Hpc Hl|cs q|cs q id0];
    intros Hinv j id; simpl in *.
  - rewrite list_lookup_insert_Some. intros [(-> & He & _)|[_ Hj]]; [|eauto].
    unfold gc_read in He. destruct (qc_connection q); [by eexists|done].
  - destruct (gc_locked_keeps _ _ _ _ _ _ _ Hl) as [Hk Hr].
    rewrite list_lookup_insert_Some. intros [(-> & He & _)|[_ Hj]]; [|eauto].
    destruct (Hr id) as [Hne|Hsame]; [done|]. apply Hk. subst pc'. subst pc. eauto.
  - intros [Hj|[Hlen Hj]]%lookup_app_Some; [eauto|].
    apply list_lookup_singleton_Some in Hj as [_ ?]. done.
  - eauto.
Qed.

(** ** The loop of [send_transaction] *)

Lemma send_loop_once retry n q s rep :
  send_loop retry (S n) q s rep = send_loop retry 1 q s rep.
Proof.
  cbn [send_loop]. destruct (get_connection retry q (sc_connect s)) as [[[c q1] cs]|]; [|done]. simpl.
  destruct c as [id|]; [|done].
  destruct (open_unistream _) as [open_res|]; [|done].
  destruct (match open_res with Ok _ => _ | Err _ => _ end) as [res|]; [|done].
  destruct res as [|[|b]]; simpl; [done|done|]. by destruct b.
Qed.

Lemma send_loop_tries retry n q s rep q' rep' :
  send_loop retry n q s rep = Done (q', rep') -> (sr_tries rep' <= S (sr_tries rep))%nat.
Proof.
  destruct n as [|n]; [simpl; intros; simplify_eq; lia|]. rewrite send_loop_once. cbn [send_loop].
  destruct (get_connection retry q (sc_connect s)) as [[[c q1] cs]|]; [|done]. simpl.
  intros H. cases; simpl; lia.
Qed.

(** ** Permits *)

(** On every connection the permits left and the tasks sending add up. *)
Definition pool_inv (max : Z) (s : QuicConnectionPool * list Z) : Prop :=
  Forall2 (fun p n => po_permits p + n = max /\ 0 <= po_permits p /\ 0 <= n)
    (pool_connections s.1) s.2.

Lemma Forall2_alter2 {A B} (P : A -> B -> Prop) (f : A -> A) (g : B -> B) l k i :
  Forall2 P l k -> (forall x y, l !! i = Some x -> k !! i = Some y -> P x y -> P (f x) (g y)) ->
  Forall2 P (alter f i l) (alter g i k).
Proof.
  intros Hl Hf. apply Forall2_same_length_lookup. rewrite Forall2_same_length_lookup in Hl.
  destruct Hl as [Hlen Hl]. split; [by rewrite !length_alter|].
  intros j x y Hx Hy. destruct (decide (i = j)) as [<-|Hne].
  - rewrite list_lookup_alter_eq in Hx. rewrite list_lookup_alter_eq in Hy.
    destruct (l !! i) eqn:Hi, (k !! i) eqn:Hk; simplify_eq/=. eauto.
  - rewrite list_lookup_alter_ne in Hx by done. rewrite list_lookup_alter_ne in Hy by done. eauto.
Qed.

Lemma get_permit_positive pool i :
  get_permit_and_index pool = Some i ->
  exists p, pool_connections pool !! i = Some p /\ 0 < po_permits p.
Proof.
  unfold get_permit_and_index. destruct (list_find _ (pool_connections pool)) as [[j p]|] eqn:Hf.
  - intros ?; simplify_eq. apply list_find_Some in Hf as (Hl & Hp & _). exists p. split; [done|].
    unfold preferred in Hp. apply andb_true_iff in Hp as [_ Hp]. bool_lia.
  - destruct (list_find (fun p => 0 < po_permits p) _) as [[j p]|] eqn:Hg; simpl; [|done].
    intros ?; simplify_eq. apply list_find_Some in Hg as (Hl & Hp & _). eauto.
Qed.

Lemma pool_inv_step max s ev : pool_inv max s -> pool_inv max (pool_step s ev).
Proof.
  destruct s as [pool sending]. unfold pool_inv. simpl. intros Hi. destruct ev as [|i|i b|i]; simpl.
  - destruct (get_permit_and_index pool) as [i|] eqn:Hg; [|done]. simpl.
    apply get_permit_positive in Hg as (p & Hp & Hpos).
    apply Forall2_alter2; [done|]. intros x y Hx Hy. simplify_eq. simpl. lia.
  - destruct (sending !! i) as [n|] eqn:Hn; [|done]. destruct (0 <? n) eqn:?; [|done]. bool_lia. simpl.
    apply Forall2_alter2; [done|]. intros x y Hx Hy. simplify_eq. simpl. lia.
  - rewrite <- (list_alter_id (fun n => n) sending i) by done. by apply Forall2_alter2.
  - rewrite <- (list_alter_id (fun n => n) sending i) by done. by apply Forall2_alter2.
Qed.

(** ** Properties *)

Lemma rq_gets_lookup {T} n (q : RotatingQueue T) i :
  rq_elements q <> [] -> 0 <= rq_current q -> rq_current q + Z.of_nat n < u64_size ->
  (i < n)%nat ->
  (rq_gets n q).1 !! i =
  Some (rq_elements q !! Z.to_nat ((rq_current q + Z.of_nat i) mod Z.of_nat (length (rq_elements q)))).
Proof.
  revert q i. induction n as [|n IH]; intros q i Hne Hc Hmax Hi; [lia|]. cbn [rq_gets].
  unfold rq_get. destruct (rq_elements q) as [|e l] eqn:He; [done|]. rewrite <- He.
  destruct (rq_gets n _) as [xs q2] eqn:Hg. simpl.
  destruct i as [|i]; simpl; [by rewrite Z.add_0_r|].
  change xs with (xs, q2).1. rewrite <- Hg. rewrite IH; simpl; rewrite ?wrap_u64_id by (unfold in_u64; lia).
  - do 4 f_equal. lia.
  - by rewrite He.
  - lia.
  - lia.
  - lia.
Qed.

Lemma rq_gets_length {T} n (q : RotatingQueue T) : length (rq_gets n q).1 = n.
Proof.
  revert q. induction n as [|n IH]; intros q; [done|]. cbn [rq_gets].
  destruct (rq_get q) as [x q1]. specialize (IH q1). destruct (rq_gets n q1). simpl in *. by rewrite IH.
Qed.

(** As many consecutive calls of [get] as the queue has elements hand out
    every element exactly once, whatever calls came before (as long as the
    counter does not wrap in between). *)
Theorem rotating_queue_fair {T} (l : list T) (current : Z) :
  l <> [] -> 0 <= current -> current + Z.of_nat (length l) < u64_size ->
  (rq_gets (length l) (mkRotatingQueue l current)).1 ≡ₚ Some <$> l.
Proof.
  intros Hl Hc Hmax. set (n := length l). set (k := Z.to_nat (current mod Z.of_nat n)).
  assert (0 < n)%nat as Hn by (destruct l; simpl in *; [done|lia]).
  assert (Hk : (k < n)%nat) by (unfold k; pose proof (Z.mod_pos_bound current (Z.of_nat n)); lia).
  assert ((rq_gets n (mkRotatingQueue l current)).1 = Some <$> (drop k l ++ take k l)) as ->.
  { apply list_eq. intros i. rewrite list_lookup_fmap. destruct (decide (i < n)%nat) as [Hi|Hi].
    - rewrite rq_gets_lookup by (simpl; done || lia). simpl. fold n.
      assert (Z.to_nat ((current + Z.of_nat i) mod Z.of_nat n) =
              if decide (k + i < n)%nat then (k + i)%nat else (k + i - n)%nat) as ->.
      { pose proof (Z.div_mod current (Z.of_nat n) ltac:(lia)) as Hdm.
        pose proof (Z.mod_pos_bound current (Z.of_nat n) ltac:(lia)) as Hb.
        assert (Z.of_nat k = current mod Z.of_nat n) as Hkz by (unfold k; lia).
        case_decide as Hd.
        - rewrite <- (Zmod_unique _ (Z.of_nat n) (current / Z.of_nat n) (Z.of_nat (k + i))); lia.
        - rewrite <- (Zmod_unique _ (Z.of_nat n) (current / Z.of_nat n + 1) (Z.of_nat (k + i - n))); lia. }
      case_decide.
      + rewrite lookup_app_l by (rewrite length_drop; fold n; lia). rewrite lookup_drop.
        destruct (lookup_lt_is_Some_2 l (k + i)) as [x ->]; [fold n; lia|]. done.
      + rewrite lookup_app_r, length_drop by (rewrite length_drop; fold n; lia). fold n.
        rewrite lookup_take_lt by lia. replace (i - (n - k))%nat with (k + i - n)%nat by lia.
        destruct (lookup_lt_is_Some_2 l (k + i - n)) as [x ->]; [fold n; lia|]. done.
    - rewrite lookup_ge_None_2 by (rewrite rq_gets_length; lia).
      by rewrite lookup_ge_None_2 by (rewrite length_app, length_drop, length_take; fold n; lia). }
  f_equiv. by rewrite Permutation_app_comm, take_drop.
Qed.

Lemma rotating_queue_fair_witness :
  (rq_gets 3 (mkRotatingQueue [10; 20; 30] 4)).1 ≡ₚ [Some 10; Some 20; Some 30].
Proof. apply (rotating_queue_fair [10; 20; 30] 4); [done|lia|reflexivity]. Defined.

(** However calls of [get_connection], marks of a broken connection and
    network answers interleave, the expectation that a connection to be reset is
    still there never fails. *)
Theorem get_connection_never_panics retry cs q i pc script :
  rtc (gc_step retry) ([], quic_connection_new) (cs, q) -> cs !! i = Some pc ->
  exists r, gc_locked retry q pc script = Done r.
Proof.
  intros Hs Hi.
  assert (gc_inv (cs, q)) as Hinv.
  { eapply (rtc_ind_l (fun s => gc_inv s -> gc_inv (cs, q))); [| |exact Hs|].
    - done.
    - intros x y Hxy _ IH Hx. by apply IH, (gc_inv_step retry x y).
    - intros j id Hj. simpl in Hj. by rewrite lookup_nil in Hj. }
  unfold gc_locked. destruct pc as [|id| |c]; eauto.
  - destruct (Hinv i id Hi) as [c Hc]. simpl in Hc. rewrite Hc. cases; eauto.
  - cases; eauto.
Qed.

Lemma get_connection_never_panics_witness :
  exists r, gc_locked 2 (mkQuicConnection (Some 5) 5 0 true) (GcReset 5) [ConnectErr; ConnectOk 6] = Done r.
Proof.
  apply (get_connection_never_panics 2 [GcReturned (Some 5); GcReset 5] _ 1).
  - eapply rtc_l; [apply gc_step_call|]. simpl.
    eapply rtc_l; [by apply (gc_step_read 2 _ 0)|]. simpl.
    eapply rtc_l; [by apply (gc_step_locked 2 _ 0 _ GcNew [ConnectOk 5] (GcReturned (Some 5))
                               (mkQuicConnection (Some 5) 0 0 true) [])|]. simpl.
    eapply rtc_l; [apply (gc_step_mark 2 _ _ 5)|]. simpl.
    eapply rtc_l; [apply gc_step_call|]. simpl.
    eapply rtc_l; [by apply (gc_step_read 2 _ 1)|]. simpl. constructor.
  - reflexivity.
Defined.

(** Two calls that find the same broken connection reconnect once: the
    second one to get the write lock sees the new connection and uses it,
    without asking the network. *)
Theorem reset_happens_once retry q id new script1 rest script2 :
  qc_connection q = Some id -> qc_last_stable_id q = id -> new <> id ->
  quic_connect retry script1 = (Some new, rest) ->
  gc_read q = GcReset id /\
  exists q1, gc_locked retry q (GcReset id) script1 = Done (GcReturned (Some new), q1, rest) /\
    gc_locked retry q1 (GcReset id) script2 = Done (GcReturned (Some new), q1, script2) /\
    gc_read q1 = GcReturned (Some new).
Proof.
  intros Hc Hl Hne Hconn. unfold gc_read, gc_locked. rewrite Hc, Hl, Z.eqb_refl, Hconn. simpl.
  split; [done|]. eexists. split; [done|]. simpl. rewrite Hl.
  by rewrite (proj2 (Z.eqb_neq new id)) by done.
Qed.

Lemma reset_happens_once_witness :
  gc_read (mkQuicConnection (Some 5) 5 0 true) = GcReset 5 /\
  exists q1,
    gc_locked 3 (mkQuicConnection (Some 5) 5 0 true) (GcReset 5) [ConnectErr; ConnectOk 6] =
      Done (GcReturned (Some 6), q1, []) /\
    gc_locked 3 q1 (GcReset 5) [ConnectOk 7] = Done (GcReturned (Some 6), q1, [ConnectOk 7]) /\
    gc_read q1 = GcReturned (Some 6).
Proof. by apply reset_happens_once. Defined.

(** [send_transaction] tries at most once, whatever its retry count and
    whatever fails: the [break] after marking a broken connection leaves the loop
    that was to retry. *)
Theorem send_transaction_never_retries n q s :
  send_transaction (S n) q s = send_loop (S n) 1 q s (mkSendReport 0 false) /\
  (forall q' rep, send_transaction (S n) q s = Done (q', rep) -> (sr_tries rep <= 1)%nat).
Proof.
  split; [apply send_loop_once|]. intros q' rep H. by apply send_loop_tries in H.
Qed.

(** The permits bound the load: in every run of acquisitions, releases and
    connection changes, at most as many tasks send on a connection as the
    semaphore was created with, and a task has to wait only when every connection
    is fully used. *)
Theorem pool_bounds_load nb max percentage evs :
  0 <= max ->
  let '(pool, sending) := foldl pool_step (pool_new nb max percentage, replicate nb 0) evs in
  Forall (fun n => 0 <= n <= max) sending /\
  (get_permit_and_index pool = None -> Forall (fun n => n = max) sending).
Proof.
  intros Hmax.
  assert (pool_inv max (foldl pool_step (pool_new nb max percentage, replicate nb 0) evs)) as Hinv.
  { apply (foldl_invariant pool_step (pool_inv max)); [intros; by apply pool_inv_step|].
    unfold pool_inv, pool_new. simpl. apply Forall2_replicate. simpl. lia. }
  destruct (foldl _ _ evs) as [pool sending]. unfold pool_inv in Hinv. simpl in Hinv. split.
  - apply (Forall2_Forall_r _ _ _ _ Hinv). apply Forall_forall. intros p _ n. simpl. lia.
  - unfold get_permit_and_index. destruct (list_find _ (pool_connections pool)) as [[]|]; [done|].
    destruct (list_find (fun p => 0 < po_permits p) _) as [[]|] eqn:Hf; [done|]. intros _.
    apply list_find_None in Hf. apply (Forall2_Forall_r _ _ _ _ Hinv).
    eapply Forall_impl; [exact Hf|]. simpl. intros p Hp n. lia.
Qed.

Lemma pool_bounds_load_witness :
  let '(pool, sending) :=
    foldl pool_step (pool_new 2 1 10, replicate 2 0)
      [PoolAcquire; PoolAttempt 0 true; PoolAcquire; PoolAcquire; PoolRelease 0] in
  Forall (fun n => 0 <= n <= 1) sending /\
  (get_permit_and_index pool = None -> Forall (fun n => n = 1) sending).
Proof. apply (pool_bounds_load 2 1 10). lia. Defined.
