(* ===== verification/Tpu.v ===== *)
(** * The TPU service: which leaders to connect to, and what to send them

    services/src/tpu_utils/tpu_service.rs and
    services/src/tpu_utils/tpu_connection_manager.rs.

    The service asks a leader getter (any instance of [LeaderFetcher]) for the
    leaders around the current slot and tells the connection manager which
    connections to keep.  An active connection runs two tasks that share a
    prioritization heap; [conn_step] is one action of either, or of one of the
    tasks they spawn to send a transaction. *)

From S2P Require Import Prelude BTreeMap Types PrioHeap BlockInfoStore LeaderSchedule DataCache TxService.

(** ** The connection manager *)

(** A socket address: IP and port. *)
Notation SocketAddr := (Z * Z)%type (only parsing).

(** The loop over [connections_to_keep], [TpuConnectionManager::update_connections],
    services/src/tpu_utils/tpu_connection_manager.rs:273-289: what is started is
    listed in the order of the iteration. *)
Definition start_missing (acc : gmap Pubkey SocketAddr * list (Pubkey * SocketAddr))
    (e : Pubkey * SocketAddr) : gmap Pubkey SocketAddr * list (Pubkey * SocketAddr) :=
  let '(active, started) := acc in
  let '(identity, socket_addr) := e in
  match active !! identity with
  | None => (<[identity := socket_addr]> active, started ++ [(identity, socket_addr)])
  | Some _ => (active, started)
  end.

(** What an update did: the connections it started, and the ones it sent the
    exit signal. *)
Record conn_update := mkConnUpdate {
  cu_active : gmap Pubkey SocketAddr;
  cu_started : list (Pubkey * SocketAddr);
  cu_exited : list Pubkey;
}.

(** [TpuConnectionManager::update_connections],
    services/src/tpu_utils/tpu_connection_manager.rs:264-302. *)
Definition update_connections (active keep : gmap Pubkey SocketAddr) : conn_update :=
  let '(active1, started) := foldl start_missing (active, []) (map_to_list keep) in
  mkConnUpdate (filter (fun kv => is_Some (keep !! kv.1)) active1) started
    (map_to_list (filter (fun kv => keep !! kv.1 = None) active1)).*1.

(** ** The service *)

(** The SDK's [QUIC_PORT_OFFSET]. *)
Definition QUIC_PORT_OFFSET : Z := 6.

(** The QUIC address of a node, [TpuService::update_quic_connections],
    services/src/tpu_utils/tpu_service.rs:124-143. *)
Definition tpu_quic_addr (nodes : gmap Pubkey RpcContactInfo) (leader : Pubkey) : option SocketAddr :=
  info ← nodes !! leader;
  addr ← rci_tpu info;
  Some (addr.1, wrap_u16 (addr.2 + QUIC_PORT_OFFSET)).

(** Collecting into a [HashMap], services/src/tpu_utils/tpu_service.rs:121-144. *)
Definition connections_to_keep (nodes : gmap Pubkey RpcContactInfo) (leaders : list LeaderData) :
    gmap Pubkey SocketAddr :=
  foldl (fun m x => match tpu_quic_addr nodes (leader_pubkey x) with
                    | Some addr => <[leader_pubkey x := addr]> m
                    | None => m
                    end) ∅ leaders.

Section tpu_service.
Context {S : Type} `{LeaderFetcher S}.
Context (fanout_slots : Z).

(** [TpuService::update_quic_connections] with a direct connection manager,
    services/src/tpu_utils/tpu_service.rs:106-174. *)
Definition update_quic_connections (d : DataCache) (active : gmap Pubkey SocketAddr) (getter : S)
    (current_slot estimated_slot : Slot) :
    outcome (result LeadersError conn_update * S) :=
  let last_slot := (estimated_slot +64 fanout_slots)%rpc in
  let current_slot := saturating_sub_u64 current_slot 4 in
  r ← lf_get_slot_leaders getter current_slot last_slot;
  let '(leaders, getter') := r in
  match leaders with
  | Err e => Done (Err e, getter')
  | Ok next_leaders =>
      Done (Ok (update_connections active (connections_to_keep (cluster_info d) next_leaders)), getter')
  end.
End tpu_service.

(** ** An active connection

    [ActiveConnection::listen] runs two tasks that share a heap, and spawns one
    more for every transaction it sends.  Each is stopped at its awaits and
    between two accesses to shared state. *)

(** Where the heap filler stands: not started, before it reads the height,
    in its select, with a transaction to insert, having inserted one, with
    expired transactions to remove, over. *)
Inductive filler_pc :=
| FillNew
| FillStart
| FillRecv
| FillInsert (info : SentTransactionInfo)
| FillHeight
| FillExpire (height : Z)
| FillOver.

(** Where [listen] itself stands: not started, waiting for a first connection,
    in its select, about to pop, with a popped transaction, with one that is not
    confirmed and waits for a connection, waiting for the filler to end, over. *)
Inductive sender_pc :=
| SendNew
| SendConnect
| SendWait
| SendPop
| SendCheck (tx : SentTransactionInfo)
| SendPool (tx : SentTransactionInfo)
| SendJoin
| SendOver.

(** [ActiveConnection] and what its tasks share,
    services/src/tpu_utils/tpu_connection_manager.rs:46-54: the receiver of the
    broadcast channel, the heap, the permit of the notifier, the exit messages
    that wait for the two receivers of the exit channel, and the transactions
    with the spawned tasks. *)
Record connection := mkConnection {
  cn_identity : Pubkey;
  cn_addr : SocketAddr;
  cn_queue : list SentTransactionInfo;
  cn_heap : PrioritizationFeesHeap;
  cn_height : Z;
  cn_filler : filler_pc;
  cn_sender : sender_pc;
  cn_notified : bool;
  cn_filler_exit : bool;
  cn_sender_exit : bool;
  cn_flight : list SentTransactionInfo;
}.

Definition set_filler (c : connection) q h height pc notified :=
  mkConnection (cn_identity c) (cn_addr c) q h height pc (cn_sender c) notified (cn_filler_exit c) (cn_sender_exit c) (cn_flight c).
Definition set_sender (c : connection) h pc notified flight :=
  mkConnection (cn_identity c) (cn_addr c) (cn_queue c) h (cn_height c) (cn_filler c) pc notified (cn_filler_exit c) (cn_sender_exit c) flight.

(** [ActiveConnection::new] and [start_listening],
    services/src/tpu_utils/tpu_connection_manager.rs:57-73: the receiver is
    subscribed when the connection is created. *)
Definition connection_new (capacity : Z) (identity : Pubkey) (addr : SocketAddr) : connection :=
  mkConnection identity addr [] (heap_new capacity) 0 FillNew SendNew false false false [].

(** The exit signal, [TpuConnectionManager::update_connections],
    services/src/tpu_utils/tpu_connection_manager.rs:291-301: it reaches the
    receivers that are subscribed by then; [listen] subscribes its own only after
    the first connection. *)
Definition signal_exit (c : connection) : connection :=
  mkConnection (cn_identity c) (cn_addr c) (cn_queue c) (cn_heap c) (cn_height c) (cn_filler c) (cn_sender c) (cn_notified c)
    (match cn_filler c with FillNew | FillOver => false | _ => true end)
    (match cn_sender c with SendNew | SendConnect | SendOver => false | _ => true end)
    (cn_flight c).

(** What becomes of a transaction a connection was given: it is written to a
    stream, or lost because it was found confirmed or expired, had no place in the
    heap, was removed as expired, was found confirmed before sending, got no
    connection, could not be written, or because the connection closed. *)
Inductive loss := LossSettled | LossHeap | LossExpired | LossConfirmed | LossNoConnection | LossNotWritten | LossClosed | LossLagged.
Inductive conn_output :=
| Written (info : SentTransactionInfo)
| Lost (why : loss) (info : SentTransactionInfo).

Definition out_tx (o : conn_output) : SentTransactionInfo := match o with Written info | Lost _ info => info end.

(** The actions.  [CnConnect] and [CnPooled] are the ends of the two calls of
    [get_pooled_connection], [CnFlight] the end of a spawned task: whether the
    transaction was written. *)
Inductive conn_event :=
| CnListen
| CnFill
| CnFillExit
| CnConnect
| CnSend
| CnPooled (ok : bool)
| CnFlight (k : nat) (written : bool)
| CnSendExit.

(** The heap filler, [ActiveConnection::listen],
    services/src/tpu_utils/tpu_connection_manager.rs:107-163: one action. *)
Definition fill_action (d : DataCache) (c : connection) : outcome (connection * list conn_output) :=
  let last_blockheight := get_last_blockheight (block_information_store d) in
  match cn_filler c with
  | FillStart => Done (set_filler c (cn_queue c) (cn_heap c) last_blockheight FillRecv (cn_notified c), [])
  | FillRecv =>
      match cn_queue c with
      | [] => Done (c, [])
      | info :: q =>
          if check_if_confirmed_or_expired_blockheight d info
          then Done (set_filler c q (cn_heap c) (cn_height c) FillRecv (cn_notified c), [Lost LossSettled info])
          else Done (set_filler c q (cn_heap c) (cn_height c) (FillInsert info) (cn_notified c), [])
      end
  | FillInsert info =>
      h ← heap_insert (cn_heap c) info;
      Done (set_filler c (cn_queue c) h (cn_height c) FillHeight true,
            Lost LossHeap <$> list_minus (info :: heap_txs (cn_heap c)) (heap_txs h))
  | FillHeight =>
      if negb (last_blockheight =? cn_height c)
      then Done (set_filler c (cn_queue c) (cn_heap c) last_blockheight (FillExpire last_blockheight) (cn_notified c), [])
      else Done (set_filler c (cn_queue c) (cn_heap c) (cn_height c) FillRecv (cn_notified c), [])
  | FillExpire height =>
      let h := (heap_remove_expired (cn_heap c) height).2 in
      Done (set_filler c (cn_queue c) h (cn_height c) FillRecv (cn_notified c),
            Lost LossExpired <$> list_minus (heap_txs (cn_heap c)) (heap_txs h))
  | FillNew | FillOver => Done (c, [])
  end.

(** The main loop, [ActiveConnection::listen],
    services/src/tpu_utils/tpu_connection_manager.rs:177-228: one action that
    waits for nothing. *)
Definition send_action (d : DataCache) (c : connection) : outcome (connection * list conn_output) :=
  match cn_sender c with
  | SendWait => Done (if cn_notified c then set_sender c (cn_heap c) SendPop false (cn_flight c) else c, [])
  | SendPop =>
      r ← heap_pop (cn_heap c);
      Done (set_sender c r.2 (match r.1 with Some tx => SendCheck tx | None => SendWait end) (cn_notified c) (cn_flight c), [])
  | SendCheck tx =>
      if is_transaction_confirmed (txs d) (si_signature tx)
      then Done (set_sender c (cn_heap c) SendPop (cn_notified c) (cn_flight c), [Lost LossConfirmed tx])
      else Done (set_sender c (cn_heap c) (SendPool tx) (cn_notified c) (cn_flight c), [])
  | SendJoin =>
      match cn_filler c with
      | FillOver =>
          Done (set_sender c (heap_clear (cn_heap c)).2 SendOver (cn_notified c) (cn_flight c), Lost LossClosed <$> heap_txs (cn_heap c))
      | _ => Done (c, [])
      end
  | SendNew | SendConnect | SendPool _ | SendOver => Done (c, [])
  end.

(** [ActiveConnection::listen],
    services/src/tpu_utils/tpu_connection_manager.rs:75-228: one action of one
    of its tasks. *)
Definition conn_step (d : DataCache) (c : connection) (ev : conn_event) : outcome (connection * list conn_output) :=
  match ev, cn_filler c, cn_sender c with
  | CnListen, FillNew, SendNew =>
      Done (set_sender (set_filler c (cn_queue c) (cn_heap c) (cn_height c) FillStart (cn_notified c)) (cn_heap c) SendConnect
              (cn_notified c) (cn_flight c), [])
  | CnFill, _, _ => fill_action d c
  | CnFillExit, FillRecv, _ =>
      if cn_filler_exit c
      then Done (set_filler c [] (cn_heap c) (cn_height c) FillOver (cn_notified c), Lost LossClosed <$> cn_queue c)
      else Done (c, [])
  | CnConnect, _, SendConnect => Done (set_sender c (cn_heap c) SendWait (cn_notified c) (cn_flight c), [])
  | CnSend, _, _ => send_action d c
  | CnPooled true, _, SendPool tx => Done (set_sender c (cn_heap c) SendPop (cn_notified c) (cn_flight c ++ [tx]), [])
  | CnPooled false, _, SendPool tx =>
      Done (set_sender c (cn_heap c) SendWait (cn_notified c) (cn_flight c), [Lost LossNoConnection tx])
  | CnFlight k written, _, _ =>
      match cn_flight c !! k with
      | Some tx =>
          Done (set_sender c (cn_heap c) (cn_sender c) (cn_notified c) (take k (cn_flight c) ++ drop (S k) (cn_flight c)),
                [if written then Written tx else Lost LossNotWritten tx])
      | None => Done (c, [])
      end
  | CnSendExit, _, SendWait => Done (if cn_sender_exit c then set_sender c (cn_heap c) SendJoin (cn_notified c) (cn_flight c) else c, [])
  | _, _, _ => Done (c, [])
  end.

(** A message of the broadcast channel, as a connection sees it; a filler that
    is over has dropped its receiver. *)
Definition receiving (c : connection) : bool := match cn_filler c with FillOver => false | _ => true end.
Definition offer (capacity : nat) (info : SentTransactionInfo) (c : connection) : connection * list conn_output :=
  if receiving c
  then (set_filler c (bc_push capacity (cn_queue c) info) (cn_heap c) (cn_height c) (cn_filler c) (cn_notified c),
        Lost LossLagged <$> bc_lost capacity (cn_queue c) info)
  else (c, []).

(** ** Updating connections *)

Lemma start_missing_spec l active started :
  NoDup l.*1 ->
  (foldl start_missing (active, started) l).1 = active ∪ list_to_map l /\
  (foldl start_missing (active, started) l).2 =
    started ++ filter (fun e => active !! e.1 = None) l.
Proof.
  revert active started. induction l as [|[id addr] l IH]; intros active started Hn; simpl.
  - by rewrite map_union_empty, app_nil_r.
  - apply NoDup_cons in Hn as [Hid Hn]. rewrite filter_cons. simpl.
    destruct (active !! id) as [a|] eqn:Ha.
    + rewrite decide_False by done. destruct (IH active started Hn) as [-> ->]. split; [|done].
      apply map_eq. intros k. destruct (decide (id = k)) as [<-|Hne].
      * by rewrite !(lookup_union_Some_l _ _ _ a).
      * by rewrite !lookup_union, lookup_insert_ne.
    + rewrite decide_True by done.
      destruct (IH (<[id:=addr]> active) (started ++ [(id, addr)]) Hn) as [-> ->]. split.
      * rewrite <- insert_union_l. by rewrite <- insert_union_r.
      * rewrite <- app_assoc. do 3 f_equal. apply list_filter_ext_in. intros [k a] Hk. simpl.
        rewrite lookup_insert_ne; [done|]. intros ->. apply Hid, list_elem_of_fmap. by exists (k, a).
Qed.

Lemma update_connections_spec active keep :
  let u := update_connections active keep in
  (forall id, cu_active u !! id =
     match keep !! id with
     | None => None
     | Some addr => Some (default addr (active !! id))
     end) /\
  (forall id addr, (id, addr) ∈ cu_started u <-> keep !! id = Some addr /\ active !! id = None) /\
  (forall id, id ∈ cu_exited u <-> is_Some (active !! id) /\ keep !! id = None).
Proof.
  unfold update_connections.
  pose proof (start_missing_spec (map_to_list keep) active [] (NoDup_fst_map_to_list keep)) as [H1 H2].
  destruct (foldl _ _ _) as [active1 started]. simpl in H1, H2. subst.
  rewrite list_to_map_to_list. simpl. split_and!.
  - intros id. destruct (keep !! id) as [addr|] eqn:Hk.
    + apply map_lookup_filter_Some_2; [|simpl; rewrite Hk; by eexists]. destruct (active !! id) as [a|] eqn:Ha.
      * by apply lookup_union_Some_l.
      * by rewrite lookup_union_r.
    + apply map_lookup_filter_None_2. right. intros x _. simpl. rewrite Hk. by intros [].
  - intros id addr. rewrite list_elem_of_filter, elem_of_map_to_list. naive_solver.
  - intros id. rewrite list_elem_of_fmap. split.
    + intros ([k a] & -> & [Ha Hk]%elem_of_map_to_list%map_lookup_filter_Some). simpl in *.
      split; [|done]. apply lookup_union_Some_raw in Ha as [?|[_ Ha]]; [by eexists|congruence].
    + intros [[a Ha] Hk]. exists (id, a). split; [done|]. apply elem_of_map_to_list, map_lookup_filter_Some.
      split; [|done]. by apply lookup_union_Some_l.
Qed.

Lemma connections_to_keep_lookup nodes leaders id :
  connections_to_keep nodes leaders !! id =
  if decide (id ∈ leader_pubkey <$> leaders) then tpu_quic_addr nodes id else None.
Proof.
  unfold connections_to_keep. assert (Hgen : forall m : gmap Pubkey SocketAddr,
    foldl (fun m x => match tpu_quic_addr nodes (leader_pubkey x) with
                      | Some addr => <[leader_pubkey x := addr]> m | None => m end) m leaders !! id =
    if decide (id ∈ leader_pubkey <$> leaders)
    then match tpu_quic_addr nodes id with Some a => Some a | None => m !! id end else m !! id).
  { induction leaders as [|x l IH]; intros m; [done|]. cbn [foldl]. rewrite fmap_cons, IH.
    destruct (decide (leader_pubkey x = id)) as [<-|Hne].
    - rewrite (decide_True (P := leader_pubkey x ∈ leader_pubkey x :: _)) by set_solver.
      destruct (tpu_quic_addr nodes (leader_pubkey x)) eqn:Ht; [|by case_decide].
      case_decide; [done|]. by rewrite lookup_insert_eq.
    - rewrite (decide_ext (id ∈ leader_pubkey x :: (leader_pubkey <$> l)) (id ∈ leader_pubkey <$> l)) by set_solver.
      destruct (tpu_quic_addr nodes (leader_pubkey x)); [by rewrite lookup_insert_ne|done]. }
  rewrite Hgen, lookup_empty. by destruct (tpu_quic_addr nodes id), (decide _).
Qed.

(** ** The heap between the two tasks *)

Lemma pq_insert_sub max tx l : pq_insert max tx l ⊆+ tx :: l.
Proof.
  unfold pq_insert. case_bool_decide; [by apply submseteq_cons|].
  destruct (_ && _); [by apply submseteq_cons|]. rewrite <- (pq_enqueue_perm tx l).
  destruct (_ <? _); [|done]. unfold pq_evict. destruct (last _); [|apply submseteq_nil_l].
  apply sublist_submseteq, pq_drop_fee_sublist.
Qed.

(** The heap is well formed, and a filler that is over has no queue. *)
Definition conn_ok (c : connection) : Prop :=
  heap_inv (cn_heap c) /\ 0 < max_number_of_transactions (cn_heap c) /\ (cn_filler c = FillOver -> cn_queue c = []).

(** What a connection has been given and has not finished with. *)
Definition holding (c : connection) : list SentTransactionInfo :=
  cn_queue c ++ (match cn_filler c with FillInsert info => [info] | _ => [] end) ++ heap_txs (cn_heap c) ++
  (match cn_sender c with SendCheck tx | SendPool tx => [tx] | _ => [] end) ++ cn_flight c.

Lemma out_tx_lost why (l : list SentTransactionInfo) : out_tx <$> (Lost why <$> l) = l.
Proof. rewrite <- list_fmap_compose. apply list_fmap_id. Qed.

Lemma sends_of_nonneg t l : 0 <= sends_of t l.
Proof. unfold sends_of. lia. Qed.

Lemma sends_of_cons t x l : sends_of t (x :: l) = sends_of t [x] + sends_of t l.
Proof. apply (sends_of_app t [x] l). Qed.

Lemma sends_of_perm t l1 l2 : l1 ≡ₚ l2 -> sends_of t l1 = sends_of t l2.
Proof. intros Hp. unfold sends_of. by rewrite Hp. Qed.

Lemma sends_of_minus t l k : k ⊆+ l -> sends_of t (list_minus l k) + sends_of t k = sends_of t l.
Proof. intros Hk. rewrite <- (sends_of_perm t _ _ (list_minus_perm l k Hk)), sends_of_app. lia. Qed.

(** An action neither loses nor duplicates: what a connection held it still
    holds, or has sent or reported lost. *)
Definition keeps_account (c c' : connection) (o : list conn_output) : Prop :=
  forall t, sends_of t (out_tx <$> o) + sends_of t (holding c') = sends_of t (holding c).

Ltac count := let t := fresh "t" in
  intros t; unfold holding;
  cbn [set_filler set_sender cn_queue cn_filler cn_heap cn_sender cn_flight fmap list_fmap out_tx];
  rewrite ?out_tx_lost, ?sends_of_app.

Ltac count_lia :=
  repeat match goal with |- context [sends_of ?t []] => change (sends_of t []) with 0 end; lia.

Lemma fill_action_ok d c :
  conn_ok c -> exists c' o, fill_action d c = Done (c', o) /\ conn_ok c' /\ keeps_account c c' o.
Proof.
  intros Hok. pose proof Hok as (Hi & Hm & Hq). unfold fill_action. destruct (cn_filler c) as [| | |info| |height|] eqn:Hf.
  - exists c, []. split_and!; [done|done|done].
  - eexists _, _. split_and!; [done|by split_and!|]. count. rewrite Hf. count_lia.
  - destruct (cn_queue c) as [|info q] eqn:Hc; [exists c, []; split_and!; [done|done|done]|].
    destruct (check_if_confirmed_or_expired_blockheight d info); (eexists _, _; split_and!; [done|by split_and!|]);
      count; rewrite Hf, Hc, (sends_of_cons t info q); count_lia.
  - destruct (heap_insert_spec (cn_heap c) info Hi Hm) as (h & -> & Hh & Ht & Hmax). cbn [mbind outcome_bind].
    eexists _, _. split_and!; [done|split_and!; cbn; [done|congruence|done]|]. count. rewrite Hf.
    assert (heap_txs h ⊆+ info :: heap_txs (cn_heap c)) as Hsub by (rewrite Ht; apply pq_insert_sub).
    pose proof (sends_of_minus t _ _ Hsub) as Hs. rewrite (sends_of_cons t info (heap_txs (cn_heap c))) in Hs. count_lia.
  - destruct (negb _); (eexists _, _; split_and!; [done|by split_and!|]); count; rewrite Hf; count_lia.
  - pose proof (heap_remove_expired_spec (cn_heap c) height Hi) as Hr. destruct (heap_remove_expired (cn_heap c) height) as [n h].
    destruct Hr as (Hi' & Ht' & _ & Hm'). cbn [snd]. eexists _, _. split_and!; [done|split_and!; cbn; [done|congruence|done]|]. count. rewrite Hf.
    assert (heap_txs h ⊆+ heap_txs (cn_heap c)) as Hsub by (rewrite Ht'; apply sublist_submseteq, sublist_filter).
    pose proof (sends_of_minus t _ _ Hsub). count_lia.
  - exists c, []. split_and!; [done|done|done].
Qed.

Lemma send_action_ok d c :
  conn_ok c -> exists c' o, send_action d c = Done (c', o) /\ conn_ok c' /\ keeps_account c c' o.
Proof.
  intros Hok. pose proof Hok as (Hi & Hm & Hq). unfold send_action. destruct (cn_sender c) as [| | | |tx|tx| |] eqn:Hs;
    try (exists c, []; split_and!; [done|done|done]).
  - destruct (cn_notified c); eexists _, _; (split_and!; [done|by split_and!|]); count; rewrite ?Hs; count_lia.
  - destruct (heap_call_refines (cn_heap c) OpPop Hi Hm) as (r & h' & Hc & Hi' & Hr & Hm'). cbn [heap_call] in Hc.
    destruct (heap_pop (cn_heap c)) as [[popped h]|]; cbn in Hc; [|done]. injection Hc as <- <-. cbn [pq_call] in Hr. injection Hr as Hp Ht.
    cbn [mbind outcome_bind fst snd]. eexists _, _. split_and!; [done|split_and!; cbn; [done|congruence|done]|]. count. rewrite Hs, Ht.
    destruct (heap_txs (cn_heap c)) as [|tx l]; cbn [head tail] in *; subst popped; [count_lia|]. rewrite (sends_of_cons t tx l). count_lia.
  - destruct (is_transaction_confirmed _ _); (eexists _, _; split_and!; [done|by split_and!|]); count; rewrite Hs; count_lia.
  - destruct (cn_filler c) eqn:Hf; try (exists c, []; split_and!; [done|done|done]).
    eexists _, _. split_and!; [done|split_and!; cbn; [|done|by rewrite Hf]|].
    + apply (heap_new_inv (max_number_of_transactions (cn_heap c))). lia.
    + count. rewrite Hs, Hf. change (heap_txs (heap_clear (cn_heap c)).2) with (@nil SentTransactionInfo).
      count_lia.
Qed.
Lemma take_drop_perm {A} k (l : list A) x : l !! k = Some x -> x :: take k l ++ drop (S k) l ≡ₚ l.
Proof. intros Hk. rewrite <- (take_drop_middle l k x Hk) at 3. apply Permutation_middle. Qed.

Lemma conn_ok_sender c pc notified flight : conn_ok c -> conn_ok (set_sender c (cn_heap c) pc notified flight).
Proof. by intros (? & ? & ?). Qed.

(** Every action of a connection is defined and keeps the account. *)
Lemma conn_step_ok d c ev :
  conn_ok c -> exists c' o, conn_step d c ev = Done (c', o) /\ conn_ok c' /\ keeps_account c c' o.
Proof.
  intros Hok. pose proof Hok as (Hi & Hm & Hq).
  assert (exists c' o, Done (c, @nil conn_output) = Done (c', o) /\ conn_ok c' /\ keeps_account c c' o) as Hsame by (by exists c, []).
  destruct ev as [| | | | |ok|k written|]; cbn [conn_step]; try done.
  - destruct (cn_filler c) eqn:Hf, (cn_sender c) eqn:Hs; try done. eexists _, _. split_and!; [done|by split_and!|]. count. rewrite Hf, Hs. count_lia.
  - by apply fill_action_ok.
  - destruct (cn_filler c) eqn:Hf; try done. destruct (cn_filler_exit c); [|done]. eexists _, _. split_and!; [done|by split_and!|].
    count. rewrite Hf. count_lia.
  - destruct (cn_filler c), (cn_sender c) eqn:Hs; try done; (eexists _, _; split_and!; [done|by apply conn_ok_sender|]); count; rewrite Hs; count_lia.
  - by apply send_action_ok.
  - destruct ok, (cn_filler c), (cn_sender c) eqn:Hs; try done; (eexists _, _; split_and!; [done|by apply conn_ok_sender|]); count; rewrite Hs; count_lia.
  - destruct (cn_flight c !! k) as [tx|] eqn:Hk; [|by destruct (cn_filler c), (cn_sender c)].
    assert (keeps_account c (set_sender c (cn_heap c) (cn_sender c) (cn_notified c) (take k (cn_flight c) ++ drop (S k) (cn_flight c)))
      [if written then Written tx else Lost LossNotWritten tx]) as Hacc.
    { count. pose proof (sends_of_perm t _ _ (take_drop_perm k (cn_flight c) tx Hk)) as Hp. rewrite (sends_of_cons t tx), sends_of_app in Hp.
      replace (out_tx (if written then Written tx else Lost LossNotWritten tx)) with tx by (by destruct written). lia. }
    destruct (cn_filler c), (cn_sender c); (eexists _, _; split_and!; [done|by apply conn_ok_sender|done]).
  - destruct (cn_filler c), (cn_sender c) eqn:Hs; try done; destruct (cn_sender_exit c); try done;
      (eexists _, _; split_and!; [done|by apply conn_ok_sender|]); count; rewrite Hs; count_lia.
Qed.

Lemma offer_ok capacity info c :
  conn_ok c -> conn_ok (offer capacity info c).1 /\
  forall t, sends_of t (out_tx <$> (offer capacity info c).2) + sends_of t (holding (offer capacity info c).1) =
    (if receiving c then sends_of t [info] else 0) + sends_of t (holding c).
Proof.
  intros Hok. pose proof Hok as (Hi & Hm & Hq). unfold offer.
  destruct (receiving c) eqn:Hr; cbn [fst snd]; [|split; [done|]; intros t; cbn; count_lia].
  split; [split_and!; [done|done|]; cbn; intros Hf; unfold receiving in Hr; by rewrite Hf in Hr|].
  count. pose proof (f_equal (sends_of t) (bc_push_split capacity (cn_queue c) info)) as Hp. rewrite !sends_of_app in Hp. lia.
Qed.

(** ** Confirmed transactions *)

(** The transactions a connection will send without looking at the store
    again, and how many of a list have a signature. *)
Definition passed (c : connection) : list SentTransactionInfo :=
  (match cn_sender c with SendPool tx => [tx] | _ => [] end) ++ cn_flight c.
Definition written (o : list conn_output) : list SentTransactionInfo :=
  omap (fun o => match o with Written info => Some info | Lost _ _ => None end) o.
Definition with_sig (sig : Signature) (l : list SentTransactionInfo) : Z :=
  Z.of_nat (length (filter (fun x => si_signature x = sig) l)).

Lemma with_sig_app sig l1 l2 : with_sig sig (l1 ++ l2) = with_sig sig l1 + with_sig sig l2.
Proof. unfold with_sig. rewrite filter_app, length_app. lia. Qed.

Lemma with_sig_perm sig l1 l2 : l1 ≡ₚ l2 -> with_sig sig l1 = with_sig sig l2.
Proof. intros Hp. unfold with_sig. by rewrite Hp. Qed.

Lemma written_lost why (l : list SentTransactionInfo) : written (Lost why <$> l) = [].
Proof. by induction l. Qed.

(** While a transaction is confirmed, a connection writes only what had passed
    the check before. *)
Lemma conn_step_confirmed d c ev c' o sig :
  is_transaction_confirmed (txs d) sig = true -> conn_step d c ev = Done (c', o) ->
  with_sig sig (written o) + with_sig sig (passed c') <= with_sig sig (passed c).
Proof.
  intros Hc Hs.
  assert (forall c1 o1, Done (c1, o1) = Done (c', o) -> written o1 = [] -> passed c1 = passed c ->
    with_sig sig (written o) + with_sig sig (passed c') <= with_sig sig (passed c)) as Hsame.
  { intros c1 o1 [= <- <-] -> ->. change (with_sig sig []) with 0. lia. }
  destruct ev as [| | | | |ok|k w|]; cbn [conn_step] in Hs.
  - destruct (cn_filler c), (cn_sender c) eqn:Hp; try (by eapply Hsame). eapply Hsame; [exact Hs|done|]. unfold passed. cbn. by rewrite Hp.
  - assert (written o = [] /\ passed c' = passed c) as [Hw Hp]; [|rewrite Hw, Hp; change (with_sig sig []) with 0; lia].
    unfold fill_action in Hs. repeat case_match; try (destruct (heap_insert _ _); [|done]; cbn [mbind outcome_bind] in Hs);
      injection Hs as <- <-; split; try done; apply written_lost.
  - destruct (cn_filler c); try (by eapply Hsame). destruct (cn_filler_exit c); [|by eapply Hsame].
    eapply Hsame; [exact Hs|apply written_lost|done].
  - destruct (cn_filler c), (cn_sender c) eqn:Hp; try (by eapply Hsame); (eapply Hsame; [exact Hs|done|]); unfold passed; cbn; by rewrite Hp.
  - unfold send_action in Hs. destruct (cn_sender c) as [| | | |tx|tx| |] eqn:Hp; try (by eapply Hsame).
    + eapply Hsame; [exact Hs|done|]. unfold passed. destruct (cn_notified c); cbn; by rewrite ?Hp.
    + destruct (heap_pop _) as [[popped h]|]; [|done]. cbn [mbind outcome_bind fst snd] in Hs. eapply Hsame; [exact Hs|done|].
      unfold passed. cbn. rewrite Hp. by destruct popped.
    + destruct (is_transaction_confirmed (txs d) (si_signature tx)) eqn:Ht; [eapply Hsame; [exact Hs|done|]; unfold passed; cbn; by rewrite Hp|].
      injection Hs as <- <-. unfold passed. cbn [set_sender cn_sender cn_flight]. rewrite Hp. cbn [written omap list_omap].
      rewrite with_sig_app. assert (with_sig sig [tx] = 0) as ->.
      { unfold with_sig. rewrite filter_cons_False; [done|]. intros <-. congruence. }
      change (with_sig sig []) with 0. cbn [app]. lia.
    + destruct (cn_filler c); try (by eapply Hsame). eapply Hsame; [exact Hs|apply written_lost|]. unfold passed. cbn. by rewrite Hp.
  - destruct ok, (cn_filler c), (cn_sender c) as [| | | |tx|tx| |] eqn:Hp; try (by eapply Hsame); injection Hs as <- <-; unfold passed;
      cbn [set_sender cn_sender cn_flight written omap list_omap]; rewrite Hp, ?with_sig_app; change (with_sig sig []) with 0; unfold with_sig; lia.
  - destruct (cn_flight c !! k) as [tx|] eqn:Hk; [|destruct (cn_filler c), (cn_sender c); by eapply Hsame].
    assert (Done (set_sender c (cn_heap c) (cn_sender c) (cn_notified c) (take k (cn_flight c) ++ drop (S k) (cn_flight c)),
                [if w then Written tx else Lost LossNotWritten tx]) = Done (c', o)) as Hs' by (by destruct (cn_filler c), (cn_sender c)).
    injection Hs' as <- <-. unfold passed. cbn [set_sender cn_sender cn_flight]. rewrite !with_sig_app.
    pose proof (with_sig_perm sig _ _ (take_drop_perm k (cn_flight c) tx Hk)) as Hp.
    change (tx :: take k (cn_flight c) ++ ?l) with ([tx] ++ take k (cn_flight c) ++ l) in Hp. rewrite !with_sig_app in Hp.
    assert (with_sig sig (written [if w then Written tx else Lost LossNotWritten tx]) <= with_sig sig [tx]); [|lia].
    destruct w; cbn [written omap list_omap]; [done|]. unfold with_sig. cbn [filter list_filter length]. lia.
  - destruct (cn_filler c), (cn_sender c) eqn:Hp; try (by eapply Hsame); (eapply Hsame; [exact Hs|done|]); unfold passed;
      destruct (cn_sender_exit c); cbn; by rewrite ?Hp.
Qed.
(** Why a connection gives a transaction up: it is in a block or its blockhash
    has expired, its signature is in the heap already or the heap is full, no
    QUIC connection was available, the stream failed, or the connection was told
    to exit. *)
Definition conn_loss (d : DataCache) (c : connection) (ev : conn_event) (why : loss) (t : SentTransactionInfo) : Prop :=
  match why with
  | LossSettled => check_if_confirmed_or_expired_blockheight d t = true
  | LossHeap => exists info, cn_filler c = FillInsert info /\
      (si_signature info ∈ si_signature <$> heap_txs (cn_heap c) \/ max_number_of_transactions (cn_heap c) <= Z.of_nat (length (heap_txs (cn_heap c))))
  | LossExpired => exists height, cn_filler c = FillExpire height /\ si_last_valid_block_height t <= height
  | LossConfirmed => is_transaction_confirmed (txs d) (si_signature t) = true
  | LossNoConnection => ev = CnPooled false
  | LossNotWritten => exists k, ev = CnFlight k false
  | LossClosed => cn_filler_exit c = true \/ cn_sender c = SendJoin
  | LossLagged => False
  end.

Lemma pq_insert_full max tx l :
  si_signature tx ∉ si_signature <$> l -> Z.of_nat (length l) < max -> pq_insert max tx l ≡ₚ tx :: l.
Proof.
  intros Hn Hl. unfold pq_insert. rewrite bool_decide_eq_false_2 by done. rewrite (proj2 (Z.leb_gt _ _)) by lia. cbn [andb].
  rewrite (proj2 (Z.ltb_ge _ _)); [apply pq_enqueue_perm|]. rewrite (Permutation_length (pq_enqueue_perm tx l)). cbn. lia.
Qed.

Lemma list_minus_filter (P : SentTransactionInfo -> Prop) `{!forall x, Decision (P x)} l t :
  t ∈ list_minus l (filter P l) -> ~ P t.
Proof.
  intros Ht. assert (filter P l ⊆+ l) as Hsub by apply sublist_submseteq, sublist_filter.
  assert (list_minus l (filter P l) ≡ₚ filter (fun x => ~ P x) l) as Hp.
  { apply (Permutation_app_inv_l (filter P l)). rewrite (list_minus_perm l (filter P l) Hsub). clear.
    induction l as [|x l IH]; [done|]. rewrite !filter_cons. destruct (decide (P x)), (decide (~ P x)); try done; [by rewrite IH at 1|].
    by rewrite IH at 1; rewrite Permutation_middle. }
  rewrite Hp in Ht. by apply list_elem_of_filter in Ht as [? _].
Qed.

Lemma fill_action_loss d c c' o why t :
  conn_ok c -> fill_action d c = Done (c', o) -> Lost why t ∈ o -> conn_loss d c CnFill why t.
Proof.
  intros (Hi & Hm & _) Hs Hl. unfold fill_action in Hs. destruct (cn_filler c) as [| | |info| |height|] eqn:Hf; try (injection Hs as <- <-; by apply not_elem_of_nil in Hl).
  - destruct (cn_queue c) as [|info q]; [injection Hs as <- <-; by apply not_elem_of_nil in Hl|].
    destruct (check_if_confirmed_or_expired_blockheight d info) eqn:Hc; injection Hs as <- <-; [|by apply not_elem_of_nil in Hl].
    apply list_elem_of_singleton in Hl. by injection Hl as -> ->.
  - destruct (heap_insert_spec (cn_heap c) info Hi Hm) as (h & E & _ & Ht & _). rewrite E in Hs. cbn [mbind outcome_bind] in Hs.
    injection Hs as <- <-. apply list_elem_of_fmap in Hl as (x & [= -> ->] & Hx). exists info. split; [done|].
    destruct (decide (si_signature info ∈ si_signature <$> heap_txs (cn_heap c))) as [|Hn]; [by left|right].
    apply Z.le_ngt. intros Hlt. rewrite Ht in Hx. pose proof (list_minus_perm (info :: heap_txs (cn_heap c)) _ (pq_insert_sub (max_number_of_transactions (cn_heap c)) info _)) as Hp.
    rewrite (pq_insert_full _ _ _ Hn Hlt) in Hp at 1. apply Permutation_length in Hp. rewrite length_app in Hp.
    destruct (list_minus _ _); [by apply not_elem_of_nil in Hx|]. cbn in Hp. lia.
  - destruct (negb _); injection Hs as <- <-; by apply not_elem_of_nil in Hl.
  - pose proof (heap_remove_expired_spec (cn_heap c) height Hi) as Hr. destruct (heap_remove_expired (cn_heap c) height) as [n h].
    destruct Hr as (_ & Ht & _). injection Hs as <- <-. apply list_elem_of_fmap in Hl as (x & [= -> ->] & Hx). exists height. split; [done|].
    cbn [snd] in Hx. rewrite Ht in Hx. apply list_minus_filter in Hx. unfold heap_retains in Hx. lia.
Qed.

Lemma conn_step_loss d c ev c' o why t :
  conn_ok c -> conn_step d c ev = Done (c', o) -> Lost why t ∈ o -> conn_loss d c ev why t.
Proof.
  intros Hok Hs Hl.
  assert (forall c1, Done (c1, @nil conn_output) = Done (c', o) -> False) as Hnil.
  { intros c1 [= <- <-]. by apply not_elem_of_nil in Hl. }
  destruct ev as [| | | | |ok|k w|]; cbn [conn_step] in Hs.
  - destruct (cn_filler c), (cn_sender c); by apply Hnil in Hs.
  - pose proof (fill_action_loss d c c' o why t Hok Hs Hl) as Hf. by destruct why.
  - destruct (cn_filler c); try (by apply Hnil in Hs). destruct (cn_filler_exit c) eqn:He; [|by apply Hnil in Hs].
    injection Hs as <- <-. apply list_elem_of_fmap in Hl as (x & [= -> ->] & _). by left.
  - destruct (cn_filler c), (cn_sender c); by apply Hnil in Hs.
  - unfold send_action in Hs. destruct (cn_sender c) as [| | | |tx|tx| |] eqn:Hp; try (by apply Hnil in Hs).
    + destruct (heap_pop _) as [[popped h]|]; [|done]. by apply Hnil in Hs.
    + destruct (is_transaction_confirmed (txs d) (si_signature tx)) eqn:Ht; [|by apply Hnil in Hs].
      injection Hs as <- <-. apply list_elem_of_singleton in Hl. by injection Hl as -> ->.
    + destruct (cn_filler c); try (by apply Hnil in Hs). injection Hs as <- <-. apply list_elem_of_fmap in Hl as (x & [= -> ->] & _). by right.
  - destruct ok, (cn_filler c), (cn_sender c); try (by apply Hnil in Hs); injection Hs as <- <-; apply list_elem_of_singleton in Hl; by injection Hl as -> ->.
  - assert (match cn_flight c !! k with
            | Some tx => exists c1, Done (c1, [if w then Written tx else Lost LossNotWritten tx]) = Done (c', o)
            | None => Done (c, []) = Done (c', o) end) as Hs'.
    { destruct (cn_filler c), (cn_sender c), (cn_flight c !! k); try exact Hs; eexists; exact Hs. }
    destruct (cn_flight c !! k); [|by apply Hnil in Hs']. destruct Hs' as [c1 [= <- <-]]. apply list_elem_of_singleton in Hl.
    destruct w; [done|]. injection Hl as -> ->. by exists k.
  - destruct (cn_filler c), (cn_sender c); by apply Hnil in Hs.
Qed.

(** ** Properties *)

(** After an update the manager holds exactly the connections to keep: a
    connection it had already is left alone, with the address it was opened with;
    one is started for every identity that had none, and precisely the
    connections no longer wanted get the exit signal. *)
Theorem update_connections_exact active keep :
  let u := update_connections active keep in
  (forall id, cu_active u !! id =
     match keep !! id with
     | None => None
     | Some addr => Some (default addr (active !! id))
     end) /\
  (forall id addr, (id, addr) ∈ cu_started u <-> keep !! id = Some addr /\ active !! id = None) /\
  (forall id, id ∈ cu_exited u <-> is_Some (active !! id) /\ keep !! id = None).
Proof. apply update_connections_spec. Qed.

(** C18. The connections follow the leaders.  For any leader getter that keeps its
    promise, an update succeeds; afterwards there is an active connection to
    the leader of every slot from four before the current one up to the fanout
    after the estimated one, if the cluster knows its TPU address, at the
    address it had before or else the known one with the QUIC offset; there is
    no other one, except possibly to the leader of the slot after these; those
    that are new are started, and exactly those that are no longer wanted are
    told to exit. *)
Theorem update_quic_connections_covers {S : Type} `{LeaderFetcher S} (leader : Slot -> Pubkey)
    (valid : S -> Slot -> Slot -> Prop) `{!LeaderFetcherOk S leader valid}
    (fanout : Z) (d : DataCache) active (getter : S) (current estimated : Slot) :
  let from := saturating_sub_u64 current 4 in
  let to := (estimated +64 fanout)%rpc in
  valid getter from to ->
  exists u getter', update_quic_connections fanout d active getter current estimated = Done (Ok u, getter') /\
    (forall slot addr, from <= slot < to -> tpu_quic_addr (cluster_info d) (leader slot) = Some addr ->
       cu_active u !! leader slot = Some (default addr (active !! leader slot))) /\
    (forall id, is_Some (cu_active u !! id) ->
       is_Some (tpu_quic_addr (cluster_info d) id) /\ exists slot, from <= slot <= to /\ leader slot = id) /\
    (forall id addr, (id, addr) ∈ cu_started u <-> cu_active u !! id = Some addr /\ active !! id = None) /\
    (forall id, id ∈ cu_exited u <-> is_Some (active !! id) /\ cu_active u !! id = None).
Proof.
  intros from to Hv. unfold update_quic_connections. fold from to.
  destruct (lf_ok _ _ _ Hv) as (l & g' & -> & Honly & Hall). simpl.
  set (keep := connections_to_keep (cluster_info d) l).
  destruct (update_connections_spec active keep) as (Ha & Hs & He).
  assert (forall id, keep !! id = if decide (id ∈ leader_pubkey <$> l) then tpu_quic_addr (cluster_info d) id else None)
    as Hk by (intros id; apply connections_to_keep_lookup).
  eexists _, g'. split; [done|]. split_and!.
  - intros slot addr Hslot Haddr. rewrite Ha, Hk, decide_True, Haddr; [done|].
    apply list_elem_of_fmap. eexists. split; [|apply (Hall slot Hslot)]. done.
  - intros id. rewrite Ha, Hk. case_decide as Hin; [|by intros []]. intros Hid.
    split; [destruct (tpu_quic_addr _ id); [done|by destruct Hid]|].
    apply list_elem_of_fmap in Hin as (x & -> & Hx). destruct (Honly x Hx) as [Hr Hl]. by exists (leader_slot x).
  - intros id addr. rewrite Hs, Ha. destruct (keep !! id) as [a|], (active !! id); naive_solver.
  - intros id. rewrite He, Ha. destruct (keep !! id); naive_solver.
Qed.

Lemma update_quic_connections_covers_witness :
  let getter := (mkCalculatedSchedule (Some (sample_schedule 2 [10; 11; 12; 13; 14])) None,
                 fixed_epoch_schedule 5) in
  let d := set_nodes sample_cache {[ 12 := mkRpcContactInfo "12" None (Some (1, 8000)) ]} in
  exists u getter', update_quic_connections 1 d {[ 3 := (1, 9000) ]} getter 15 13 = Done (Ok u, getter') /\
    cu_active u !! 12 = Some (1, 8006) /\ 3 ∈ cu_exited u.
Proof.
  intros getter d.
  destruct (update_quic_connections_covers (fun s => s) (grpc_valid (fun s => s)) 1 d {[ 3 := (1, 9000) ]} getter 15 13)
    as (u & g' & E & Hcov & Honly & _ & Hex).
  { split; [apply _|]. split; [vm_compute; intuition congruence|]. split; [reflexivity|].
    split; [vm_compute; intuition congruence|]. exists (sample_schedule 2 [10; 11; 12; 13; 14]). vm_compute. intuition congruence. }
  exists u, g'. split; [exact E|]. split.
  - apply (Hcov 12 (1, 8006)); [vm_compute; intuition congruence|reflexivity].
  - apply Hex. split; [by eexists|]. apply eq_None_not_Some. intros H. by destruct (Honly 3 H) as [[a Ha] _].
Defined.

