(* ===== verification/Pipeline.v ===== *)
(** * A transaction on its way to the leaders

    The transaction service (services/src/transaction_service.rs), the sender
    (services/src/tx_sender.rs), the replayer
    (services/src/transaction_replayer.rs), the tasks of the caching service
    (services/src/data_caching_service.rs), the TPU service
    (services/src/tpu_utils/tpu_service.rs) and its connections
    (services/src/tpu_utils/tpu_connection_manager.rs), composed over the
    channels that join them and the data cache they share.  [pl_step] is one
    action of one task, between two awaits or accesses to shared state; every
    interleaving of the tasks is a sequence of events.  A connection that is no
    longer wanted is only told to exit: its tasks stay in the list and go on
    until they look at the signal. *)

From S2P Require Import Prelude Types PrioHeap BlockInfoStore LeaderSchedule DataCache TxService CacheTasks Tpu.

(** ** The shared state *)

(** How the TPU task ends, and with it the server. *)
Inductive pl_end := TpuFailed (e : LeadersError) | TpuPanicked.

(** The state of the tasks and of the channels between them.  A call that was
    accepted has its remaining messages in [pl_calls]; the sender holds in
    [pl_sending] the transaction it has stored and not yet passed on; the
    replayer holds in [pl_replaying] what it decided and has not done yet.
    [pl_connections] has every connection ever started, [pl_active] is the
    manager's map from identities to them. *)
Record pipeline (S : Type) := mkPipeline {
  pl_ended : option pl_end;
  pl_tasks : Tasks;
  pl_calls : list (list send_effect);
  pl_channel : list SentTransactionInfo;
  pl_sending : option SentTransactionInfo;
  pl_replays : list TransactionReplay;
  pl_replaying : list TransactionReplay * list SentTransactionInfo;
  pl_getter : S;
  pl_connections : list connection;
  pl_active : gmap Pubkey nat;
}.
Arguments mkPipeline {S} _ _ _ _ _ _ _ _ _ _.
Arguments pl_ended {S} _. Arguments pl_tasks {S} _. Arguments pl_calls {S} _.
Arguments pl_channel {S} _. Arguments pl_sending {S} _. Arguments pl_replays {S} _.
Arguments pl_replaying {S} _. Arguments pl_getter {S} _. Arguments pl_connections {S} _. Arguments pl_active {S} _.

(** The actions of the tasks. *)
Inductive pl_event :=
| PlCall (now : Z) (raw_tx : list Z) (max_retries : option Z)
| PlDeliver (call : nat)
| PlSenderStore
| PlSenderSend
| PlReplayCheck (now after : Z)
| PlReplaySend
| PlTask (ev : task_event)
| PlSlot (current_slot estimated_slot : Slot)
| PlConn (conn : nat) (ev : conn_event).

(** What can be seen of them: a call was accepted (with the replays it asked
    for, if any), refused or panicked; a transaction was sent on the broadcast
    channel and so offered to a connection; what a connection did with one; a
    subscriber was notified; the server ended. *)
Inductive pl_output :=
| Accepted (info : SentTransactionInfo) (replays : option Z)
| Refused (e : SendError)
| CallPanicked (raw_tx : list Z)
| Broadcast (info : SentTransactionInfo)
| Offered (conn : nat) (info : SentTransactionInfo)
| Conn (conn : nat) (o : conn_output)
| Notified (n : SignatureNotification)
| Ended (e : pl_end).

Section pipeline.
Context {S : Type} `{LeaderFetcher S}.
(** The decoder of the SDK and the compute budget program. *)
Context (deserialize : list Z -> result string VersionedTransaction).
Context (compute_budget_id : Pubkey) (parse_compute_budget : list Z -> option ComputeBudgetInstruction).
(** The streamer's [compute_max_allowed_uni_streams]. *)
Context (max_uni_streams : IdentityStakesData -> Z).
(** The configuration: the service, the queue between requests and sender, the
    capacity of the broadcast channel (tokio rounds the configured one up to a
    power of two), the heap of a connection, the fanout. *)
Context (service : TransactionService) (max_nb_txs_in_queue : nat) (maximum_transaction_in_queue : nat).
Context (prioritization_heap_size : option Z) (fanout_slots : Z).
Context (retry_offset : Z) (retry_delay : Z -> Z).
Context (pubkey_from_str : string -> option Pubkey) (identity : string).
Context (sink_closed : Z -> bool) (clean_duration : Z).

Abbreviation pipeline := (pipeline S).
Abbreviation accept := (send_wire_transaction deserialize compute_budget_id parse_compute_budget service).
Abbreviation cache_step := (task_step pubkey_from_str identity sink_closed clean_duration).

Definition pl_cache (s : pipeline) : DataCache := tk_cache (pl_tasks s).
Definition set_cache (t : Tasks) (d : DataCache) : Tasks := mkTasks d (tk_block t) (tk_info t) (tk_clean t).
Definition pl_set_tasks (s : pipeline) (t : Tasks) : pipeline :=
  mkPipeline (pl_ended s) t (pl_calls s) (pl_channel s) (pl_sending s) (pl_replays s) (pl_replaying s)
    (pl_getter s) (pl_connections s) (pl_active s).
Definition pl_set_connections (s : pipeline) (conns : list connection) : pipeline :=
  mkPipeline (pl_ended s) (pl_tasks s) (pl_calls s) (pl_channel s) (pl_sending s) (pl_replays s) (pl_replaying s)
    (pl_getter s) conns (pl_active s).
Definition pl_end_with (s : pipeline) (e : pl_end) : pipeline :=
  mkPipeline (Some e) (pl_tasks s) (pl_calls s) (pl_channel s) (pl_sending s) (pl_replays s) (pl_replaying s)
    (pl_getter s) (pl_connections s) (pl_active s).

(** ** The broadcast channel *)

(** [TpuService::send_transaction], services/src/tpu_utils/tpu_service.rs:100-103:
    every connection with a receiver gets the transaction in its queue. *)
Definition tpu_send_transaction (conns : list connection) (info : SentTransactionInfo) : list connection * list pl_output :=
  ((fun c => (offer maximum_transaction_in_queue info c).1) <$> conns,
   Broadcast info :: concat (imap (fun i c => if receiving c then Offered i info :: (Conn i <$> (offer maximum_transaction_in_queue info c).2)
                                              else []) conns)).

Fixpoint tpu_send_all (conns : list connection) (l : list SentTransactionInfo) : list connection * list pl_output :=
  match l with
  | [] => (conns, [])
  | info :: l =>
      let '(conns, o) := tpu_send_transaction conns info in
      let '(conns, out) := tpu_send_all conns l in
      (conns, o ++ out)
  end.

(** ** The connections *)

(** The capacity of the heap, [ActiveConnection::listen],
    services/src/tpu_utils/tpu_connection_manager.rs:87-105. *)
Definition heap_capacity (d : DataCache) : Z :=
  default (2 * max_uni_streams (identity_stakes d)) prioritization_heap_size.

(** A connection that is started, and one that is told to exit,
    [TpuConnectionManager::update_connections],
    services/src/tpu_utils/tpu_connection_manager.rs:264-302. *)
Definition start_one (d : DataCache) (acc : list connection * gmap Pubkey nat) (e : Pubkey * SocketAddr) :
    list connection * gmap Pubkey nat :=
  (acc.1 ++ [connection_new (heap_capacity d) e.1 e.2], <[e.1 := length acc.1]> acc.2).
Definition exit_one (acc : list connection * gmap Pubkey nat) (id : Pubkey) : list connection * gmap Pubkey nat :=
  match acc.2 !! id with
  | Some i => (alter signal_exit i acc.1, delete id acc.2)
  | None => acc
  end.
Definition manage (d : DataCache) (conns : list connection) (active : gmap Pubkey nat) (u : conn_update) :
    list connection * gmap Pubkey nat :=
  foldl exit_one (foldl (start_one d) (conns, active) (cu_started u)) (cu_exited u).

(** The addresses of the connections the manager has. *)
Definition active_addrs (s : pipeline) : gmap Pubkey SocketAddr := omap (fun i => cn_addr <$> pl_connections s !! i) (pl_active s).

(** ** The composition *)

(** A message of an accepted call joins its channel; the channel to the sender
    is bounded, and a call waits while it is full. *)
Definition deliver (s : pipeline) (call : nat) (e : send_effect) (rest : list send_effect) : pipeline :=
  match e with
  | ToSender info =>
      if bool_decide (length (pl_channel s) < max_nb_txs_in_queue)%nat
      then mkPipeline (pl_ended s) (pl_tasks s) (<[call := rest]> (pl_calls s)) (pl_channel s ++ [info])
             (pl_sending s) (pl_replays s) (pl_replaying s) (pl_getter s) (pl_connections s) (pl_active s)
      else s
  | ToReplayer r =>
      mkPipeline (pl_ended s) (pl_tasks s) (<[call := rest]> (pl_calls s)) (pl_channel s)
        (pl_sending s) (pl_replays s ++ [r]) (pl_replaying s) (pl_getter s) (pl_connections s) (pl_active s)
  end.

(** What an accepted call asks for. *)
Definition call_asks (effects : list send_effect) : list pl_output :=
  match effects with
  | [ToSender info; ToReplayer r] => [Accepted info (Some (tr_max_replay r))]
  | [ToSender info] => [Accepted info None]
  | _ => []
  end.

(** One action of a running server.  A panic in a call ends the task of its
    request only; an error or a panic of the TPU task ends the server,
    [TransactionServiceBuilder::start], services/src/transaction_service.rs:62-110. *)
Definition pl_act (s : pipeline) (ev : pl_event) : outcome (pipeline * list pl_output) :=
  match ev with
  | PlCall now raw_tx max_retries =>
      match accept (block_information_store (pl_cache s)) now raw_tx max_retries with
      | Done (Ok _, effects) =>
          Done (mkPipeline (pl_ended s) (pl_tasks s) (pl_calls s ++ [effects]) (pl_channel s) (pl_sending s)
                  (pl_replays s) (pl_replaying s) (pl_getter s) (pl_connections s) (pl_active s), call_asks effects)
      | Done (Err e, _) => Done (s, [Refused e])
      | Panic => Done (s, [CallPanicked raw_tx])
      end
  | PlDeliver call =>
      match pl_calls s !! call with
      | Some (e :: rest) => Done (deliver s call e rest, [])
      | _ => Done (s, [])
      end
  | PlSenderStore =>
      match pl_sending s, pl_channel s with
      | None, info :: channel =>
          Done (mkPipeline (pl_ended s) (set_cache (pl_tasks s) (forward_txs (pl_cache s) info).1) (pl_calls s) channel (Some info)
                  (pl_replays s) (pl_replaying s) (pl_getter s) (pl_connections s) (pl_active s), [])
      | _, _ => Done (s, [])
      end
  | PlSenderSend =>
      match pl_sending s with
      | Some info =>
          let '(conns, out) := tpu_send_transaction (pl_connections s) info in
          Done (mkPipeline (pl_ended s) (pl_tasks s) (pl_calls s) (pl_channel s) None (pl_replays s)
                  (pl_replaying s) (pl_getter s) conns (pl_active s), out)
      | None => Done (s, [])
      end
  | PlReplayCheck now after =>
      match pl_replaying s, pl_replays s with
      | ([], []), r :: replays =>
          Done (mkPipeline (pl_ended s) (pl_tasks s) (pl_calls s) (pl_channel s) (pl_sending s) replays
                  (replay_one retry_offset retry_delay (pl_cache s) now after r) (pl_getter s) (pl_connections s) (pl_active s), [])
      | _, _ => Done (s, [])
      end
  | PlReplaySend =>
      let '(back, l) := pl_replaying s in
      let '(conns, out) := tpu_send_all (pl_connections s) l in
      Done (mkPipeline (pl_ended s) (pl_tasks s) (pl_calls s) (pl_channel s) (pl_sending s) (pl_replays s ++ back)
              ([], []) (pl_getter s) conns (pl_active s), out)
  | PlTask (TkForward _) => Done (s, [])
  | PlTask ev => let '(t, notes) := cache_step (pl_tasks s) ev in Done (pl_set_tasks s t, Notified <$> notes)
  | PlSlot current_slot estimated_slot =>
      match update_quic_connections fanout_slots (pl_cache s) (active_addrs s) (pl_getter s) current_slot estimated_slot with
      | Done (Ok u, getter) =>
          let '(conns, active) := manage (pl_cache s) (pl_connections s) (pl_active s) u in
          Done (mkPipeline (pl_ended s) (pl_tasks s) (pl_calls s) (pl_channel s) (pl_sending s) (pl_replays s)
                  (pl_replaying s) getter conns active, [])
      | Done (Err e, _) => Done (pl_end_with s (TpuFailed e), [Ended (TpuFailed e)])
      | Panic => Done (pl_end_with s TpuPanicked, [Ended TpuPanicked])
      end
  | PlConn i ev =>
      match pl_connections s !! i with
      | Some c =>
          r ← conn_step (pl_cache s) c ev;
          Done (pl_set_connections s (<[i := r.1]> (pl_connections s)), (Conn i <$> r.2 : list pl_output))
      | None => Done (s, [])
      end
  end.

(** Until the server ends every task acts. *)
Definition pl_step (s : pipeline) (ev : pl_event) : outcome (pipeline * list pl_output) :=
  match pl_ended s with Some _ => Done (s, []) | None => pl_act s ev end.

(** ** What happens to a transaction *)

Definition effect_weight (t : SentTransactionInfo) (e : send_effect) : Z :=
  match e with ToSender info => sends_of t [info] | ToReplayer r => replay_budget t r end.
Definition call_weight (t : SentTransactionInfo) (effects : list send_effect) : Z :=
  list_sum (effect_weight t <$> effects).

(** How often the tasks before the broadcast channel may still send [t]. *)
Definition pending (t : SentTransactionInfo) (s : pipeline) : Z :=
  list_sum (call_weight t <$> pl_calls s) + sends_of t (pl_channel s) + sends_of t (option_list (pl_sending s)) +
  queue_budget t (pl_replays s) + queue_budget t (pl_replaying s).1 + sends_of t (pl_replaying s).2.

(** How often the accepted calls asked for [t]. *)
Definition asked (t : SentTransactionInfo) (out : list pl_output) : Z :=
  list_sum ((fun o => match o with
                      | Accepted info replays =>
                          if decide (info = t) then 1 + from_option (fun m => Z.max 0 m + 1) 0 replays else 0
                      | _ => 0
                      end) <$> out).

(** The transactions sent on the broadcast channel, those a connection was
    offered, what it did with them, and those it wrote to the leader. *)
Definition broadcasts (out : list pl_output) : list SentTransactionInfo :=
  omap (fun o => match o with Broadcast info => Some info | _ => None end) out.
Definition offered (i : nat) (out : list pl_output) : list SentTransactionInfo :=
  omap (fun o => match o with Offered j info => if decide (j = i) then Some info else None | _ => None end) out.
Definition conn_outs (i : nat) (out : list pl_output) : list conn_output :=
  omap (fun o => match o with Conn j o => if decide (j = i) then Some o else None | _ => None end) out.
Definition written_by (i : nat) (out : list pl_output) : list SentTransactionInfo := written (conn_outs i out).
Definition lost (o : list conn_output) : list SentTransactionInfo :=
  omap (fun o => match o with Lost _ info => Some info | Written _ => None end) o.
Definition lost_by (i : nat) (out : list pl_output) : list SentTransactionInfo := lost (conn_outs i out).
Definition held_by (i : nat) (s : pipeline) : list SentTransactionInfo := from_option holding [] (pl_connections s !! i).

Lemma asked_app t out1 out2 : asked t (out1 ++ out2) = asked t out1 + asked t out2.
Proof. unfold asked. by rewrite fmap_app, list_sum_app. Qed.

Lemma written_lost_split t (o : list conn_output) : sends_of t (out_tx <$> o) = sends_of t (written o) + sends_of t (lost o).
Proof.
  induction o as [|[info|why info] o IH]; [done|..].
  - change (written (Written info :: o)) with (info :: written o). change (lost (Written info :: o)) with (lost o).
    cbn [fmap list_fmap out_tx]. rewrite (sends_of_cons t info (_ <$> o)), (sends_of_cons t info (written o)), IH. lia.
  - change (written (Lost why info :: o)) with (written o). change (lost (Lost why info :: o)) with (info :: lost o).
    cbn [fmap list_fmap out_tx]. rewrite (sends_of_cons t info (_ <$> o)), (sends_of_cons t info (lost o)), IH. lia.
Qed.

(** The account of a step: what is broadcast was pending, what is offered was
    broadcast, and what a connection has been offered it holds or has reported. *)
Definition step_account (s s' : pipeline) (o : list pl_output) : Prop :=
  forall t, sends_of t (broadcasts o) + pending t s' <= asked t o + pending t s /\
    forall i, sends_of t (offered i o) <= sends_of t (broadcasts o) /\
      sends_of t (out_tx <$> conn_outs i o) + sends_of t (held_by i s') = sends_of t (offered i o) + sends_of t (held_by i s).

Definition connections_ok (s : pipeline) : Prop := Forall conn_ok (pl_connections s).

(** Outputs that are about no connection. *)
Definition silent (o : pl_output) : Prop :=
  match o with Broadcast _ | Offered _ _ | Conn _ _ => False | _ => True end.

Lemma silent_outs i out : Forall silent out -> broadcasts out = [] /\ offered i out = [] /\ conn_outs i out = [].
Proof. induction 1 as [|o out Ho _ IH]; [done|]. by destruct o. Qed.

(** A step that leaves the connections alone. *)
Lemma account_silent s s' o :
  Forall silent o -> pl_connections s' = pl_connections s ->
  (forall t, pending t s' <= asked t o + pending t s) -> step_account s s' o.
Proof.
  intros Ho Hc Hp t. destruct (silent_outs 0 o Ho) as [-> _]. split; [apply Hp|]. intros i.
  destruct (silent_outs i o Ho) as (_ & -> & ->). unfold held_by. rewrite Hc. cbn. change (sends_of t []) with 0. lia.
Qed.

Lemma asked_silent t o : Forall (fun o => match o with Accepted _ _ => False | _ => True end) o -> asked t o = 0.
Proof. unfold asked. induction 1 as [|o l Ho _ IH]; [done|]. cbn [fmap list_fmap]. rewrite list_sum_cons, IH. by destruct o. Qed.

(** ** The broadcast channel offers *)

Lemma offered_outs_app i l1 l2 : offered i (l1 ++ l2) = offered i l1 ++ offered i l2.
Proof. apply omap_app. Qed.
Lemma conn_outs_app i l1 l2 : conn_outs i (l1 ++ l2) = conn_outs i l1 ++ conn_outs i l2.
Proof. apply omap_app. Qed.
Lemma broadcasts_app l1 l2 : broadcasts (l1 ++ l2) = broadcasts l1 ++ broadcasts l2.
Proof. apply omap_app. Qed.

Lemma conn_outputs i j (l : list conn_output) :
  broadcasts (Conn j <$> l) = [] /\ offered i (Conn j <$> l) = [] /\ conn_outs i (Conn j <$> l) = if decide (j = i) then l else [].
Proof.
  unfold broadcasts, offered, conn_outs. induction l as [|o l (IH1 & IH2 & IH3)]; [by case_decide|]. cbn. rewrite IH1, IH2, IH3. by case_decide.
Qed.

(** What the outputs of one broadcast say of a connection. *)
Abbreviation offers_to := (fun info i c => if receiving c then Offered i info :: (Conn i <$> (offer maximum_transaction_in_queue info c).2) else []).

Lemma offers_of info conns i :
  broadcasts (concat (imap (offers_to info) conns)) = [] /\
  offered i (concat (imap (offers_to info) conns)) = match conns !! i with Some c => if receiving c then [info] else [] | None => [] end /\
  conn_outs i (concat (imap (offers_to info) conns)) = match conns !! i with Some c => (offer maximum_transaction_in_queue info c).2 | None => [] end.
Proof.
  induction conns as [|c conns (IH1 & IH2 & IH3)] using rev_ind; [done|].
  rewrite imap_app, concat_app, broadcasts_app, offered_outs_app, conn_outs_app, IH1, IH2, IH3.
  cbn [imap concat compose]. rewrite Nat.add_0_r, app_nil_r. clear IH1 IH2 IH3. set (n := length conns).
  destruct (conn_outputs i n (offer maximum_transaction_in_queue info c).2) as (Hb & Hf & Ho).
  assert (receiving c = false -> (offer maximum_transaction_in_queue info c).2 = []) as Hoff by (unfold offer; by intros ->).
  destruct (decide (n = i)) as [<-|Hne].
  - rewrite lookup_app_r, lookup_ge_None_2, Nat.sub_diag by (unfold n; lia). cbn [lookup list_lookup app].
    destruct (receiving c); [|by rewrite Hoff]. cbn. rewrite decide_True by done. unfold offered, conn_outs, broadcasts in *. by rewrite Hb, Hf, Ho.
  - assert (offered i (offers_to info n c) = [] /\ conn_outs i (offers_to info n c) = [] /\ broadcasts (offers_to info n c) = []) as (-> & -> & ->).
    { destruct (receiving c); [|done]. unfold offered, conn_outs, broadcasts in *. cbn. by rewrite decide_False by done. }
    rewrite !app_nil_r. destruct (decide (i < n)%nat); [by rewrite lookup_app_l|].
    rewrite lookup_ge_None_2 by (unfold n in *; lia). rewrite lookup_ge_None_2; [done|]. rewrite length_app. cbn. unfold n in *. lia.
Qed.

(** The account of the connections when [l] is sent. *)
Definition sends_account (conns conns' : list connection) (l : list SentTransactionInfo) (o : list pl_output) : Prop :=
  Forall conn_ok conns' /\ broadcasts o = l /\ (forall t, asked t o = 0) /\
  forall t i, sends_of t (offered i o) <= sends_of t l /\
    sends_of t (out_tx <$> conn_outs i o) + sends_of t (from_option holding [] (conns' !! i)) =
    sends_of t (offered i o) + sends_of t (from_option holding [] (conns !! i)).

Lemma tpu_send_account conns info :
  Forall conn_ok conns -> sends_account conns (tpu_send_transaction conns info).1 [info] (tpu_send_transaction conns info).2.
Proof.
  intros Hok. unfold tpu_send_transaction. cbn [fst snd]. split_and!.
  - apply Forall_fmap. eapply Forall_impl; [exact Hok|]. intros c Hc. by apply offer_ok.
  - cbn. destruct (offers_of info conns 0) as [Hb _]. unfold broadcasts in *. by rewrite Hb.
  - intros t. apply asked_silent. constructor; [done|]. apply Forall_concat, Forall_forall. intros l (i & c & -> & _)%elem_of_lookup_imap_1.
    destruct (receiving c); [|by constructor]. constructor; [done|]. apply Forall_fmap, Forall_true. done.
  - intros t i. destruct (offers_of info conns i) as (_ & Hf & Ho).
    change (offered i (Broadcast info :: ?l)) with (offered i l). change (conn_outs i (Broadcast info :: ?l)) with (conn_outs i l).
    rewrite Hf, Ho, list_lookup_fmap. destruct (conns !! i) as [c|] eqn:Hc; cbn [fmap option_fmap option_map from_option].
    + destruct (offer_ok maximum_transaction_in_queue info c) as [_ Ha]; [by eapply Forall_lookup_1|]. specialize (Ha t).
      pose proof (sends_of_nonneg t [info]). destruct (receiving c); change (sends_of t []) with 0; lia.
    + change (sends_of t []) with 0. pose proof (sends_of_nonneg t [info]). cbn. change (sends_of t []) with 0. lia.
Qed.

Lemma tpu_send_all_account conns l :
  Forall conn_ok conns -> sends_account conns (tpu_send_all conns l).1 l (tpu_send_all conns l).2.
Proof.
  revert conns. induction l as [|info l IH]; intros conns Hok; cbn [tpu_send_all].
  - split_and!; [done..|]. intros t i. cbn. change (sends_of t []) with 0. lia.
  - destruct (tpu_send_account conns info Hok) as (Hok1 & Hb1 & Ha1 & H1). destruct (tpu_send_transaction conns info) as [conns1 o1].
    destruct (IH conns1 Hok1) as (Hok2 & Hb2 & Ha2 & H2). destruct (tpu_send_all conns1 l) as [conns2 o2]. cbn [fst snd] in *.
    split_and!; [done|by rewrite broadcasts_app, Hb1, Hb2|intros t; by rewrite asked_app, Ha1, Ha2|]. intros t i.
    destruct (H1 t i), (H2 t i). rewrite offered_outs_app, conn_outs_app, fmap_app, !sends_of_app, (sends_of_cons t info l). lia.
Qed.

(** ** Starting and stopping connections *)

(** A connection may hold a transaction. *)
Context (heap_capacity_pos : forall d, 0 < heap_capacity d).

(** The connections hold and have passed what they did. *)
Definition same_load (conns conns' : list connection) : Prop :=
  forall i, from_option holding [] (conns' !! i) = from_option holding [] (conns !! i) /\
    from_option passed [] (conns' !! i) = from_option passed [] (conns !! i).

#[local] Instance same_load_trans : Transitive same_load.
Proof. intros l1 l2 l3 H1 H2 i. destruct (H1 i) as [<- <-], (H2 i) as [<- <-]. done. Qed.

Lemma start_one_load d acc e : Forall conn_ok acc.1 -> Forall conn_ok (start_one d acc e).1 /\ same_load acc.1 (start_one d acc e).1.
Proof.
  intros Hok. cbn [start_one fst]. split.
  - apply Forall_app. split; [done|]. constructor; [|done]. pose proof (heap_capacity_pos d).
    split_and!; [apply heap_new_inv; lia|done|done].
  - intros i. destruct (decide (i < length acc.1)%nat) as [Hi|Hi]; [by rewrite lookup_app_l|].
    rewrite lookup_app_r by lia. rewrite (lookup_ge_None_2 acc.1) by lia. by destruct (i - length acc.1)%nat.
Qed.

Lemma exit_one_load acc id : Forall conn_ok acc.1 -> Forall conn_ok (exit_one acc id).1 /\ same_load acc.1 (exit_one acc id).1.
Proof.
  intros Hok. unfold exit_one. destruct (acc.2 !! id) as [j|]; [|done]. cbn [fst]. split.
  - apply Forall_alter; [done|]. intros c _ (? & ? & ?). by split_and!.
  - intros i. destruct (decide (j = i)) as [<-|Hne]; [|by rewrite list_lookup_alter_ne].
    rewrite list_lookup_alter_eq. by destruct (acc.1 !! j).
Qed.

Lemma manage_load d conns active u :
  Forall conn_ok conns -> Forall conn_ok (manage d conns active u).1 /\ same_load conns (manage d conns active u).1.
Proof.
  intros Hok. unfold manage.
  assert (forall l acc, Forall conn_ok acc.1 -> same_load conns acc.1 ->
    Forall conn_ok (foldl (start_one d) acc l).1 /\ same_load conns (foldl (start_one d) acc l).1) as H1.
  { intros l. induction l as [|e l IH]; intros acc Ha Hs; [done|]. cbn [foldl]. destruct (start_one_load d acc e Ha). apply IH; [done|].
    by transitivity acc.1. }
  assert (forall l acc, Forall conn_ok acc.1 -> same_load conns acc.1 ->
    Forall conn_ok (foldl exit_one acc l).1 /\ same_load conns (foldl exit_one acc l).1) as H2.
  { intros l. induction l as [|e l IH]; intros acc Ha Hs; [done|]. cbn [foldl]. destruct (exit_one_load acc e Ha). apply IH; [done|].
    by transitivity acc.1. }
  apply H2; by apply H1.
Qed.

(** ** Every action keeps the account *)

Ltac pl_simpl :=
  cbn [pl_ended pl_tasks pl_calls pl_channel pl_sending pl_replays pl_replaying pl_getter pl_connections pl_active
       pl_set_tasks pl_set_connections pl_end_with effect_weight fst snd] in *;
  repeat match goal with
  | |- context [option_list (Some ?x)] => change (option_list (Some x)) with [x]
  | |- context [sends_of ?t (option_list None)] => change (sends_of t (option_list None)) with 0
  | |- context [sends_of ?t []] => change (sends_of t []) with 0
  | |- context [asked ?t []] => change (asked t []) with 0
  | |- context [queue_budget ?t []] => change (queue_budget t []) with 0
  end.

(** What an accepted call puts on the channels is what it asks for. *)
Lemma accepted_effects store now raw_tx max_retries sig effects :
  accept store now raw_tx max_retries = Done (Ok sig, effects) ->
  exists info, si_signature info = sig /\ si_transaction info = raw_tx /\
    call_asks effects = [Accepted info (if tsv_replay_open service then Some (default (tsv_max_retries service) max_retries) else None)] /\
    forall t, call_weight t effects <= asked t (call_asks effects).
Proof.
  intros Ha. pose proof (send_wire_transaction_accepts _ _ _ _ _ _ _ _ _ _ Ha) as (tx & binfo & info & _ & _ & _ & _ & Hs & Ht & _ & ->).
  exists info. split; [done|]. split; [done|]. destruct (tsv_replay_open service); cbn [call_asks tr_max_replay]; (split; [done|]).
  - intros t. unfold call_weight, asked. cbn [fmap list_fmap effect_weight from_option]. rewrite !list_sum_cons. cbn [list_sum foldr].
    unfold replay_budget, sends_of. cbn [tr_transaction tr_max_replay tr_replay_count]. rewrite filter_cons.
    destruct (decide (info = t)); cbn [length filter list_filter]; lia.
  - intros t. unfold call_weight, asked. cbn [fmap list_fmap effect_weight from_option]. rewrite !list_sum_cons. cbn [list_sum foldr].
    unfold sends_of. rewrite filter_cons. destruct (decide (info = t)); cbn [length filter list_filter]; lia.
Qed.

Lemma deliver_account s call e rest :
  pl_calls s !! call = Some (e :: rest) -> step_account s (deliver s call e rest) [].
Proof.
  intros Hl. apply account_silent; [done|destruct e; cbn; [by case_bool_decide|done]|]. intros t. pl_simpl.
  assert (list_sum (call_weight t <$> <[call := rest]> (pl_calls s)) =
          list_sum (call_weight t <$> pl_calls s) - effect_weight t e) as Hw.
  { rewrite list_fmap_insert. rewrite (list_sum_insert _ call (call_weight t (e :: rest)) (call_weight t rest)).
    - unfold call_weight. cbn [fmap list_fmap]. rewrite list_sum_cons. lia.
    - by rewrite list_lookup_fmap, Hl. }
  unfold deliver. destruct e as [info|r]; [case_bool_decide; [|lia]|]; unfold pending; pl_simpl; rewrite Hw.
  - rewrite sends_of_app. lia.
  - rewrite queue_budget_app, queue_budget_cons. pl_simpl. lia.
Qed.

(** A step that sends [l] on the broadcast channel. *)
Lemma account_sends s s' l o :
  sends_account (pl_connections s) (pl_connections s') l o ->
  (forall t, sends_of t l + pending t s' <= pending t s) -> step_account s s' o.
Proof.
  intros (_ & Hb & Ha & Hc) Hp t. rewrite Hb, Ha. split; [specialize (Hp t); lia|]. intros i. apply Hc.
Qed.

Lemma conn_account s i c ev :
  connections_ok s -> pl_connections s !! i = Some c ->
  exists c' o, conn_step (pl_cache s) c ev = Done (c', o) /\
    step_account s (pl_set_connections s (<[i := c']> (pl_connections s))) (Conn i <$> o) /\
    Forall conn_ok (<[i := c']> (pl_connections s)).
Proof.
  intros Hok Hl. destruct (conn_step_ok (pl_cache s) c ev) as (c' & o & E & Hc' & Ha); [by eapply Forall_lookup_1|].
  exists c', o. split; [done|]. split; [|by apply Forall_insert]. intros t. destruct (conn_outputs 0 i o) as [-> _].
  rewrite asked_silent by (apply Forall_fmap, Forall_true; done). unfold pending. pl_simpl. split; [lia|]. intros j.
  destruct (conn_outputs j i o) as (_ & -> & ->). unfold held_by. pl_simpl. split; [lia|].
  destruct (decide (i = j)) as [<-|Hne].
  - rewrite list_lookup_insert_eq by (by eapply lookup_lt_Some). rewrite Hl. cbn [from_option]. specialize (Ha t). lia.
  - rewrite list_lookup_insert_ne by done. cbn. change (sends_of t []) with 0. lia.
Qed.

Lemma notified_silent notes : Forall silent (Notified <$> notes) /\ forall t, asked t (Notified <$> notes) = 0.
Proof. split; [|intros t; apply asked_silent]; apply Forall_fmap, Forall_true; done. Qed.

Lemma pl_act_account s ev :
  connections_ok s -> exists s' o, pl_act s ev = Done (s', o) /\ connections_ok s' /\ step_account s s' o.
Proof.
  intros Hok.
  assert (forall o, o = [] -> exists s' o', Done (s, o) = Done (s', o') /\ connections_ok s' /\ step_account s s' o') as Hsame.
  { intros ? ->. exists s, []. split_and!; [done|done|]. apply account_silent; [done|done|]. intros t. pl_simpl. lia. }
  destruct ev as [now raw_tx retries|call| | |now after| |ev|current estimated|i ev]; cbn [pl_act].
  - destruct (accept _ _ _ _) as [[[sig|e] effects]|] eqn:Hacc.
    + destruct (accepted_effects _ _ _ _ _ _ Hacc) as (info & _ & _ & Hasks & Hw). eexists _, _. split_and!; [done|done|].
      apply account_silent; [rewrite Hasks; by constructor|done|]. intros t. specialize (Hw t).
      unfold pending. pl_simpl. rewrite fmap_app, list_sum_app. cbn [fmap list_fmap]. rewrite list_sum_cons. cbn [list_sum foldr]. lia.
    + eexists _, _. split_and!; [done|done|]. apply account_silent; [by constructor|done|]. intros t. cbn. lia.
    + eexists _, _. split_and!; [done|done|]. apply account_silent; [by constructor|done|]. intros t. cbn. lia.
  - destruct (pl_calls s !! call) as [[|e rest]|] eqn:Hl; [by apply Hsame| |by apply Hsame]. eexists _, _. split_and!; [done| |by apply deliver_account].
    destruct e; cbn; [by case_bool_decide|done].
  - destruct (pl_sending s) eqn:Hsend, (pl_channel s) as [|info q] eqn:Hch; try by apply Hsame. eexists _, _. split_and!; [done|done|].
    apply account_silent; [done|done|]. intros t. unfold pending. pl_simpl. rewrite Hch, Hsend, (sends_of_cons t info q). pl_simpl. lia.
  - destruct (pl_sending s) as [info|] eqn:Hsend; [|by apply Hsame]. pose proof (tpu_send_account (pl_connections s) info Hok) as Ha.
    destruct (tpu_send_transaction _ _) as [conns out]. eexists _, _. split_and!; [done|apply Ha|].
    apply (account_sends _ _ [info]); [exact Ha|]. intros t. unfold pending. pl_simpl. rewrite Hsend. pl_simpl. lia.
  - destruct (pl_replaying s) as [[|] [|]] eqn:Hr, (pl_replays s) as [|r q] eqn:Hq; try by apply Hsame. eexists _, _. split_and!; [done|done|].
    apply account_silent; [done|done|]. intros t. unfold pending. pl_simpl. rewrite Hr, Hq, queue_budget_cons.
    pose proof (replay_one_budget retry_offset retry_delay t (pl_cache s) now after r). pl_simpl. lia.
  - destruct (pl_replaying s) as [back l] eqn:Hr. pose proof (tpu_send_all_account (pl_connections s) l Hok) as Ha.
    destruct (tpu_send_all _ _) as [conns out]. eexists _, _. split_and!; [done|apply Ha|].
    apply (account_sends _ _ l); [exact Ha|]. intros t. unfold pending. pl_simpl. rewrite Hr, queue_budget_app. pl_simpl. lia.
  - assert (forall t' notes, exists s' o, Done (pl_set_tasks s t', Notified <$> notes) = Done (s', o) /\ connections_ok s' /\ step_account s s' o) as Htask.
    { intros t' notes. destruct (notified_silent notes) as [Hn Hz]. eexists _, _. split_and!; [done|done|]. apply account_silent; [done|done|].
      intros t. rewrite Hz. unfold pending. pl_simpl. lia. }
    destruct ev; try (destruct (cache_step _ _); apply Htask). by apply Hsame.
  - destruct (update_quic_connections _ _ _ _ _ _) as [[[u|e] g]|].
    + destruct (manage_load (pl_cache s) (pl_connections s) (pl_active s) u Hok) as [Hok' Hload]. destruct (manage _ _ _ _) as [conns active].
      eexists _, _. split_and!; [done|done|]. intros t. cbn. unfold pending. pl_simpl. split; [lia|]. intros i. split; [lia|].
      unfold held_by. pl_simpl. destruct (Hload i) as [-> _]. change (sends_of t []) with 0. lia.
    + eexists _, _. split_and!; [done|done|]. apply account_silent; [by constructor|done|]. intros t. cbn. unfold pending. pl_simpl. lia.
    + eexists _, _. split_and!; [done|done|]. apply account_silent; [by constructor|done|]. intros t. cbn. unfold pending. pl_simpl. lia.
  - destruct (pl_connections s !! i) as [c|] eqn:Hl; [|by apply Hsame]. destruct (conn_account s i c ev Hok Hl) as (c' & o & -> & Ha & Hok').
    cbn [mbind outcome_bind]. by eexists _, _.
Qed.

(** ** Runs *)

(** The account of a run from its start. *)
Definition accounted (s : pipeline) (h : list pl_output) : Prop :=
  connections_ok s /\ forall t, sends_of t (broadcasts h) + pending t s <= asked t h /\
    forall i, sends_of t (offered i h) <= sends_of t (broadcasts h) /\
      sends_of t (offered i h) = sends_of t (written_by i h) + sends_of t (lost_by i h) + sends_of t (held_by i s).

Lemma pl_step_accounted s h ev :
  accounted s h -> exists s' o, pl_step s ev = Done (s', o) /\ accounted s' (h ++ o).
Proof.
  intros Ha. unfold pl_step. destruct (pl_ended s); [exists s, []; by rewrite app_nil_r|]. destruct Ha as [Hok Ha].
  destruct (pl_act_account s ev Hok) as (s' & o & E & Hok' & Hst). exists s', o. split; [done|]. split; [done|]. intros t.
  destruct (Ha t) as [Hp Hc], (Hst t) as [Hp' Hc']. rewrite broadcasts_app, asked_app, sends_of_app. split; [lia|]. intros i.
  destruct (Hc i) as [Hc1 Hc2], (Hc' i) as [Hc3 Hc4]. rewrite written_lost_split in Hc4. unfold written_by, lost_by, written, lost in *.
  rewrite offered_outs_app, conn_outs_app, !omap_app, !sends_of_app. lia.
Qed.

Lemma queue_budget_nonneg t q : 0 <= queue_budget t q.
Proof. induction q as [|r q IH]; [done|]. rewrite queue_budget_cons. unfold replay_budget. case_decide; lia. Qed.

Lemma pending_nonneg t s : 0 <= pending t s.
Proof.
  unfold pending. assert (0 <= list_sum (call_weight t <$> pl_calls s)).
  { induction (pl_calls s) as [|effects l IH]; [done|]. cbn [fmap list_fmap]. rewrite list_sum_cons.
    assert (0 <= call_weight t effects); [|lia]. unfold call_weight. clear IH. induction effects as [|e effects IH]; [done|].
    cbn [fmap list_fmap]. rewrite list_sum_cons. assert (0 <= effect_weight t e); [|lia].
    destruct e; [apply sends_of_nonneg|]. cbn. unfold replay_budget. case_decide; lia. }
  pose proof (queue_budget_nonneg t (pl_replays s)). pose proof (queue_budget_nonneg t (pl_replaying s).1).
  pose proof (sends_of_nonneg t (pl_channel s)). pose proof (sends_of_nonneg t (option_list (pl_sending s))).
  pose proof (sends_of_nonneg t (pl_replaying s).2). lia.
Qed.

(** The pipeline of a server that just started. *)
Definition pl_start (d : DataCache) (getter : S) : pipeline :=
  mkPipeline None (idle d) [] [] None [] ([], []) getter [] ∅.

Lemma pl_run_accounted d getter evs :
  exists s out, orun pl_step (pl_start d getter) evs = Done (s, out) /\ accounted s out.
Proof.
  destruct (orun_history pl_step (fun _ => True) accounted) with (es := evs) (s := pl_start d getter) (h := @nil pl_output) as (s & out & Hr & Ha).
  - intros. by apply pl_step_accounted.
  - by apply Forall_true.
  - split; [by apply Forall_nil|]. intros t. split; [done|]. intros i. split; [done|]. done.
  - by exists s, out.
Qed.

Lemma sends_of_elem t l : t ∈ l <-> 0 < sends_of t l.
Proof.
  unfold sends_of. split.
  - intros Ht. assert (t ∈ filter (fun x => x = t) l) as Hf by (by apply list_elem_of_filter).
    destruct (filter _ l); [by apply not_elem_of_nil in Hf|]. cbn. lia.
  - intros Hl. destruct (filter (fun x => x = t) l) as [|x l'] eqn:Hf; [cbn in Hl; lia|].
    assert (x ∈ filter (fun x => x = t) l) as Hx by (rewrite Hf; apply elem_of_cons; auto).
    by apply list_elem_of_filter in Hx as [-> Hx].
Qed.

Lemma asked_elem t out : 0 < asked t out -> exists replays, Accepted t replays ∈ out.
Proof.
  unfold asked. induction out as [|o out IH]; [done|]. cbn [fmap list_fmap]. rewrite list_sum_cons.
  destruct o as [info replays| | | | | | |];
    try (intros [r Hr]%IH; exists r; apply elem_of_cons; by right).
  case_decide as He; [subst; intros _; exists replays; apply elem_of_cons; auto|].
  intros [r Hr]%IH. exists r. apply elem_of_cons. by right.
Qed.

(** Which outputs a step has. *)
Lemma call_output s now raw_tx retries s' o :
  pl_act s (PlCall now raw_tx retries) = Done (s', o) ->
  (exists t replays effects, o = [Accepted t replays] /\ si_transaction t = raw_tx /\
     accept (block_information_store (pl_cache s)) now raw_tx retries = Done (Ok (si_signature t), ToSender t :: effects)) \/
  (exists e, o = [Refused e]) \/
  (o = [CallPanicked raw_tx] /\ accept (block_information_store (pl_cache s)) now raw_tx retries = Panic).
Proof.
  cbn [pl_act]. destruct (accept _ _ _ _) as [[[sig|e] effects]|] eqn:Hacc; intros [= <- <-]; [left|right; left; eauto|right; right; eauto].
  destruct (accepted_effects _ _ _ _ _ _ Hacc) as (info & <- & <- & Hasks & _). rewrite Hasks.
  destruct effects as [|[x|r] [|[y|r'] [|]]]; cbn [call_asks] in Hasks; try discriminate; injection Hasks as -> _; do 3 eexists; eauto.
Qed.

Definition from_call (o : pl_output) : Prop :=
  match o with Accepted _ _ | CallPanicked _ => True | _ => False end.

(** Sending on the broadcast channel tells nothing of calls. *)
Lemma tpu_send_all_outs l conns x : x ∈ (tpu_send_all conns l).2 -> ~ from_call x.
Proof.
  assert (forall info conns, x ∈ (tpu_send_transaction conns info).2 -> ~ from_call x) as H1.
  { intros info cs [->|Hx]%elem_of_cons; [by intros ?|].
    apply list_elem_of_In, in_concat in Hx as (k & (j & c & -> & _)%list_elem_of_In%elem_of_lookup_imap_1 & Hk%list_elem_of_In).
    destruct (receiving c); [|by apply not_elem_of_nil in Hk]. apply elem_of_cons in Hk as [->|(z & -> & _)%list_elem_of_fmap]; by intros ?. }
  revert conns. induction l as [|y l IH]; intros conns; cbn [tpu_send_all]; [by intros ?%not_elem_of_nil|].
  specialize (H1 y conns). destruct (tpu_send_transaction conns y) as [conns1 o1]. specialize (IH conns1). destruct (tpu_send_all conns1 l).
  cbn [snd] in *. intros [?|?]%elem_of_app; auto.
Qed.

Lemma other_output s ev s' o x :
  pl_act s ev = Done (s', o) -> x ∈ o -> from_call x -> exists now raw_tx retries, ev = PlCall now raw_tx retries.
Proof.
  intros Hs Hx Hc.
  destruct ev as [now raw_tx retries|call| | |now after| |ev|current estimated|i ev]; [by eauto|exfalso..]; cbn [pl_act] in Hs.
  - repeat case_match; injection Hs as <- <-; by apply not_elem_of_nil in Hx.
  - repeat case_match; injection Hs as <- <-; by apply not_elem_of_nil in Hx.
  - destruct (pl_sending s) as [info|]; [|injection Hs as <- <-; by apply not_elem_of_nil in Hx].
    apply (tpu_send_all_outs [info] (pl_connections s) x); [|done]. cbn [tpu_send_all]. destruct (tpu_send_transaction _ _).
    injection Hs as <- <-. cbn [snd]. by rewrite app_nil_r.
  - repeat case_match; injection Hs as <- <-; by apply not_elem_of_nil in Hx.
  - destruct (pl_replaying s) as [back l]. pose proof (tpu_send_all_outs l (pl_connections s) x) as H1. destruct (tpu_send_all _ _). injection Hs as <- <-. by apply H1.
  - assert (exists notes, o = Notified <$> notes) as [notes ->].
    { destruct ev; try (destruct (cache_step _ _) as [t notes]; injection Hs as <- <-; by exists notes). injection Hs as <- <-. by exists []. }
    by apply list_elem_of_fmap in Hx as (n & -> & _).
  - destruct (update_quic_connections _ _ _ _ _ _) as [[[u|e] g]|]; [destruct (manage _ _ _ _)|..]; injection Hs as <- <-;
      [by apply not_elem_of_nil in Hx|by apply list_elem_of_singleton in Hx as ->..].
  - destruct (pl_connections s !! i) as [c|]; [|injection Hs as <- <-; by apply not_elem_of_nil in Hx].
    destruct (conn_step _ _ _) as [[c' l]|]; [|done]. cbn [mbind outcome_bind] in Hs. injection Hs as <- <-.
    by apply list_elem_of_fmap in Hx as (y & -> & _).
Qed.

(** An output of a call, when it was made. *)
Lemma from_call_run s evs s' out x :
  orun pl_step s evs = Done (s', out) -> x ∈ out -> from_call x ->
  exists evs1 now raw_tx max_retries evs2 s1 out1 o, evs = evs1 ++ PlCall now raw_tx max_retries :: evs2 /\
    orun pl_step s evs1 = Done (s1, out1) /\ (exists s2, pl_act s1 (PlCall now raw_tx max_retries) = Done (s2, o)) /\ x ∈ o.
Proof.
  intros Hr Hx Hc. destruct (orun_elem _ _ _ _ _ _ Hr Hx) as (evs1 & e & evs2 & s1 & o1 & s2 & o2 & -> & Hr1 & Hs & Ho).
  unfold pl_step in Hs. destruct (pl_ended s1); [injection Hs as <- <-; by apply not_elem_of_nil in Ho|].
  destruct (other_output _ _ _ _ _ Hs Ho Hc) as (now & raw_tx & retries & ->). exists evs1, now, raw_tx, retries, evs2, s1, o1, o2. eauto.
Qed.

(** When a call panics. *)
Lemma accept_panics store now raw_tx retries :
  accept store now raw_tx retries = Panic ->
  exists tx, deserialize raw_tx = Ok tx /\
    (vt_signatures tx = [] \/ Exists (fun ix => program_id (vm_account_keys (vt_message tx)) ix = Panic) (vm_instructions (vt_message tx))).
Proof.
  unfold send_wire_transaction. destruct (deserialize raw_tx) as [tx|]; [|done]. intros Hp. exists tx. split; [done|].
  destruct (vt_signatures tx) as [|sig l]; [by left|right]. cbn [unwrap head mbind outcome_bind] in Hp.
  destruct (get_block_info _ _); [|done]. destruct (_ <? _); [done|].
  assert (forall fee, prioritization_fee_of compute_budget_id parse_compute_budget (vm_account_keys (vt_message tx)) (vm_instructions (vt_message tx)) fee = Panic ->
    Exists (fun ix => program_id (vm_account_keys (vt_message tx)) ix = Panic) (vm_instructions (vt_message tx))) as Hfee.
  { clear Hp. induction (vm_instructions (vt_message tx)) as [|ix ixs IH]; intros fee Hf; [done|]. cbn [prioritization_fee_of] in Hf.
    destruct (program_id _ ix) eqn:Hix; [|by left]. right. cbn [mbind outcome_bind] in Hf. by eapply IH. }
  destruct (prioritization_fee_of _ _ _ _ 0) eqn:Hf; [|by eapply Hfee]. cbn [mbind outcome_bind] in Hp. by destruct (tsv_channel_open service).
Qed.

(** C1. The leaders are sent what clients asked for, and no more.  However
    the requests, the sender, the replayer, the tasks of the caching service, the
    changes of leaders and the tasks of the connections interleave, connections
    that were told to exit included, the tasks do not panic and a connection writes a
    transaction to its leader at most as often as the accepted calls for it
    allow, once plus one more than the replays asked for; every transaction that
    is written was accepted by a call, at a moment when its bytes decoded to a
    transaction with its signature, whose blockhash the store knew and had not
    seen expire.  A call panics only if its bytes decode to a transaction without
    signatures or with a program index out of range.  (A heap has room for at
    least one transaction; an error or a panic of the leader schedule ends the
    server.) *)
Theorem leaders_get_only_accepted (d : DataCache) (getter : S) (evs : list pl_event) :
  exists s out, orun pl_step (pl_start d getter) evs = Done (s, out) /\
    (forall i t, sends_of t (written_by i out) <= asked t out) /\
    (forall i t, t ∈ written_by i out ->
       exists evs1 now max_retries evs2 s1 out1 tx binfo,
         evs = evs1 ++ PlCall now (si_transaction t) max_retries :: evs2 /\
         orun pl_step (pl_start d getter) evs1 = Done (s1, out1) /\
         deserialize (si_transaction t) = Ok tx /\ head (vt_signatures tx) = Some (si_signature t) /\
         get_block_info (block_information_store (pl_cache s1)) (vm_recent_blockhash (vt_message tx)) = Some binfo /\
         get_last_blockheight (block_information_store (pl_cache s1)) <= binf_last_valid_blockheight binfo /\
         si_last_valid_block_height t = binf_last_valid_blockheight binfo) /\
    (forall raw_tx, CallPanicked raw_tx ∈ out -> exists tx, deserialize raw_tx = Ok tx /\
       (vt_signatures tx = [] \/ Exists (fun ix => program_id (vm_account_keys (vt_message tx)) ix = Panic) (vm_instructions (vt_message tx)))).
Proof.
  destruct (pl_run_accounted d getter evs) as (s & out & Hr & _ & Ha). exists s, out. split; [done|].
  assert (forall i t, sends_of t (written_by i out) <= asked t out) as Hb.
  { intros i t. destruct (Ha t) as [H1 H2]. destruct (H2 i). pose proof (pending_nonneg t s). pose proof (sends_of_nonneg t (lost_by i out)).
    pose proof (sends_of_nonneg t (held_by i s)). lia. }
  split; [done|]. split.
  - intros i t Ht%sends_of_elem. specialize (Hb i t). destruct (asked_elem t out) as [replays Hacc]; [lia|].
    destruct (from_call_run _ _ _ _ _ Hr Hacc I) as (evs1 & now & raw & retries & evs2 & s1 & out1 & o & -> & Hr1 & (s2 & Hact) & Ho).
    destruct (call_output _ _ _ _ _ _ Hact) as [(t' & rp & effects & -> & <- & Hw)|[(e & ->)|[-> _]]]; apply list_elem_of_singleton in Ho; try done.
    injection Ho as <- <-. destruct (send_wire_transaction_accepts _ _ _ _ _ _ _ _ _ _ Hw) as (tx & binfo & sent & ? & ? & ? & ? & _ & _ & ? & [= <- _]).
    exists evs1, now, retries, evs2, s1, out1, tx, binfo. by split_and!.
  - intros raw_tx Hp. destruct (from_call_run _ _ _ _ _ Hr Hp I) as (evs1 & now & raw & retries & evs2 & s1 & out1 & o & -> & Hr1 & (s2 & Hact) & Ho).
    destruct (call_output _ _ _ _ _ _ Hact) as [(t' & rp & effects & -> & _)|[(e & ->)|[-> Hw]]]; apply list_elem_of_singleton in Ho; try done.
    injection Ho as <-. by eapply accept_panics.
Qed.

(** ** Losses *)




(** ** Nothing is left behind *)


















(** ** Confirmed transactions *)

(** No call for the signature is on its way to the sender. *)
Definition quiet (sig : Signature) (s : pipeline) : Prop :=
  (forall info, ToSender info ∈ concat (pl_calls s) -> si_signature info <> sig) /\
  (forall info, info ∈ pl_channel s -> si_signature info <> sig).

Lemma quiet_calls sig s calls (channel : list SentTransactionInfo) :
  quiet sig s -> (forall info, ToSender info ∈ concat calls -> ToSender info ∈ concat (pl_calls s)) ->
  (forall info, info ∈ channel -> info ∈ pl_channel s \/ ToSender info ∈ concat (pl_calls s)) ->
  (forall info, ToSender info ∈ concat calls -> si_signature info <> sig) /\
  (forall info, info ∈ channel -> si_signature info <> sig).
Proof. intros [Hc Hch] H1 H2. naive_solver. Qed.

(** The calls of a state after one of them put a message on its channel. *)
Lemma calls_rest (calls : list (list send_effect)) call e rest x :
  calls !! call = Some (e :: rest) -> x ∈ concat (<[call := rest]> calls) -> x ∈ concat calls.
Proof.
  rewrite !list_elem_of_In, !in_concat. intros Hl (l & Hl1 & Hx). apply list_elem_of_In, list_elem_of_lookup_1 in Hl1 as (j & Hj).
  apply list_lookup_insert_Some in Hj as [(-> & <- & _)|[_ Hj]].
  - exists (e :: rest). split; [apply list_elem_of_In; by eapply list_elem_of_lookup_2|by right].
  - exists l. split; [apply list_elem_of_In; by eapply list_elem_of_lookup_2|done].
Qed.

Lemma quiet_step sig s ev s' o :
  quiet sig s -> pl_act s ev = Done (s', o) ->
  (forall info replays, Accepted info replays ∈ o -> si_signature info <> sig) -> quiet sig s'.
Proof.
  intros Hq Hs Hno. destruct ev as [now raw_tx retries|call| | |now after| |ev|current estimated|j ev]; cbn [pl_act] in Hs.
  - destruct (accept _ _ _ _) as [[[sg|e] effects]|] eqn:Hacc; injection Hs as <- <-; [|done..].
    destruct (accepted_effects _ _ _ _ _ _ Hacc) as (info & _ & _ & Hasks & _). rewrite Hasks in Hno.
    split; [|apply (proj2 Hq)]. intros info'. pl_simpl. rewrite concat_app, elem_of_app. intros [Hx|Hx]; [by apply (proj1 Hq)|].
    assert (info' = info) as ->; [|eapply Hno, list_elem_of_singleton; done].
    destruct effects as [|[x|r] [|[y|r'] [|]]]; cbn [call_asks] in Hasks; try discriminate; injection Hasks as -> _; set_solver.
  - destruct (pl_calls s !! call) as [[|e rest]|] eqn:Hl; injection Hs as <- <-; [done| |done].
    assert (e ∈ concat (pl_calls s)) as He.
    { apply list_elem_of_In, in_concat. exists (e :: rest). split; [apply list_elem_of_In; by eapply list_elem_of_lookup_2|by left]. }
    unfold deliver. destruct e as [info|r]; [case_bool_decide; [|done]|]; (eapply quiet_calls; [exact Hq|..]); pl_simpl.
    + intros info' Hx. by eapply calls_rest.
    + intros info' [Hx|Hx%list_elem_of_singleton]%elem_of_app; [by left|right; by subst].
    + intros info' Hx. by eapply calls_rest.
    + auto.
  - destruct (pl_sending s), (pl_channel s) as [|info q] eqn:Hch; injection Hs as <- <-; try done.
    eapply quiet_calls; [exact Hq|..]; pl_simpl; [done|]. intros info' Hx. left. rewrite Hch. apply elem_of_cons; auto.
  - destruct (pl_sending s); by injection Hs as <- <-.
  - destruct (pl_replaying s) as [[|] [|]], (pl_replays s); by injection Hs as <- <-.
  - destruct (pl_replaying s), (tpu_send_all _ _). by injection Hs as <- <-.
  - destruct ev; try destruct (cache_step _ _); by injection Hs as <- <-.
  - destruct (update_quic_connections _ _ _ _ _ _) as [[[u|e] g]|]; [destruct (manage _ _ _ _)|..]; by injection Hs as <- <-.
  - destruct (pl_connections s !! j) as [c|]; [|by injection Hs as <- <-]. destruct (conn_step _ _ _) as [[c' l]|]; [|done]. by injection Hs as <- <-.
Qed.

(** The store has the status of a transaction with the signature, and will
    have it as long as no finalized block above [L] comes. *)
Definition done_with (L : Z) (sig : Signature) (s : pipeline) : Prop :=
  connections_ok s /\ confirmed_until L sig (pl_cache s) /\ ~ inserting sig (pl_tasks s) /\ tasks_below L (pl_tasks s) /\ quiet sig s.

Definition pl_below (L : Z) (ev : pl_event) : Prop := match ev with PlTask ev => event_below L ev | _ => True end.

Definition passed_by (i : nat) (s : pipeline) : list SentTransactionInfo := from_option passed [] (pl_connections s !! i).

Lemma confirmed_until_confirmed L sig d : confirmed_until L sig d -> is_transaction_confirmed (txs d) sig = true.
Proof. intros (props & Hp & Hs & _). unfold is_transaction_confirmed. rewrite Hp. by apply bool_decide_eq_true_2. Qed.

(** Sending on the broadcast channel writes nothing and passes no check. *)
Lemma tpu_send_all_passed conns l i :
  written_by i (tpu_send_all conns l).2 = [] /\
  from_option passed [] ((tpu_send_all conns l).1 !! i) = from_option passed [] (conns !! i).
Proof.
  revert conns. induction l as [|info l IH]; intros conns; cbn [tpu_send_all]; [done|]. destruct (offers_of info conns i) as (_ & _ & Ho).
  assert (written_by i (tpu_send_transaction conns info).2 = []) as H1.
  { unfold written_by. cbn [tpu_send_transaction snd]. change (conn_outs i (Broadcast info :: ?l)) with (conn_outs i l). rewrite Ho.
    destruct (conns !! i) as [c|]; [|done]. unfold offer. destruct (receiving c); [apply written_lost|done]. }
  assert (from_option passed [] ((tpu_send_transaction conns info).1 !! i) = from_option passed [] (conns !! i)) as H2.
  { cbn [tpu_send_transaction fst]. rewrite list_lookup_fmap. destruct (conns !! i) as [c|]; [|done]. cbn. unfold offer. by destruct (receiving c). }
  destruct (tpu_send_transaction conns info) as [conns1 o1]. destruct (IH conns1) as [H3 H4]. destruct (tpu_send_all conns1 l) as [conns2 o2].
  cbn [fst snd] in *. rewrite H4, H2. split; [|done]. unfold written_by, written in *. by rewrite conn_outs_app, omap_app, H1, H3.
Qed.

(** The store keeps the status. *)
Lemma done_with_cache L sig s ev s' o :
  done_with L sig s -> pl_act s ev = Done (s', o) -> pl_below L ev ->
  confirmed_until L sig (pl_cache s') /\ ~ inserting sig (pl_tasks s') /\ tasks_below L (pl_tasks s').
Proof.
  intros (_ & Hc & Hi & Hb & Hq) Hs Hev.
  assert (forall s1 o1, Done (s1, o1) = Done (s', o) -> pl_tasks s1 = pl_tasks s ->
    confirmed_until L sig (pl_cache s') /\ ~ inserting sig (pl_tasks s') /\ tasks_below L (pl_tasks s')) as Hsame.
  { intros s1 o1 [= -> _] E. unfold pl_cache in *. by rewrite E. }
  assert (forall tev, not_forwarded sig tev -> event_below L tev ->
    confirmed_until L sig (tk_cache (cache_step (pl_tasks s) tev).1) /\ ~ inserting sig (cache_step (pl_tasks s) tev).1 /\
    tasks_below L (cache_step (pl_tasks s) tev).1) as Htask.
  { intros tev Hf He. destruct (task_step_confirmed pubkey_from_str identity sink_closed clean_duration L sig (pl_tasks s) tev Hc Hi Hf) as [H1 H2].
    { intros now h props -> Hcp Hp. destruct Hc as (p & Hp' & _ & Hl). destruct Hb as (_ & _ & _ & Hcl). rewrite Hcp in Hcl.
      unfold pl_cache in Hp'. simplify_eq. lia. }
    split_and!; [done..|]. by apply task_step_below. }
  destruct ev as [now raw_tx retries|call| | |now after| |ev|current estimated|j ev]; cbn [pl_act] in Hs.
  - destruct (accept _ _ _ _) as [[[sg|e] effects]|]; by eapply Hsame.
  - destruct (pl_calls s !! call) as [[|e rest]|]; (eapply Hsame; [exact Hs|]); [done| |done]. unfold deliver. destruct e; [by case_bool_decide|done].
  - destruct (pl_sending s), (pl_channel s) as [|info q] eqn:Hch; try (by eapply Hsame). injection Hs as <- _.
    destruct (Htask (TkForward info)) as (H1 & H2 & H3); [|done|].
    + apply (proj2 Hq). rewrite Hch. apply elem_of_cons; auto.
    + by split_and!.
  - destruct (pl_sending s) as [info|]; [|by eapply Hsame]. destruct (tpu_send_transaction _ _). by eapply Hsame.
  - destruct (pl_replaying s) as [[|] [|]], (pl_replays s); by eapply Hsame.
  - destruct (pl_replaying s), (tpu_send_all _ _). by eapply Hsame.
  - assert (match ev with TkForward _ => False | _ => True end \/ exists info, ev = TkForward info) as [Hf|[info ->]] by (destruct ev; eauto); [|by eapply Hsame].
    destruct (Htask ev) as (H1 & H2 & H3); [by destruct ev|done|]. destruct (cache_step (pl_tasks s) ev) as [t' notes].
    assert (Done (pl_set_tasks s t', Notified <$> notes) = Done (s', o)) as [= <- _] by (by destruct ev). done.
  - destruct (update_quic_connections _ _ _ _ _ _) as [[[u|e] g]|]; [destruct (manage _ _ _ _)|..]; by eapply Hsame.
  - destruct (pl_connections s !! j) as [c|]; [|by eapply Hsame]. destruct (conn_step _ _ _) as [[c' l]|]; [|done]. by eapply Hsame.
Qed.

(** A connection writes only what had passed the check before. *)
Lemma done_with_written L sig s ev s' o i :
  done_with L sig s -> pl_act s ev = Done (s', o) ->
  with_sig sig (written_by i o) + with_sig sig (passed_by i s') <= with_sig sig (passed_by i s).
Proof.
  intros (Hok & Hc & _) Hs.
  assert (forall s1 o1, Done (s1, o1) = Done (s', o) -> Forall silent o1 -> pl_connections s1 = pl_connections s ->
    with_sig sig (written_by i o) + with_sig sig (passed_by i s') <= with_sig sig (passed_by i s)) as Hsame.
  { intros s1 o1 [= -> ->] Ho E. unfold written_by, passed_by. destruct (silent_outs i o Ho) as (_ & _ & ->). rewrite E. change (with_sig sig (written [])) with 0. lia. }
  assert (forall l out conns, tpu_send_all (pl_connections s) l = (conns, out) ->
    with_sig sig (written_by i out) + with_sig sig (from_option passed [] (conns !! i)) <= with_sig sig (passed_by i s)) as Hall.
  { intros l out conns E. destruct (tpu_send_all_passed (pl_connections s) l i) as [H1 H2]. rewrite E in H1, H2. cbn [fst snd] in *.
    rewrite H1, H2. unfold passed_by. change (with_sig sig []) with 0. lia. }
  destruct ev as [now raw_tx retries|call| | |now after| |ev|current estimated|j ev]; cbn [pl_act] in Hs.
  - destruct (accept _ _ _ _) as [[[sg|e] effects]|] eqn:Hacc; (eapply Hsame; [exact Hs| |done]); try by repeat constructor.
    destruct (accepted_effects _ _ _ _ _ _ Hacc) as (info & _ & _ & -> & _). by repeat constructor.
  - destruct (pl_calls s !! call) as [[|e rest]|]; (eapply Hsame; [exact Hs|done|]); [done| |done]. unfold deliver. destruct e; [by case_bool_decide|done].
  - destruct (pl_sending s), (pl_channel s); by eapply Hsame.
  - destruct (pl_sending s) as [info|]; [|by eapply Hsame]. specialize (Hall [info]). cbn [tpu_send_all] in Hall.
    destruct (tpu_send_transaction _ _) as [conns out]. injection Hs as <- <-. rewrite <- (app_nil_r out). by apply Hall.
  - destruct (pl_replaying s) as [[|] [|]], (pl_replays s); by eapply Hsame.
  - destruct (pl_replaying s) as [back l]. specialize (Hall l). destruct (tpu_send_all _ _) as [conns out]. injection Hs as <- <-. by apply Hall.
  - destruct ev; try (by eapply Hsame); (destruct (cache_step _ _) as [t' notes]; eapply Hsame; [exact Hs|apply notified_silent|done]).
  - destruct (update_quic_connections _ _ _ _ _ _) as [[[u|e] g]|]; [|eapply Hsame; [exact Hs|by repeat constructor|done]..].
    destruct (manage_load (pl_cache s) (pl_connections s) (pl_active s) u Hok) as [_ Hload]. destruct (manage _ _ _ _) as [conns active].
    injection Hs as <- <-. unfold passed_by. cbn [pl_connections fst] in *. destruct (Hload i) as [_ ->]. change (with_sig sig (written_by i [])) with 0. lia.
  - destruct (pl_connections s !! j) as [c|] eqn:Hj; [|by eapply Hsame]. destruct (conn_step _ _ _) as [[c' l]|] eqn:Hst; [|done].
    cbn [mbind outcome_bind fst snd] in Hs. injection Hs as <- <-.
    pose proof (conn_step_confirmed _ _ _ _ _ _ (confirmed_until_confirmed _ _ _ Hc) Hst) as H1.
    destruct (conn_outputs i j l) as (_ & _ & Ho). unfold written_by, passed_by. rewrite Ho. cbn [pl_set_connections pl_connections].
    destruct (decide (j = i)) as [<-|Hne].
    + rewrite list_lookup_insert_eq by (by eapply lookup_lt_Some). by rewrite Hj.
    + rewrite list_lookup_insert_ne by done. change (with_sig sig (written [])) with 0. lia.
Qed.

Lemma done_with_run L sig evs s s' out :
  done_with L sig s -> orun pl_step s evs = Done (s', out) -> Forall (pl_below L) evs ->
  (forall info replays, Accepted info replays ∈ out -> si_signature info <> sig) ->
  forall i, with_sig sig (written_by i out) + with_sig sig (passed_by i s') <= with_sig sig (passed_by i s).
Proof.
  revert s out. induction evs as [|ev evs IH]; intros s out Hd; cbn [orun].
  - intros [= <- <-] _ _ i. change (with_sig sig (written_by i [])) with 0. lia.
  - destruct (pl_step s ev) as [[s1 o1]|] eqn:Hs; [|done]. cbn [mbind outcome_bind]. destruct (orun pl_step s1 evs) as [[s2 o2]|] eqn:Hr; [|done].
    cbn. intros [= <- <-] [Hev Hevs]%Forall_cons Hno i. unfold pl_step in Hs. destruct (pl_ended s).
    { injection Hs as <- <-. by apply IH. }
    assert (done_with L sig s1) as Hd1.
    { destruct (done_with_cache L sig s ev s1 o1 Hd Hs Hev) as (? & ? & ?). destruct Hd as (Hok & _ & _ & _ & Hq).
      destruct (pl_act_account s ev Hok) as (s1' & o1' & Hs' & Hok' & _). rewrite Hs in Hs'. injection Hs' as <- <-. split_and!; try done.
      eapply quiet_step; [exact Hq|exact Hs|]. intros info rp Hx. eapply Hno, elem_of_app. by left. }
    pose proof (done_with_written L sig s ev s1 o1 i Hd Hs) as H1.
    assert (forall info replays, Accepted info replays ∈ o2 -> si_signature info <> sig) as Hno2.
    { intros info rp Hx. eapply Hno, elem_of_app. by right. }
    pose proof (IH s1 o2 Hd1 Hr Hevs Hno2 i) as H2. unfold written_by, written in *. rewrite conn_outs_app, omap_app, with_sig_app. lia.
Qed.

(** C5. Replays stop at confirmation.  Once the store has the status of a
    transaction seen in a block, a connection writes it to its leader only as
    often as it had decided to before, for the transactions that wait for a QUIC
    connection or are with a spawned task, and a connection started later never
    writes it: whatever replays are queued, however the tasks interleave, until
    a client submits it again or a finalized block above [L], at most the expiry
    in its entry, comes. *)
Theorem confirmed_not_resent (L : Z) (sig : Signature) (s : pipeline) (evs : list pl_event) (s' : pipeline) (out : list pl_output) :
  connections_ok s -> confirmed_until L sig (pl_cache s) -> ~ inserting sig (pl_tasks s) -> tasks_below L (pl_tasks s) -> quiet sig s ->
  orun pl_step s evs = Done (s', out) -> Forall (pl_below L) evs ->
  (forall info replays, Accepted info replays ∈ out -> si_signature info <> sig) ->
  forall i, with_sig sig (written_by i out) <= with_sig sig (passed_by i s).
Proof.
  intros Hok Hc Hi Hb Hq Hr He Hno i. pose proof (done_with_run L sig evs s s' out) as Hd.
  assert (done_with L sig s) as Hs by done. specialize (Hd Hs Hr He Hno i). assert (0 <= with_sig sig (passed_by i s')) by (unfold with_sig; lia). lia.
Qed.
End pipeline.

(** ** A sample server *)

Definition sample_getter : CalculatedSchedule * EpochSchedule :=
  (mkCalculatedSchedule (Some (sample_schedule 2 [10; 11; 12; 13; 14])) None, fixed_epoch_schedule 5).
Definition sample_server_cache : DataCache := set_nodes sample_cache {[ 12 := mkRpcContactInfo "12" None (Some (1, 8000)) ]}.
Definition sample_pipeline : pipeline (CalculatedSchedule * EpochSchedule) := pl_start sample_server_cache sample_getter.
Definition sample_sent : SentTransactionInfo := mkSentTransactionInfo 41 10 [41; 77] 308 0.

(** The configuration of the sample. *)
Definition sample_pl_step :=
  pl_step (S := CalculatedSchedule * EpochSchedule) sample_decode 3 (fun _ => None) (fun _ => 128) sample_service 10 16 None 1
    2000 (fun n => 2000 * n) (fun _ => None) "id" (fun _ => false) 5000.

(** A transaction is sent, and replayed while its connection is slow: the first
    copy is written, the second waits for a QUIC connection, a third is in the
    broadcast channel. *)
Definition sample_way : list pl_event :=
  [PlSlot 15 13; PlConn 0 CnListen; PlConn 0 CnFill; PlConn 0 CnConnect;
   PlCall 0 [41; 77] (Some 3); PlDeliver 0; PlDeliver 0; PlSenderStore; PlSenderSend;
   PlConn 0 CnFill; PlConn 0 CnFill; PlConn 0 CnFill; PlConn 0 CnSend; PlConn 0 CnSend; PlConn 0 CnSend; PlConn 0 (CnPooled true); PlConn 0 (CnFlight 0 true);
   PlReplayCheck 2000 2001; PlReplaySend;
   PlConn 0 CnFill; PlConn 0 CnFill; PlConn 0 CnFill; PlConn 0 CnSend; PlConn 0 CnSend; PlConn 0 CnSend; PlReplayCheck 4001 4002; PlReplaySend].

Definition run_outputs {S} (r : outcome (S * list pl_output)) : list pl_output :=
  match r with Done (_, out) => out | Panic => [] end.
Definition run_state {S} (s0 : S) (r : outcome (S * list pl_output)) : S :=
  match r with Done (s, _) => s | Panic => s0 end.

Lemma run_is_done {S} (s0 : S) (r : outcome (S * list pl_output)) :
  match r with Done _ => true | Panic => false end = true -> r = Done (run_state s0 r, run_outputs r).
Proof. by destruct r as [[]|]. Qed.

Lemma leaders_get_only_accepted_witness :
  exists s out, orun sample_pl_step sample_pipeline sample_way = Done (s, out) /\
    (forall i t, sends_of t (written_by i out) <= asked t out) /\
    (forall i t, t ∈ written_by i out ->
       exists evs1 now max_retries evs2 s1 out1 tx binfo,
         sample_way = evs1 ++ PlCall now (si_transaction t) max_retries :: evs2 /\
         orun sample_pl_step sample_pipeline evs1 = Done (s1, out1) /\
         sample_decode (si_transaction t) = Ok tx /\ head (vt_signatures tx) = Some (si_signature t) /\
         get_block_info (block_information_store (pl_cache s1)) (vm_recent_blockhash (vt_message tx)) = Some binfo /\
         get_last_blockheight (block_information_store (pl_cache s1)) <= binf_last_valid_blockheight binfo /\
         si_last_valid_block_height t = binf_last_valid_blockheight binfo) /\
    (forall raw_tx, CallPanicked raw_tx ∈ out -> exists tx, sample_decode raw_tx = Ok tx /\
       (vt_signatures tx = [] \/ Exists (fun ix => program_id (vm_account_keys (vt_message tx)) ix = Panic) (vm_instructions (vt_message tx)))).
Proof.
  apply (leaders_get_only_accepted sample_decode 3 (fun _ => None) (fun _ => 128) sample_service 10 16 None 1
    2000 (fun n => 2000 * n) (fun _ => None) "id" (fun _ => false) 5000). intros d. reflexivity.
Defined.


(** A block has the transaction, and its task has stored the status. *)
Definition sample_seen : list pl_event :=
  sample_way ++ PlTask (TkRecvBlock (sample_block cc_confirmed [sample_txinfo 41 None])) :: replicate 12 (PlTask TkBlockTask).
Definition sample_confirmed : pipeline (CalculatedSchedule * EpochSchedule) :=
  run_state sample_pipeline (orun sample_pl_step sample_pipeline sample_seen).

(** The copy that waited for a QUIC connection is written; the one in the
    broadcast channel and the next replay are not. *)
Definition sample_after : list pl_event :=
  [PlConn 0 (CnPooled true); PlConn 0 (CnFlight 0 true); PlConn 0 CnFill; PlReplayCheck 9000 9001; PlReplaySend; PlConn 0 CnFill].

Lemma sample_after_outputs :
  run_outputs (orun sample_pl_step sample_confirmed sample_after) = [Conn 0 (Written sample_sent); Conn 0 (Lost LossSettled sample_sent)].
Proof. vm_compute. reflexivity. Qed.

Lemma sample_connections_ok : connections_ok sample_confirmed.
Proof.
  destruct (pl_run_accounted sample_decode 3 (fun _ => None) (fun _ => 128) sample_service 10 16 None 1
    2000 (fun n => 2000 * n) (fun _ => None) "id" (fun _ => false) 5000 (fun _ => eq_refl) sample_server_cache sample_getter
    sample_seen) as (s & out & Hr & Hok & _).
  unfold sample_confirmed, sample_pl_step, sample_pipeline. by rewrite Hr.
Qed.

Lemma confirmed_not_resent_witness :
  with_sig 41 (written_by 0 (run_outputs (orun sample_pl_step sample_confirmed sample_after))) <= with_sig 41 (passed_by 0 sample_confirmed) /\
  with_sig 41 (passed_by 0 sample_confirmed) = 1.
Proof.
  split; [|vm_compute; reflexivity].
  apply (confirmed_not_resent sample_decode 3 (fun _ => None) (fun _ => 128) sample_service 10 16 None 1
    2000 (fun n => 2000 * n) (fun _ => None) "id" (fun _ => false) 5000 (fun _ => eq_refl) 308 41 sample_confirmed sample_after
    (run_state sample_pipeline (orun sample_pl_step sample_confirmed sample_after))).
  - apply sample_connections_ok.
  - exists (mkTxProps (Some (mkTransactionStatus 11 None (Ok tt) None (Some TcsConfirmed))) 308 true). vm_compute. split; [reflexivity|]. split; [eexists; reflexivity|discriminate].
  - vm_compute. intros Hi. exact Hi.
  - vm_compute. split; [discriminate|]. done.
  - assert (concat (pl_calls sample_confirmed) = [] /\ pl_channel sample_confirmed = []) as [E1 E2] by (vm_compute; auto).
    unfold quiet. rewrite E1, E2. clear. split; intros info Hx; by apply not_elem_of_nil in Hx.
  - apply run_is_done. vm_compute. reflexivity.
  - by repeat constructor.
  - rewrite sample_after_outputs. intros info replays Hx. clear - Hx. apply elem_of_cons in Hx as [Hx|Hx%list_elem_of_singleton]; discriminate.
Defined.
