(* ===== verification/AccountStore.v ===== *)
(** * The account store

    accounts/src/{inmemory_account_store,account_store_interface}.rs
    and core/src/structures/{account_data,account_filter}.rs.

    The store keeps, for each account, the data of every processed slot that is
    not finalized yet and the last confirmed and finalized data; slots are
    promoted as the cluster confirms them.  A second index lists the accounts
    of each owner. *)

From S2P Require Import Prelude BTreeMap Types.

(** ** Accounts and filters *)

(** The SDK's [Account]. *)
Record Account := mkAccount {
  acc_lamports : Z;
  acc_data : list Z;
  acc_owner : Pubkey;
  acc_executable : bool;
  acc_rent_epoch : Z;
}.

#[export] Instance Account_eq_dec : EqDecision Account.
Proof. solve_decision. Defined.

(** [AccountData], core/src/structures/account_data.rs:9-14. *)
Record AccountData := mkAccountData {
  ad_pubkey : Pubkey;
  ad_account : Account;
  ad_updated_slot : Slot;
}.

(** [AccountData::eq], core/src/structures/account_data.rs:29-35. *)
#[export] Instance AccountData_eq_dec : EqDecision AccountData.
Proof. solve_decision. Defined.

Definition ad_owner (d : AccountData) : Pubkey := acc_owner (ad_account d).

(** The RPC client's [MemcmpEncodedBytes], [Memcmp] and [RpcFilterType]. *)
Inductive MemcmpEncodedBytes :=
| MebBase58 (s : string)
| MebBase64 (s : string)
| MebBytes (b : list Z).

Record RpcMemcmp := mkRpcMemcmp { mc_offset : Z; mc_bytes : MemcmpEncodedBytes }.

Inductive RpcFilterType :=
| RfDataSize (size : Z)
| RfMemcmp (m : RpcMemcmp)
| RfTokenAccountState.

(** [AccountFilterType] with [MemcmpFilter] and [MemcmpFilterData],
    core/src/structures/account_filter.rs:5-26. *)
Inductive MemcmpFilterData :=
| MfBytes (b : list Z)
| MfBase58 (s : string)
| MfBase64 (s : string).

Record MemcmpFilter := mkMemcmpFilter { mf_offset : Z; mf_data : MemcmpFilterData }.

Inductive AccountFilterType :=
| AfDatasize (size : Z)
| AfMemcmp (m : MemcmpFilter)
| AfTokenAccountState.

(** [AccountFilter], core/src/structures/account_filter.rs:28-34. *)
Record AccountFilter := mkAccountFilter {
  af_accounts : list string;
  af_program_id : option string;
  af_filters : option (list AccountFilterType);
}.

#[export] Instance MemcmpFilterData_eq_dec : EqDecision MemcmpFilterData.
Proof. solve_decision. Defined.
#[export] Instance MemcmpFilter_eq_dec : EqDecision MemcmpFilter.
Proof. solve_decision. Defined.
#[export] Instance AccountFilterType_eq_dec : EqDecision AccountFilterType.
Proof. solve_decision. Defined.
#[export] Instance AccountFilter_eq_dec : EqDecision AccountFilter.
Proof. solve_decision. Defined.

(** One filter of [AccountFilter::get_rpc_filter], core/src/structures/account_filter.rs:41-58. *)
Definition rpc_filter_of (f : AccountFilterType) : RpcFilterType :=
  match f with
  | AfDatasize size => RfDataSize size
  | AfMemcmp m =>
      let encoded := match mf_data m with
                     | MfBytes b => MebBytes b
                     | MfBase58 s => MebBase58 s
                     | MfBase64 s => MebBase64 s
                     end in
      RfMemcmp (mkRpcMemcmp (mf_offset m) encoded)
  | AfTokenAccountState => RfTokenAccountState
  end.

(** [AccountFilter::get_rpc_filter], core/src/structures/account_filter.rs:36-62. *)
Definition get_rpc_filter (f : AccountFilter) : option (list RpcFilterType) :=
  match af_filters f with Some filters => Some (rpc_filter_of <$> filters) | None => None end.

Section filters.
(** [Memcmp::bytes] (decoding) and [Memcmp::bytes_match] of the RPC client. *)
Context (memcmp_bytes : RpcMemcmp -> option (list Z)).
Context (bytes_match : RpcMemcmp -> list Z -> bool).

(** [AccountFilterType::from], core/src/structures/account_filter.rs:64-80. *)
Definition filter_type_from (f : RpcFilterType) : AccountFilterType :=
  match f with
  | RfDataSize size => AfDatasize size
  | RfMemcmp m => AfMemcmp (mkMemcmpFilter (mc_offset m) (MfBytes (default [] (memcmp_bytes m))))
  | RfTokenAccountState => AfTokenAccountState
  end.

(** [AccountData::allows], core/src/structures/account_data.rs:17-26. *)
Definition allows (d : AccountData) (f : RpcFilterType) : bool :=
  match f with
  | RfDataSize size => Z.of_nat (length (acc_data (ad_account d))) =? size
  | RfMemcmp m => bytes_match m (acc_data (ad_account d))
  | RfTokenAccountState => false
  end.
End filters.

(** [AccountNotificationMessage], core/src/structures/account_data.rs:37-41. *)
Record AccountNotificationMessage := mkAccountNotification {
  an_data : AccountData;
  an_commitment : Commitment;
}.

(** [AccountLoadingError], accounts/src/account_store_interface.rs:8-13. *)
Inductive AccountLoadingError :=
| AccountNotFound
| ConfigDoesnotContainRequiredFilters
| OperationTimeOut.

(** ** One account *)

(** [AccountDataByCommitment], accounts/src/inmemory_account_store.rs:21-28. *)
Record AccountDataByCommitment := mkByCommitment {
  abc_pubkey : Pubkey;
  abc_processed_accounts : list (Z * AccountData);
  abc_confirmed_account : option AccountData;
  abc_finalized_account : option AccountData;
}.

(** [AccountDataByCommitment::get_account_data], accounts/src/inmemory_account_store.rs:31-42. *)
Definition get_account_data (a : AccountDataByCommitment) (c : Commitment) : option AccountData :=
  match c with
  | Processed =>
      match bt_last (abc_processed_accounts a) with
      | Some (_, v) => Some v
      | None => abc_confirmed_account a
      end
  | Confirmed => abc_confirmed_account a
  | Finalized => abc_finalized_account a
  end.

(** [AccountDataByCommitment::new], accounts/src/inmemory_account_store.rs:44-64. *)
Definition abc_new (data : AccountData) (c : Commitment) : AccountDataByCommitment :=
  mkByCommitment (ad_pubkey data)
    (bt_insert (ad_updated_slot data) data [])
    (if bool_decide (c = Confirmed) || bool_decide (c = Finalized) then Some data else None)
    (if bool_decide (c = Finalized) then Some data else None).

(** [AccountDataByCommitment::initialize], accounts/src/inmemory_account_store.rs:66-77. *)
Definition abc_initialize (data : AccountData) : AccountDataByCommitment :=
  mkByCommitment (ad_pubkey data) (bt_insert (ad_updated_slot data) data []) (Some data) (Some data).

Definition older_than (o : option AccountData) (data : AccountData) : bool :=
  match o with Some x => ad_updated_slot x <? ad_updated_slot data | None => true end.

(** [AccountDataByCommitment::update], accounts/src/inmemory_account_store.rs:79-125. *)
Definition abc_update (a : AccountDataByCommitment) (data : AccountData) (c : Commitment) :
    bool * AccountDataByCommitment :=
  let update_confirmed := older_than (abc_confirmed_account a) data in
  let update_finalized := older_than (abc_finalized_account a) data in
  let vacant := negb (bt_contains (ad_updated_slot data) (abc_processed_accounts a)) in
  let processed := if vacant then bt_insert (ad_updated_slot data) data (abc_processed_accounts a)
                   else abc_processed_accounts a in
  match c with
  | Confirmed =>
      (vacant || update_confirmed,
       mkByCommitment (abc_pubkey a) processed
         (if update_confirmed then Some data else abc_confirmed_account a) (abc_finalized_account a))
  | Finalized =>
      (vacant || update_confirmed || update_finalized,
       mkByCommitment (abc_pubkey a) processed
         (if update_confirmed then Some data else abc_confirmed_account a)
         (if update_finalized then Some data else abc_finalized_account a))
  | Processed =>
      (vacant, mkByCommitment (abc_pubkey a) processed (abc_confirmed_account a) (abc_finalized_account a))
  end.

(** The loop that drops finalized slots, always leaving one entry:
    [promote_slot_commitment], accounts/src/inmemory_account_store.rs:156-165. *)
Fixpoint pop_processed (slot : Slot) (m : list (Z * AccountData)) : list (Z * AccountData) :=
  match m with
  | (s, _) :: ((_ :: _) as m') => if s <=? slot then pop_processed slot m' else m
  | _ => m
  end.

Definition slot_or_default (o : option AccountData) : Slot :=
  match o with Some d => ad_updated_slot d | None => 0 end.

(** [AccountDataByCommitment::promote_slot_commitment],
    accounts/src/inmemory_account_store.rs:127-200. *)
Definition promote_slot_commitment (a : AccountDataByCommitment) (slot : Slot) (c : Commitment) :
    option (AccountData * option AccountData) * AccountDataByCommitment :=
  match bt_get slot (abc_processed_accounts a) with
  | Some account_data =>
      match c with
      | Processed => (None, a)
      | Confirmed =>
          if slot_or_default (abc_confirmed_account a) <? slot then
            (Some (account_data, abc_confirmed_account a),
             mkByCommitment (abc_pubkey a) (abc_processed_accounts a) (Some account_data)
               (abc_finalized_account a))
          else (None, a)
      | Finalized =>
          let processed := pop_processed slot (abc_processed_accounts a) in
          if slot_or_default (abc_finalized_account a) <? slot then
            (Some (account_data, abc_finalized_account a),
             mkByCommitment (abc_pubkey a) processed (abc_confirmed_account a) (Some account_data))
          else (None, mkByCommitment (abc_pubkey a) processed (abc_confirmed_account a)
                        (abc_finalized_account a))
      end
  | None =>
      if bool_decide (c = Finalized) then
        (None, mkByCommitment (abc_pubkey a) (pop_processed slot (abc_processed_accounts a))
                 (abc_confirmed_account a) (abc_finalized_account a))
      else (None, a)
  end.

(** ** The store *)

(** [InmemoryAccountStore], accounts/src/inmemory_account_store.rs:203-207. *)
Record InmemoryAccountStore := mkAccountStore {
  account_store : gmap Pubkey AccountDataByCommitment;
  confirmed_slots_map : gset Slot;
  accounts_by_owner : gmap Pubkey (gset Pubkey);
}.

(** [InmemoryAccountStore::new], accounts/src/inmemory_account_store.rs:210-216. *)
Definition account_store_new : InmemoryAccountStore := mkAccountStore ∅ ∅ ∅.

(** [InmemoryAccountStore::add_account_owner], accounts/src/inmemory_account_store.rs:218-229. *)
Definition add_account_owner (idx : gmap Pubkey (gset Pubkey)) (account owner : Pubkey) :
    gmap Pubkey (gset Pubkey) :=
  match idx !! owner with
  | Some set => <[owner := {[account]} ∪ set]> idx
  | None => <[owner := {[account]}]> idx
  end.

(** [InmemoryAccountStore::update_owner], accounts/src/inmemory_account_store.rs:231-256. *)
Definition update_owner (idx : gmap Pubkey (gset Pubkey)) (prev new : AccountData) (c : Commitment) :
    outcome (gmap Pubkey (gset Pubkey)) :=
  if decide (ad_pubkey prev = ad_pubkey new) then
    if decide (ad_owner prev <> ad_owner new) then
      let idx1 := if decide (c = Finalized) then
                    match idx !! ad_owner prev with
                    | Some set => <[ad_owner prev := set ∖ {[ad_pubkey prev]}]> idx
                    | None => idx
                    end
                  else idx in
      Done (add_account_owner idx1 (ad_pubkey new) (ad_owner new))
    else Done idx
  else Panic.

(** The first half of [update_account], accounts/src/inmemory_account_store.rs:261-272:
    the look at the confirmed slots. *)
Definition effective_commitment (confirmed : gset Slot) (slot : Slot) (c : Commitment) : Commitment :=
  match c with
  | Processed => if decide (slot ∈ confirmed) then Confirmed else Processed
  | _ => c
  end.

(** The second half of [update_account], accounts/src/inmemory_account_store.rs:274-298:
    the update under the lock of the account's entry. *)
Definition store_update_entry (s : InmemoryAccountStore) (data : AccountData) (c : Commitment) :
    outcome (bool * InmemoryAccountStore) :=
  match account_store s !! ad_pubkey data with
  | Some occ =>
      let prev_account := get_account_data occ c in
      let '(updated, occ') := abc_update occ data c in
      let store' := <[ad_pubkey data := occ']> (account_store s) in
      if updated then
        idx ← match prev_account with
              | Some prev => update_owner (accounts_by_owner s) prev data c
              | None => Done (accounts_by_owner s)
              end;
        Done (true, mkAccountStore store' (confirmed_slots_map s) idx)
      else Done (false, mkAccountStore store' (confirmed_slots_map s) (accounts_by_owner s))
  | None =>
      Done (true, mkAccountStore (<[ad_pubkey data := abc_new data c]> (account_store s))
                    (confirmed_slots_map s)
                    (add_account_owner (accounts_by_owner s) (ad_pubkey data) (ad_owner data)))
  end.

(** [InmemoryAccountStore::update_account], accounts/src/inmemory_account_store.rs:261-298. *)
Definition update_account (s : InmemoryAccountStore) (data : AccountData) (c : Commitment) :
    outcome (bool * InmemoryAccountStore) :=
  store_update_entry s data (effective_commitment (confirmed_slots_map s) (ad_updated_slot data) c).

(** [InmemoryAccountStore::initilize_or_update_account],
    accounts/src/inmemory_account_store.rs:300-316. *)
Definition initilize_or_update_account (s : InmemoryAccountStore) (data : AccountData) :
    outcome InmemoryAccountStore :=
  match account_store s !! ad_pubkey data with
  | Some _ => snd <$> update_account s data Finalized
  | None =>
      Done (mkAccountStore (<[ad_pubkey data := abc_initialize data]> (account_store s))
              (confirmed_slots_map s)
              (add_account_owner (accounts_by_owner s) (ad_pubkey data) (ad_owner data)))
  end.

(** [InmemoryAccountStore::get_account], accounts/src/inmemory_account_store.rs:318-328. *)
Definition store_get_account (s : InmemoryAccountStore) (pk : Pubkey) (c : Commitment) :
    result AccountLoadingError (option AccountData) :=
  match account_store s !! pk with
  | Some a => Ok (get_account_data a c)
  | None => Ok None
  end.

(** [InmemoryAccountStore::get_program_accounts], accounts/src/inmemory_account_store.rs:330-360. *)
Definition store_get_program_accounts (bytes_match : RpcMemcmp -> list Z -> bool)
    (s : InmemoryAccountStore) (program : Pubkey) (filters : option (list RpcFilterType))
    (c : Commitment) : option (list AccountData) :=
  match accounts_by_owner s !! program with
  | Some program_accounts =>
      Some (omap (fun pk =>
        match store_get_account s pk c with
        | Ok (Some d) =>
            if decide (ad_owner d = program) then
              match filters with
              | Some fs => if forallb (allows bytes_match d) fs then Some d else None
              | None => Some d
              end
            else None
        | _ => None
        end) (elements program_accounts))
  | None => None
  end.

(** The set of confirmed slots after
    [process_slot_data], accounts/src/inmemory_account_store.rs:363-386. *)
Definition confirm_slot (confirmed : gset Slot) (slot : Slot) (c : Commitment) : option (gset Slot) :=
  match c with
  | Confirmed => Some ({[slot]} ∪ confirmed)
  | Finalized => Some (confirmed ∖ {[slot]})
  | Processed => None
  end.

(** The owners of the promoted accounts:
    [process_slot_data], accounts/src/inmemory_account_store.rs:393-402. *)
Fixpoint update_owners (idx : gmap Pubkey (gset Pubkey))
    (l : list (AccountData * option AccountData)) (c : Commitment) : outcome (gmap Pubkey (gset Pubkey)) :=
  match l with
  | [] => Done idx
  | (data, Some prev) :: l' =>
      if decide (ad_owner prev <> ad_owner data) then
        idx' ← update_owner idx prev data c; update_owners idx' l' c
      else update_owners idx l' c
  | (_, None) :: l' => update_owners idx l' c
  end.

(** The second part of [process_slot_data], accounts/src/inmemory_account_store.rs:387-426:
    promote every account, in the order of the map's iterator, and update the
    owners. *)
Definition promote_all (s : InmemoryAccountStore) (slot : Slot) (c : Commitment) :
    outcome (list AccountData * InmemoryAccountStore) :=
  let updated := omap (fun kv => (promote_slot_commitment kv.2 slot c).1) (map_to_list (account_store s)) in
  let store' := (fun a => (promote_slot_commitment a slot c).2) <$> account_store s in
  idx ← update_owners (accounts_by_owner s) updated c;
  Done (omap (fun '(data, prev) =>
          match prev with
          | Some p => if decide (p <> data) then Some data else None
          | None => Some data
          end) updated,
        mkAccountStore store' (confirmed_slots_map s) idx).

(** [InmemoryAccountStore::process_slot_data], accounts/src/inmemory_account_store.rs:362-427. *)
Definition process_slot_data (s : InmemoryAccountStore) (slot : Slot) (c : Commitment) :
    outcome (list AccountData * InmemoryAccountStore) :=
  match confirm_slot (confirmed_slots_map s) slot c with
  | Some confirmed => promote_all (mkAccountStore (account_store s) confirmed (accounts_by_owner s)) slot c
  | None => Done ([], s)
  end.

(** ** Invariants *)

(** Data of a commitment level is at least as recent as a slot; one level is
    at least as recent as another. *)
Definition slot_at_least (o : option AccountData) (n : Slot) : Prop :=
  match o with Some d => n <= ad_updated_slot d | None => False end.

Definition slot_le (o1 o2 : option AccountData) : Prop :=
  match o1 with Some d => slot_at_least o2 (ad_updated_slot d) | None => True end.

#[export] Instance slot_le_preorder : PreOrder slot_le.
Proof.
  split.
  - intros [d|]; simpl; [lia|done].
  - intros [d1|] [d2|] [d3|]; simpl; try done. lia.
Qed.

Lemma slot_at_least_le o1 o2 n : slot_at_least o1 n -> slot_le o1 o2 -> slot_at_least o2 n.
Proof. destruct o1 as [d1|], o2 as [d2|]; simpl; try done. lia. Qed.

(** An entry holds data of its own account, the processed data by slot, and
    at least one processed slot. *)
Definition abc_wf (pk : Pubkey) (a : AccountDataByCommitment) : Prop :=
  abc_pubkey a = pk /\ bt_wf (abc_processed_accounts a) /\ abc_processed_accounts a <> [] /\
  Forall (fun e => ad_updated_slot e.2 = e.1 /\ ad_pubkey e.2 = pk) (abc_processed_accounts a) /\
  (forall d, abc_confirmed_account a = Some d -> ad_pubkey d = pk) /\
  (forall d, abc_finalized_account a = Some d -> ad_pubkey d = pk).

(** *** One account *)

Lemma processed_last pk a :
  abc_wf pk a -> exists k d, bt_last (abc_processed_accounts a) = Some (k, d) /\
    ad_updated_slot d = k /\ ad_pubkey d = pk.
Proof.
  intros (_ & _ & Hne & Hall & _). destruct (bt_last (abc_processed_accounts a)) as [[k d]|] eqn:Hl.
  - exists k, d. apply bt_last_snoc in Hl as [m' Hm]. rewrite Hm, Forall_app in Hall.
    destruct Hall as [_ [Hd _]%Forall_cons]. by destruct Hd.
  - by apply last_None in Hl.
Qed.

Lemma bt_last_insert {V} k (v : V) m :
  bt_wf m -> exists k' v', bt_last (bt_insert k v m) = Some (k', v') /\ k <= k' /\
    forall j, j ∈ m.*1 -> j <= k'.
Proof.
  intros Hwf. destruct (bt_last (bt_insert k v m)) as [[k' v']|] eqn:Hl.
  - exists k', v'. split; [done|].
    split; [|intros j Hj]; (eapply bt_last_greatest; [by apply bt_wf_insert|done|]);
      apply bt_insert_keys; auto.
  - apply last_None in Hl. destruct m as [|[k0 v0] m]; simpl in Hl; [done|].
    destruct (k <? k0), (k =? k0); done.
Qed.

Lemma bt_last_key {V} (m : list (Z * V)) k v : bt_last m = Some (k, v) -> k ∈ m.*1.
Proof. intros (m' & ->)%bt_last_snoc. rewrite fmap_app. set_solver. Qed.

Lemma pop_processed_last slot m : bt_last (pop_processed slot m) = bt_last m.
Proof.
  induction m as [|[s d] [|e m] IH]; [done..|].
  change (pop_processed slot ((s, d) :: e :: m))
    with (if s <=? slot then pop_processed slot (e :: m) else (s, d) :: e :: m).
  destruct (s <=? slot); [|done]. by rewrite IH.
Qed.

Lemma pop_processed_sublist slot m : pop_processed slot m `sublist_of` m.
Proof.
  induction m as [|[s d] [|e m] IH]; [done..|].
  change (pop_processed slot ((s, d) :: e :: m))
    with (if s <=? slot then pop_processed slot (e :: m) else (s, d) :: e :: m).
  destruct (s <=? slot); [|done]. by constructor.
Qed.

Lemma pop_processed_wf pk a slot con fin :
  abc_wf pk a ->
  (forall d, con = Some d -> ad_pubkey d = pk) -> (forall d, fin = Some d -> ad_pubkey d = pk) ->
  abc_wf pk (mkByCommitment (abc_pubkey a) (pop_processed slot (abc_processed_accounts a)) con fin).
Proof.
  intros Hwf Hc Hf. destruct (processed_last pk a Hwf) as (k & d & Hl & _).
  destruct Hwf as (Hp & Hb & Hne & Hall & _).
  split_and!; simpl; [done|by eapply bt_wf_sublist; [apply pop_processed_sublist|]| | |done..].
  - intros He. rewrite <- (pop_processed_last slot), He in Hl. done.
  - eapply Forall_sublist; [apply pop_processed_sublist|done].
Qed.

Lemma get_processed pk a slot d :
  abc_wf pk a -> bt_get slot (abc_processed_accounts a) = Some d ->
  ad_updated_slot d = slot /\ ad_pubkey d = pk.
Proof.
  intros (_ & _ & _ & Hall & _) Hg. apply bt_get_elem_1 in Hg.
  rewrite Forall_forall in Hall. by apply (Hall _ Hg).
Qed.

Lemma view_pubkey pk a c d : abc_wf pk a -> get_account_data a c = Some d -> ad_pubkey d = pk.
Proof.
  intros Hwf. destruct (processed_last pk a Hwf) as (k & d' & Hl & _ & Hd').
  destruct Hwf as (_ & _ & _ & _ & Hc & Hf). destruct c; simpl; [|by auto..].
  rewrite Hl. by intros [= <-].
Qed.

Lemma abc_single_wf d con fin :
  (forall x, con = Some x -> x = d) -> (forall x, fin = Some x -> x = d) ->
  abc_wf (ad_pubkey d) (mkByCommitment (ad_pubkey d) (bt_insert (ad_updated_slot d) d []) con fin).
Proof.
  intros Hc Hf. split_and!; simpl; [done|repeat constructor|done|by repeat constructor| |];
    intros x Hx; [by rewrite (Hc x)|by rewrite (Hf x)].
Qed.

Lemma abc_new_wf d c : abc_wf (ad_pubkey d) (abc_new d c).
Proof. apply abc_single_wf; intros x; destruct c; simpl; by intros [= <-]. Qed.

Lemma abc_initialize_wf d : abc_wf (ad_pubkey d) (abc_initialize d).
Proof. apply abc_single_wf; by intros x [= <-]. Qed.

(** *** Updating an entry *)

Definition with_processed (d : AccountData) (m : list (Z * AccountData)) : list (Z * AccountData) :=
  if negb (bt_contains (ad_updated_slot d) m) then bt_insert (ad_updated_slot d) d m else m.

Lemma with_processed_wf d m : bt_wf m -> bt_wf (with_processed d m).
Proof. unfold with_processed. destruct (negb _); auto with literpc. Qed.

Lemma with_processed_elem d m e : bt_wf m -> e ∈ with_processed d m -> e = (ad_updated_slot d, d) \/ e ∈ m.
Proof.
  unfold with_processed, bt_contains. intros Hwf.
  case_bool_decide as Hc; simpl; [by right|]. rewrite <- eq_None_not_Some in Hc.
  destruct (bt_insert_split_fresh _ d m Hwf Hc) as (m1 & m2 & -> & -> & _). set_solver.
Qed.

(** The last processed entry only moves forward and reaches the new slot. *)
Lemma with_processed_last d m k v :
  bt_wf m -> bt_last m = Some (k, v) ->
  exists k' v', bt_last (with_processed d m) = Some (k', v') /\ k <= k' /\ ad_updated_slot d <= k'.
Proof.
  intros Hwf Hl. unfold with_processed, bt_contains. case_bool_decide as Hc; simpl.
  - exists k, v. split_and!; [done..|]. destruct Hc as [x Hx%bt_get_elem_1].
    eapply bt_last_greatest; [done..|]. apply list_elem_of_fmap. by exists (ad_updated_slot d, x).
  - destruct (bt_last_insert (ad_updated_slot d) d m Hwf) as (k' & v' & -> & Hk & Hall).
    exists k', v'. split_and!; [done| |done]. apply Hall. by eapply bt_last_key.
Qed.

Lemma abc_update_proj a d c :
  abc_processed_accounts (abc_update a d c).2 = with_processed d (abc_processed_accounts a) /\
  abc_pubkey (abc_update a d c).2 = abc_pubkey a /\
  abc_confirmed_account (abc_update a d c).2 =
    (if older_than (abc_confirmed_account a) d && negb (bool_decide (c = Processed))
     then Some d else abc_confirmed_account a) /\
  abc_finalized_account (abc_update a d c).2 =
    (if older_than (abc_finalized_account a) d && bool_decide (c = Finalized)
     then Some d else abc_finalized_account a).
Proof.
  unfold abc_update, with_processed.
  destruct c; simpl; rewrite ?andb_true_r, ?andb_false_r; done.
Qed.

Lemma if_Some {A} (b : bool) (x y : A) o : (if b then Some y else o) = Some x -> x = y \/ o = Some x.
Proof. destruct b; [intros [= <-]|]; auto. Qed.

Lemma abc_update_wf a d c : abc_wf (ad_pubkey d) a -> abc_wf (ad_pubkey d) (abc_update a d c).2.
Proof.
  intros Hwf. destruct (processed_last _ a Hwf) as (k & v & Hl & _).
  destruct Hwf as (Hp & Hb & Hne & Hall & Hc & Hf).
  destruct (abc_update_proj a d c) as (E1 & E2 & E3 & E4).
  destruct (with_processed_last d _ _ _ Hb Hl) as (k' & v' & Hl' & _).
  split_and!; rewrite ?E1, ?E2, ?E3, ?E4; [done| | | | |].
  - by apply with_processed_wf.
  - intros He. by rewrite He in Hl'.
  - apply Forall_forall. intros e He. rewrite Forall_forall in Hall.
    destruct (with_processed_elem d _ e Hb He) as [->|He']; auto.
  - intros x [->|Hx]%if_Some; auto.
  - intros x [->|Hx]%if_Some; auto.
Qed.

Lemma older_than_le o d b : slot_le o (if older_than o d && b then Some d else o).
Proof.
  destruct o as [x|]; simpl; [|done]. destruct (_ <? _) eqn:E, b; simpl; bool_lia.
Qed.

Lemma older_than_reaches o d : slot_at_least (if older_than o d then Some d else o) (ad_updated_slot d).
Proof. destruct o as [x|]; simpl; [|lia]. destruct (_ <? _) eqn:E; simpl; bool_lia. Qed.

Lemma processed_view_update pk a d c :
  abc_wf pk a -> ad_pubkey d = pk ->
  slot_le (get_account_data a Processed) (get_account_data (abc_update a d c).2 Processed) /\
  slot_at_least (get_account_data (abc_update a d c).2 Processed) (ad_updated_slot d).
Proof.
  intros Hwf Hpk. subst pk. pose proof (abc_update_wf a d c Hwf) as Hwf'.
  destruct (processed_last _ a Hwf) as (k & v & Hl & Hv & _).
  destruct (processed_last _ _ Hwf') as (k' & v' & Hl' & Hv' & _).
  destruct Hwf as (_ & Hb & _). destruct (abc_update_proj a d c) as (E1 & _).
  destruct (with_processed_last d _ _ _ Hb Hl) as (k2 & v2 & Hl2 & H1 & H2).
  rewrite E1, Hl2 in Hl'. simplify_eq. cbn [get_account_data]. rewrite E1, Hl, Hl2. simpl. lia.
Qed.

Lemma abc_update_mono pk a d c c' :
  abc_wf pk a -> ad_pubkey d = pk ->
  slot_le (get_account_data a c') (get_account_data (abc_update a d c).2 c').
Proof.
  intros Hwf Hpk. destruct (abc_update_proj a d c) as (_ & _ & E3 & E4).
  destruct c'; [by eapply processed_view_update| |]; cbn [get_account_data]; rewrite ?E3, ?E4.
  - apply older_than_le.
  - apply older_than_le.
Qed.

Lemma abc_update_reaches pk a d c c' :
  abc_wf pk a -> ad_pubkey d = pk -> commitment_rank c' <= commitment_rank c ->
  slot_at_least (get_account_data (abc_update a d c).2 c') (ad_updated_slot d).
Proof.
  intros Hwf Hpk Hr. destruct (abc_update_proj a d c) as (_ & _ & E3 & E4).
  destruct c'; [by eapply processed_view_update| |]; cbn [get_account_data]; rewrite ?E3, ?E4;
    destruct c; simpl in Hr; try lia; simpl; rewrite ?andb_true_r; apply older_than_reaches.
Qed.

Lemma abc_new_reaches d c c' :
  commitment_rank c' <= commitment_rank c -> slot_at_least (get_account_data (abc_new d c) c') (ad_updated_slot d).
Proof. destruct c, c'; simpl; lia. Qed.

(** *** Promoting a slot *)

Lemma promote_wf pk a slot c : abc_wf pk a -> abc_wf pk (promote_slot_commitment a slot c).2.
Proof.
  intros Hwf. pose proof Hwf as (Hp & Hb & Hne & Hall & Hc & Hf). unfold promote_slot_commitment.
  destruct (bt_get slot _) as [d|] eqn:Hg.
  - destruct (get_processed _ _ _ _ Hwf Hg) as [_ Hd]. destruct c; [done| |].
    + destruct (_ <? _); [|done]. split_and!; simpl; try done. by intros ? [= <-].
    + destruct (_ <? _); apply pop_processed_wf; simpl; try done. by intros ? [= <-].
  - case_bool_decide; [|done]. by apply pop_processed_wf.
Qed.

Lemma slot_or_default_le o d slot :
  slot_or_default o < slot -> ad_updated_slot d = slot -> slot_le o (Some d).
Proof. destruct o; simpl; lia. Qed.

Lemma promote_mono pk a slot c c' :
  abc_wf pk a ->
  slot_le (get_account_data a c') (get_account_data (promote_slot_commitment a slot c).2 c').
Proof.
  intros Hwf. destruct (processed_last _ a Hwf) as (k & v & Hl & _).
  assert (forall con fin, get_account_data
    (mkByCommitment (abc_pubkey a) (pop_processed slot (abc_processed_accounts a)) con fin) Processed =
    get_account_data a Processed) as Hpop.
  { intros. cbn [get_account_data abc_processed_accounts]. by rewrite pop_processed_last, Hl. }
  unfold promote_slot_commitment. destruct (bt_get slot _) as [d|] eqn:Hg.
  - destruct (get_processed _ _ _ _ Hwf Hg) as [Hd _]. destruct c; [done| |];
      (destruct (_ <? _) eqn:E; bool_lia); cbn [snd]; destruct c'; rewrite ?Hpop; try done;
      cbn [get_account_data abc_processed_accounts abc_confirmed_account abc_finalized_account];
      rewrite ?Hl; try done; by eapply slot_or_default_le.
  - case_bool_decide; [|done]. cbn [snd]. destruct c'; rewrite ?Hpop; done.
Qed.

(** A slot whose data is known reaches the level it is promoted to. *)
Lemma promote_reaches pk a slot c :
  abc_wf pk a -> 0 < slot -> c <> Processed -> is_Some (bt_get slot (abc_processed_accounts a)) ->
  slot_at_least (get_account_data (promote_slot_commitment a slot c).2 c) slot.
Proof.
  intros Hwf Hs Hc [d Hg]. destruct (get_processed _ _ _ _ Hwf Hg) as [Hd _].
  unfold promote_slot_commitment. rewrite Hg.
  destruct c; [done|..]; (destruct (_ <? _) eqn:E; bool_lia); simpl; try lia.
  - destruct (abc_confirmed_account a); simpl in *; lia.
  - destruct (abc_finalized_account a); simpl in *; lia.
Qed.

Lemma promote_pubkeys pk a slot c d prev :
  abc_wf pk a -> (promote_slot_commitment a slot c).1 = Some (d, prev) ->
  ad_pubkey d = pk /\ forall p, prev = Some p -> ad_pubkey p = pk.
Proof.
  intros Hwf. pose proof Hwf as (_ & _ & _ & _ & Hc & Hf). unfold promote_slot_commitment.
  destruct (bt_get slot _) as [d'|] eqn:Hg; [|by case_bool_decide].
  destruct (get_processed _ _ _ _ Hwf Hg) as [_ Hd].
  destruct c; [done|..]; (destruct (_ <? _); [|done]); intros [= <- <-]; auto.
Qed.

(** *** The store *)

Definition view (s : InmemoryAccountStore) (pk : Pubkey) (c : Commitment) : option AccountData :=
  a ← account_store s !! pk; get_account_data a c.

Definition store_inv (s : InmemoryAccountStore) : Prop := map_Forall abc_wf (account_store s).

Definition store_le (s1 s2 : InmemoryAccountStore) : Prop :=
  forall pk c, slot_le (view s1 pk c) (view s2 pk c).

#[export] Instance store_le_preorder : PreOrder store_le.
Proof.
  split; [by intros s pk c|]. intros s1 s2 s3 H1 H2 pk c.
  by transitivity (view s2 pk c).
Qed.

Lemma update_owner_total idx prev new c :
  ad_pubkey prev = ad_pubkey new -> exists idx', update_owner idx prev new c = Done idx'.
Proof. intros H. unfold update_owner. rewrite decide_True by done. case_decide; eauto. Qed.

(** Replacing one entry by a more recent one. *)
Lemma store_put_ok s pk a conf idx :
  store_inv s -> abc_wf pk a ->
  (forall a0 c, account_store s !! pk = Some a0 -> slot_le (get_account_data a0 c) (get_account_data a c)) ->
  let s' := mkAccountStore (<[pk := a]> (account_store s)) conf idx in
  store_inv s' /\ store_le s s'.
Proof.
  intros Hi Ha Hle. split; [by apply map_Forall_insert_2|].
  intros pk' c. unfold view. simpl. destruct (decide (pk' = pk)) as [->|Hne].
  - rewrite lookup_insert_eq. simpl. destruct (account_store s !! pk) as [a0|] eqn:E; simpl; auto.
  - by rewrite lookup_insert_ne.
Qed.

Lemma store_update_entry_ok s d c :
  store_inv s ->
  exists b s', store_update_entry s d c = Done (b, s') /\ store_inv s' /\ store_le s s' /\
    confirmed_slots_map s' = confirmed_slots_map s /\
    (exists a', account_store s' = <[ad_pubkey d := a']> (account_store s) /\
       a' = match account_store s !! ad_pubkey d with
            | Some a => (abc_update a d c).2
            | None => abc_new d c
            end).
Proof.
  intros Hi. unfold store_update_entry. destruct (account_store s !! ad_pubkey d) as [a|] eqn:Ha.
  - pose proof (Hi _ _ Ha) as Hwf. pose proof (abc_update_wf a d c Hwf) as Hwf'.
    pose proof (fun c' => abc_update_mono _ a d c c' Hwf eq_refl) as Hle.
    destruct (abc_update a d c) as [[] a'] eqn:E; cbn [fst snd] in *.
    + assert (exists idx, match get_account_data a c with
                 | Some prev => update_owner (accounts_by_owner s) prev d c
                 | None => Done (accounts_by_owner s) end = Done idx) as [idx ->].
      { destruct (get_account_data a c) eqn:Hg; [|eauto].
        apply update_owner_total. exact (view_pubkey _ _ _ _ Hwf Hg). }
      simpl. destruct (store_put_ok s (ad_pubkey d) a' (confirmed_slots_map s) idx Hi Hwf') as [??];
        [intros; simplify_eq; auto|]. eauto 12.
    + destruct (store_put_ok s (ad_pubkey d) a' (confirmed_slots_map s) (accounts_by_owner s) Hi Hwf')
        as [??]; [intros; simplify_eq; auto|]. eauto 12.
  - destruct (store_put_ok s (ad_pubkey d) (abc_new d c) (confirmed_slots_map s)
      (add_account_owner (accounts_by_owner s) (ad_pubkey d) (ad_owner d)) Hi (abc_new_wf d c)) as [??];
      [intros; simplify_eq|]. eauto 12.
Qed.

Lemma store_update_reaches s d c c' b s' :
  store_inv s -> store_update_entry s d c = Done (b, s') ->
  commitment_rank c' <= commitment_rank c -> slot_at_least (view s' (ad_pubkey d) c') (ad_updated_slot d).
Proof.
  intros Hi Hu Hr. destruct (store_update_entry_ok s d c Hi) as (b' & s'' & Hu' & _ & _ & _ & a' & Hs & Ha).
  rewrite Hu' in Hu. simplify_eq. unfold view. rewrite Hs, lookup_insert_eq. simpl.
  destruct (account_store s !! ad_pubkey d) as [a|] eqn:E.
  - eapply abc_update_reaches; [by apply Hi|done|done].
  - by apply abc_new_reaches.
Qed.

Lemma update_account_ok s d c :
  store_inv s ->
  exists b s', update_account s d c = Done (b, s') /\ store_inv s' /\ store_le s s' /\
    confirmed_slots_map s' = confirmed_slots_map s /\
    forall c', commitment_rank c' <= commitment_rank c ->
      slot_at_least (view s' (ad_pubkey d) c') (ad_updated_slot d).
Proof.
  intros Hi. unfold update_account. set (e := effective_commitment _ _ _).
  destruct (store_update_entry_ok s d e Hi) as (b & s' & Hu & Hi' & Hle & Hc & _).
  exists b, s'. split_and!; try done. intros c' Hr. apply (store_update_reaches s d e c' b s' Hi Hu).
  subst e. destruct c; simpl in *; try lia. case_decide; simpl; lia.
Qed.

Lemma initialize_ok s d :
  store_inv s ->
  exists s', initilize_or_update_account s d = Done s' /\ store_inv s' /\ store_le s s' /\
    confirmed_slots_map s' = confirmed_slots_map s /\
    forall c', slot_at_least (view s' (ad_pubkey d) c') (ad_updated_slot d).
Proof.
  intros Hi. unfold initilize_or_update_account.
  destruct (account_store s !! ad_pubkey d) as [a|] eqn:Ha.
  - destruct (update_account_ok s d Finalized Hi) as (b & s' & -> & Hi' & Hle & Hc & Hr).
    exists s'. split_and!; try done. intros c'. apply Hr. destruct c'; simpl; lia.
  - destruct (store_put_ok s (ad_pubkey d) (abc_initialize d) (confirmed_slots_map s)
      (add_account_owner (accounts_by_owner s) (ad_pubkey d) (ad_owner d)) Hi (abc_initialize_wf d))
      as [??]; [intros; simplify_eq|].
    eexists. split_and!; try done. intros c'. unfold view. simpl. rewrite lookup_insert_eq.
    destruct c'; simpl; lia.
Qed.

Lemma update_owners_total idx l c :
  Forall (fun '(d, prev) => forall p, prev = Some p -> ad_pubkey p = ad_pubkey d) l ->
  exists idx', update_owners idx l c = Done idx'.
Proof.
  intros Hl. revert idx. induction Hl as [|[d [p|]] l Hd Hl IH]; intros idx; simpl; [eauto| |auto].
  case_decide; [|auto]. destruct (update_owner_total idx p d c) as [idx' ->]; [by apply Hd|]. simpl. auto.
Qed.

Lemma promoted_pubkeys s slot c :
  store_inv s ->
  Forall (fun '(d, prev) => forall p, prev = Some p -> ad_pubkey p = ad_pubkey d)
    (omap (fun kv => (promote_slot_commitment kv.2 slot c).1) (map_to_list (account_store s))).
Proof.
  intros Hi. apply Forall_forall. intros [d prev] ([pk a] & Hin & Hp)%list_elem_of_omap.
  apply elem_of_map_to_list in Hin. simpl in Hp.
  destruct (promote_pubkeys pk a slot c d prev (Hi _ _ Hin) Hp) as [-> Hprev]. done.
Qed.

Lemma promote_all_ok s slot c :
  store_inv s ->
  exists l s', promote_all s slot c = Done (l, s') /\ store_inv s' /\ store_le s s' /\
    confirmed_slots_map s' = confirmed_slots_map s /\
    account_store s' = (fun a => (promote_slot_commitment a slot c).2) <$> account_store s.
Proof.
  intros Hi. unfold promote_all.
  destruct (update_owners_total (accounts_by_owner s) _ c (promoted_pubkeys s slot c Hi)) as [idx ->].
  simpl. eexists _, _. split; [done|]. split_and!; simpl; try done.
  - intros pk a' (a & <- & Ha)%lookup_fmap_Some. by apply promote_wf, Hi.
  - intros pk c'. unfold view. simpl. rewrite lookup_fmap.
    destruct (account_store s !! pk) as [a|] eqn:Ha; simpl; [|done].
    eapply promote_mono. by apply Hi.
Qed.

Lemma process_slot_data_ok s slot c :
  store_inv s ->
  exists l s', process_slot_data s slot c = Done (l, s') /\ store_inv s' /\ store_le s s'.
Proof.
  intros Hi. unfold process_slot_data. destruct (confirm_slot _ _ _) as [conf|]; [|by exists [], s].
  destruct (promote_all_ok (mkAccountStore (account_store s) conf (accounts_by_owner s)) slot c Hi)
    as (l & s' & -> & Hi' & Hle & _). eauto.
Qed.

(** ** Sequences of calls

    The calls that change the store, in the order they take effect. *)
Inductive store_op :=
| OpUpdate (d : AccountData) (c : Commitment)
| OpInitialize (d : AccountData)
| OpSlot (slot : Slot) (c : Commitment).

Definition store_apply (s : InmemoryAccountStore) (op : store_op) :
    outcome (InmemoryAccountStore * list AccountData) :=
  match op with
  | OpUpdate d c => (fun '(_, s') => (s', [])) <$> update_account s d c
  | OpInitialize d => (fun s' => (s', [])) <$> initilize_or_update_account s d
  | OpSlot slot c => (fun '(l, s') => (s', l)) <$> process_slot_data s slot c
  end.

Lemma store_apply_ok s op :
  store_inv s -> exists s' l, store_apply s op = Done (s', l) /\ store_inv s' /\ store_le s s'.
Proof.
  intros Hi. destruct op as [d c|d|slot c]; simpl.
  - destruct (update_account_ok s d c Hi) as (b & s' & -> & ? & ? & _). simpl. eauto.
  - destruct (initialize_ok s d Hi) as (s' & -> & ? & ? & _). simpl. eauto.
  - destruct (process_slot_data_ok s slot c Hi) as (l & s' & -> & ? & ?). simpl. eauto.
Qed.

Lemma store_run_ok s ops :
  store_inv s -> exists s' l, orun store_apply s ops = Done (s', l) /\ store_inv s' /\ store_le s s'.
Proof.
  apply (orun_total store_apply (fun _ => True) store_inv store_le); [|by apply Forall_true].
  intros. by apply store_apply_ok.
Qed.

Lemma store_inv_new : store_inv account_store_new.
Proof. apply map_Forall_empty. Qed.

(** *** A confirmed slot is visible *)

(** The data of [slot] is among the processed data of the account. *)
Definition knows (s : InmemoryAccountStore) (pk : Pubkey) (slot : Slot) : Prop :=
  exists a, account_store s !! pk = Some a /\ is_Some (bt_get slot (abc_processed_accounts a)).

Definition finalizes (op : store_op) : bool :=
  match op with OpSlot _ Finalized => true | _ => false end.

Lemma with_processed_get d m k :
  is_Some (bt_get k m) \/ k = ad_updated_slot d -> is_Some (bt_get k (with_processed d m)).
Proof.
  unfold with_processed, bt_contains. case_bool_decide as Hc; simpl.
  - intros [?| ->]; done.
  - destruct (decide (k = ad_updated_slot d)) as [->|Hne].
    + intros _. rewrite bt_get_insert_eq. by eexists.
    + intros [?|?]; [|done]. by rewrite bt_get_insert_ne.
Qed.

Lemma update_entry_knows s d c b s' pk slot :
  store_inv s -> store_update_entry s d c = Done (b, s') ->
  knows s pk slot \/ (pk = ad_pubkey d /\ slot = ad_updated_slot d) -> knows s' pk slot.
Proof.
  intros Hi Hu Hk. destruct (store_update_entry_ok s d c Hi) as (b' & s'' & Hu' & _ & _ & _ & a' & Hs & Ha).
  rewrite Hu' in Hu. simplify_eq. unfold knows. rewrite Hs.
  destruct (decide (pk = ad_pubkey d)) as [->|Hne].
  - rewrite lookup_insert_eq. eexists. split; [done|]. destruct (account_store s !! ad_pubkey d) as [a|] eqn:E.
    + destruct (abc_update_proj a d c) as (-> & _). apply with_processed_get.
      destruct Hk as [(a0 & ? & ?)|[_ ?]]; simplify_eq; auto.
    + destruct Hk as [(a0 & ? & ?)|[_ ->]]; simplify_eq. simpl. rewrite Z.eqb_refl. by eexists.
  - rewrite lookup_insert_ne by done. destruct Hk as [?|[??]]; done.
Qed.

(** Every call but a finalization keeps the processed data. *)
Lemma store_apply_knows s op s' l pk slot :
  store_inv s -> finalizes op = false -> store_apply s op = Done (s', l) ->
  knows s pk slot -> knows s' pk slot.
Proof.
  intros Hi Hf Ha Hk. destruct op as [d c|d|sl c]; simpl in *.
  - unfold update_account in Ha. destruct (store_update_entry s d _) as [[b s1]|] eqn:Hu; simplify_eq/=.
    eapply update_entry_knows; eauto.
  - unfold initilize_or_update_account, update_account in Ha.
    destruct (account_store s !! ad_pubkey d) as [a|] eqn:E; simplify_eq/=.
    + destruct (store_update_entry s d _) as [[b s1]|] eqn:Hu; simplify_eq/=.
      eapply update_entry_knows; eauto.
    + destruct Hk as (a & Ha & Hg). exists a. simpl. rewrite lookup_insert_ne by congruence. done.
  - unfold process_slot_data in Ha. destruct c; simplify_eq/=; [done|].
    destruct (promote_all_ok (mkAccountStore (account_store s) ({[sl]} ∪ confirmed_slots_map s)
      (accounts_by_owner s)) sl Confirmed Hi) as (l1 & s1 & E & _ & _ & _ & Hs).
    rewrite E in Ha. simplify_eq/=. destruct Hk as (a & Ha & Hg).
    exists (promote_slot_commitment a sl Confirmed).2. rewrite Hs, lookup_fmap. simpl. rewrite Ha.
    split; [done|]. unfold promote_slot_commitment. repeat case_match; done.
Qed.

(** Every call but the finalization of the slot itself keeps it confirmed. *)
Lemma store_apply_confirmed s op s' l slot :
  store_inv s -> op <> OpSlot slot Finalized -> store_apply s op = Done (s', l) ->
  slot ∈ confirmed_slots_map s -> slot ∈ confirmed_slots_map s'.
Proof.
  intros Hi Hop Ha Hk. destruct op as [d c|d|sl c]; simpl in *.
  - destruct (update_account_ok s d c Hi) as (b & s1 & E & _ & _ & Hc & _).
    rewrite E in Ha. simplify_eq/=. by rewrite Hc.
  - destruct (initialize_ok s d Hi) as (s1 & E & _ & _ & Hc & _).
    rewrite E in Ha. simplify_eq/=. by rewrite Hc.
  - unfold process_slot_data in Ha. destruct (confirm_slot _ sl c) as [conf|] eqn:Hconf; simplify_eq/=; [|done].
    destruct (promote_all_ok (mkAccountStore (account_store s) conf (accounts_by_owner s)) sl c Hi)
      as (l1 & s1 & E & _ & _ & Hc & _).
    rewrite E in Ha. injection Ha as <- <-. rewrite Hc. simpl.
    destruct c; simpl in Hconf; simplify_eq; set_solver.
Qed.

(** Promoting a slot whose data is known, and storing data of a slot that is
    confirmed, make it visible as confirmed. *)
Lemma slot_op_visible s pk slot :
  store_inv s -> 0 < slot -> knows s pk slot ->
  exists s' l, store_apply s (OpSlot slot Confirmed) = Done (s', l) /\ store_inv s' /\
    slot_at_least (view s' pk Confirmed) slot.
Proof.
  intros Hi Hs (a & Ha & Hg). cbn [store_apply process_slot_data confirm_slot].
  destruct (promote_all_ok (mkAccountStore (account_store s) ({[slot]} ∪ confirmed_slots_map s)
    (accounts_by_owner s)) slot Confirmed Hi) as (l1 & s1 & E & Hi' & _ & _ & Hst).
  unfold process_slot_data. simpl. rewrite E. simpl. exists s1, l1. split_and!; [done..|].
  unfold view. rewrite Hst, lookup_fmap. simpl. rewrite Ha.
  apply (promote_reaches pk a slot Confirmed); [by apply Hi|done..].
Qed.

Lemma update_op_visible s d :
  store_inv s -> ad_updated_slot d ∈ confirmed_slots_map s ->
  exists s' l, store_apply s (OpUpdate d Processed) = Done (s', l) /\ store_inv s' /\
    slot_at_least (view s' (ad_pubkey d) Confirmed) (ad_updated_slot d).
Proof.
  intros Hi Hc. cbn [store_apply]. unfold update_account. cbn [effective_commitment].
  rewrite decide_True by done.
  destruct (store_update_entry_ok s d Confirmed Hi) as (b & s' & E & Hi' & _). rewrite E. simpl.
  exists s', []. split_and!; [done..|].
  by apply (store_update_reaches s d Confirmed Confirmed b s').
Qed.

Lemma store_run_app s ops1 op ops2 s1 l1 s2 l2 :
  orun store_apply s ops1 = Done (s1, l1) -> store_apply s1 op = Done (s2, l2) ->
  forall s3 l3, orun store_apply s2 ops2 = Done (s3, l3) ->
  orun store_apply s (ops1 ++ op :: ops2) = Done (s3, l1 ++ l2 ++ l3).
Proof. intros E1 E2 s3 l3 E3. rewrite orun_app, E1. simpl. rewrite E2. simpl. by rewrite E3. Qed.

(** What a call establishes and the following calls keep still holds before
    a later call. *)
Lemma store_run_keeps (P : store_op -> Prop) (K : InmemoryAccountStore -> Prop) s ops1 op ops2 :
  (forall s e s' l, store_inv s -> P e -> store_apply s e = Done (s', l) -> K s -> K s') ->
  (forall s s' l, store_inv s -> store_apply s op = Done (s', l) -> K s') ->
  Forall P ops2 -> store_inv s ->
  exists s' l, orun store_apply s (ops1 ++ op :: ops2) = Done (s', l) /\ store_inv s' /\ K s'.
Proof.
  intros HK Hop Hall Hi. destruct (store_run_ok s ops1 Hi) as (s1 & l1 & E1 & Hi1 & _).
  destruct (store_apply_ok s1 op Hi1) as (s2 & l2 & E2 & Hi2 & _).
  destruct (orun_total store_apply P (fun s => store_inv s /\ K s) store_le)
    with (es := ops2) (s := s2) as (s3 & l3 & E3 & [Hi3 Hk3] & _); [|done|by eauto|].
  { intros s' e Hp [Hi' Hk]. destruct (store_apply_ok s' e Hi') as (s'' & l & E & ? & ?).
    exists s'', l. split_and!; eauto. }
  exists s3, (l1 ++ l2 ++ l3). split_and!; [|done..]. by eapply store_run_app.
Qed.

(** *** The index of owners, for accounts that keep their owner *)

Section owners.
Context (owner : Pubkey -> Pubkey).

Definition data_owned (pk : Pubkey) (a : AccountDataByCommitment) : Prop :=
  Forall (fun e => ad_owner e.2 = owner pk) (abc_processed_accounts a) /\
  (forall d, abc_confirmed_account a = Some d -> ad_owner d = owner pk) /\
  (forall d, abc_finalized_account a = Some d -> ad_owner d = owner pk).

(** The accounts indexed under a program are those it owns. *)
Definition index_inv (s : InmemoryAccountStore) : Prop :=
  map_Forall data_owned (account_store s) /\
  (forall pk, is_Some (account_store s !! pk) -> is_Some (accounts_by_owner s !! owner pk)) /\
  (forall p set, accounts_by_owner s !! p = Some set ->
     forall pk, pk ∈ set <-> owner pk = p /\ is_Some (account_store s !! pk)).

Definition owned (op : store_op) : Prop :=
  match op with
  | OpUpdate d _ | OpInitialize d => ad_owner d = owner (ad_pubkey d)
  | OpSlot _ _ => True
  end.

Lemma update_owner_same idx prev new c :
  ad_pubkey prev = ad_pubkey new -> ad_owner prev = ad_owner new -> update_owner idx prev new c = Done idx.
Proof. intros Hp Ho. unfold update_owner. rewrite decide_True, decide_False by (auto || congruence). done. Qed.

Lemma view_data_owned pk a c d : data_owned pk a -> get_account_data a c = Some d -> ad_owner d = owner pk.
Proof.
  intros (Hp & Hc & Hf). destruct c; simpl; auto.
  destruct (bt_last _) as [[k v]|] eqn:E; [|auto]. intros [= <-].
  apply bt_last_snoc in E as [m' E]. rewrite E, Forall_app in Hp.
  destruct Hp as [_ [Hv _]%Forall_cons]. done.
Qed.

(** The entry of a known account is replaced, the index stays. *)
Lemma index_replace s pk a a' conf :
  index_inv s -> account_store s !! pk = Some a -> data_owned pk a' ->
  index_inv (mkAccountStore (<[pk := a']> (account_store s)) conf (accounts_by_owner s)).
Proof.
  intros (Hd & Hi & He) Ha Ha'. split_and!; simpl.
  - by apply map_Forall_insert_2.
  - intros pk' Hs. apply Hi. destruct (decide (pk' = pk)) as [->|]; [by eexists|].
    by rewrite lookup_insert_ne in Hs.
  - intros p set Hp pk'. rewrite (He p set Hp). destruct (decide (pk' = pk)) as [->|].
    + rewrite lookup_insert_eq, Ha. naive_solver.
    + by rewrite lookup_insert_ne.
Qed.

Lemma add_account_owner_lookup idx pk p q :
  add_account_owner idx pk p !! q =
  if decide (q = p) then Some ({[pk]} ∪ default ∅ (idx !! p)) else idx !! q.
Proof.
  unfold add_account_owner. destruct (idx !! p) as [set|] eqn:E; case_decide; subst;
    rewrite ?lookup_insert_eq, ?lookup_insert_ne by done; simpl; f_equal; set_solver.
Qed.

(** A new account is indexed under its owner. *)
Lemma index_add s pk a conf :
  index_inv s -> account_store s !! pk = None -> data_owned pk a ->
  index_inv (mkAccountStore (<[pk := a]> (account_store s)) conf
               (add_account_owner (accounts_by_owner s) pk (owner pk))).
Proof.
  intros (Hd & Hi & He) Hn Ha. split_and!; simpl.
  - by apply map_Forall_insert_2.
  - intros pk' Hs. rewrite add_account_owner_lookup. case_decide; [by eexists|].
    apply Hi. rewrite lookup_insert_ne in Hs; [done|]. congruence.
  - intros p set. rewrite add_account_owner_lookup. case_decide as Hp.
    + intros [= <-] pk'. subst p. rewrite elem_of_union, elem_of_singleton.
      destruct (decide (pk' = pk)) as [->|Hne]; [rewrite lookup_insert_eq; naive_solver|].
      rewrite lookup_insert_ne by done. destruct (accounts_by_owner s !! owner pk) as [set|] eqn:E; simpl.
      * rewrite (He _ _ E). naive_solver.
      * split; [set_solver|]. intros [Ho Hs]. apply Hi in Hs. rewrite Ho, E in Hs. by destruct Hs.
    + intros Hs pk'. rewrite (He _ _ Hs). destruct (decide (pk' = pk)) as [->|Hne].
      * rewrite lookup_insert_eq, Hn. split; [intros [_ []]; done|naive_solver].
      * by rewrite lookup_insert_ne.
Qed.

Lemma data_owned_new d c : ad_owner d = owner (ad_pubkey d) -> data_owned (ad_pubkey d) (abc_new d c).
Proof.
  intros Ho. split_and!; [by repeat constructor|..]; intros x; destruct c; simpl; by intros [= <-].
Qed.

Lemma data_owned_initialize d : ad_owner d = owner (ad_pubkey d) -> data_owned (ad_pubkey d) (abc_initialize d).
Proof. intros Ho. split_and!; [by repeat constructor|..]; intros x; simpl; by intros [= <-]. Qed.

Lemma data_owned_update a d c :
  abc_wf (ad_pubkey d) a -> ad_owner d = owner (ad_pubkey d) -> data_owned (ad_pubkey d) a ->
  data_owned (ad_pubkey d) (abc_update a d c).2.
Proof.
  intros (_ & Hb & _) Ho (Hp & Hc & Hf). destruct (abc_update_proj a d c) as (E1 & _ & E3 & E4).
  split_and!; rewrite ?E1, ?E3, ?E4.
  - apply Forall_forall. intros e He. rewrite Forall_forall in Hp.
    destruct (with_processed_elem d _ e Hb He) as [->|]; auto.
  - intros x [->|Hx]%if_Some; auto.
  - intros x [->|Hx]%if_Some; auto.
Qed.

Lemma data_owned_promote pk a slot c : data_owned pk a -> data_owned pk (promote_slot_commitment a slot c).2.
Proof.
  intros (Hp & Hc & Hf).
  pose proof (Forall_sublist _ _ _ (pop_processed_sublist slot (abc_processed_accounts a)) Hp) as Hpop.
  unfold promote_slot_commitment. destruct (bt_get slot _) as [d|] eqn:Hg; [|by case_bool_decide].
  assert (ad_owner d = owner pk) as Hd.
  { apply bt_get_elem_1 in Hg. rewrite Forall_forall in Hp. apply (Hp _ Hg). }
  destruct c; [done|..]; destruct (_ <? _); split_and!; simpl; try done; by intros ? [= <-].
Qed.

Lemma promote_data_owned pk a slot c d prev :
  data_owned pk a -> (promote_slot_commitment a slot c).1 = Some (d, prev) ->
  ad_owner d = owner pk /\ forall p, prev = Some p -> ad_owner p = owner pk.
Proof.
  intros (Hp & Hc & Hf). unfold promote_slot_commitment.
  destruct (bt_get slot _) as [d'|] eqn:Hg; [|by case_bool_decide].
  apply bt_get_elem_1 in Hg. rewrite Forall_forall in Hp. specialize (Hp _ Hg).
  destruct c; [done|..]; (destruct (_ <? _); [|done]); intros [= <- <-]; auto.
Qed.

Lemma update_entry_index s d c b s' :
  store_inv s -> index_inv s -> ad_owner d = owner (ad_pubkey d) ->
  store_update_entry s d c = Done (b, s') -> index_inv s'.
Proof.
  intros Hs Hi Ho. unfold store_update_entry. destruct (account_store s !! ad_pubkey d) as [a|] eqn:Ha.
  - pose proof (proj1 Hi _ _ Ha) as Hda. pose proof (Hs _ _ Ha) as Hwf.
    pose proof (data_owned_update a d c Hwf Ho Hda) as Hda'.
    destruct (abc_update a d c) as [[] a']; cbn [snd] in Hda'; intros Hu;
      [|simplify_eq; by eapply index_replace].
    assert (match get_account_data a c with
            | Some prev => update_owner (accounts_by_owner s) prev d c
            | None => Done (accounts_by_owner s) end = Done (accounts_by_owner s)) as E.
    { destruct (get_account_data a c) as [prev|] eqn:Hg; [|done].
      apply update_owner_same; [exact (view_pubkey _ _ _ _ Hwf Hg)|].
      by rewrite (view_data_owned _ _ _ _ Hda Hg). }
    rewrite E in Hu. simplify_eq/=. by eapply index_replace.
  - intros [= <- <-]. rewrite Ho. apply index_add; [done..|by apply data_owned_new].
Qed.

Lemma update_owners_same idx l c :
  Forall (fun '(d, prev) => forall p, prev = Some p -> ad_owner p = ad_owner d) l ->
  update_owners idx l c = Done idx.
Proof.
  induction 1 as [|[d [p|]] l Hd Hl IH]; simpl; [done| |done].
  rewrite decide_False; [done|]. intros Hne. by apply Hne, Hd.
Qed.

Lemma process_slot_index s slot c s' l :
  index_inv s -> process_slot_data s slot c = Done (l, s') -> index_inv s'.
Proof.
  intros (Hd & Hi & He). unfold process_slot_data.
  destruct (confirm_slot _ _ _) as [conf|]; [|by intros [= <- <-]]. unfold promote_all. simpl.
  rewrite update_owners_same.
  - intros [= <- <-]. split_and!; simpl.
    + intros pk a' (a & <- & Ha)%lookup_fmap_Some. by apply data_owned_promote, Hd.
    + intros pk. rewrite lookup_fmap, fmap_is_Some. apply Hi.
    + intros p set Hp pk. rewrite lookup_fmap, fmap_is_Some. by apply He.
  - apply Forall_forall. intros [d prev] ([pk a] & Hin & Hp)%list_elem_of_omap.
    apply elem_of_map_to_list in Hin.
    destruct (promote_data_owned pk a slot c d prev (Hd _ _ Hin) Hp) as [-> Hprev]. done.
Qed.

Lemma store_apply_index s op s' l :
  store_inv s -> owned op -> store_apply s op = Done (s', l) -> index_inv s -> index_inv s'.
Proof.
  intros Hs Ho Ha Hi. destruct op as [d c|d|slot c]; simpl in *.
  - unfold update_account in Ha. destruct (store_update_entry s d _) as [[b s1]|] eqn:Hu; simplify_eq/=.
    by eapply update_entry_index.
  - unfold initilize_or_update_account, update_account in Ha.
    destruct (account_store s !! ad_pubkey d) as [a|] eqn:E; simplify_eq/=.
    + destruct (store_update_entry s d _) as [[b s1]|] eqn:Hu; simplify_eq/=.
      by eapply update_entry_index.
    + rewrite Ho. apply index_add; [done..|by apply data_owned_initialize].
  - destruct (process_slot_data s slot c) as [[l1 s1]|] eqn:E; simplify_eq/=. by eapply process_slot_index.
Qed.

Lemma index_inv_new : index_inv account_store_new.
Proof. split_and!; simpl; [apply map_Forall_empty|..]; intros *; rewrite lookup_empty; [by intros []|done]. Qed.
End owners.

Definition matches (bytes_match : RpcMemcmp -> list Z -> bool) (filters : option (list RpcFilterType))
    (d : AccountData) : bool :=
  match filters with Some fs => forallb (allows bytes_match d) fs | None => true end.

(** *** Reads *)

Lemma get_account_view s pk c : store_get_account s pk c = Ok (view s pk c).
Proof. unfold store_get_account, view. by destruct (account_store s !! pk). Qed.

Lemma view_get s pk c n :
  slot_at_least (view s pk c) n ->
  exists data, store_get_account s pk c = Ok (Some data) /\ n <= ad_updated_slot data.
Proof. rewrite get_account_view. destruct (view s pk c); simpl; [eauto|done]. Qed.

Lemma update_op_knows d s s' l :
  store_inv s -> store_apply s (OpUpdate d Processed) = Done (s', l) ->
  knows s' (ad_pubkey d) (ad_updated_slot d).
Proof.
  cbn [store_apply]. unfold update_account. intros Hi.
  destruct (store_update_entry s d _) as [[b s1]|] eqn:E; [|done]. intros [= <- <-].
  eapply update_entry_knows; eauto.
Qed.

Lemma slot_op_confirms slot s s' l :
  store_inv s -> store_apply s (OpSlot slot Confirmed) = Done (s', l) -> slot ∈ confirmed_slots_map s'.
Proof.
  intros Hi. cbn [store_apply]. unfold process_slot_data. cbn [confirm_slot].
  destruct (promote_all_ok (mkAccountStore (account_store s) ({[slot]} ∪ confirmed_slots_map s)
    (accounts_by_owner s)) slot Confirmed Hi) as (l1 & s1 & -> & _ & _ & Hc & _).
  intros [= <- <-]. rewrite Hc. simpl. set_solver.
Qed.

Lemma store_view_pubkey s pk c d : store_inv s -> view s pk c = Some d -> ad_pubkey d = pk.
Proof.
  intros Hi. unfold view. destruct (account_store s !! pk) as [a|] eqn:E; [|done].
  apply view_pubkey. by apply Hi.
Qed.

Lemma gpa_entry bytes_match s program filters c pk d :
  match store_get_account s pk c with
  | Ok (Some d) =>
      if decide (ad_owner d = program) then
        match filters with
        | Some fs => if forallb (allows bytes_match d) fs then Some d else None
        | None => Some d
        end
      else None
  | _ => None
  end = Some d <->
  view s pk c = Some d /\ ad_owner d = program /\ matches bytes_match filters d = true.
Proof.
  rewrite get_account_view. destruct (view s pk c) as [d'|]; [|naive_solver].
  case_decide; [|naive_solver]. unfold matches. destruct filters as [fs|]; [|naive_solver].
  destruct (forallb _ fs) eqn:E; split; [intros [= <-]; auto|naive_solver|done|].
  intros ([= ->] & _ & Hm). congruence.
Qed.

Lemma gpa_exact owner bytes_match s program filters c :
  store_inv s -> index_inv owner s ->
  match store_get_program_accounts bytes_match s program filters c with
  | Some ds =>
      NoDup (ad_pubkey <$> ds) /\
      forall d, d ∈ ds <-> store_get_account s (ad_pubkey d) c = Ok (Some d) /\ ad_owner d = program /\
        matches bytes_match filters d = true
  | None => forall pk d, store_get_account s pk c = Ok (Some d) -> ad_owner d <> program
  end.
Proof.
  intros Hs (Hd & Hi & He). unfold store_get_program_accounts.
  destruct (accounts_by_owner s !! program) as [set|] eqn:Hset.
  - split.
    + apply NoDup_omap_key; [|apply NoDup_elements].
      intros pk d (Hv & _)%gpa_entry. by eapply store_view_pubkey.
    + intros d. rewrite list_elem_of_omap, get_account_view. setoid_rewrite gpa_entry.
      setoid_rewrite elem_of_elements. split.
      * intros (pk & _ & Hv & Hrest). by rewrite (store_view_pubkey _ _ _ _ Hs Hv), Hv.
      * intros ([= Hv] & Ho & Hm). exists (ad_pubkey d). split_and!; try done.
        apply (He _ _ Hset). unfold view in Hv.
        destruct (account_store s !! ad_pubkey d) as [a|] eqn:Ha; [|done]. simpl in Hv.
        rewrite <- (view_data_owned owner _ _ _ _ (Hd _ _ Ha) Hv). by split.
  - intros pk d. rewrite get_account_view. intros [= Hv] Ho. unfold view in Hv.
    destruct (account_store s !! pk) as [a|] eqn:Ha; [|done]. simpl in Hv.
    rewrite (view_data_owned owner _ _ _ _ (Hd _ _ Ha) Hv) in Ho.
    destruct (Hi pk) as [set Hset']; [by rewrite Ha|]. by rewrite Ho, Hset in Hset'.
Qed.

Definition sample_account (pk owner slot : Z) : AccountData :=
  mkAccountData pk (mkAccount 1 [0; 1] owner false 0) slot.

(** ** Properties *)

(** C28. Whatever calls change the store, in whatever order, none panics, and the
    store is well formed after them: an entry holds data of its own account
    only, at least one processed version, the versions sorted by slot and each
    under the slot it was written at; so a read returns data of the account
    asked for. *)
Theorem account_store_well_formed (ops : list store_op) :
  exists s l, orun store_apply account_store_new ops = Done (s, l) /\ map_Forall abc_wf (account_store s) /\
    forall pk c d, view s pk c = Some d -> ad_pubkey d = pk.
Proof.
  destruct (store_run_ok account_store_new ops store_inv_new) as (s & l & E & Hi & _).
  exists s, l. split_and!; [done..|]. intros pk c d. by apply store_view_pubkey.
Qed.

(** C11. An account update and the confirmation of its slot make the data
    visible at the confirmed commitment in whichever order the two tasks of
    the account service perform them: if no block is finalized between the
    update and the confirmation, or the slot itself is not finalized between
    the confirmation and the update, every read at the confirmed commitment
    after both returns data of that slot or a later one, whatever else happens
    before, between and after.  No call panics. *)
Theorem confirmed_data_visible (d : AccountData) (ops ops1 ops2 ops3 : list store_op) :
  0 < ad_updated_slot d ->
  (ops = ops1 ++ OpUpdate d Processed :: ops2 ++ OpSlot (ad_updated_slot d) Confirmed :: ops3 /\
     Forall (fun op => finalizes op = false) ops2) \/
  (ops = ops1 ++ OpSlot (ad_updated_slot d) Confirmed :: ops2 ++ OpUpdate d Processed :: ops3 /\
     Forall (fun op => op <> OpSlot (ad_updated_slot d) Finalized) ops2) ->
  exists s l, orun store_apply account_store_new ops = Done (s, l) /\
    exists data, store_get_account s (ad_pubkey d) Confirmed = Ok (Some data) /\
      ad_updated_slot d <= ad_updated_slot data.
Proof.
  intros Hpos Hops.
  assert (exists s1 l1 s2 l2 ops12 op, ops = ops12 ++ op :: ops3 /\
    orun store_apply account_store_new ops12 = Done (s1, l1) /\
    store_apply s1 op = Done (s2, l2) /\ store_inv s2 /\
    slot_at_least (view s2 (ad_pubkey d) Confirmed) (ad_updated_slot d))
    as (s1 & l1 & s2 & l2 & ops12 & op & -> & E1 & E2 & Hi2 & Hv).
  { destruct Hops as [[-> Hall]|[-> Hall]].
    - destruct (store_run_keeps (fun op => finalizes op = false)
        (fun s => knows s (ad_pubkey d) (ad_updated_slot d)) account_store_new
        ops1 (OpUpdate d Processed) ops2) as (s1 & l1 & E1 & Hi1 & Hk);
        [intros; by eapply store_apply_knows|apply update_op_knows|done|apply store_inv_new|].
      destruct (slot_op_visible s1 _ _ Hi1 Hpos Hk) as (s2 & l2 & E2 & Hi2 & Hv).
      exists s1, l1, s2, l2. eexists _, _. split_and!; [|done..]. by rewrite <- app_assoc.
    - destruct (store_run_keeps (fun op => op <> OpSlot (ad_updated_slot d) Finalized)
        (fun s => ad_updated_slot d ∈ confirmed_slots_map s) account_store_new
        ops1 (OpSlot (ad_updated_slot d) Confirmed) ops2) as (s1 & l1 & E1 & Hi1 & Hk);
        [intros; by eapply store_apply_confirmed|apply slot_op_confirms|done|apply store_inv_new|].
      destruct (update_op_visible s1 d Hi1 Hk) as (s2 & l2 & E2 & Hi2 & Hv).
      exists s1, l1, s2, l2. eexists _, _. split_and!; [|done..]. by rewrite <- app_assoc. }
  destruct (store_run_ok s2 ops3 Hi2) as (s3 & l3 & E3 & _ & Hle).
  exists s3, (l1 ++ l2 ++ l3). split; [by eapply store_run_app|].
  apply view_get. eapply slot_at_least_le; [done|apply Hle].
Qed.

Lemma confirmed_data_visible_witness :
  exists s l, orun store_apply account_store_new
    [OpInitialize (sample_account 7 1 3); OpSlot 5 Confirmed; OpSlot 4 Finalized;
     OpUpdate (sample_account 7 2 5) Processed; OpSlot 5 Finalized] = Done (s, l) /\
    exists data, store_get_account s 7 Confirmed = Ok (Some data) /\ 5 <= ad_updated_slot data.
Proof.
  apply (confirmed_data_visible (sample_account 7 2 5) _
    [OpInitialize (sample_account 7 1 3)] [OpSlot 4 Finalized] [OpSlot 5 Finalized]); [done|].
  right. split; [done|]. by repeat constructor.
Defined.

(** C22. For accounts that never change owner, the index of owners is exact
    after any sequence of calls: [get_program_accounts] returns, once each,
    the accounts whose data at the requested commitment is owned by the
    program and passes the filters, and answers that it does not know the
    program only when it holds no account of it. *)
Theorem program_accounts_complete (owner : Pubkey -> Pubkey) (bytes_match : RpcMemcmp -> list Z -> bool)
    (ops : list store_op) (program : Pubkey) (filters : option (list RpcFilterType)) (c : Commitment) :
  Forall (owned owner) ops ->
  exists s l, orun store_apply account_store_new ops = Done (s, l) /\
    match store_get_program_accounts bytes_match s program filters c with
    | Some ds =>
        NoDup (ad_pubkey <$> ds) /\
        forall d, d ∈ ds <-> store_get_account s (ad_pubkey d) c = Ok (Some d) /\ ad_owner d = program /\
          matches bytes_match filters d = true
    | None => forall pk d, store_get_account s pk c = Ok (Some d) -> ad_owner d <> program
    end.
Proof.
  intros Hall.
  destruct (orun_total store_apply (owned owner) (fun s => store_inv s /\ index_inv owner s) store_le)
    with (es := ops) (s := account_store_new) as (s & l & E & [Hs Hi] & _); [|done| |].
  { intros s e He [Hs Hi]. destruct (store_apply_ok s e Hs) as (s' & l & E & ? & ?).
    exists s', l. split_and!; try done. by apply (store_apply_index owner s e s' l). }
  { split; [apply store_inv_new|apply index_inv_new]. }
  exists s, l. split; [done|]. by eapply gpa_exact.
Qed.

Lemma program_accounts_complete_witness :
  exists s l, orun store_apply account_store_new
    [OpInitialize (sample_account 7 1 3); OpUpdate (sample_account 8 1 4) Processed;
     OpUpdate (sample_account 9 2 4) Finalized; OpSlot 4 Confirmed] = Done (s, l) /\
    match store_get_program_accounts (fun _ _ => true) s 1 (Some [RfDataSize 2]) Confirmed with
    | Some ds =>
        NoDup (ad_pubkey <$> ds) /\
        forall d, d ∈ ds <-> store_get_account s (ad_pubkey d) Confirmed = Ok (Some d) /\ ad_owner d = 1 /\
          matches (fun _ _ => true) (Some [RfDataSize 2]) d = true
    | None => forall pk d, store_get_account s pk Confirmed = Ok (Some d) -> ad_owner d <> 1
    end.
Proof.
  apply (program_accounts_complete (fun pk => if pk <? 9 then 1 else 2)). by repeat constructor.
Defined.

(** An account that leaves a program and comes back vanishes from it:
    when the slot in which it had left is finalized, it is removed from the
    index of its old owner, although its later processed and confirmed data
    belongs to that owner again.  Likewise an account whose first confirmed
    data has another owner than its processed data is never indexed under the
    owner it is confirmed with.  Reads of the account itself show the owner
    in both cases. *)
Theorem owner_change_hides_account (bytes_match : RpcMemcmp -> list Z -> bool) :
  (exists s l, orun store_apply account_store_new
     [OpUpdate (sample_account 7 1 10) Finalized; OpUpdate (sample_account 7 2 11) Processed;
      OpUpdate (sample_account 7 1 12) Processed; OpSlot 11 Confirmed; OpSlot 12 Confirmed;
      OpSlot 11 Finalized] = Done (s, l) /\
     store_get_account s 7 Confirmed = Ok (Some (sample_account 7 1 12)) /\
     store_get_program_accounts bytes_match s 1 None Confirmed = Some []) /\
  (exists s l, orun store_apply account_store_new
     [OpUpdate (sample_account 7 1 10) Processed; OpUpdate (sample_account 7 2 11) Confirmed] = Done (s, l) /\
     store_get_account s 7 Confirmed = Ok (Some (sample_account 7 2 11)) /\
     store_get_program_accounts bytes_match s 2 None Confirmed = None).
Proof.
  split; eexists _, _; (split; [vm_compute; reflexivity|]); split; vm_compute; reflexivity.
Qed.

(** The confirmation of a slot can be lost between the two halves of an
    update: when the update has looked at the confirmed slots before the slot
    is confirmed, and writes the account's entry after the confirmation has
    gone through the accounts, the data of the confirmed slot is not visible
    at the confirmed commitment.  (Either order without the interleaving
    makes it visible.) *)
Theorem confirmation_lost_in_race (s : InmemoryAccountStore) (d : AccountData) :
  store_inv s -> ad_updated_slot d ∉ confirmed_slots_map s -> ~ knows s (ad_pubkey d) (ad_updated_slot d) ->
  ~ slot_at_least (view s (ad_pubkey d) Confirmed) (ad_updated_slot d) ->
  let c := effective_commitment (confirmed_slots_map s) (ad_updated_slot d) Processed in
  exists l s2 b s3 v,
    process_slot_data s (ad_updated_slot d) Confirmed = Done (l, s2) /\
    store_update_entry s2 d c = Done (b, s3) /\
    ad_updated_slot d ∈ confirmed_slots_map s3 /\
    store_get_account s3 (ad_pubkey d) Confirmed = Ok v /\ ~ slot_at_least v (ad_updated_slot d).
Proof.
  intros Hi Hc Hk Hv. cbn [effective_commitment]. rewrite decide_False by done. simpl.
  unfold process_slot_data. cbn [confirm_slot].
  destruct (promote_all_ok (mkAccountStore (account_store s) ({[ad_updated_slot d]} ∪ confirmed_slots_map s)
    (accounts_by_owner s)) (ad_updated_slot d) Confirmed Hi) as (l & s2 & -> & Hi2 & _ & Hc2 & Hs2).
  destruct (store_update_entry_ok s2 d Processed Hi2) as (b & s3 & E3 & _ & _ & Hc3 & a' & Hs3 & Ha').
  exists l, s2, b, s3, (view s (ad_pubkey d) Confirmed).
  split_and!; [done..|rewrite Hc3, Hc2; simpl; set_solver| |done].
  rewrite get_account_view. f_equal. unfold view. rewrite Hs3, lookup_insert_eq. simpl. rewrite Ha'.
  rewrite Hs2, lookup_fmap. simpl. destruct (account_store s !! ad_pubkey d) as [a|] eqn:Ha; simpl; [|done].
  unfold promote_slot_commitment. destruct (bt_get _ _) eqn:Hg; [|done].
  exfalso. apply Hk. exists a. by rewrite Hg.
Qed.

Lemma confirmation_lost_in_race_witness :
  let s := account_store_new in let d := sample_account 7 1 10 in
  let c := effective_commitment (confirmed_slots_map s) (ad_updated_slot d) Processed in
  exists l s2 b s3 v,
    process_slot_data s (ad_updated_slot d) Confirmed = Done (l, s2) /\
    store_update_entry s2 d c = Done (b, s3) /\
    ad_updated_slot d ∈ confirmed_slots_map s3 /\
    store_get_account s3 (ad_pubkey d) Confirmed = Ok v /\ ~ slot_at_least v (ad_updated_slot d).
Proof.
  apply (confirmation_lost_in_race account_store_new (sample_account 7 1 10)).
  - apply store_inv_new.
  - set_solver.
  - intros (a & Ha & _). done.
  - intros [].
Defined.
