(* ===== verification/AccountService.v ===== *)
(** * The account service and accounts on demand

    accounts/src/{account_store_interface,account_service}.rs and
    accounts-on-demand/src/{accounts_on_demand,subscription_manager}.rs.

    [AccountStorage] is the trait [AccountStorageInterface] in state-passing
    form and [AccountStorageOk] states what the service relies on: no method
    panics, the data answered for an account never gets older, and an update
    is visible at its commitment.  The service's theorems are proved against
    the interface, which the in-memory store implements; accounts on demand wrap
    any such store and load what it does not hold from an RPC node. *)

From S2P Require Import Prelude BTreeMap Types AccountStore.

(** ** The interface *)

(** [AccountStorageInterface], accounts/src/account_store_interface.rs:15-36. *)
Class AccountStorage (S : Type) := {
  as_update_account : S -> AccountData -> Commitment -> outcome (bool * S);
  as_initilize_or_update_account : S -> AccountData -> outcome S;
  as_get_account : S -> Pubkey -> Commitment ->
    outcome (result AccountLoadingError (option AccountData) * S);
  as_get_program_accounts : S -> Pubkey -> option (list RpcFilterType) -> Commitment ->
    outcome (option (list AccountData) * S);
  as_process_slot_data : S -> Slot -> Commitment -> outcome (list AccountData * S);
}.

(** [as_view] is the data the storage holds, [as_inv] its invariant. *)
Class AccountStorageOk (S : Type) `{AccountStorage S} (as_inv : S -> Prop)
    (as_view : S -> Pubkey -> Commitment -> option AccountData) : Prop := {
  as_update_ok : forall s d c, as_inv s ->
    exists b s', as_update_account s d c = Done (b, s') /\ as_inv s' /\
      (forall pk c', slot_le (as_view s pk c') (as_view s' pk c')) /\
      (forall c', commitment_rank c' <= commitment_rank c ->
         slot_at_least (as_view s' (ad_pubkey d) c') (ad_updated_slot d));
  as_initialize_ok : forall s d, as_inv s ->
    exists s', as_initilize_or_update_account s d = Done s' /\ as_inv s' /\
      (forall pk c', slot_le (as_view s pk c') (as_view s' pk c')) /\
      (forall c', slot_at_least (as_view s' (ad_pubkey d) c') (ad_updated_slot d));
  as_process_ok : forall s slot c, as_inv s ->
    exists l s', as_process_slot_data s slot c = Done (l, s') /\ as_inv s' /\
      (forall pk c', slot_le (as_view s pk c') (as_view s' pk c'));
  as_get_known : forall s pk c d, as_inv s -> as_view s pk c = Some d ->
    as_get_account s pk c = Done (Ok (Some d), s);
}.

#[export] Instance inmemory_storage (bytes_match : RpcMemcmp -> list Z -> bool) :
  AccountStorage InmemoryAccountStore := {|
  as_update_account := update_account;
  as_initilize_or_update_account := initilize_or_update_account;
  as_get_account s pk c := Done (store_get_account s pk c, s);
  as_get_program_accounts s program filters c :=
    Done (store_get_program_accounts bytes_match s program filters c, s);
  as_process_slot_data := process_slot_data;
|}.

#[export] Instance inmemory_storage_ok bytes_match :
  AccountStorageOk InmemoryAccountStore (H := inmemory_storage bytes_match) store_inv view.
Proof.
  split; simpl.
  - intros s d c Hi. destruct (update_account_ok s d c Hi) as (b & s' & E & ? & ? & _ & ?). eauto 8.
  - intros s d Hi. destruct (initialize_ok s d Hi) as (s' & E & ? & ? & _ & ?). eauto 8.
  - intros s slot c Hi. destruct (process_slot_data_ok s slot c Hi) as (l & s' & E & ? & ?). eauto 8.
  - intros s pk c d Hi Hv. by rewrite get_account_view, Hv.
Qed.

(** ** The service *)

(** The configuration of the RPC calls, as far as the service reads it. *)
Record RpcAccountInfoConfig := mkAccountInfoConfig {
  ac_encoding : option Z;
  ac_data_slice : option (Z * Z);
  ac_commitment : option CommitmentConfig;
  ac_min_context_slot : option Slot;
}.

Record RpcProgramAccountsConfig := mkProgramAccountsConfig {
  pc_filters : option (list RpcFilterType);
  pc_account_config : RpcAccountInfoConfig;
  pc_with_context : option bool;
}.

Section service.
Context {S : Type} `{AccountStorage S} {UiAccount : Type}.
(** The decoder's [encode_ui_account] and its default encoding. *)
Context (base64 : Z) (encode_ui_account : Pubkey -> Account -> Z -> option (Z * Z) -> UiAccount).

(** [AccountService::convert_account_data_to_ui_account], accounts/src/account_service.rs:231-248. *)
Definition convert_account_data_to_ui_account (d : AccountData) (config : option RpcAccountInfoConfig) :
    UiAccount :=
  let encoding := default base64 (c ← config; ac_encoding c) in
  let data_slice := c ← config; ac_data_slice c in
  encode_ui_account (ad_pubkey d) (ad_account d) encoding data_slice.

(** [AccountService::get_account], accounts/src/account_service.rs:250-279. *)
Definition service_get_account (s : S) (account : Pubkey) (config : option RpcAccountInfoConfig) :
    outcome (result AccountLoadingError (Slot * option UiAccount) * S) :=
  let commitment := commitment_of_config (default cc_default (c ← config; ac_commitment c)) in
  '(r, s') ← as_get_account s account commitment;
  Done (match r with
        | Err e => Err e
        | Ok (Some d) =>
            let minimum_context_slot := default 0 (c ← config; ac_min_context_slot c) in
            if minimum_context_slot <=? ad_updated_slot d then
              Ok (ad_updated_slot d, Some (convert_account_data_to_ui_account d config))
            else Ok (ad_updated_slot d, None)
        | Ok None => Err ConfigDoesnotContainRequiredFilters
        end, s').

(** [AccountService::get_program_accounts], accounts/src/account_service.rs:281-344. *)
Definition service_get_program_accounts (s : S) (program : Pubkey)
    (config : option RpcProgramAccountsConfig) :
    outcome (result string (Slot * list (Pubkey * UiAccount)) * S) :=
  let account_filter := c ← config; pc_filters c in
  let commitment := commitment_of_config
    (default cc_default (c ← config; ac_commitment (pc_account_config c))) in
  '(r, s') ← as_get_program_accounts s program account_filter commitment;
  Done (match r with
        | Some program_accounts =>
            let min_context_slot := default 0
              (c ← config; if default false (pc_with_context c)
                           then ac_min_context_slot (pc_account_config c) else None) in
            let slot := foldr Z.max 0 (ad_updated_slot <$> program_accounts) in
            let acc_config := pc_account_config <$> config in
            Ok (slot, omap (fun d =>
                  if min_context_slot <=? ad_updated_slot d
                  then Some (ad_pubkey d, convert_account_data_to_ui_account d acc_config)
                  else None) program_accounts)
        | None => Err "Program id does not satisfy any configured filters"%string
        end, s').

(** The two tasks of the service, one event at a time: an account
    notification, a block info, or a lagging channel. *)
Inductive account_event :=
| AeAccount (m : AccountNotificationMessage)
| AeBlock (b : BlockInfo)
| AeLagged (n : Z).

(** The body of the two loops of
    [AccountService::process_account_stream], accounts/src/account_service.rs:152-229. *)
Definition process_account_stream (s : S) (e : account_event) :
    outcome (S * list AccountNotificationMessage) :=
  match e with
  | AeAccount m =>
      match as_update_account s (an_data m) (an_commitment m) with
      | Done (updated, s') => Done (s', if updated then [m] else [])
      | Panic => Panic
      end
  | AeBlock b =>
      if is_processed (bi_commitment_config b) then Done (s, [])
      else
        let commitment := commitment_of_config (bi_commitment_config b) in
        match as_process_slot_data s (bi_slot b) commitment with
        | Done (updated_accounts, s') =>
            Done (s', (fun data => mkAccountNotification data commitment) <$> updated_accounts)
        | Panic => Panic
        end
  | AeLagged _ => Done (s, [])
  end.

Section populate.
(** [Pubkey::from_str] and the two RPC calls; the [n]-th attempt of a batch may
    fail where a later one succeeds. *)
Context (pubkey_from_str : string -> option Pubkey).
Context (rpc_get_program_accounts : Pubkey -> option (list RpcFilterType) -> result string (list Pubkey)).
Context (rpc_get_multiple_accounts : nat -> list Pubkey -> result string (list (option Account) * Slot)).

Definition NB_ACCOUNTS_IN_GMA : nat := 100.
Definition NB_RETRY : nat := 10.

(** The accounts the filters name: [populate_from_rpc], accounts/src/account_service.rs:66-104. *)
Fixpoint filter_accounts (filters : list AccountFilter) : outcome (result string (list Pubkey)) :=
  match filters with
  | [] => Done (Ok [])
  | f :: filters' =>
      f_accounts ← mapM (fun x => unwrap (pubkey_from_str x)) (af_accounts f);
      r ← match af_program_id f with
          | Some program_id =>
              pk ← unwrap (pubkey_from_str program_id);
              Done (rpc_get_program_accounts pk (get_rpc_filter f))
          | None => Done (Ok [])
          end;
      match r with
      | Err e => Done (Err e)
      | Ok rpc_acc =>
          rest ← filter_accounts filters';
          Done (match rest with
                | Ok more => Ok (f_accounts ++ rpc_acc ++ more)
                | Err e => Err e
                end)
      end
  end.

(** The attempts of one batch: [populate_from_rpc], accounts/src/account_service.rs:108-134. *)
Fixpoint fetch_batch (attempts attempt : nat) (accounts : list Pubkey) : list (option Account) * Slot :=
  match attempts with
  | 0%nat => ([], 0)
  | Datatypes.S attempts' =>
      match rpc_get_multiple_accounts attempt accounts with
      | Ok r => r
      | Err _ => fetch_batch attempts' (Datatypes.S attempt) accounts
      end
  end.

(** The answers of one batch: [populate_from_rpc], accounts/src/account_service.rs:135-145. *)
Fixpoint store_batch (s : S) (index : nat) (accounts : list Pubkey) (fetched : list (option Account))
    (updated_slot : Slot) : outcome S :=
  match fetched with
  | [] => Done s
  | None :: fetched' => store_batch s (Datatypes.S index) accounts fetched' updated_slot
  | Some account :: fetched' =>
      pk ← unwrap (accounts !! index);
      s' ← as_initilize_or_update_account s (mkAccountData pk account updated_slot);
      store_batch s' (Datatypes.S index) accounts fetched' updated_slot
  end.

Fixpoint store_batches (s : S) (batches : list (list Pubkey)) : outcome S :=
  match batches with
  | [] => Done s
  | accounts :: batches' =>
      let '(fetched, slot) := fetch_batch NB_RETRY 0 accounts in
      s' ← store_batch s 0 accounts fetched slot;
      store_batches s' batches'
  end.

Fixpoint store_outer (s : S) (outer : list (list Pubkey)) : outcome S :=
  match outer with
  | [] => Done s
  | accounts :: outer' =>
      batches ← chunks NB_ACCOUNTS_IN_GMA accounts;
      s' ← store_batches s batches;
      store_outer s' outer'
  end.

(** [AccountService::populate_from_rpc], accounts/src/account_service.rs:58-150. *)
Definition populate_from_rpc (s : S) (filters : list AccountFilter) (max_request_in_parallel : nat) :
    outcome (result string S) :=
  r ← filter_accounts filters;
  match r with
  | Err e => Done (Err e)
  | Ok accounts =>
      outer ← chunks (max_request_in_parallel * NB_ACCOUNTS_IN_GMA) accounts;
      s' ← store_outer s outer;
      Done (Ok s')
  end.
End populate.
End service.

(** ** Accounts on demand *)

(** [AccountsOnDemand], accounts-on-demand/src/accounts_on_demand.rs:39-46.  The
    filters last sent to the subscription manager are [od_watch]; a [Notify] is
    its number. *)
Record AccountsOnDemand (S : Type) := mkOnDemand {
  od_storage : S;
  od_subscribed : gset Pubkey;
  od_program_filters : list AccountFilter;
  od_watch : list AccountFilter;
  od_loading : gmap Pubkey nat;
  od_next_notify : nat;
}.
Arguments mkOnDemand {S}.
Arguments od_storage {S}.
Arguments od_subscribed {S}.
Arguments od_program_filters {S}.
Arguments od_watch {S}.
Arguments od_loading {S}.
Arguments od_next_notify {S}.

Definition RETRY_FETCHING_ACCOUNT : nat := 10.

(** Where a call of [get_account] is between two of its awaits. *)
Inductive od_pc :=
| OdStart
| OdMissed
| OdSawLoading (n : nat)
| OdWaiting (n : nat) (woken : bool)
| OdRefresh
| OdFetching (attempt : nat)
| OdFetched (d : option AccountData)
| OdDone (r : result AccountLoadingError (option AccountData)).

(** What the environment decides: nothing, the elapsed timeout, or the answer
    of the RPC node with its context slot. *)
Inductive od_choice :=
| ChGo
| ChTimeout
| ChRpc (r : result string (option Account * Slot)).

Record od_task := mkOdTask { ot_pk : Pubkey; ot_commitment : Commitment; ot_pc : od_pc }.

Section on_demand.
Context {S : Type} `{AccountStorage S}.
Context (pubkey_to_string : Pubkey -> string).

Definition od_set_storage (od : AccountsOnDemand S) (s : S) : AccountsOnDemand S :=
  mkOnDemand s (od_subscribed od) (od_program_filters od) (od_watch od) (od_loading od) (od_next_notify od).

(** [AccountsOnDemand::new], accounts-on-demand/src/accounts_on_demand.rs:49-67. *)
Definition on_demand_new (s : S) : AccountsOnDemand S := mkOnDemand s ∅ [] [] ∅ 0.

(** [AccountsOnDemand::refresh_subscription], accounts-on-demand/src/accounts_on_demand.rs:69-91:
    the program filters and the subscribed accounts, a hundred to a filter, are
    handed to the subscription manager. *)
Definition refresh_subscription (od : AccountsOnDemand S) : AccountsOnDemand S :=
  let subscribed := pubkey_to_string <$> elements (od_subscribed od) in
  let account_filters := (fun accounts => mkAccountFilter accounts None None) <$>
    chunks_fuel (length subscribed) 100 subscribed in
  mkOnDemand (od_storage od) (od_subscribed od) (od_program_filters od)
    (od_program_filters od ++ account_filters) (od_loading od) (od_next_notify od).

(** One atomic piece of
    [AccountsOnDemand::get_account], accounts-on-demand/src/accounts_on_demand.rs:112-208:
    the new state, where the call is, and the [Notify] it fires. *)
Definition od_get_account_step (od : AccountsOnDemand S) (pk : Pubkey) (c : Commitment) (pc : od_pc)
    (ch : od_choice) : option (AccountsOnDemand S * od_pc * option nat) :=
  match pc, ch with
  | OdStart, ChGo =>
      match as_get_account (od_storage od) pk c with
      | Done (Err e, s') => Some (od_set_storage od s', OdDone (Err e), None)
      | Done (Ok (Some d), s') => Some (od_set_storage od s', OdDone (Ok (Some d)), None)
      | Done (Ok None, s') => Some (od_set_storage od s', OdMissed, None)
      | Panic => None
      end
  | OdMissed, ChGo =>
      match od_loading od !! pk with
      | Some n => Some (od, OdSawLoading n, None)
      | None =>
          if decide (pk ∈ od_subscribed od) then Some (od, OdDone (Ok None), None)
          else Some (mkOnDemand (od_storage od) ({[pk]} ∪ od_subscribed od) (od_program_filters od)
                       (od_watch od) (<[pk := od_next_notify od]> (od_loading od))
                       (Datatypes.S (od_next_notify od)), OdRefresh, None)
      end
  | OdSawLoading n, ChGo => Some (od, OdWaiting n false, None)
  | OdWaiting n true, ChGo =>
      match as_get_account (od_storage od) pk c with
      | Done (r, s') => Some (od_set_storage od s', OdDone r, None)
      | Panic => None
      end
  | OdWaiting n false, ChTimeout => Some (od, OdDone (Err OperationTimeOut), None)
  | OdRefresh, ChGo => Some (refresh_subscription od, OdFetching 0, None)
  | OdFetching attempt, ChRpc r =>
      match r with
      | Ok (Some account, slot) =>
          let d := mkAccountData pk account slot in
          match as_update_account (od_storage od) d c with
          | Done (_, s') => Some (od_set_storage od s', OdFetched (Some d), None)
          | Panic => None
          end
      | Ok (None, _) => Some (od, OdFetched None, None)
      | Err _ =>
          if decide (Datatypes.S attempt = RETRY_FETCHING_ACCOUNT) then Some (od, OdFetched None, None)
          else Some (od, OdFetching (Datatypes.S attempt), None)
      end
  | OdFetched d, ChGo =>
      Some (mkOnDemand (od_storage od) (od_subscribed od) (od_program_filters od) (od_watch od)
              (delete pk (od_loading od)) (od_next_notify od), OdDone (Ok d), od_loading od !! pk)
  | _, _ => None
  end.

(** [Notify::notify_waiters] wakes the calls that are waiting at that moment. *)
Definition wake (fired : option nat) (t : od_task) : od_task :=
  match fired, ot_pc t with
  | Some n, OdWaiting m false =>
      if decide (n = m) then mkOdTask (ot_pk t) (ot_commitment t) (OdWaiting m true) else t
  | _, _ => t
  end.

(** The calls in flight over the shared state; [sys_loads] records the loads
    that were started. *)
Record od_system := mkOdSystem {
  sys_od : AccountsOnDemand S;
  sys_tasks : list od_task;
  sys_loads : list Pubkey;
}.

Inductive od_action :=
| ActCall (pk : Pubkey) (c : Commitment)
| ActStep (i : nat) (ch : od_choice)
| ActUpdate (d : AccountData) (c : Commitment).

Definition od_act (sys : od_system) (a : od_action) : option od_system :=
  match a with
  | ActCall pk c => Some (mkOdSystem (sys_od sys) (sys_tasks sys ++ [mkOdTask pk c OdStart]) (sys_loads sys))
  | ActUpdate d c =>
      match as_update_account (od_storage (sys_od sys)) d c with
      | Done (_, s') => Some (mkOdSystem (od_set_storage (sys_od sys) s') (sys_tasks sys) (sys_loads sys))
      | Panic => None
      end
  | ActStep i ch =>
      t ← sys_tasks sys !! i;
      '(od', pc', fired) ← od_get_account_step (sys_od sys) (ot_pk t) (ot_commitment t) (ot_pc t) ch;
      Some (mkOdSystem od' (wake fired <$> <[i := mkOdTask (ot_pk t) (ot_commitment t) pc']> (sys_tasks sys))
              (match pc' with OdRefresh => sys_loads sys ++ [ot_pk t] | _ => sys_loads sys end))
  end.

Definition od_acts (sys : od_system) (l : list od_action) : option od_system :=
  foldl (fun r a => sys' ← r; od_act sys' a) (Some sys) l.

Section program_accounts.
Context (memcmp_bytes : RpcMemcmp -> option (list Z)).
Context (rpc_get_program_accounts : Pubkey -> option (list RpcFilterType) -> CommitmentConfig ->
  result string (list (Pubkey * Account))).

Fixpoint od_cache_accounts (s : S) (l : list AccountData) (c : Commitment) : outcome S :=
  match l with
  | [] => Done s
  | d :: l' => r ← as_update_account s d c; od_cache_accounts (snd r) l' c
  end.

(** [AccountsOnDemand::get_program_accounts], accounts-on-demand/src/accounts_on_demand.rs:210-289. *)
Definition od_get_program_accounts (od : AccountsOnDemand S) (program : Pubkey)
    (filters : option (list RpcFilterType)) (c : Commitment) :
    outcome (option (list AccountData) * AccountsOnDemand S) :=
  r ← as_get_program_accounts (od_storage od) program filters c;
  let od1 := od_set_storage od (snd r) in
  match fst r with
  | Some accounts => Done (Some accounts, od1)
  | None =>
      let account_filter := mkAccountFilter [] (Some (pubkey_to_string program))
        (match filters with Some v => Some (filter_type_from memcmp_bytes <$> v) | None => None end) in
      if decide (account_filter ∈ od_program_filters od1) then Done (None, od1)
      else
        let od2 := refresh_subscription
          (mkOnDemand (od_storage od1) (od_subscribed od1) (od_program_filters od1 ++ [account_filter])
             (od_watch od1) (od_loading od1) (od_next_notify od1)) in
        match rpc_get_program_accounts program filters (into_commiment_config c) with
        | Ok fetched =>
            let accounts := (fun '(pk, account) => mkAccountData pk account 0) <$> fetched in
            s' ← od_cache_accounts (od_storage od2) accounts c;
            Done (Some accounts, od_set_storage od2 s')
        | Err _ => Done (None, od2)
        end
  end.
End program_accounts.
End on_demand.

(** [SubscriptionManger::new], accounts-on-demand/src/subscription_manager.rs:35-69: the
    task that stores and forwards what the geyser streams deliver. *)
Inductive subscription_event :=
| SmMessage (m : AccountNotificationMessage)
| SmLagged (n : Z)
| SmClosed.

Definition subscription_manager_step {S} `{AccountStorage S} (s : S) (e : subscription_event) :
    outcome (S * list AccountNotificationMessage) :=
  match e with
  | SmMessage m =>
      match as_update_account s (an_data m) (an_commitment m) with
      | Done (_, s') => Done (s', [m])
      | Panic => Panic
      end
  | SmLagged _ => Done (s, [])
  | SmClosed => Panic
  end.

(** The filters the geyser streams are running with:
    [create_grpc_account_streaming_tasks], accounts-on-demand/src/subscription_manager.rs:81-152.
    A change of the filters starts new streams, which replace the running ones
    only when they deliver within a minute. *)
Definition restart_streams (current : option (list AccountFilter)) (new : list AccountFilter)
    (has_started : bool) : option (list AccountFilter) :=
  match current with
  | None => Some new
  | Some _ => if has_started then Some new else current
  end.

(** ** Lemmas *)

Section service_lemmas.
Context {S : Type} `{AccountStorage S} {inv : S -> Prop} {view : S -> Pubkey -> Commitment -> option AccountData}.
Context `{!AccountStorageOk S inv view}.

Definition views_le (s1 s2 : S) : Prop := forall pk c, slot_le (view s1 pk c) (view s2 pk c).

#[export] Instance views_le_preorder : PreOrder views_le.
Proof.
  split; [by intros s pk c|]. intros s1 s2 s3 H1 H2 pk c. by transitivity (view s2 pk c).
Qed.

Lemma process_account_stream_ok s e :
  inv s -> exists s' out, process_account_stream s e = Done (s', out) /\ inv s' /\ views_le s s'.
Proof.
  intros Hi. destruct e as [m|b|n]; cbn [process_account_stream].
  - destruct (as_update_ok s (an_data m) (an_commitment m) Hi) as (u & s' & -> & ? & ? & _). eauto.
  - destruct (is_processed _); [by exists s, []|].
    destruct (as_process_ok s (bi_slot b) (commitment_of_config (bi_commitment_config b)) Hi)
      as (l & s' & -> & ? & ?). eauto.
  - by exists s, [].
Qed.

Lemma process_account_streams_ok s es :
  inv s -> exists s' out, orun process_account_stream s es = Done (s', out) /\ inv s' /\ views_le s s'.
Proof.
  apply (orun_total process_account_stream (fun _ => True) inv views_le); [|by apply Forall_true].
  intros. by apply process_account_stream_ok.
Qed.

Section populate_lemmas.
Context (rpc_get_multiple_accounts : nat -> list Pubkey -> result string (list (option Account) * Slot)).
Context (rpc_len : forall n l r slot, rpc_get_multiple_accounts n l = Ok (r, slot) -> length r = length l).

Lemma fetch_batch_len attempts n l :
  (length (fetch_batch rpc_get_multiple_accounts attempts n l).1 <= length l)%nat.
Proof.
  revert n. induction attempts as [|k IH]; intros n; simpl; [lia|].
  destruct (rpc_get_multiple_accounts n l) as [[r slot]|] eqn:E; [|done]. simpl. by rewrite (rpc_len _ _ _ _ E).
Qed.

(** Storing a batch never panics, and makes each answered account visible. *)
Lemma store_batch_ok s index accounts fetched slot :
  inv s -> (index + length fetched <= length accounts)%nat ->
  exists s', store_batch s index accounts fetched slot = Done s' /\ inv s' /\ views_le s s' /\
    forall i pk acc c, fetched !! i = Some (Some acc) -> accounts !! (index + i)%nat = Some pk ->
      slot_at_least (view s' pk c) slot.
Proof.
  revert s index. induction fetched as [|[acc|] fetched IH]; intros s index Hi Hl; simpl in *.
  - by exists s.
  - destruct (lookup_lt_is_Some_2 accounts index) as [pk Hpk]; [lia|]. rewrite Hpk. simpl.
    destruct (as_initialize_ok s (mkAccountData pk acc slot) Hi) as (s1 & -> & Hi1 & Hle1 & Hr1). simpl.
    destruct (IH s1 (Datatypes.S index) Hi1) as (s2 & -> & Hi2 & Hle2 & Hr2); [lia|].
    exists s2. split_and!; [done..|by transitivity s1|]. intros [|i] pk' acc' c Hx Hp.
    + rewrite Nat.add_0_r in Hp. simplify_eq. eapply slot_at_least_le; [apply (Hr1 c)|apply Hle2].
    + eapply (Hr2 i); [done|]. by rewrite Nat.add_succ_r in Hp.
  - destruct (IH s (Datatypes.S index) Hi) as (s2 & -> & Hi2 & Hle2 & Hr2); [lia|].
    exists s2. split_and!; try done. intros [|i] pk' acc' c Hx Hp; [done|].
    eapply (Hr2 i); [done|]. by rewrite Nat.add_succ_r in Hp.
Qed.

Lemma store_batches_ok s batches :
  inv s ->
  exists s', store_batches rpc_get_multiple_accounts s batches = Done s' /\ inv s' /\ views_le s s' /\
    forall accounts i pk acc c, accounts ∈ batches -> accounts !! i = Some pk ->
      (fetch_batch rpc_get_multiple_accounts NB_RETRY 0 accounts).1 !! i = Some (Some acc) ->
      slot_at_least (view s' pk c) (fetch_batch rpc_get_multiple_accounts NB_RETRY 0 accounts).2.
Proof.
  revert s. induction batches as [|accounts batches IH]; intros s Hi; cbn [store_batches].
  - exists s. split_and!; try done. intros ????? Hx. by apply not_elem_of_nil in Hx.
  - pose proof (fetch_batch_len NB_RETRY 0 accounts) as Hlen.
    destruct (fetch_batch _ NB_RETRY 0 accounts) as [fetched slot] eqn:E. cbn [fst] in Hlen.
    destruct (store_batch_ok s 0 accounts fetched slot Hi) as (s1 & -> & Hi1 & Hle1 & Hr1); [simpl; lia|].
    cbn [mbind outcome_bind]. destruct (IH s1 Hi1) as (s2 & -> & Hi2 & Hle2 & Hr2).
    exists s2. split_and!; [done..|by transitivity s1|].
    intros accounts' i pk acc c [->|Hin]%elem_of_cons Hp Hf; [|by eapply Hr2].
    rewrite E in *. eapply slot_at_least_le; [|apply Hle2]. by eapply (Hr1 i).
Qed.

Lemma store_outer_ok s outer :
  inv s ->
  exists s', store_outer rpc_get_multiple_accounts s outer = Done s' /\ inv s' /\ views_le s s' /\
    forall batch, batch ∈ outer -> exists batches, chunks NB_ACCOUNTS_IN_GMA batch = Done batches /\
      forall accounts i pk acc c, accounts ∈ batches -> accounts !! i = Some pk ->
        (fetch_batch rpc_get_multiple_accounts NB_RETRY 0 accounts).1 !! i = Some (Some acc) ->
        slot_at_least (view s' pk c) (fetch_batch rpc_get_multiple_accounts NB_RETRY 0 accounts).2.
Proof.
  revert s. induction outer as [|batch outer IH]; intros s Hi; cbn [store_outer].
  - exists s. split_and!; try done. intros ? Hx. by apply not_elem_of_nil in Hx.
  - assert (chunks NB_ACCOUNTS_IN_GMA batch = Done (chunks_fuel (length batch) NB_ACCOUNTS_IN_GMA batch)) as E.
    { done. }
    rewrite E. cbn [mbind outcome_bind].
    destruct (store_batches_ok s (chunks_fuel (length batch) NB_ACCOUNTS_IN_GMA batch) Hi)
      as (s1 & -> & Hi1 & Hle1 & Hr1). cbn [mbind outcome_bind].
    destruct (IH s1 Hi1) as (s2 & -> & Hi2 & Hle2 & Hr2).
    exists s2. split_and!; [done..|by transitivity s1|].
    intros batch' [->|Hin]%elem_of_cons; [|by apply Hr2].
    eexists. split; [done|]. intros accounts i pk acc c Hin Hp Hf.
    eapply slot_at_least_le; [by eapply Hr1|apply Hle2].
Qed.

(** An answer of one of the attempts is the answer of the batch. *)
Lemma fetch_batch_answers (P : list (option Account) * Slot -> Prop) attempts n l :
  (forall k r, rpc_get_multiple_accounts k l = Ok r -> P r) ->
  (exists k, (n <= k < n + attempts)%nat /\ is_ok (rpc_get_multiple_accounts k l) = true) ->
  P (fetch_batch rpc_get_multiple_accounts attempts n l).
Proof.
  intros HP. revert n. induction attempts as [|m IH]; intros n (k & Hk & Hok); simpl; [lia|].
  destruct (rpc_get_multiple_accounts n l) as [r|e] eqn:E; [by eapply HP|].
  apply IH. exists k. split; [|done]. destruct (decide (k = n)) as [->|]; [by rewrite E in Hok|lia].
Qed.
End populate_lemmas.
End service_lemmas.

(** *** Accounts on demand *)

Section on_demand_lemmas.
Context {S : Type} `{AccountStorage S} (pubkey_to_string : Pubkey -> string).

Definition is_loader (pk : Pubkey) (t : od_task) : Prop :=
  ot_pk t = pk /\
  match ot_pc t with OdRefresh | OdFetching _ | OdFetched _ => True | _ => False end.

#[export] Instance is_loader_dec pk t : Decision (is_loader pk t).
Proof. unfold is_loader. destruct (ot_pc t); apply _. Defined.

Definition loader_at (tasks : list od_task) (pk : Pubkey) (i : nat) : Prop :=
  exists t, tasks !! i = Some t /\ is_loader pk t.

(** Accounts that were loaded are subscribed, none is loaded twice, and an
    account is registered as loading exactly when a call is loading it. *)
Definition od_inv (sys : od_system (S := S)) : Prop :=
  NoDup (sys_loads sys) /\
  (forall pk, pk ∈ sys_loads sys -> pk ∈ od_subscribed (sys_od sys)) /\
  (forall pk, is_Some (od_loading (sys_od sys) !! pk) <-> exists i, loader_at (sys_tasks sys) pk i) /\
  (forall pk i j, loader_at (sys_tasks sys) pk i -> loader_at (sys_tasks sys) pk j -> i = j).

Lemma is_loader_wake pk fired t : is_loader pk (wake fired t) <-> is_loader pk t.
Proof.
  destruct t as [pk' c pc]. unfold wake, is_loader. simpl.
  destruct fired as [n|], pc as [| |?|m []| | | |]; simpl; try done. by case_decide.
Qed.

Ltac od_solve := simplify_eq; simpl; split_and!; try done; first [discriminate|by intros []|tauto].

(** How one piece of a call changes the bookkeeping. *)
Lemma od_step_effect od pk c pc ch od' pc' fired :
  od_get_account_step pubkey_to_string od pk c pc ch = Some (od', pc', fired) ->
  let loader pc := is_loader pk (mkOdTask pk c pc) in
  (* the load starts *)
  (pk ∉ od_subscribed od /\ od_subscribed od' = {[pk]} ∪ od_subscribed od /\ od_loading od !! pk = None /\
     (exists n, od_loading od' = <[pk := n]> (od_loading od)) /\ ~ loader pc /\ pc' = OdRefresh) \/
  (* the load ends *)
  (od_subscribed od' = od_subscribed od /\ od_loading od' = delete pk (od_loading od) /\
     loader pc /\ ~ loader pc' /\ pc' <> OdRefresh) \/
  (* neither *)
  (od_subscribed od' = od_subscribed od /\ od_loading od' = od_loading od /\
     (loader pc <-> loader pc') /\ pc' <> OdRefresh).
Proof.
  unfold od_get_account_step, is_loader. simpl. intros Hs.
  destruct pc as [| |n|n w| |att|d|r], ch as [| |r0]; try done; simpl in *.
  - right; right. destruct (as_get_account _ _ _) as [[[[d|]|e] s']|]; by od_solve.
  - destruct (od_loading od !! pk) eqn:El; [right; right; by od_solve|].
    case_decide; [right; right; by od_solve|]. left. simplify_eq. split_and!; eauto. by intros [].
  - right; right. by od_solve.
  - destruct w; [|done]. right; right. destruct (as_get_account _ _ _) as [[r s']|]; by od_solve.
  - destruct w; [done|]. right; right. by od_solve.
  - by destruct w.
  - right; right. by od_solve.
  - right; right. destruct r0 as [[[acc|] slot]|e]; [|by od_solve|case_decide; by od_solve].
    destruct (as_update_account _ _ _) as [[b s']|]; by od_solve.
  - right; left. by od_solve.
Qed.

Lemma loader_at_stepped fired i t t' tasks pk j :
  tasks !! i = Some t ->
  loader_at (wake fired <$> <[i := t']> tasks) pk j <->
  (j = i /\ is_loader pk t') \/ (j <> i /\ loader_at tasks pk j).
Proof.
  intros Hi%lookup_lt_Some. unfold loader_at. rewrite list_lookup_fmap.
  destruct (decide (j = i)) as [->|Hne].
  - rewrite list_lookup_insert_eq by done. simpl. split.
    + intros (u & [= <-] & Hu%is_loader_wake). by left.
    + intros [[_ Hu]|[? _]]; [|done]. eexists. split; [done|]. by apply is_loader_wake.
  - rewrite list_lookup_insert_ne by done. split.
    + intros (u & (v & Hv & ->)%fmap_Some & Hu%is_loader_wake). right. eauto.
    + intros [[? _]|[_ (u & -> & Hu)]]; [done|]. eexists. split; [done|]. by apply is_loader_wake.
Qed.

Lemma od_inv_call sys pk c :
  od_inv sys -> od_inv (mkOdSystem (sys_od sys) (sys_tasks sys ++ [mkOdTask pk c OdStart]) (sys_loads sys)).
Proof.
  intros (Hn & Hl & Hload & Huniq).
  assert (forall pk' i, loader_at (sys_tasks sys ++ [mkOdTask pk c OdStart]) pk' i <->
                        loader_at (sys_tasks sys) pk' i) as E.
  { intros pk' i. split; intros (t & Ht & Hlt).
    - apply lookup_app_Some in Ht as [Ht|[_ Ht]]; [by exists t|].
      apply list_lookup_singleton_Some in Ht as [_ <-]. by destruct Hlt.
    - exists t. split; [by apply lookup_app_l_Some|done]. }
  split_and!; simpl; [done..| |].
  - intros pk'. rewrite Hload. by setoid_rewrite E.
  - intros pk' i j. rewrite !E. apply Huniq.
Qed.

Lemma is_loader_other pk pk' c pc : is_loader pk (mkOdTask pk' c pc) -> pk = pk'.
Proof. by intros [<- _]. Qed.

(** The loaders after a piece of the call [i] of [pk], from how it changes the
    loading map. *)
Lemma loaders_stepped tasks tasks' (m m' : gmap Pubkey nat) pk i (old new : Prop) :
  (forall q j, loader_at tasks' q j <->
     (j = i /\ q = pk /\ new) \/ (j <> i /\ loader_at tasks q j)) ->
  (forall q, loader_at tasks q i <-> q = pk /\ old) ->
  (forall q, q <> pk -> m' !! q = m !! q) ->
  (m !! pk = None /\ is_Some (m' !! pk) /\ ~ old /\ new) \/
  (m' !! pk = None /\ old /\ ~ new) \/ (m' !! pk = m !! pk /\ (old <-> new)) ->
  (forall q, is_Some (m !! q) <-> exists j, loader_at tasks q j) ->
  (forall q j k, loader_at tasks q j -> loader_at tasks q k -> j = k) ->
  (forall q, is_Some (m' !! q) <-> exists j, loader_at tasks' q j) /\
  (forall q j k, loader_at tasks' q j -> loader_at tasks' q k -> j = k).
Proof.
  intros Hnew Hold Hm Hcase Hload Huniq. split.
  - intros q. setoid_rewrite Hnew. destruct (decide (q = pk)) as [->|Hne].
    + specialize (Hload pk). destruct Hcase as [(H1 & H2 & H3 & H4)|[(H1 & H2 & H3)|(H1 & H2)]].
      * split; [|done]. intros _. exists i. by left.
      * rewrite H1. split; [by intros []|]. intros (j & [[_ [_ ?]]|[Hj Hlj]]); [done|].
        exfalso. apply Hj. eapply Huniq; [done|]. by apply Hold.
      * rewrite H1, Hload. split; intros [j Hj]; exists j.
        -- destruct (decide (j = i)) as [->|]; [left; apply Hold in Hj; naive_solver|by right].
        -- destruct Hj as [(-> & _ & Hn)|[_ Hj]]; [apply Hold; naive_solver|done].
    + rewrite Hm, Hload by done. split; intros [j Hj]; exists j.
      * right. split; [|done]. intros ->. apply Hold in Hj as [? _]. done.
      * destruct Hj as [(_ & ? & _)|[_ Hj]]; done.
  - intros q j k [(-> & -> & Hn)|[Hj Hlj]]%Hnew [(-> & Hq & Hn')|[Hk Hlk]]%Hnew; try done;
      [exfalso..|by eapply Huniq]; subst;
      (destruct Hcase as [(H1 & _)|[(_ & _ & ?)|(_ & Ho)]]; [|done|]).
    1,3: assert (is_Some (m !! pk)) as [? ?] by (apply Hload; eauto); congruence.
    + apply Hk. eapply Huniq; [done|]. apply Hold. naive_solver.
    + apply Hj. eapply Huniq; [done|]. apply Hold. naive_solver.
Qed.

Lemma od_inv_step sys i t ch od' pc' fired :
  od_inv sys -> sys_tasks sys !! i = Some t ->
  od_get_account_step pubkey_to_string (sys_od sys) (ot_pk t) (ot_commitment t) (ot_pc t) ch =
    Some (od', pc', fired) ->
  od_inv (mkOdSystem od' (wake fired <$> <[i := mkOdTask (ot_pk t) (ot_commitment t) pc']> (sys_tasks sys))
            (match pc' with OdRefresh => sys_loads sys ++ [ot_pk t] | _ => sys_loads sys end)).
Proof.
  intros (Hn & Hl & Hload & Huniq) Ht Hs. destruct t as [pk c pc]; cbn [ot_pk ot_commitment ot_pc] in *.
  apply od_step_effect in Hs.
  destruct (loaders_stepped (sys_tasks sys)
    (wake fired <$> <[i := mkOdTask pk c pc']> (sys_tasks sys)) (od_loading (sys_od sys)) (od_loading od')
    pk i (is_loader pk (mkOdTask pk c pc)) (is_loader pk (mkOdTask pk c pc'))) as [Hload' Huniq'];
    [| | | |done..|].
  - intros q j. rewrite (loader_at_stepped fired i _ _ _ q j Ht).
    unfold is_loader. simpl. naive_solver.
  - intros q. unfold loader_at, is_loader. rewrite Ht. simpl. naive_solver.
  - intros q Hq. destruct Hs as [(_ & _ & _ & (n & ->) & _)|[(_ & -> & _)|(_ & -> & _)]];
      [by apply lookup_insert_ne|by apply lookup_delete_ne|done].
  - destruct Hs as [(_ & _ & H1 & (n & ->) & H2 & ->)|[(_ & -> & H1 & H2 & _)|(_ & -> & H1 & _)]].
    + left. rewrite lookup_insert_eq. by eauto.
    + right; left. by rewrite lookup_delete_eq.
    + by right; right.
  - destruct Hs as [(Hnin & Hsub & _ & _ & _ & ->)|Hs].
    + split_and!; simpl; [|rewrite Hsub; set_solver|done..].
      apply NoDup_app. split_and!; [done| |apply NoDup_singleton].
      intros q Hq ->%list_elem_of_singleton. by apply Hnin, Hl.
    + assert (od_subscribed od' = od_subscribed (sys_od sys) /\ pc' <> OdRefresh) as [Hsub Hpc] by naive_solver.
      replace (match pc' with OdRefresh => _ | _ => _ end) with (sys_loads sys) by (by destruct pc').
      split_and!; simpl; [done|by rewrite Hsub|done..].
Qed.

Lemma od_act_inv sys a sys' : od_inv sys -> od_act pubkey_to_string sys a = Some sys' -> od_inv sys'.
Proof.
  intros Hinv. destruct a as [pk c|i ch|d c]; simpl.
  - intros [= <-]. by apply od_inv_call.
  - destruct (sys_tasks sys !! i) as [t|] eqn:Ht; [|done]. simpl.
    destruct (od_get_account_step _ _ _ _ _ _) as [[[od' pc'] fired]|] eqn:Hs; [|done].
    intros [= <-]. by eapply od_inv_step.
  - destruct (as_update_account _ _ _) as [[b s']|]; [|done]. by intros [= <-].
Qed.

Lemma od_acts_inv sys l sys' : od_inv sys -> od_acts pubkey_to_string sys l = Some sys' -> od_inv sys'.
Proof.
  unfold od_acts. revert sys. induction l as [|a l IH]; intros sys Hi; [by intros [= <-]|].
  cbn [foldl mbind option_bind]. destruct (od_act pubkey_to_string sys a) as [sys1|] eqn:E.
  - apply IH. by eapply od_act_inv.
  - intros Hx. exfalso. clear -Hx. induction l as [|b l IH]; [done|]. by apply IH.
Qed.

Lemma od_inv_new s : od_inv (mkOdSystem (on_demand_new s) [] []).
Proof.
  split_and!; simpl; [constructor|by intros ? ?%not_elem_of_nil| |].
  - intros pk. rewrite lookup_empty. split; [by intros []|by intros (i & t & Ht & _)].
  - by intros pk i j (t & Ht & _).
Qed.
End on_demand_lemmas.

(** ** Properties *)

(** The slots the service answers with never go back: whatever account
    notifications and block infos its two tasks process, in whatever order,
    neither task panics, and an account that could be read at a commitment can
    still be read at it, with data at least as recent; the account itself is
    returned exactly when the data satisfies the minimum context slot. *)
Theorem service_reads_monotone {S : Type} `{AccountStorage S} (inv : S -> Prop)
    (view : S -> Pubkey -> Commitment -> option AccountData) `{!AccountStorageOk S inv view}
    {UiAccount : Type} (base64 : Z) (encode : Pubkey -> Account -> Z -> option (Z * Z) -> UiAccount)
    (s : S) (es : list account_event) :
  inv s ->
  exists s' out, orun process_account_stream s es = Done (s', out) /\
    forall pk config d,
      view s pk (commitment_of_config (default cc_default (c ← config; ac_commitment c))) = Some d ->
      exists d', ad_updated_slot d <= ad_updated_slot d' /\
        service_get_account base64 encode s' pk config =
        Done (Ok (ad_updated_slot d',
                  if default 0 (c ← config; ac_min_context_slot c) <=? ad_updated_slot d'
                  then Some (convert_account_data_to_ui_account base64 encode d' config) else None), s').
Proof.
  intros Hi. destruct (process_account_streams_ok s es Hi) as (s' & out & E & Hi' & Hle).
  exists s', out. split; [done|]. intros pk config d Hd. unfold service_get_account.
  set (c := commitment_of_config _) in *. specialize (Hle pk c). rewrite Hd in Hle.
  destruct (view s' pk c) as [d'|] eqn:Hd'; [|done]. exists d'. split; [done|].
  rewrite (as_get_known s' pk c d' Hi' Hd'). cbn [mbind outcome_bind].
  by destruct (_ <=? _).
Qed.

Lemma service_reads_monotone_witness :
  exists s' out,
    orun (process_account_stream (H := inmemory_storage (fun _ _ => true)))
      (mkAccountStore {[7 := abc_new (sample_account 7 1 10) Finalized]} ∅ {[1 := {[7]}]})
      [AeAccount (mkAccountNotification (sample_account 7 1 11) Processed);
       AeBlock (mkBlockInfo 11 10 9 77 cc_confirmed 0); AeLagged 3;
       AeBlock (mkBlockInfo 11 10 9 77 cc_finalized 0)] = Done (s', out) /\
    forall pk config d,
      view (mkAccountStore {[7 := abc_new (sample_account 7 1 10) Finalized]} ∅ {[1 := {[7]}]}) pk
        (commitment_of_config (default cc_default (c ← config; ac_commitment c))) = Some d ->
      exists d', ad_updated_slot d <= ad_updated_slot d' /\
        service_get_account (H := inmemory_storage (fun _ _ => true)) 0 (fun pk _ _ _ => pk) s' pk config =
        Done (Ok (ad_updated_slot d',
                  if default 0 (c ← config; ac_min_context_slot c) <=? ad_updated_slot d'
                  then Some (convert_account_data_to_ui_account 0 (fun pk _ _ _ => pk) d' config)
                  else None), s').
Proof.
  apply (service_reads_monotone (H := inmemory_storage (fun _ _ => true)) store_inv view).
  unfold store_inv. simpl. apply map_Forall_singleton.
  apply (abc_new_wf (sample_account 7 1 10) Finalized).
Defined.

(** Warming up the account store: when the filters are well formed, the
    node answers every batch within ten attempts and answers one entry per
    requested account, [populate_from_rpc] succeeds, never panics, and every
    account the node has is afterwards visible at every commitment with data
    at least as recent as the node's answers. *)
Theorem populate_visible {S : Type} `{AccountStorage S} (inv : S -> Prop)
    (view : S -> Pubkey -> Commitment -> option AccountData) `{!AccountStorageOk S inv view}
    (pubkey_from_str : string -> option Pubkey)
    (rpc_gpa : Pubkey -> option (list RpcFilterType) -> result string (list Pubkey))
    (rpc_gma : nat -> list Pubkey -> result string (list (option Account) * Slot))
    (s : S) (filters : list AccountFilter) (accounts : list Pubkey) (max_request_in_parallel : nat)
    (pk : Pubkey) (slot : Slot) (c : Commitment) :
  inv s -> (0 < max_request_in_parallel)%nat ->
  filter_accounts pubkey_from_str rpc_gpa filters = Done (Ok accounts) ->
  (forall n l r t, rpc_gma n l = Ok (r, t) -> length r = length l) ->
  (forall l, exists n, (n < NB_RETRY)%nat /\ is_ok (rpc_gma n l) = true) ->
  (forall n l r t i, rpc_gma n l = Ok (r, t) -> l !! i = Some pk ->
     slot <= t /\ exists acc, r !! i = Some (Some acc)) ->
  pk ∈ accounts ->
  exists s', populate_from_rpc pubkey_from_str rpc_gpa rpc_gma s filters max_request_in_parallel =
      Done (Ok s') /\ inv s' /\ slot_at_least (view s' pk c) slot.
Proof.
  intros Hi Hmax Hacc Hlen Hok Hpk Hin. unfold populate_from_rpc. rewrite Hacc. cbn [mbind outcome_bind].
  destruct (chunks (max_request_in_parallel * NB_ACCOUNTS_IN_GMA) accounts) as [outer|] eqn:Ho;
    [|unfold chunks in Ho; case_decide; [unfold NB_ACCOUNTS_IN_GMA in *; lia|done]].
  cbn [mbind outcome_bind].
  destruct (store_outer_ok rpc_gma Hlen s outer Hi) as (s' & -> & Hi' & _ & Hr). cbn [mbind outcome_bind].
  exists s'. split_and!; [done..|].
  destruct (chunks_elem _ _ _ _ Ho Hin) as (batch & Hb & Hx).
  destruct (Hr batch Hb) as (batches & Hc & Hr').
  destruct (chunks_elem _ _ _ _ Hc Hx) as (l & Hl & [i Hli]%list_elem_of_lookup).
  destruct (fetch_batch_answers rpc_gma (fun r => slot <= r.2 /\ exists acc, r.1 !! i = Some (Some acc))
    NB_RETRY 0 l) as [Hs [acc Ha]].
  - intros k [r t] Hk. by eapply Hpk.
  - destruct (Hok l) as (n & Hn & Hn'). exists n. split; [lia|done].
  - pose proof (Hr' l i pk acc c Hl Hli Ha) as Hv. destruct (view s' pk c); simpl in *; [lia|done].
Qed.

Lemma populate_visible_witness :
  exists s', populate_from_rpc (H := inmemory_storage (fun _ _ => true)) (fun _ => Some 7) (fun _ _ => Ok [8])
      (fun n l => if decide (n = 0%nat) then Err "busy"%string
                  else Ok ((fun pk => Some (mkAccount pk [] 1 false 0)) <$> l, 42))
      account_store_new [mkAccountFilter ["a"%string] (Some "p"%string) None] 2 = Done (Ok s') /\
    store_inv s' /\ slot_at_least (view s' 8 Processed) 40.
Proof.
  apply (populate_visible (H := inmemory_storage (fun _ _ => true)) store_inv view) with (accounts := [7; 8]).
  - apply store_inv_new.
  - lia.
  - reflexivity.
  - intros n l r t. case_decide; intros; simplify_eq. by rewrite length_fmap.
  - intros l. exists 1%nat. split; [unfold NB_RETRY; lia|done].
  - intros n l r t i. case_decide; intros ? Hl; simplify_eq. split; [lia|].
    rewrite list_lookup_fmap, Hl. simpl. eauto.
  - set_solver.
Defined.

(** C32. However the calls for missing accounts interleave, with each other,
    with the answers and failures of the node and with account updates, the
    node is asked to load each account by at most one of them, ever; and an
    account is registered as loading exactly when one call, and only one, is
    still loading it, so no registration is left behind to be waited for. *)
Theorem on_demand_loads_once {S : Type} `{AccountStorage S} (pubkey_to_string : Pubkey -> string)
    (s : S) (actions : list od_action) (sys : od_system) :
  od_acts pubkey_to_string (mkOdSystem (on_demand_new s) [] []) actions = Some sys ->
  NoDup (sys_loads sys) /\
  forall pk, (is_Some (od_loading (sys_od sys) !! pk) <-> exists i, loader_at (sys_tasks sys) pk i) /\
    forall i j, loader_at (sys_tasks sys) pk i -> loader_at (sys_tasks sys) pk j -> i = j.
Proof.
  intros Ha. destruct (od_acts_inv _ _ _ _ (od_inv_new s) Ha) as (Hn & _ & Hload & Huniq).
  split; [done|]. intros pk. split; [apply Hload|apply Huniq].
Qed.

Definition two_calls : list od_action :=
  [ActCall 7 Confirmed; ActCall 7 Confirmed; ActStep 0 ChGo; ActStep 1 ChGo; ActStep 0 ChGo; ActStep 0 ChGo].

Definition node_answer : od_choice := ChRpc (Ok (Some (mkAccount 5 [] 1 false 0), 20)).

Lemma on_demand_loads_once_witness :
  match od_acts (H := inmemory_storage (fun _ _ => true)) (fun _ => "k"%string)
          (mkOdSystem (on_demand_new account_store_new) [] []) two_calls with
  | Some sys => NoDup (sys_loads sys) /\
      forall pk, (is_Some (od_loading (sys_od sys) !! pk) <-> exists i, loader_at (sys_tasks sys) pk i) /\
        forall i j, loader_at (sys_tasks sys) pk i -> loader_at (sys_tasks sys) pk j -> i = j
  | None => False
  end.
Proof.
  destruct (od_acts _ _ _) as [sys|] eqn:E; [|vm_compute in E; discriminate].
  exact (on_demand_loads_once (H := inmemory_storage (fun _ _ => true)) _ _ _ _ E).
Defined.

(** Two calls for the same missing account race: the call that looked
    into the store before the load ended and takes the lock after it answers
    that the account does not exist; and the call that found the load in
    progress but starts waiting only after the load has notified its waiters
    is not woken, cannot proceed, and answers with a timeout.  In both cases
    the store holds the account. *)
Theorem on_demand_misses_loaded_account :
  let acts := od_acts (H := inmemory_storage (fun _ _ => true)) (fun _ => "k"%string)
    (mkOdSystem (on_demand_new account_store_new) [] []) in
  let holds sys := store_get_account (od_storage (sys_od sys)) 7 Confirmed =
    Ok (Some (mkAccountData 7 (mkAccount 5 [] 1 false 0) 20)) in
  (exists sys, acts (two_calls ++ [ActStep 0 node_answer; ActStep 0 ChGo; ActStep 1 ChGo]) = Some sys /\
     ot_pc <$> sys_tasks sys !! 1%nat = Some (OdDone (Ok None)) /\ holds sys) /\
  (exists sys, acts (two_calls ++ [ActStep 1 ChGo; ActStep 0 node_answer; ActStep 0 ChGo; ActStep 1 ChGo]) =
       Some sys /\
     holds sys /\ od_act (H := inmemory_storage (fun _ _ => true)) (fun _ => "k"%string) sys (ActStep 1 ChGo) = None /\
     exists sys', od_act (H := inmemory_storage (fun _ _ => true)) (fun _ => "k"%string) sys (ActStep 1 ChTimeout) =
         Some sys' /\
       ot_pc <$> sys_tasks sys' !! 1%nat = Some (OdDone (Err OperationTimeOut))).
Proof.
  split; eexists; (split; [vm_compute; reflexivity|]); [split; vm_compute; reflexivity|].
  split; [vm_compute; reflexivity|]. split; [vm_compute; reflexivity|].
  eexists. split; vm_compute; reflexivity.
Qed.

(** A node that owns two accounts of program 1, of one and of two bytes. *)
Definition sample_node (program : Pubkey) (filters : option (list RpcFilterType)) (_ : CommitmentConfig) :
    result string (list (Pubkey * Account)) :=
  Ok (filter (fun '(pk, account) =>
        acc_owner account = program /\
        matches (fun _ _ => true) filters (mkAccountData pk account 0) = true)
      [(7, mkAccount 5 [0] 1 false 0); (8, mkAccount 5 [0; 0] 1 false 0)]).

(** Once a program's accounts were loaded for one filter, the store
    answers every later query for the program: after a query for the accounts
    of two bytes, the query without a filter answers with that account only,
    although the node has another one; asked in the other order, both are
    returned. *)
Theorem on_demand_program_incomplete :
  let query od filters := od_get_program_accounts (H := inmemory_storage (fun _ _ => true)) (fun _ => "k"%string)
    (fun _ => None) sample_node od 1 filters Confirmed in
  exists od1 od2 od3,
    query (on_demand_new account_store_new) (Some [RfDataSize 2]) =
      Done (Some [mkAccountData 8 (mkAccount 5 [0; 0] 1 false 0) 0], od1) /\
    query od1 None = Done (Some [mkAccountData 8 (mkAccount 5 [0; 0] 1 false 0) 0], od2) /\
    query (on_demand_new account_store_new) None =
      Done (Some [mkAccountData 7 (mkAccount 5 [0] 1 false 0) 0;
                  mkAccountData 8 (mkAccount 5 [0; 0] 1 false 0) 0], od3).
Proof.
  simpl. eexists _, _, _. split; [vm_compute; reflexivity|]. split; vm_compute; reflexivity.
Qed.
