(* ===== verification/BlockMapping.v ===== *)
(** * From blocks on the wire to [ProducedBlock]

    The two mappings of a block into the program's own structure: the one of
    the geyser stream (cluster-endpoints/src/grpc_subscription.rs) and the one
    of the JSON RPC (cluster-endpoints/src/rpc_polling/poll_blocks.rs), with
    [hash_from_str] of core/src/solana_utils.rs.  Decoders of the Solana SDK are
    parameters. *)

From S2P Require Import Prelude Types.

(** ** Rewards *)

Inductive RewardType := RtFee | RtRent | RtStaking | RtVoting.

#[export] Instance RewardType_eq_dec : EqDecision RewardType.
Proof. solve_decision. Defined.

Record Reward := mkReward {
  rw_pubkey : string;
  rw_lamports : Z;
  rw_post_balance : Z;
  rw_reward_type : option RewardType;
  rw_commission : option Z;
}.

(** ** The geyser protocol, as far as the mapping reads it *)

Record GrpcMessage := mkGrpcMessage {
  gm_header : option (Z * Z * Z);
  gm_account_keys : list (list Z);
  gm_recent_blockhash : list Z;
  gm_instructions : list CompiledInstruction;
  gm_address_table_lookups : list (list Z * list Z * list Z);
}.

Record GrpcTransaction := mkGrpcTransaction {
  gt_signature : list Z;
  (* the meta: the serialised error, if any, and the units consumed *)
  gt_meta : option (option (list Z) * option Z);
  (* the transaction, which may lack its message *)
  gt_transaction : option (option GrpcMessage);
}.

(** A reward type on the wire: [None] is [Unspecified]. *)
Record GrpcReward := mkGrpcReward {
  gr_pubkey : string;
  gr_lamports : Z;
  gr_post_balance : Z;
  gr_reward_type : option RewardType;
}.

Record SubscribeUpdateBlock := mkUpdateBlock {
  ub_slot : Slot;
  ub_blockhash : string;
  ub_rewards : option (list GrpcReward);
  ub_block_time : option Z;
  ub_block_height : option Z;
  ub_parent_slot : Slot;
  ub_parent_blockhash : string;
  ub_transactions : list GrpcTransaction;
}.

(** ** The JSON RPC's block *)

(** [EncodedTransactionWithStatusMeta]: [ut_transaction] is the result of
    decoding it. *)
Record UiTransaction := mkUiTransaction {
  ut_meta : option (option string * option Z);
  ut_transaction : option VersionedTransaction;
}.

Record UiConfirmedBlock := mkUiBlock {
  uc_previous_blockhash : string;
  uc_blockhash : string;
  uc_parent_slot : Slot;
  uc_transactions : option (list UiTransaction);
  uc_rewards : option (list Reward);
  uc_block_time : option Z;
  uc_block_height : option Z;
}.

(** Keys, hashes and signatures are fixed-length arrays; [try_into] fails on
    any other length. *)
Definition array_of_bytes (n : nat) (bytes : list Z) : option Z :=
  if decide (length bytes = n) then Some (foldl (fun acc b => acc * 256 + b) 0 bytes) else None.
Definition key_of_bytes : list Z -> option Pubkey := array_of_bytes 32.
Definition hash_of_bytes : list Z -> option Hash := array_of_bytes 32.
Definition sig_of_bytes : list Z -> option Signature := array_of_bytes 64.

Inductive ParseHashError := WrongSize | Invalid.

Section mapping.
(** The SDK's decoders: base58, borsh and bincode; the program ids of the
    compute budget and the vote program; [is_maybe_writable]; and the
    serialisation of messages and rewards the structures carry. *)
Context (base58_decode : string -> option (list Z)).
Context (budget_of_bytes : list Z -> option ComputeBudgetInstruction).
Context (is_simple_vote : list Z -> bool) (error_of_bytes : list Z -> option string).
Context (compute_budget_id vote_id : Pubkey).
Context (is_maybe_writable : VersionedMessage -> nat -> bool).
Context (message_text : VersionedMessage -> string) (reward_text : Reward -> string).

Definition MAX_BASE58_LEN : nat := 44.

(** [hash_from_str], core/src/solana_utils.rs:50-62. *)
Definition hash_from_str (s : string) : result ParseHashError Hash :=
  if (MAX_BASE58_LEN <? String.length s)%nat then Err WrongSize
  else match base58_decode s with
       | None => Err Invalid
       | Some bytes => match hash_of_bytes bytes with Some h => Ok h | None => Err WrongSize end
       end.

(** [OnceCell::set], then [expect]. *)
Definition set_once {A} (cell : option A) (a : A) : outcome (option A) :=
  match cell with Some _ => Panic | None => Done (Some a) end.

(** The loop of
    [map_compute_budget_instructions], cluster-endpoints/src/grpc_subscription.rs:211-238. *)
Fixpoint budget_loop (keys : list Pubkey) (ixs : list CompiledInstruction) (cu fees : option Z) :
    outcome (option Z * option Z) :=
  match ixs with
  | [] => Done (cu, fees)
  | ix :: ixs' =>
      id ← program_id keys ix;
      if id =? compute_budget_id then
        match budget_of_bytes (ix_data ix) with
        | Some (SetComputeUnitLimit limit) => cu' ← set_once cu limit; budget_loop keys ixs' cu' fees
        | Some (SetComputeUnitPrice price) => fees' ← set_once fees price; budget_loop keys ixs' cu fees'
        | _ => budget_loop keys ixs' cu fees
        end
      else budget_loop keys ixs' cu fees
  end.

(** [map_compute_budget_instructions], cluster-endpoints/src/grpc_subscription.rs:207-243. *)
Definition map_compute_budget_instructions (m : VersionedMessage) : outcome (option Z * option Z) :=
  budget_loop (vm_account_keys m) (vm_instructions m) None None.

(** The vote test both mappings make:
    [from_grpc_block_update], cluster-endpoints/src/grpc_subscription.rs:117-123. *)
Fixpoint is_vote_message (keys : list Pubkey) (ixs : list CompiledInstruction) : outcome bool :=
  match ixs with
  | [] => Done false
  | ix :: ixs' =>
      id ← program_id keys ix;
      if (id =? vote_id) && is_simple_vote (ix_data ix) then Done true else is_vote_message keys ixs'
  end.

(** The keys whose index passes a test, in order. *)
Definition keys_where (f : nat -> bool) (keys : list Pubkey) : list Pubkey :=
  (filter (fun e => f e.1 = true) (imap pair keys)).*2.

(** The message of a transaction:
    [from_grpc_block_update], cluster-endpoints/src/grpc_subscription.rs:74-113. *)
Definition map_grpc_message (m : GrpcMessage) (header : Z * Z * Z) : outcome VersionedMessage :=
  keys ← mapM (fun b => unwrap (key_of_bytes b)) (gm_account_keys m);
  blockhash ← unwrap (hash_of_bytes (gm_recent_blockhash m));
  luts ← mapM (fun '(key, w, r) => pk ← unwrap (key_of_bytes key); Done (mkLookup pk w r))
           (gm_address_table_lookups m);
  let '(h1, h2, h3) := header in
  Done (mkVersionedMessage (mkMessageHeader (wrap_u8 h1) (wrap_u8 h2) (wrap_u8 h3)) keys blockhash
          ((fun ix => mkInstruction (wrap_u8 (ix_program_id_index ix)) (ix_accounts ix) (ix_data ix))
             <$> gm_instructions m) (Some luts)).

(** The structure built from a message, the same in both mappings:
    [from_grpc_block_update], cluster-endpoints/src/grpc_subscription.rs:115-155. *)
Definition transaction_info (sig : Signature) (is_vote : bool) (err : option string)
    (cu fees consumed : option Z) (m : VersionedMessage) : TransactionInfo :=
  mkTransactionInfo sig is_vote err cu fees consumed (vm_recent_blockhash m) (message_text m)
    (keys_where (is_maybe_writable m) (vm_account_keys m))
    (keys_where (fun i => negb (is_maybe_writable m i)) (vm_account_keys m))
    (default [] (vm_address_table_lookups m)).

(** One transaction of
    [from_grpc_block_update], cluster-endpoints/src/grpc_subscription.rs:54-156. *)
Definition map_grpc_transaction (tx : GrpcTransaction) : outcome (option TransactionInfo) :=
  match gt_meta tx, gt_transaction tx with
  | Some (err_bytes, consumed), Some (Some message) =>
      match gm_header message with
      | Some header =>
          sig ← unwrap (sig_of_bytes (gt_signature tx));
          err ← match err_bytes with
                | Some b => e ← unwrap (error_of_bytes b); Done (Some e)
                | None => Done None
                end;
          m ← map_grpc_message message header;
          budget ← map_compute_budget_instructions m;
          is_vote ← is_vote_message (vm_account_keys m) (vm_instructions m);
          Done (Some (transaction_info sig is_vote err budget.1 budget.2 consumed m))
      | None => Done None
      end
  | _, _ => Done None
  end.

(** [Iterator::filter_map] of a mapping that may panic. *)
Fixpoint filter_mapM {A B} (f : A -> outcome (option B)) (l : list A) : outcome (list B) :=
  match l with
  | [] => Done []
  | x :: l' =>
      o ← f x; ys ← filter_mapM f l';
      Done (match o with Some y => y :: ys | None => ys end)
  end.

Definition reward_of_grpc (r : GrpcReward) : Reward :=
  mkReward (gr_pubkey r) (gr_lamports r) (gr_post_balance r) (gr_reward_type r) None.

(** The leader is whoever earned the fees:
    [from_grpc_block_update], cluster-endpoints/src/grpc_subscription.rs:181-188. *)
Definition leader_of_rewards (rewards : option (list Reward)) : option string :=
  rs ← rewards;
  r ← list_find (fun r => rw_reward_type r = Some RtFee) rs;
  Some (rw_pubkey r.2).

(** [as u64] of a signed time. *)
Definition time_u64 (t : Z) : Z := wrap_u64 t.

(** [from_grpc_block_update], cluster-endpoints/src/grpc_subscription.rs:45-205. *)
Definition from_grpc_block_update (block : SubscribeUpdateBlock) (c : CommitmentConfig) :
    outcome ProducedBlock :=
  txs ← filter_mapM map_grpc_transaction (ub_transactions block);
  let rewards := match ub_rewards block with Some rs => Some (reward_of_grpc <$> rs) | None => None end in
  let leader_id := leader_of_rewards rewards in
  block_height ← unwrap (ub_block_height block);
  block_time ← unwrap (ub_block_time block);
  blockhash ← expect_ok (hash_from_str (ub_blockhash block));
  previous_blockhash ← expect_ok (hash_from_str (ub_parent_blockhash block));
  Done (mkProducedBlock
    (mkProducedBlockInner txs leader_id blockhash block_height (ub_slot block) (ub_parent_slot block)
       (time_u64 block_time) previous_blockhash
       (match rewards with Some rs => Some (reward_text <$> rs) | None => None end)) c).

(** ** The JSON RPC *)

(** [Iterator::find_map] over the compute budget instructions:
    [from_ui_block], cluster-endpoints/src/rpc_polling/poll_blocks.rs:225-250. *)
Fixpoint find_budget (pick : ComputeBudgetInstruction -> option Z) (keys : list Pubkey)
    (ixs : list CompiledInstruction) : outcome (option Z) :=
  match ixs with
  | [] => Done None
  | ix :: ixs' =>
      id ← program_id keys ix;
      match (if id =? compute_budget_id then b ← budget_of_bytes (ix_data ix); pick b else None) with
      | Some v => Done (Some v)
      | None => find_budget pick keys ixs'
      end
  end.

Definition pick_limit (b : ComputeBudgetInstruction) : option Z :=
  match b with SetComputeUnitLimit limit => Some limit | _ => None end.
Definition pick_price (b : ComputeBudgetInstruction) : option Z :=
  match b with SetComputeUnitPrice price => Some price | _ => None end.

(** One transaction of
    [from_ui_block], cluster-endpoints/src/rpc_polling/poll_blocks.rs:201-292. *)
Definition map_ui_transaction (tx : UiTransaction) : outcome (option TransactionInfo) :=
  match ut_meta tx, ut_transaction tx with
  | Some (err, consumed), Some vt =>
      let m := vt_message vt in
      sig ← unwrap (head (vt_signatures vt));
      cu ← find_budget pick_limit (vm_account_keys m) (vm_instructions m);
      fees ← find_budget pick_price (vm_account_keys m) (vm_instructions m);
      is_vote ← is_vote_message (vm_account_keys m) (vm_instructions m);
      Done (Some (transaction_info sig is_vote err cu fees consumed m))
  | _, _ => Done None
  end.

(** [from_ui_block], cluster-endpoints/src/rpc_polling/poll_blocks.rs:186-318. *)
Definition from_ui_block (block : UiConfirmedBlock) (slot : Slot) (c : CommitmentConfig) :
    outcome ProducedBlock :=
  let block_height := default 0 (uc_block_height block) in
  let txs := default [] (uc_transactions block) in
  blockhash ← expect_ok (hash_from_str (uc_blockhash block));
  previous_blockhash ← expect_ok (hash_from_str (uc_previous_blockhash block));
  txs ← filter_mapM map_ui_transaction txs;
  let leader_id := leader_of_rewards (uc_rewards block) in
  let block_time := time_u64 (default 0 (uc_block_time block)) in
  Done (mkProducedBlock
    (mkProducedBlockInner txs leader_id blockhash block_height slot (uc_parent_slot block)
       block_time previous_blockhash
       (match uc_rewards block with Some rs => Some (reward_text <$> rs) | None => None end)) c).
End mapping.

(** The parts of the SDK the mapping of blocks needs. *)
Record Sdk := mkSdk {
  sdk_base58_decode : string -> option (list Z);
  sdk_budget_of_bytes : list Z -> option ComputeBudgetInstruction;
  sdk_is_simple_vote : list Z -> bool;
  sdk_error_of_bytes : list Z -> option string;
  sdk_compute_budget_id : Pubkey;
  sdk_vote_id : Pubkey;
  sdk_is_maybe_writable : VersionedMessage -> nat -> bool;
  sdk_message_text : VersionedMessage -> string;
  sdk_reward_text : Reward -> string;
}.

Definition grpc_block (sdk : Sdk) : SubscribeUpdateBlock -> CommitmentConfig -> outcome ProducedBlock :=
  from_grpc_block_update (sdk_base58_decode sdk) (sdk_budget_of_bytes sdk) (sdk_is_simple_vote sdk)
    (sdk_error_of_bytes sdk) (sdk_compute_budget_id sdk) (sdk_vote_id sdk) (sdk_is_maybe_writable sdk)
    (sdk_message_text sdk) (sdk_reward_text sdk).

Definition ui_block (sdk : Sdk) : UiConfirmedBlock -> Slot -> CommitmentConfig -> outcome ProducedBlock :=
  from_ui_block (sdk_base58_decode sdk) (sdk_budget_of_bytes sdk) (sdk_is_simple_vote sdk)
    (sdk_compute_budget_id sdk) (sdk_vote_id sdk) (sdk_is_maybe_writable sdk)
    (sdk_message_text sdk) (sdk_reward_text sdk).

(** [map_block_info], cluster-endpoints/src/rpc_polling/poll_blocks.rs:320-329. *)
Definition map_block_info (b : ProducedBlock) : BlockInfo :=
  mkBlockInfo (pb_slot (pb_inner b)) (pb_parent_slot (pb_inner b)) (pb_block_height (pb_inner b))
    (pb_blockhash (pb_inner b)) (pb_commitment_config b) (pb_block_time (pb_inner b)).

(** ** Lemmas *)

Section mapping_lemmas.
Context (base58_decode : string -> option (list Z)).
Context (budget_of_bytes : list Z -> option ComputeBudgetInstruction).
Context (is_simple_vote : list Z -> bool) (error_of_bytes : list Z -> option string).
Context (compute_budget_id vote_id : Pubkey).
Context (is_maybe_writable : VersionedMessage -> nat -> bool).
Context (message_text : VersionedMessage -> string) (reward_text : Reward -> string).

(** A cell that was set holds the first value found; one that was full
    before stays so, and nothing else was found. *)
Definition cell_after (before found after : option Z) : Prop :=
  match before with Some v => after = Some v /\ found = None | None => after = found end.

Lemma budget_loop_find keys ixs cu fees cu' fees' :
  budget_loop budget_of_bytes compute_budget_id keys ixs cu fees = Done (cu', fees') ->
  exists l p,
    find_budget budget_of_bytes compute_budget_id pick_limit keys ixs = Done l /\
    find_budget budget_of_bytes compute_budget_id pick_price keys ixs = Done p /\
    cell_after cu l cu' /\ cell_after fees p fees'.
Proof.
  revert cu fees. induction ixs as [|ix ixs IH]; intros cu fees; cbn [budget_loop find_budget].
  - intros [= <- <-]. exists None, None. split_and!; [done..|by destruct cu|by destruct fees].
  - destruct (program_id keys ix) as [id|]; [|done]. cbn [mbind outcome_bind].
    destruct (id =? compute_budget_id); [|apply IH].
    destruct (budget_of_bytes (ix_data ix)) as [[limit|price|]|]; cbn [mbind option_bind pick_limit pick_price];
      [| |apply IH..].
    + destruct cu; cbn [set_once mbind outcome_bind]; [done|]. intros (l & p & El & Ep & Hl & Hp)%IH.
      exists (Some limit), p. simpl in Hl. split_and!; try done. by destruct Hl.
    + destruct fees; cbn [set_once mbind outcome_bind]; [done|]. intros (l & p & El & Ep & Hl & Hp)%IH.
      exists l, (Some price). simpl in Hp. split_and!; try done. by destruct Hp.
Qed.

(** *** What the two sources say of one transaction

    A geyser message and an SDK message with the same fields: the geyser
    message holds keys and hashes as bytes, the numbers of the header and the
    program ids as wider integers, and no lookups for a legacy message. *)
Record same_message (g : GrpcMessage) (m : VersionedMessage) : Prop := {
  sm_header : gm_header g =
    Some (mh_num_required_signatures (vm_header m), mh_num_readonly_signed_accounts (vm_header m),
          mh_num_readonly_unsigned_accounts (vm_header m));
  sm_header_u8 : Forall in_u8
    [mh_num_required_signatures (vm_header m); mh_num_readonly_signed_accounts (vm_header m);
     mh_num_readonly_unsigned_accounts (vm_header m)];
  sm_keys : Forall2 (fun bytes key => key_of_bytes bytes = Some key) (gm_account_keys g) (vm_account_keys m);
  sm_blockhash : hash_of_bytes (gm_recent_blockhash g) = Some (vm_recent_blockhash m);
  sm_instructions : Forall2 (fun ix ix' =>
      ix_program_id_index ix = ix_program_id_index ix' /\ in_u8 (ix_program_id_index ix') /\
      ix_accounts ix = ix_accounts ix' /\ ix_data ix = ix_data ix') (gm_instructions g) (vm_instructions m);
  sm_lookups : Forall2 (fun '(key, writable, readonly) lookup =>
      key_of_bytes key = Some (lut_account_key lookup) /\ writable = lut_writable_indexes lookup /\
      readonly = lut_readonly_indexes lookup)
    (gm_address_table_lookups g) (default [] (vm_address_table_lookups m));
}.

(** The same transaction as the two sources deliver it: one that both deliver
    without its meta or its content, or the same error, units, first signature
    and message. *)
Inductive same_transaction : GrpcTransaction -> UiTransaction -> Prop :=
| same_dropped g u :
    (gt_meta g = None \/ gt_transaction g = None \/ gt_transaction g = Some None \/
     exists m, gt_transaction g = Some (Some m) /\ gm_header m = None) ->
    (ut_meta u = None \/ ut_transaction u = None) -> same_transaction g u
| same_kept g u err_bytes err consumed gm m sig sigs :
    gt_meta g = Some (err_bytes, consumed) -> ut_meta u = Some (err, consumed) ->
    option_Forall2 (fun bytes e => error_of_bytes bytes = Some e) err_bytes err ->
    gt_transaction g = Some (Some gm) -> ut_transaction u = Some (mkVersionedTransaction (sig :: sigs) m) ->
    sig_of_bytes (gt_signature g) = Some sig -> same_message gm m -> same_transaction g u.

(** A message as the geyser mapping rebuilds it, which makes every message
    one of version 0. *)
Definition as_v0 (m : VersionedMessage) : VersionedMessage :=
  mkVersionedMessage (vm_header m) (vm_account_keys m) (vm_recent_blockhash m) (vm_instructions m)
    (Some (default [] (vm_address_table_lookups m))).

(** The structure with the text of another message. *)
Definition with_message (t : TransactionInfo) (text : string) : TransactionInfo :=
  mkTransactionInfo (ti_signature t) (ti_is_vote t) (ti_err t) (ti_cu_requested t) (ti_prioritization_fees t)
    (ti_cu_consumed t) (ti_recent_blockhash t) text (ti_writable_accounts t) (ti_readable_accounts t)
    (ti_address_lookup_tables t).

(** The messages of the transactions the RPC mapping keeps. *)
Definition kept_message (u : UiTransaction) : option VersionedMessage :=
  match ut_meta u, ut_transaction u with Some _, Some vt => Some (vt_message vt) | _, _ => None end.

(** [VersionedMessage::is_maybe_writable] reads the header, the keys and the
    instructions, so it tells the static accounts of a legacy message as it
    does those of the same message in version 0. *)
Definition writable_by_content : Prop :=
  forall m i, (i < length (vm_account_keys m))%nat -> is_maybe_writable (as_v0 m) i = is_maybe_writable m i.

Lemma mapM_Done {A B} (f : A -> outcome B) l k : Forall2 (fun x y => f x = Done y) l k -> mapM f l = Done k.
Proof. induction 1 as [|x y l k E _ IH]; [done|]. cbn [mapM]. rewrite E. cbn [mbind outcome_bind]. by rewrite IH. Qed.

Lemma map_grpc_message_same g m header :
  same_message g m -> gm_header g = Some header -> map_grpc_message g header = Done (as_v0 m).
Proof.
  intros [E1 E2 E3 E4 E5 E6] Hh. rewrite E1 in Hh. injection Hh as <-. unfold map_grpc_message, as_v0.
  rewrite (mapM_Done _ _ _ (Forall2_impl _ _ _ _ E3 (fun b k E => f_equal unwrap E))). rewrite E4.
  cbn [unwrap mbind outcome_bind].
  rewrite (mapM_Done _ _ (default [] (vm_address_table_lookups m))).
  2:{ eapply Forall2_impl; [exact E6|]. intros [[key w] r] [k w' r'] (E & -> & ->). by rewrite E. }
  cbn [mbind outcome_bind]. do 2 f_equal.
  - destruct (vm_header m). repeat (apply Forall_cons in E2 as [? E2]). by rewrite !wrap_u8_id.
  - induction E5 as [|ix ix' ixs ixs' (E & Hr & Ea & Ed) _ IH]; [done|]. cbn [fmap list_fmap]. f_equal; [|exact IH].
    destruct ix'. cbn in *. subst. by rewrite wrap_u8_id.
Qed.

Abbreviation map_grpc := (map_grpc_transaction budget_of_bytes is_simple_vote error_of_bytes
  compute_budget_id vote_id is_maybe_writable message_text).
Abbreviation map_ui := (map_ui_transaction budget_of_bytes is_simple_vote
  compute_budget_id vote_id is_maybe_writable message_text).

Lemma keys_where_ext (f f' : nat -> bool) keys :
  (forall i, (i < length keys)%nat -> f i = f' i) -> keys_where f keys = keys_where f' keys.
Proof.
  intros Hf. unfold keys_where. f_equal. apply list_filter_ext_in. intros [i k] Hin.
  apply elem_of_lookup_imap in Hin as (i' & k' & [= <- <-] & Hl). cbn [fst].
  rewrite Hf; [done|]. by eapply lookup_lt_Some.
Qed.

(** A message of version 0 changes nothing but the text. *)
Lemma transaction_info_as_v0 sig is_vote err cu fees consumed m :
  writable_by_content ->
  transaction_info is_maybe_writable message_text sig is_vote err cu fees consumed (as_v0 m) =
  with_message (transaction_info is_maybe_writable message_text sig is_vote err cu fees consumed m)
    (message_text (as_v0 m)).
Proof.
  intros Hw. unfold transaction_info, with_message. cbn [as_v0 vm_account_keys vm_recent_blockhash
    vm_address_table_lookups default ti_signature ti_is_vote ti_err ti_cu_requested ti_prioritization_fees
    ti_cu_consumed ti_recent_blockhash ti_writable_accounts ti_readable_accounts ti_address_lookup_tables].
  f_equal; apply keys_where_ext; intros i Hi; by rewrite (Hw m i Hi).
Qed.

(** What the geyser mapping makes of a transaction the RPC mapping maps. *)
Definition geyser_infos (ts : list TransactionInfo) (ms : list VersionedMessage) : list TransactionInfo :=
  zip_with (fun t m => with_message t (message_text (as_v0 m))) ts ms.

Lemma transaction_mappings_agree g u o :
  writable_by_content -> same_transaction g u -> map_grpc g = Done o ->
  exists o', map_ui u = Done o' /\ (is_Some o' <-> is_Some (kept_message u)) /\
    o = (t ← o'; m ← kept_message u; Some (with_message t (message_text (as_v0 m)))).
Proof.
  intros Hw Hs. destruct Hs as [g u Hg Hu|g u eb err consumed gm m sig sigs E1 E2 E3 E4 E5 E6 Hm].
  - unfold map_grpc_transaction, map_ui_transaction, kept_message.
    assert (match ut_meta u, ut_transaction u with Some _, Some _ => False | _, _ => True end) as Hu'
      by (destruct Hu as [-> | ->]; repeat case_match; done).
    destruct Hg as [-> | [-> | [-> | (mm & -> & Hh)]]]; intros Ho; exists None; repeat case_match; simplify_eq/=; done.
  - unfold map_grpc_transaction, map_ui_transaction, kept_message. rewrite E1, E2, E4, E5, E6.
    pose proof (sm_header _ _ Hm) as Hh. rewrite Hh, (map_grpc_message_same _ _ _ Hm Hh).
    cbn [unwrap mbind outcome_bind head vt_signatures vt_message].
    replace (match eb with Some b => e ← unwrap (error_of_bytes b); Done (Some e) | None => Done None end)
      with (Done err) by (destruct E3 as [b e E|]; [by rewrite E|done]).
    cbn [mbind outcome_bind]. unfold map_compute_budget_instructions.
    cbn [as_v0 vm_account_keys vm_instructions].
    destruct (budget_loop _ _ _ _ _ _) as [[cu fees]|] eqn:Hb; [|done].
    destruct (budget_loop_find _ _ _ _ _ _ Hb) as (l & p & -> & -> & Hl & Hp). simpl in Hl, Hp. subst.
    cbn [mbind outcome_bind fst snd]. destruct (is_vote_message _ _ _ _); [|done]. cbn [mbind outcome_bind].
    intros [= <-]. eexists. split; [done|]. split; [by split; eauto|]. cbn [mbind option_bind].
    by rewrite <- transaction_info_as_v0.
Qed.

Lemma filter_mapM_agree gs us txs :
  writable_by_content -> Forall2 same_transaction gs us -> filter_mapM map_grpc gs = Done txs ->
  exists txs', filter_mapM map_ui us = Done txs' /\ length txs' = length (omap kept_message us) /\
    txs = geyser_infos txs' (omap kept_message us).
Proof.
  intros Hw Hall. revert txs. induction Hall as [|g u gs us Hs Hall IH]; intros txs; cbn [filter_mapM omap list_omap].
  { intros [= <-]. by exists []. }
  destruct (map_grpc g) as [o|] eqn:Hg; [|done].
  destruct (transaction_mappings_agree _ _ _ Hw Hs Hg) as (o' & -> & Hk & ->).
  cbn [mbind outcome_bind]. destruct (filter_mapM map_grpc gs) as [ys|]; [|done].
  destruct (IH ys eq_refl) as (ys' & -> & Hlen & ->). cbn [mbind outcome_bind]. intros [= <-].
  eexists. split; [done|]. unfold geyser_infos.
  destruct o' as [t|], (kept_message u) as [m|]; cbn [mbind option_bind length zip_with]; [auto|naive_solver..|auto].
Qed.

(** The same reward: geyser's lacks the commission. *)
Definition same_reward (g : GrpcReward) (r : Reward) : Prop :=
  gr_pubkey g = rw_pubkey r /\ gr_lamports g = rw_lamports r /\ gr_post_balance g = rw_post_balance r /\
  gr_reward_type g = rw_reward_type r.

(** The same block as the two sources deliver it. *)
Record same_block (g : SubscribeUpdateBlock) (u : UiConfirmedBlock) : Prop := {
  sb_blockhash : ub_blockhash g = uc_blockhash u;
  sb_previous : ub_parent_blockhash g = uc_previous_blockhash u;
  sb_parent : ub_parent_slot g = uc_parent_slot u;
  sb_height : ub_block_height g = uc_block_height u;
  sb_time : ub_block_time g = uc_block_time u;
  sb_rewards : option_Forall2 (Forall2 same_reward) (ub_rewards g) (uc_rewards u);
  sb_transactions : Forall2 same_transaction (ub_transactions g) (default [] (uc_transactions u));
}.

Definition without_commission (r : Reward) : Reward :=
  mkReward (rw_pubkey r) (rw_lamports r) (rw_post_balance r) (rw_reward_type r) None.

(** The RPC mapping's block with what the geyser mapping loses: legacy
    messages are of version 0 and rewards have no commission. *)
Definition geyser_view (u : UiConfirmedBlock) (pb : ProducedBlock) : ProducedBlock :=
  let b := pb_inner pb in
  mkProducedBlock
    (mkProducedBlockInner (geyser_infos (pb_transactions b) (omap kept_message (default [] (uc_transactions u))))
       (pb_leader_id b) (pb_blockhash b) (pb_block_height b) (pb_slot b) (pb_parent_slot b) (pb_block_time b)
       (pb_previous_blockhash b)
       (match uc_rewards u with Some rs => Some (reward_text <$> (without_commission <$> rs)) | None => None end))
    (pb_commitment_config pb).

Lemma rewards_of_grpc grs rs : Forall2 same_reward grs rs -> reward_of_grpc <$> grs = without_commission <$> rs.
Proof.
  induction 1 as [|g r grs rs (E1 & E2 & E3 & E4) _ IH]; [done|]. cbn [fmap list_fmap]. f_equal; [|exact IH].
  unfold reward_of_grpc, without_commission. by rewrite E1, E2, E3, E4.
Qed.

Lemma leader_without_commission rs :
  leader_of_rewards (Some (without_commission <$> rs)) = leader_of_rewards (Some rs).
Proof.
  unfold leader_of_rewards. cbn [mbind option_bind]. induction rs as [|r rs IH]; [done|].
  cbn [fmap list_fmap list_find without_commission rw_reward_type].
  destruct (decide _); [done|]. do 2 destruct (list_find _ _) as [[? ?]|]; done.
Qed.
End mapping_lemmas.

(** ** Properties *)

(** C31. The geyser mapping and the JSON RPC mapping of the same block produce
    the same [ProducedBlock] up to what geyser does not carry.  The same block
    means field by field: keys, hashes and signatures as bytes on one side and
    decoded on the other, the numbers of the header and the program ids as
    wide integers on one side and bytes on the other, legacy messages and
    messages of version 0, rewards with or without commission.  Whenever the
    geyser mapping succeeds, the RPC mapping succeeds too, with the same
    transactions (signature, vote flag, error, compute budget, accounts and
    lookups), leader, height, time and hashes.  The geyser block differs in
    two ways only: the message of each transaction is its version 0 form, and
    the rewards carry no commission.  The two collect the compute budget
    differently, one in set-once cells over one pass and the other by two
    searches. *)
Theorem block_mappings_agree base58_decode budget_of_bytes is_simple_vote error_of_bytes
    compute_budget_id vote_id is_maybe_writable message_text reward_text
    (g : SubscribeUpdateBlock) (u : UiConfirmedBlock) (c : CommitmentConfig) (pb : ProducedBlock) :
  writable_by_content is_maybe_writable ->
  same_block error_of_bytes g u ->
  from_grpc_block_update base58_decode budget_of_bytes is_simple_vote error_of_bytes
    compute_budget_id vote_id is_maybe_writable message_text reward_text g c = Done pb ->
  exists pb',
    from_ui_block base58_decode budget_of_bytes is_simple_vote
      compute_budget_id vote_id is_maybe_writable message_text reward_text u (ub_slot g) c = Done pb' /\
    length (pb_transactions (pb_inner pb)) = length (pb_transactions (pb_inner pb')) /\
    pb = geyser_view message_text reward_text u pb'.
Proof.
  intros Hw [E1 E2 E3 E4 E5 E6 E7]. unfold from_grpc_block_update, from_ui_block.
  destruct (filter_mapM _ (ub_transactions g)) as [txs|] eqn:Htx; [|done].
  cbn [mbind outcome_bind]. rewrite <- E1, <- E2, <- E3, <- E4, <- E5.
  destruct (ub_block_height g) as [h|]; [|done]. destruct (ub_block_time g) as [t|]; [|done].
  cbn [unwrap mbind outcome_bind].
  destruct (hash_from_str _ (ub_blockhash g)) as [bh|]; [|done].
  destruct (hash_from_str _ (ub_parent_blockhash g)) as [ph|]; [|done].
  destruct (filter_mapM_agree _ _ _ _ _ _ _ _ _ _ Hw E7 Htx) as (txs' & Hui & Hlen & ->).
  cbn [expect_ok mbind outcome_bind]. rewrite Hui. cbn [mbind outcome_bind default from_option id]. intros [= <-].
  eexists. split; [done|]. split.
  { cbn [pb_inner pb_transactions]. unfold geyser_infos. rewrite length_zip_with. lia. }
  unfold geyser_view. cbn [pb_inner pb_transactions pb_leader_id pb_blockhash pb_block_height pb_slot pb_parent_slot
    pb_block_time pb_previous_blockhash pb_commitment_config].
  destruct E6 as [grs rs Hrs|]; [|done]. by rewrite (rewards_of_grpc _ _ Hrs), leader_without_commission.
Qed.

(** A transaction with both compute budget instructions, and the block of it. *)
Definition sample_grpc_message : GrpcMessage :=
  mkGrpcMessage (Some (1, 0, 1)) [replicate 32 1; replicate 32 2] (replicate 32 3)
    [mkInstruction 1 [] [2; 9]; mkInstruction 1 [] [3; 7]] [].
Definition key_two : Pubkey := default 0 (key_of_bytes (replicate 32 2)).
(** The message as the RPC has it, a legacy one. *)
Definition sample_message : VersionedMessage :=
  mkVersionedMessage (mkMessageHeader 1 0 1) [default 0 (key_of_bytes (replicate 32 1)); key_two]
    (default 0 (hash_of_bytes (replicate 32 3))) [mkInstruction 1 [] [2; 9]; mkInstruction 1 [] [3; 7]] None.
Definition sample_budget (data : list Z) : option ComputeBudgetInstruction :=
  match data with
  | [2; v] => Some (SetComputeUnitLimit v)
  | [3; v] => Some (SetComputeUnitPrice v)
  | _ => None
  end.
Definition sample_grpc_block : SubscribeUpdateBlock :=
  mkUpdateBlock 10 "h" (Some [mkGrpcReward "leader" 5 6 (Some RtFee)]) (Some 1000) (Some 8) 9 "p"
    [mkGrpcTransaction (replicate 64 4) (Some (None, Some 300)) (Some (Some sample_grpc_message));
     mkGrpcTransaction [] None None].
Definition sample_ui_block : UiConfirmedBlock :=
  mkUiBlock "p" "h" 9
    (Some [mkUiTransaction (Some (None, Some 300))
             (Some (mkVersionedTransaction [default 0 (sig_of_bytes (replicate 64 4))] sample_message));
           mkUiTransaction None None])
    (Some [mkReward "leader" 5 6 (Some RtFee) (Some 7)]) (Some 1000) (Some 8).
Definition sample_message_text (m : VersionedMessage) : string :=
  match vm_address_table_lookups m with Some _ => "v0" | None => "legacy" end.
Definition sample_reward_text (r : Reward) : string :=
  match rw_commission r with Some _ => "with commission" | None => "without" end.

Lemma block_mappings_agree_witness :
  match from_grpc_block_update (fun _ => Some (replicate 32 5)) sample_budget (fun _ => false) (fun _ => None)
          key_two 0 (fun _ i => (i =? 0)%nat) sample_message_text sample_reward_text
          sample_grpc_block cc_processed with
  | Done pb =>
      ti_cu_requested <$> pb_transactions (pb_inner pb) = [Some 9] /\
      ti_message <$> pb_transactions (pb_inner pb) = ["v0"%string] /\
      pb_leader_id (pb_inner pb) = Some "leader"%string /\ pb_rewards (pb_inner pb) = Some ["without"%string] /\
      exists pb',
        from_ui_block (fun _ => Some (replicate 32 5)) sample_budget (fun _ => false)
          key_two 0 (fun _ i => (i =? 0)%nat) sample_message_text sample_reward_text
          sample_ui_block 10 cc_processed = Done pb' /\
        length (pb_transactions (pb_inner pb)) = length (pb_transactions (pb_inner pb')) /\
        pb = geyser_view sample_message_text sample_reward_text sample_ui_block pb'
  | Panic => False
  end.
Proof.
  destruct (from_grpc_block_update _ _ _ _ _ _ _ _ _ _ _) as [pb|] eqn:E; [|vm_compute in E; discriminate].
  do 4 (split; [vm_compute in E; injection E as <-; reflexivity|]).
  refine (block_mappings_agree _ _ _ _ _ _ _ _ _ _ _ _ _ _ _ E); [by intros m i|].
  split; try reflexivity.
  - by repeat constructor.
  - constructor; [|constructor; [|constructor]].
    + eapply same_kept; try reflexivity; [constructor|].
      split; try reflexivity; repeat constructor; unfold u8_size; cbn; lia.
    + apply same_dropped; by left.
Defined.
