(* ===== verification/Multiplex.v ===== *)
(** * Merging several geyser streams

    cluster-endpoints/src/grpc_multiplex.rs and grpc_stream_utils.rs.  Every
    task is the loop over its channel: [processed_block_step] removes the
    duplicates of the full blocks the sources deliver, [block_info_step] those
    of the block metas, [emitter_step] combines the two into blocks of all
    three commitments, and [slot_step] merges the slot streams.  A tick that
    restarts the multiplexer is an event of its own in the output. *)

From S2P Require Import Prelude BTreeMap Types BlockMapping.

(** ** Messages of the sources *)

Record SubscribeUpdateBlockMeta := mkBlockMeta {
  bm_slot : Slot;
  bm_blockhash : string;
  bm_block_time : option Z;
  bm_block_height : option Z;
  bm_parent_slot : Slot;
}.

Inductive UpdateOneof :=
| UoSlot (slot : Slot)
| UoBlockMeta (m : SubscribeUpdateBlockMeta)
| UoBlock (b : SubscribeUpdateBlock)
| UoOther.

(** The connector's [Message]; an update may be empty. *)
Inductive Message :=
| GeyserSubscribeUpdate (u : option UpdateOneof)
| Connecting (attempt : Z).

(** [extract_slot_from_yellowstone_update], cluster-endpoints/src/grpc_multiplex.rs:569-577. *)
Definition extract_slot_from_yellowstone_update (u : option UpdateOneof) : option Slot :=
  match u with
  | Some (UoSlot slot) => Some slot
  | Some (UoBlockMeta m) => Some (bm_slot m)
  | Some (UoBlock b) => Some (ub_slot b)
  | _ => None
  end.

(** [map_slot_from_yellowstone_update], cluster-endpoints/src/grpc_multiplex.rs:579-584. *)
Definition map_slot_from_yellowstone_update (u : option UpdateOneof) : option Slot :=
  match u with Some (UoSlot slot) => Some slot | _ => None end.

(** [map_block_from_yellowstone_update], cluster-endpoints/src/grpc_multiplex.rs:586-598. *)
Definition map_block_from_yellowstone_update (sdk : Sdk) (u : option UpdateOneof) (c : CommitmentConfig) :
    outcome (option (Slot * ProducedBlock)) :=
  match u with
  | Some (UoBlock b) => pb ← grpc_block sdk b c; Done (Some (pb_slot (pb_inner pb), pb))
  | _ => Done None
  end.

(** ** Full blocks *)

Definition MAX_SIZE : nat := 1024.

(** The loop of
    [create_grpc_multiplex_processed_block_task], cluster-endpoints/src/grpc_multiplex.rs:29-131. *)
Definition processed_block_step (sdk : Sdk) (slots_processed : bset) (m : Message) :
    outcome (bset * list ProducedBlock) :=
  match m with
  | GeyserSubscribeUpdate u =>
      match extract_slot_from_yellowstone_update u with
      | Some slot =>
          if bs_contains slot slots_processed then Done (slots_processed, [])
          else if (MAX_SIZE / 2 <=? length slots_processed)%nat &&
                  (slot <=? default 0 (bs_first slots_processed)) then Done (slots_processed, [])
          else
            r ← map_block_from_yellowstone_update sdk u cc_processed;
            match r with
            | Some (_, produced_block) =>
                let slots' := bs_insert slot slots_processed in
                Done (if (MAX_SIZE <? length slots')%nat then bt_pop_first slots' else slots', [produced_block])
            | None => Done (slots_processed, [])
            end
      | None => Done (slots_processed, [])
      end
  | Connecting _ => Done (slots_processed, [])
  end.

(** ** Block metas *)

(** The loop of
    [create_grpc_multiplex_block_info_task], cluster-endpoints/src/grpc_multiplex.rs:134-229. *)
Definition block_info_step (sdk : Sdk) (c : CommitmentConfig) (tip : Slot) (m : Message) :
    outcome (Slot * list BlockInfo) :=
  match m with
  | GeyserSubscribeUpdate (Some (UoBlockMeta meta)) =>
      if tip <? bm_slot meta then
        height ← unwrap (bm_block_height meta);
        blockhash ← expect_ok (hash_from_str (sdk_base58_decode sdk) (bm_blockhash meta));
        time ← unwrap (bm_block_time meta);
        Done (bm_slot meta,
              [mkBlockInfo (bm_slot meta) (bm_parent_slot meta) height blockhash c (time_u64 time)])
      else Done (tip, [])
  | _ => Done (tip, [])
  end.

(** ** The emitter *)

Definition CLEANUP_SLOTS_BEHIND_FINALIZED : Z := 100.
Definition MAX_ALLOWED_CLEANUP_WITHOUT_RECV : Z := 12.

(** The variables of the receive loop:
    [create_grpc_multiplex_blocks_subscription], cluster-endpoints/src/grpc_multiplex.rs:317-333. *)
Record Emitter := mkEmitter {
  em_recent_processed_blocks : gmap Hash ProducedBlock;
  em_last_finalized_slot : Slot;
  em_without_recv_full_blocks : Z;
  em_without_confirmed : Z;
  em_without_finalized : Z;
  em_confirmed_not_yet_processed : gset Hash;
  em_finalized_not_yet_processed : gset Hash;
  em_startup_completed : bool;
}.

Definition emitter_new : Emitter := mkEmitter ∅ 0 0 0 0 ∅ ∅ false.

Inductive emitter_event :=
| EeBlock (b : ProducedBlock)
| EeInfoProcessed (i : BlockInfo)
| EeInfoConfirmed (i : BlockInfo)
| EeInfoFinalized (i : BlockInfo)
| EeTick.

Inductive emitter_output :=
| EoBlock (b : ProducedBlock)
| EoInfo (i : BlockInfo)
| EoRestart.

(** A full block arrives:
    [create_grpc_multiplex_blocks_subscription], cluster-endpoints/src/grpc_multiplex.rs:341-367. *)
Definition emitter_block (s : Emitter) (b : ProducedBlock) : Emitter * list emitter_output :=
  let hash := pb_blockhash (pb_inner b) in
  let last := if is_finalized (pb_commitment_config b)
              then Z.max (em_last_finalized_slot s) (pb_slot (pb_inner b)) else em_last_finalized_slot s in
  (mkEmitter (<[hash := b]> (em_recent_processed_blocks s)) last 0
     (em_without_confirmed s) (em_without_finalized s)
     (em_confirmed_not_yet_processed s ∖ {[hash]}) (em_finalized_not_yet_processed s ∖ {[hash]})
     (em_startup_completed s),
   EoBlock b ::
   (if decide (hash ∈ em_confirmed_not_yet_processed s) then [EoBlock (to_confirmed_block b)] else []) ++
   (if decide (hash ∈ em_finalized_not_yet_processed s) then [EoBlock (to_finalized_block b)] else [])).

(** A confirmed block info arrives:
    [create_grpc_multiplex_blocks_subscription], cluster-endpoints/src/grpc_multiplex.rs:377-399. *)
Definition emitter_confirmed (s : Emitter) (i : BlockInfo) : Emitter * list emitter_output :=
  let hash := bi_blockhash i in
  match em_recent_processed_blocks s !! hash with
  | Some cached =>
      (mkEmitter (em_recent_processed_blocks s) (em_last_finalized_slot s) (em_without_recv_full_blocks s) 0
         (em_without_finalized s) (em_confirmed_not_yet_processed s) (em_finalized_not_yet_processed s)
         (em_startup_completed s),
       [EoInfo i; EoBlock (to_confirmed_block cached)])
  | None =>
      (mkEmitter (em_recent_processed_blocks s) (em_last_finalized_slot s) (em_without_recv_full_blocks s) 0
         (em_without_finalized s) ({[hash]} ∪ em_confirmed_not_yet_processed s)
         (em_finalized_not_yet_processed s) (em_startup_completed s),
       [EoInfo i])
  end.

(** A finalized block info arrives:
    [create_grpc_multiplex_blocks_subscription], cluster-endpoints/src/grpc_multiplex.rs:400-425. *)
Definition emitter_finalized (s : Emitter) (i : BlockInfo) : Emitter * list emitter_output :=
  let hash := bi_blockhash i in
  let last := Z.max (em_last_finalized_slot s) (bi_slot i) in
  match em_recent_processed_blocks s !! hash with
  | Some cached =>
      (mkEmitter (delete hash (em_recent_processed_blocks s)) last (em_without_recv_full_blocks s)
         (em_without_confirmed s) 0 (em_confirmed_not_yet_processed s) (em_finalized_not_yet_processed s) true,
       [EoInfo i; EoBlock (to_finalized_block cached)])
  | None =>
      (mkEmitter (em_recent_processed_blocks s) last (em_without_recv_full_blocks s)
         (em_without_confirmed s) 0 (em_confirmed_not_yet_processed s)
         (if em_startup_completed s then {[hash]} ∪ em_finalized_not_yet_processed s
          else em_finalized_not_yet_processed s) (em_startup_completed s),
       [EoInfo i])
  end.

(** A cleanup tick: restart when a stream is silent, or forget old blocks:
    [create_grpc_multiplex_blocks_subscription], cluster-endpoints/src/grpc_multiplex.rs:426-448. *)
Definition emitter_tick (s : Emitter) : Emitter * list emitter_output :=
  if (MAX_ALLOWED_CLEANUP_WITHOUT_RECV <? em_without_recv_full_blocks s) ||
     (MAX_ALLOWED_CLEANUP_WITHOUT_RECV <? em_without_confirmed s) ||
     (MAX_ALLOWED_CLEANUP_WITHOUT_RECV <? em_without_finalized s)
  then (emitter_new, [EoRestart])
  else
    (mkEmitter
       (filter (fun kv => em_last_finalized_slot s = 0 \/
          saturating_sub_u64 (em_last_finalized_slot s) CLEANUP_SLOTS_BEHIND_FINALIZED <
            pb_slot (pb_inner kv.2)) (em_recent_processed_blocks s))
       (em_last_finalized_slot s) (wrap_u8 (em_without_recv_full_blocks s + 1))
       (wrap_u8 (em_without_confirmed s + 1)) (wrap_u8 (em_without_finalized s + 1))
       (em_confirmed_not_yet_processed s) (em_finalized_not_yet_processed s) (em_startup_completed s), []).

(** The receive loop of
    [create_grpc_multiplex_blocks_subscription], cluster-endpoints/src/grpc_multiplex.rs:334-450. *)
Definition emitter_step (s : Emitter) (e : emitter_event) : Emitter * list emitter_output :=
  match e with
  | EeBlock b => emitter_block s b
  | EeInfoProcessed i => (s, [EoInfo i])
  | EeInfoConfirmed i => emitter_confirmed s i
  | EeInfoFinalized i => emitter_finalized s i
  | EeTick => emitter_tick s
  end.

(** ** Slots *)

(** The loop of
    [create_grpc_multiplex_processed_slots_subscription], cluster-endpoints/src/grpc_multiplex.rs:467-567;
    [None] is the timeout or the end of the stream, after which it reconnects. *)
Definition slot_step (last_slot : Slot) (m : option Message) : Slot * list SlotNotification :=
  match m with
  | Some (GeyserSubscribeUpdate u) =>
      match map_slot_from_yellowstone_update u with
      | Some slot =>
          if slot <? last_slot then (last_slot, []) else (slot, [mkSlotNotification slot slot])
      | None => (last_slot, [])
      end
  | Some (Connecting _) => (last_slot, [])
  | None => (0, [])
  end.

(** ** Plugging channels together *)

(** A message to several broadcast channels, each with or without receivers:
    [spawn_plugger_mpcs_to_broadcast_channels], cluster-endpoints/src/grpc_stream_utils.rs:17-65.
    A channel without receivers ends the turn of the message. *)
Fixpoint plug_message {A} (downstreams : list bool) (msg : A) : list (list A) :=
  match downstreams with
  | [] => []
  | true :: ds => [msg] :: plug_message ds msg
  | false :: ds => replicate (S (length ds)) []
  end.

(** [spawn_plugger_mpcs_to_broadcast_channel], cluster-endpoints/src/grpc_stream_utils.rs:68-113,
    and [channelize_stream] the same over a stream. *)
Definition plug_one {A} (has_receiver : bool) (msg : A) : list A := if has_receiver then [msg] else [].

(** ** Lemmas *)

(** *** Duplicates of full blocks *)

Definition block_slot (b : ProducedBlock) : Slot := pb_slot (pb_inner b).

Lemma grpc_block_slot sdk b c pb : grpc_block sdk b c = Done pb -> block_slot pb = ub_slot b.
Proof.
  unfold grpc_block, from_grpc_block_update, block_slot. intros H.
  repeat match type of H with
  | mbind _ ?x = _ => destruct x eqn:?; cbn [mbind outcome_bind] in H; [|done]
  end. by injection H as <-.
Qed.

Lemma bt_insert_length {V} k (v : V) m :
  bt_get k m = None -> bt_wf m -> length (bt_insert k v m) = S (length m).
Proof.
  intros Hg Hwf. destruct (bt_insert_split_fresh k v m Hwf Hg) as (m1 & m2 & -> & -> & _).
  rewrite !length_app. simpl. lia.
Qed.

(** What is remembered of the slots that were emitted. *)
Definition dedup_inv (set : bset) (emitted : list ProducedBlock) : Prop :=
  bt_wf set /\ (length set <= MAX_SIZE)%nat /\ NoDup (block_slot <$> emitted) /\
  (forall slot, slot ∈ set.*1 -> slot ∈ block_slot <$> emitted) /\
  (forall slot, slot ∈ block_slot <$> emitted ->
     slot ∈ set.*1 \/ (MAX_SIZE <= length set)%nat /\ Forall (Z.lt slot) set.*1).

Lemma bs_contains_keys slot (set : bset) : bt_wf set -> bs_contains slot set = true <-> slot ∈ set.*1.
Proof.
  intros Hwf. unfold bs_contains, bt_contains. rewrite bool_decide_eq_true. split.
  - intros [[] Hg]. apply bt_get_elem in Hg; [|done]. apply list_elem_of_fmap. by exists (slot, ()).
  - intros ([k []] & -> & Hin)%list_elem_of_fmap. apply bt_get_elem in Hin; [|done]. by eexists.
Qed.

Lemma bs_first_least (set : bset) slot :
  bt_wf set -> set <> [] -> slot <= default 0 (bs_first set) -> slot ∉ set.*1 -> Forall (Z.lt slot) set.*1.
Proof.
  intros Hwf Hne. destruct set as [|[k []] set]; [done|]. simpl. intros Hle Hnin.
  apply bt_wf_cons in Hwf as [_ Hall]. apply Forall_cons. split; [set_solver by lia|].
  eapply Forall_impl; [done|]. simpl. lia.
Qed.

Lemma not_too_old (set : bset) slot :
  (MAX_SIZE / 2 <=? length set)%nat && (slot <=? default 0 (bs_first set)) = false ->
  (MAX_SIZE <= length set)%nat -> exists k rest, set = (k, tt) :: rest /\ k < slot.
Proof.
  intros [Hold|Hold]%andb_false_iff Hl.
  - apply Nat.leb_gt in Hold. exfalso. assert (MAX_SIZE / 2 <= MAX_SIZE)%nat by (vm_compute; lia). lia.
  - apply Z.leb_gt in Hold. destruct set as [|[k []] rest]; [|by exists k, rest].
    exfalso. vm_compute in Hl. lia.
Qed.

(** The slot is forgotten only with 1024 greater ones in the set. *)
Lemma dedup_emit set emitted b slot :
  dedup_inv set emitted -> block_slot b = slot -> bs_contains slot set = false ->
  (MAX_SIZE / 2 <=? length set)%nat && (slot <=? default 0 (bs_first set)) = false ->
  dedup_inv (if (MAX_SIZE <? length (bs_insert slot set))%nat then bt_pop_first (bs_insert slot set)
             else bs_insert slot set) (emitted ++ [b]).
Proof.
  intros (Hwf & Hlen & Hnd & Hsub & Hem) <- Hc Hold. set (slot := block_slot b) in *.
  assert (slot ∉ set.*1) as Hnin by (intros H%bs_contains_keys; [congruence|done]).
  assert (bt_get slot set = None) as Hg.
  { destruct (bt_get slot set) as [u|] eqn:E; [|done]. exfalso. apply Hnin.
    apply bt_get_elem_1 in E. apply list_elem_of_fmap. by exists (slot, u). }
  assert (slot ∉ block_slot <$> emitted) as Hfresh.
  { intros [?|[Hl Hall]]%Hem; [done|]. destruct (not_too_old _ _ Hold Hl) as (k & rest & -> & Hk).
    apply Forall_cons in Hall as [? _]. simpl in *. lia. }
  pose proof (bt_wf_insert slot tt set Hwf) as Hwf'. pose proof (bt_insert_length slot tt set Hg Hwf) as Hlen'.
  assert (forall k, k ∈ (bs_insert slot set).*1 <-> k = slot \/ k ∈ set.*1) as Hkeys
    by (intros; apply bt_insert_keys).
  assert (NoDup (block_slot <$> emitted ++ [b])) as Hnd'.
  { rewrite fmap_app. apply NoDup_app. split_and!; [done| |apply NoDup_singleton].
    intros k Hk ->%list_elem_of_singleton. done. }
  assert (forall k, k ∈ block_slot <$> emitted ++ [b] <-> k ∈ block_slot <$> emitted \/ k = slot) as Hem'.
  { intros k. rewrite fmap_app, elem_of_app. simpl. by rewrite list_elem_of_singleton. }
  unfold bs_insert in *. destruct (Nat.ltb_spec MAX_SIZE (length (bt_insert slot tt set))) as [Hlt|Hge].
  - destruct (bt_insert slot tt set) as [|[k0 []] rest] eqn:Hins; [done|].
    cbn [fmap list_fmap length fst bt_pop_first tail] in *.
    apply bt_wf_cons in Hwf' as [Hwf' Hk0].
    split_and!; [done|lia|done|intros k Hk; apply Hem'; set_solver|].
    intros k [Hk|Hk]%Hem'; [apply Hem in Hk as [Hk|[_ Hall]]|].
    2: { right. split; [lia|]. apply Forall_forall. intros j Hj. rewrite Forall_forall in Hall.
         destruct (proj1 (Hkeys j) ltac:(set_solver)) as [->|Hj']; [|by apply Hall].
         destruct (not_too_old _ _ Hold ltac:(lia)) as (k1 & rest1 & -> & Hk1).
         specialize (Hall k1 ltac:(simpl; set_solver)). lia. }
    all: assert (k ∈ k0 :: rest.*1) as [->|?]%elem_of_cons by (apply Hkeys; auto); [right|by left];
      (split; [lia|done]).
  - split_and!; [done|lia|done|intros k Hk; apply Hem'; apply Hkeys in Hk; naive_solver|].
    intros k [Hk|Hk]%Hem'; [apply Hem in Hk as [Hk|[? _]]|]; [left; apply Hkeys; auto|lia|left; apply Hkeys; auto].
Qed.

#[local] Arguments Nat.leb : simpl never.
#[local] Arguments Nat.div : simpl never.

(** The block of an update, if it carries one, can be mapped. *)
Definition mappable (sdk : Sdk) (m : Message) : Prop :=
  match m with
  | GeyserSubscribeUpdate (Some (UoBlock b)) => is_Some (match grpc_block sdk b cc_processed with
                                                         | Done pb => Some pb | Panic => None end)
  | _ => True
  end.

(** What became of an update: its slot has been emitted, or at least 512
    greater slots have been. *)
Definition handled (m : Message) (emitted : list ProducedBlock) : Prop :=
  match m with
  | GeyserSubscribeUpdate (Some (UoBlock b)) =>
      ub_slot b ∈ block_slot <$> emitted \/
      exists l, (MAX_SIZE / 2 <= length l)%nat /\ NoDup l /\
        Forall (fun slot => ub_slot b < slot /\ slot ∈ block_slot <$> emitted) l
  | _ => True
  end.

Lemma handled_mono m h o : handled m h -> handled m (h ++ o).
Proof.
  destruct m as [[[| | |]|]|]; simpl; try done. rewrite fmap_app. intros [?|(l & ? & ? & Hall)]; [left; set_solver|].
  right. exists l. split_and!; [done..|]. eapply Forall_impl; [done|]. simpl. set_solver.
Qed.

Lemma processed_block_step_ok sdk set h m :
  mappable sdk m -> dedup_inv set h ->
  exists set' o, processed_block_step sdk set m = Done (set', o) /\ dedup_inv set' (h ++ o) /\
    handled m (h ++ o).
Proof.
  intros Hm Hi. unfold processed_block_step.
  assert (forall u, (forall b, u <> Some (UoBlock b)) -> handled (GeyserSubscribeUpdate u) (h ++ [])) as Hh.
  { intros [[| |b|]|] Hu; simpl; try done. by destruct (Hu b). }
  assert (dedup_inv set (h ++ [])) as Hi0 by by rewrite app_nil_r.
  destruct m as [u|n]; [|by exists set, []].
  destruct (extract_slot_from_yellowstone_update u) as [slot|] eqn:Hu;
    [|exists set, []; split_and!; [done..|apply Hh; by intros b ->]].
  destruct (bs_contains slot set) eqn:Hc.
  { exists set, []. split_and!; [done..|]. rewrite app_nil_r. destruct Hi as (Hwf & _ & _ & Hsub & _).
    destruct u as [[| |b|]|]; simplify_eq/=; try done. left. by apply Hsub, bs_contains_keys. }
  destruct ((MAX_SIZE / 2 <=? length set)%nat && _) eqn:Hold.
  { exists set, []. split_and!; [done..|]. rewrite app_nil_r.
    destruct u as [[| |b|]|]; simplify_eq/=; try done. right. destruct Hi as (Hwf & _ & _ & Hsub & _).
    apply andb_true_iff in Hold as [Hl%Nat.leb_le Hs%Z.leb_le]. exists set.*1. rewrite length_fmap.
    split_and!; [done|by apply bt_wf_NoDup|]. apply Forall_forall. intros j Hj. split; [|by apply Hsub].
    assert (Forall (Z.lt (ub_slot b)) set.*1) as Hall; [|by rewrite Forall_forall in Hall; apply Hall].
    apply bs_first_least; [done| |done|].
    - intros ->. vm_compute in Hl. lia.
    - intros Hin%bs_contains_keys; [congruence|done]. }
  destruct u as [[| |b|]|]; simplify_eq/=; [by exists set, []..|].
  destruct (grpc_block sdk b cc_processed) as [pb|] eqn:Hb; [|by destruct Hm]. cbn [mbind outcome_bind].
  eexists _, [pb]. split; [done|]. pose proof (grpc_block_slot _ _ _ _ Hb) as Hslot. split.
  - by apply dedup_emit.
  - left. rewrite fmap_app, elem_of_app. right. simpl. rewrite Hslot. apply list_elem_of_singleton. done.
Qed.

(** *** The emitter *)

Section emitter_lemmas.
Context (hash : Hash).

Definition emits (c : CommitmentConfig) (o : list emitter_output) : Prop :=
  exists b, EoBlock b ∈ o /\ pb_blockhash (pb_inner b) = hash /\ pb_commitment_config b = c.

Lemma emits_app c o1 o2 : emits c (o1 ++ o2) <-> emits c o1 \/ emits c o2.
Proof. unfold emits. setoid_rewrite elem_of_app. naive_solver. Qed.

(** An info that came first waits for its block. *)
Lemma pending_step s h e :
  EoRestart ∉ (emitter_step s e).2 ->
  emits cc_confirmed h \/ hash ∈ em_confirmed_not_yet_processed s ->
  emits cc_confirmed (h ++ (emitter_step s e).2) \/
  hash ∈ em_confirmed_not_yet_processed (emitter_step s e).1 /\ (forall b, e = EeBlock b -> pb_blockhash (pb_inner b) <> hash).
Proof.
  intros Hr [He|Hp]; [left; apply emits_app; by left|].
  destruct e as [b|i|i|i|]; simpl in *.
  - destruct (decide (pb_blockhash (pb_inner b) = hash)) as [<-|Hne].
    + left. apply emits_app. right. exists (to_confirmed_block b). rewrite decide_True by done.
      split; [set_solver|done].
    + right. split; [set_solver|]. by intros b' [= <-].
  - right. split; [set_solver|done].
  - unfold emitter_confirmed. destruct (_ !! _); simpl; right; (split; [set_solver|done]).
  - unfold emitter_finalized. destruct (_ !! _); simpl; right; (split; [set_solver|done]).
  - unfold emitter_tick in *. destruct (_ || _); simpl in *; [set_solver|]. by right.
Qed.

(** A block that came first is kept while the finalized slots stay within
    reach and its own finalization has not been seen. *)
Definition keeps (slot : Slot) (e : emitter_event) : Prop :=
  match e with
  | EeBlock b => pb_commitment_config b = cc_processed /\
      (pb_blockhash (pb_inner b) = hash -> block_slot b = slot)
  | EeInfoFinalized i => bi_blockhash i <> hash /\ bi_slot i < slot + CLEANUP_SLOTS_BEHIND_FINALIZED
  | _ => True
  end.

Definition within_reach (slot : Slot) (s : Emitter) : Prop :=
  em_last_finalized_slot s < slot + CLEANUP_SLOTS_BEHIND_FINALIZED.

Definition retained (slot : Slot) (s : Emitter) : Prop :=
  exists b, em_recent_processed_blocks s !! hash = Some b /\ block_slot b = slot.

Lemma within_reach_step slot s e :
  0 < slot -> keeps slot e -> within_reach slot s -> within_reach slot (emitter_step s e).1.
Proof.
  unfold within_reach, CLEANUP_SLOTS_BEHIND_FINALIZED. intros Hs He Hr. destruct e as [b|i|i|i|]; simpl in *.
  - destruct He as [-> _]. done.
  - done.
  - unfold emitter_confirmed. by destruct (_ !! _).
  - unfold emitter_finalized, CLEANUP_SLOTS_BEHIND_FINALIZED in *. destruct (_ !! _); simpl; lia.
  - unfold emitter_tick. destruct (_ || _); simpl; [lia|done].
Qed.

Lemma retained_step slot s e :
  0 < slot -> keeps slot e -> within_reach slot s -> EoRestart ∉ (emitter_step s e).2 ->
  retained slot s -> retained slot (emitter_step s e).1.
Proof.
  intros Hs He Hw Hr (b & Hb & Hslot). destruct e as [b'|i|i|i|]; simpl in *.
  - unfold retained. simpl. destruct (decide (pb_blockhash (pb_inner b') = hash)) as [Heq|Hne].
    + rewrite Heq, lookup_insert_eq. exists b'. naive_solver.
    + rewrite lookup_insert_ne by done. eauto.
  - by exists b.
  - unfold emitter_confirmed. destruct (_ !! bi_blockhash i); by exists b.
  - unfold emitter_finalized. destruct He as [Hne _].
    destruct (_ !! bi_blockhash i); exists b; simpl; [by rewrite lookup_delete_ne|done].
  - unfold emitter_tick in *. destruct (_ || _); [set_solver|]. exists b. split; [|done]. simpl.
    apply map_lookup_filter_Some_2; [done|]. simpl. right. unfold block_slot in Hslot.
    unfold within_reach, saturating_sub_u64, CLEANUP_SLOTS_BEHIND_FINALIZED in *. lia.
Qed.

Lemma recent_hash_step s e :
  (forall b, em_recent_processed_blocks s !! hash = Some b -> pb_blockhash (pb_inner b) = hash) ->
  forall b, em_recent_processed_blocks (emitter_step s e).1 !! hash = Some b -> pb_blockhash (pb_inner b) = hash.
Proof.
  intros H b. destruct e as [b'|i|i|i|]; simpl.
  - intros [[<- <-]|[_ ?]]%lookup_insert_Some; auto.
  - auto.
  - unfold emitter_confirmed. destruct (_ !! bi_blockhash i); simpl; auto.
  - unfold emitter_finalized. destruct (_ !! bi_blockhash i); simpl; auto.
    intros [_ ?]%lookup_delete_Some. auto.
  - unfold emitter_tick. destruct (_ || _); simpl; [by rewrite lookup_empty|].
    intros [? _]%map_lookup_filter_Some. auto.
Qed.

Lemma block_retained s b : pb_blockhash (pb_inner b) = hash -> retained (block_slot b) (emitter_step s (EeBlock b)).1.
Proof. intros Hh. exists b. simpl. by rewrite Hh, lookup_insert_eq. Qed.

Lemma retained_confirms slot s i :
  bi_blockhash i = hash -> retained slot s ->
  (forall b, em_recent_processed_blocks s !! hash = Some b -> pb_blockhash (pb_inner b) = hash) ->
  emits cc_confirmed (emitter_step s (EeInfoConfirmed i)).2.
Proof.
  intros Hi (b & Hb & _) Hh. simpl. unfold emitter_confirmed. rewrite Hi, Hb.
  exists (to_confirmed_block b). split; [set_solver|]. split; [exact (Hh b Hb)|done].
Qed.
End emitter_lemmas.

(** The cached blocks are filed under their hash and were emitted, and only
    cached blocks are raised to a higher commitment. *)
Inductive well_ordered : list emitter_output -> Prop :=
| wo_nil : well_ordered []
| wo_snoc h o :
    well_ordered h ->
    match o with
    | EoBlock b => pb_commitment_config b = cc_processed \/
        exists b0, EoBlock b0 ∈ h /\ pb_commitment_config b0 = cc_processed /\ pb_inner b0 = pb_inner b
    | _ => True
    end -> well_ordered (h ++ [o]).

Definition emitter_inv (s : Emitter) (h : list emitter_output) : Prop :=
  well_ordered h /\
  forall hash b, em_recent_processed_blocks s !! hash = Some b ->
    pb_blockhash (pb_inner b) = hash /\ EoBlock b ∈ h /\ pb_commitment_config b = cc_processed.

Definition from_source (e : emitter_event) : Prop :=
  match e with EeBlock b => pb_commitment_config b = cc_processed | _ => True end.

Lemma emitter_inv_more s h o :
  emitter_inv s h -> well_ordered (h ++ o) -> emitter_inv s (h ++ o).
Proof. intros [_ Hr] Ho. split; [done|]. intros hash b Hb. destruct (Hr _ _ Hb) as (? & ? & ?). set_solver. Qed.

Lemma well_ordered_block h b : well_ordered h -> pb_commitment_config b = cc_processed -> well_ordered (h ++ [EoBlock b]).
Proof. intros. constructor; [done|by left]. Qed.

Lemma well_ordered_raise h b b' :
  well_ordered h -> EoBlock b ∈ h -> pb_commitment_config b = cc_processed -> pb_inner b = pb_inner b' ->
  well_ordered (h ++ [EoBlock b']).
Proof. intros. constructor; [done|right; eauto]. Qed.

Lemma well_ordered_info h i : well_ordered h -> well_ordered (h ++ [EoInfo i]).
Proof. intros. by constructor. Qed.

Lemma well_ordered_info_raise h i b b' :
  well_ordered h -> EoBlock b ∈ h -> pb_commitment_config b = cc_processed -> pb_inner b = pb_inner b' ->
  well_ordered (h ++ [EoInfo i; EoBlock b']).
Proof.
  intros. change [EoInfo i; EoBlock b'] with ([EoInfo i] ++ [EoBlock b']). rewrite app_assoc.
  apply (well_ordered_raise _ b); [by apply well_ordered_info|set_solver|done..].
Qed.

Lemma emitter_block_ordered s h b :
  well_ordered h -> pb_commitment_config b = cc_processed -> well_ordered (h ++ (emitter_block s b).2).
Proof.
  intros Hh Hb. simpl. pose proof (well_ordered_block h b Hh Hb) as H1.
  replace (h ++ EoBlock b :: _ ++ _) with ((h ++ [EoBlock b]) ++
    ((if decide (pb_blockhash (pb_inner b) ∈ em_confirmed_not_yet_processed s)
      then [EoBlock (to_confirmed_block b)] else []) ++
     (if decide (pb_blockhash (pb_inner b) ∈ em_finalized_not_yet_processed s)
      then [EoBlock (to_finalized_block b)] else []))) by by rewrite <- app_assoc.
  do 2 case_decide; rewrite ?app_nil_l, ?app_nil_r; [rewrite app_assoc| | |done];
    repeat (eapply (well_ordered_raise _ b); [|set_solver|done|done]); done.
Qed.

Lemma emitter_step_inv s h e :
  from_source e -> emitter_inv s h -> emitter_inv (emitter_step s e).1 (h ++ (emitter_step s e).2).
Proof.
  intros He [Ho Hr]. destruct e as [b|i|i|i|]; cbn [emitter_step fst snd].
  - split; [by apply emitter_block_ordered|]. intros hash b'. simpl.
    intros [[<- <-]|[Hne Hb']]%lookup_insert_Some; [set_solver|].
    destruct (Hr _ _ Hb') as (? & ? & ?). set_solver.
  - apply emitter_inv_more; [done|]. by apply well_ordered_info.
  - unfold emitter_confirmed. destruct (_ !! _) as [cached|] eqn:Hc; cbn [fst snd].
    + destruct (Hr _ _ Hc) as (_ & Hin & Hp). apply (emitter_inv_more (mkEmitter _ _ _ _ _ _ _ _)); [done|].
      by apply (well_ordered_info_raise h i cached).
    + apply (emitter_inv_more (mkEmitter _ _ _ _ _ _ _ _)); [done|]. by apply well_ordered_info.
  - unfold emitter_finalized. destruct (_ !! _) as [cached|] eqn:Hc; cbn [fst snd].
    + destruct (Hr _ _ Hc) as (_ & Hin & Hp). apply (emitter_inv_more (mkEmitter _ _ _ _ _ _ _ _)).
      * split; [done|]. simpl. intros hash b' [_ Hb']%lookup_delete_Some. by apply Hr.
      * by apply (well_ordered_info_raise h i cached).
    + apply (emitter_inv_more (mkEmitter _ _ _ _ _ _ _ _)); [done|]. by apply well_ordered_info.
  - unfold emitter_tick. destruct (_ || _); cbn [fst snd].
    + split; [by constructor|]. simpl. intros hash b. by rewrite lookup_empty.
    + rewrite app_nil_r. split; [done|]. simpl. intros hash b [Hb _]%map_lookup_filter_Some. by apply Hr.
Qed.

(** What a step without a restart keeps, a run without a restart keeps. *)
Lemma emitter_run_keeps (P : emitter_event -> Prop) (K : Emitter -> list emitter_output -> Prop) es s h :
  (forall s h e, P e -> EoRestart ∉ (emitter_step s e).2 -> K s h ->
     K (emitter_step s e).1 (h ++ (emitter_step s e).2)) ->
  Forall P es -> EoRestart ∉ (run emitter_step s es).2 -> K s h ->
  K (run emitter_step s es).1 (h ++ (run emitter_step s es).2).
Proof.
  intros Hstep Hes. revert s h. induction Hes as [|e es He Hes IH]; intros s h Hr Hk; simpl in *.
  - by rewrite app_nil_r.
  - specialize (Hstep s h e He). destruct (emitter_step s e) as [s1 o1]. cbn [fst snd] in Hstep.
    specialize (IH s1 (h ++ o1)). destruct (run emitter_step s1 es) as [s2 o2]. simpl in *.
    rewrite app_assoc. apply IH; [set_solver|]. apply Hstep; [set_solver|done].
Qed.

Lemma emitter_inv_new : emitter_inv emitter_new [].
Proof. split; [constructor|]. simpl. intros hash b. by rewrite lookup_empty. Qed.

Lemma emitter_run_inv es :
  Forall from_source es -> emitter_inv (run emitter_step emitter_new es).1 (run emitter_step emitter_new es).2.
Proof.
  intros Hes. assert (forall s h, emitter_inv s h ->
    emitter_inv (run emitter_step s es).1 (h ++ (run emitter_step s es).2)) as H.
  { induction Hes as [|e es He Hes IH]; intros s h Hi; simpl; [by rewrite app_nil_r|].
    pose proof (emitter_step_inv s h e He Hi) as Hi1. destruct (emitter_step s e) as [s1 o1].
    specialize (IH s1 (h ++ o1) Hi1). destruct (run emitter_step s1 es). simpl in *. by rewrite app_assoc. }
  apply (H emitter_new []), emitter_inv_new.
Qed.

(** A run split at two of its events. *)
Lemma emitter_run_split s es1 e es2 :
  (run emitter_step s (es1 ++ e :: es2)).2 =
  (run emitter_step s es1).2 ++ (emitter_step (run emitter_step s es1).1 e).2 ++
  (run emitter_step (emitter_step (run emitter_step s es1).1 e).1 es2).2.
Proof.
  rewrite run_app. cbn [fst snd run]. f_equal.
  destruct (emitter_step (run emitter_step s es1).1 e) as [s1 o1]. cbn [fst snd].
  by destruct (run emitter_step s1 es2).
Qed.

Lemma well_ordered_spec h o1 b o2 :
  well_ordered h -> h = o1 ++ EoBlock b :: o2 ->
  pb_commitment_config b = cc_processed \/
  exists b0, EoBlock b0 ∈ o1 /\ pb_commitment_config b0 = cc_processed /\ pb_inner b0 = pb_inner b.
Proof.
  intros Hw. revert o2. induction Hw as [|h o Hw IH Ho]; intros o2 Heq; [by destruct o1|].
  destruct o2 as [|o' o2 _] using rev_ind.
  - apply app_inj_tail in Heq as [-> ->]. done.
  - rewrite app_comm_cons, app_assoc in Heq. apply app_inj_tail in Heq as [-> ->]. by apply (IH o2).
Qed.

Lemma emitter_run_split2 es1 e es2 f es3 :
  let s1 := (run emitter_step emitter_new es1).1 in
  let s2 := (emitter_step s1 e).1 in
  let s3 := (run emitter_step s2 es2).1 in
  (run emitter_step emitter_new (es1 ++ e :: es2 ++ f :: es3)).2 =
  (run emitter_step emitter_new es1).2 ++ (emitter_step s1 e).2 ++ (run emitter_step s2 es2).2 ++
  (emitter_step s3 f).2 ++ (run emitter_step (emitter_step s3 f).1 es3).2.
Proof. simpl. by rewrite !emitter_run_split. Qed.

(** *** A block and its confirmation, in either order *)

Section confirmation.
Context (hash : Hash) (s : Emitter) (i : BlockInfo) (es : list emitter_event) (b : ProducedBlock).
Context (Hrec : forall b', em_recent_processed_blocks s !! hash = Some b' -> pb_blockhash (pb_inner b') = hash).
Context (Hi : bi_blockhash i = hash) (Hb : pb_blockhash (pb_inner b) = hash).

Lemma info_first :
  let s2 := (emitter_step s (EeInfoConfirmed i)).1 in
  EoRestart ∉ (run emitter_step s2 es).2 ->
  emits hash cc_confirmed (emitter_step s (EeInfoConfirmed i)).2 \/
  emits hash cc_confirmed (run emitter_step s2 es).2 \/
  emits hash cc_confirmed (emitter_step (run emitter_step s2 es).1 (EeBlock b)).2.
Proof.
  intros s2 Hr.
  assert (emits hash cc_confirmed (emitter_step s (EeInfoConfirmed i)).2 \/
          hash ∈ em_confirmed_not_yet_processed s2) as [He|Hp]; [|by left|right].
  { subst s2. cbn [emitter_step]. unfold emitter_confirmed. rewrite Hi.
    destruct (em_recent_processed_blocks s !! hash) as [b'|] eqn:E; simpl; [left|right; set_solver].
    exists (to_confirmed_block b'). split; [set_solver|]. split; [by apply (Hrec b')|done]. }
  pose proof (emitter_run_keeps (fun _ => True)
    (fun s h => emits hash cc_confirmed h \/ hash ∈ em_confirmed_not_yet_processed s) es s2 []) as Hkeep.
  destruct Hkeep as [He|Hp']; [|by apply Forall_true|done|by right|by left|right].
  { intros s0 h e _ Hr0 Hk. destruct (pending_step hash s0 h e Hr0 Hk) as [?|[? _]]; auto. }
  destruct (pending_step hash (run emitter_step s2 es).1 [] (EeBlock b)) as [He|[_ Hne]];
    [|by right|done|by destruct (Hne b)].
  simpl. do 2 case_decide; set_solver.
Qed.

Lemma block_first :
  let s2 := (emitter_step s (EeBlock b)).1 in
  0 < block_slot b -> pb_commitment_config b = cc_processed -> within_reach (block_slot b) s ->
  Forall (keeps hash (block_slot b)) es -> EoRestart ∉ (run emitter_step s2 es).2 ->
  emits hash cc_confirmed (emitter_step (run emitter_step s2 es).1 (EeInfoConfirmed i)).2.
Proof.
  intros s2 Hpos Hc Hw Hes Hr.
  pose proof (emitter_run_keeps (keeps hash (block_slot b)) (fun s _ =>
    within_reach (block_slot b) s /\ retained hash (block_slot b) s /\
    forall b', em_recent_processed_blocks s !! hash = Some b' -> pb_blockhash (pb_inner b') = hash) es s2 []) as Hkeep.
  destruct Hkeep as (_ & Hret & Hrec').
  - intros s0 h e He Hr0 (H1 & H2 & H3). split_and!.
    + by apply (within_reach_step hash).
    + by apply retained_step.
    + by apply recent_hash_step.
  - done.
  - done.
  - split_and!.
    + apply (within_reach_step hash); [done|by split|done].
    + by apply block_retained.
    + by apply recent_hash_step.
  - by apply (retained_confirms hash (block_slot b)).
Qed.
End confirmation.

Lemma emitter_reach hash slot es :
  0 < slot -> Forall (keeps hash slot) es -> EoRestart ∉ (run emitter_step emitter_new es).2 ->
  within_reach slot (run emitter_step emitter_new es).1.
Proof.
  intros Hpos Hes Hr.
  apply (emitter_run_keeps (keeps hash slot) (fun s _ => within_reach slot s) es emitter_new []); [|done..|].
  - intros s0 h e He _. by apply (within_reach_step hash).
  - unfold within_reach, CLEANUP_SLOTS_BEHIND_FINALIZED. simpl. lia.
Qed.

(** ** Properties *)

(** C10. The task that merges the full blocks emits no slot twice, however the
    sources repeat and reorder them and however long it runs, and it remembers
    at most 1024 slots; every block update it receives has its slot emitted,
    unless at least 512 later slots have been emitted.  (The blocks can be
    mapped: the mapping of none of them panics.) *)
Theorem multiplex_emits_slots_once (sdk : Sdk) (msgs : list Message) :
  Forall (mappable sdk) msgs ->
  exists set blocks, orun (processed_block_step sdk) [] msgs = Done (set, blocks) /\
    NoDup (block_slot <$> blocks) /\ (length set <= MAX_SIZE)%nat /\
    Forall (fun m => handled m blocks) msgs.
Proof.
  intros Hall.
  assert (exists set blocks, orun (processed_block_step sdk) [] msgs = Done (set, blocks) /\
    dedup_inv set ([] ++ blocks) /\ Forall (fun m => handled m ([] ++ blocks)) msgs)
    as (set & blocks & E & (_ & Hlen & Hnd & _) & Hh); [|by exists set, blocks].
  assert (dedup_inv [] []) as Hi.
  { split_and!; [constructor|simpl; lia|constructor|by intros ? ?%not_elem_of_nil..]. }
  generalize dependent (@nil ProducedBlock). generalize ([] : bset).
  induction Hall as [|m msgs Hm Hall IH]; intros set h Hi; simpl.
  - exists set, []. by rewrite app_nil_r.
  - destruct (processed_block_step_ok sdk set h m Hm Hi) as (set1 & o1 & -> & Hi1 & Hh1). simpl.
    destruct (IH set1 (h ++ o1) Hi1) as (set2 & o2 & -> & Hi2 & Hh2). simpl.
    exists set2, (o1 ++ o2). rewrite app_assoc. split_and!; [done..|].
    constructor; [by apply handled_mono|done].
Qed.

Definition sample_block (slot hash : Z) : ProducedBlock :=
  mkProducedBlock (mkProducedBlockInner [] None hash slot slot (slot - 1) 0 0 None) cc_processed.
Definition sample_info (slot hash : Z) (c : CommitmentConfig) : BlockInfo :=
  mkBlockInfo slot (slot - 1) slot hash c 0.

Definition sample_sdk : Sdk :=
  mkSdk (fun _ => Some (replicate 32 5)) (fun _ => None) (fun _ => false) (fun _ => None) 0 0
    (fun _ _ => false) (fun _ => "m"%string) (fun _ => "r"%string).
Definition sample_update (slot : Slot) : Message :=
  GeyserSubscribeUpdate (Some (UoBlock (mkUpdateBlock slot "h" None (Some 1) (Some 2) (slot - 1) "p" []))).

Lemma multiplex_emits_slots_once_witness :
  exists set blocks,
    orun (processed_block_step sample_sdk) []
      [sample_update 5; Connecting 2; sample_update 7; sample_update 5; sample_update 6] = Done (set, blocks) /\
    NoDup (block_slot <$> blocks) /\ (length set <= MAX_SIZE)%nat /\
    Forall (fun m => handled m blocks)
      [sample_update 5; Connecting 2; sample_update 7; sample_update 5; sample_update 6].
Proof. apply multiplex_emits_slots_once. repeat constructor; by eexists. Defined.

(** A block is emitted at a commitment above processed only after the
    same block was emitted at the processed commitment, whatever the sources
    deliver, in whatever order and across restarts. *)
Theorem multiplex_raises_emitted_blocks (es : list emitter_event) (o1 o2 : list emitter_output)
    (b : ProducedBlock) :
  Forall from_source es -> (run emitter_step emitter_new es).2 = o1 ++ EoBlock b :: o2 ->
  pb_commitment_config b = cc_processed \/
  exists b0, EoBlock b0 ∈ o1 /\ pb_commitment_config b0 = cc_processed /\ pb_inner b0 = pb_inner b.
Proof.
  intros Hes Ho. destruct (emitter_run_inv es Hes) as [Hw _]. by eapply well_ordered_spec.
Qed.

Lemma multiplex_raises_emitted_blocks_witness :
  pb_commitment_config (to_confirmed_block (sample_block 7 70)) = cc_processed \/
  exists b0, EoBlock b0 ∈ [EoBlock (sample_block 7 70); EoInfo (sample_info 7 70 cc_confirmed)] /\
    pb_commitment_config b0 = cc_processed /\ pb_inner b0 = pb_inner (to_confirmed_block (sample_block 7 70)).
Proof.
  apply (multiplex_raises_emitted_blocks
    [EeBlock (sample_block 7 70); EeInfoConfirmed (sample_info 7 70 cc_confirmed)] _ []).
  - by repeat constructor.
  - vm_compute. reflexivity.
Defined.

(** C21. When a full block and the confirmation of its hash both arrive, and
    the multiplexer is not restarted, the block is emitted as confirmed: the
    confirmation may come first, with anything in between; or the block may
    come first, as long as its own finalization does not come before the
    confirmation and the finalized slots known by then are less than a hundred
    ahead of it. *)
Theorem multiplex_confirms_block (b : ProducedBlock) (i : BlockInfo) (es es1 es2 es3 : list emitter_event) :
  pb_blockhash (pb_inner b) = bi_blockhash i -> 0 < block_slot b -> pb_commitment_config b = cc_processed ->
  Forall from_source es1 ->
  es = es1 ++ EeInfoConfirmed i :: es2 ++ EeBlock b :: es3 \/
  (es = es1 ++ EeBlock b :: es2 ++ EeInfoConfirmed i :: es3 /\
     Forall (keeps (bi_blockhash i) (block_slot b)) (es1 ++ es2)) ->
  EoRestart ∉ (run emitter_step emitter_new es).2 ->
  emits (bi_blockhash i) cc_confirmed (run emitter_step emitter_new es).2.
Proof.
  intros Hh Hpos Hb Hsrc Hes Hr. destruct (emitter_run_inv es1 Hsrc) as [_ Hrec].
  destruct Hes as [-> |[-> [Hk1 Hk2]%Forall_app]]; rewrite emitter_run_split2 in *; cbv zeta in Hr |- *;
    apply not_elem_of_app in Hr as [Hr0 [Hr1 [Hr2 _]%not_elem_of_app]%not_elem_of_app];
    rewrite !emits_app.
  - destruct (info_first (bi_blockhash i) (run emitter_step emitter_new es1).1 i es2 b)
      as [?|[?|?]]; auto 6. intros b' Hb'. by apply Hrec.
  - do 3 right. left. apply block_first; try done; [intros b' Hb'; by apply Hrec|].
    by apply (emitter_reach (bi_blockhash i)).
Qed.

Lemma multiplex_confirms_block_witness :
  emits 70 cc_confirmed (run emitter_step emitter_new
    [EeBlock (sample_block 6 60); EeBlock (sample_block 7 70); EeTick;
     EeInfoFinalized (sample_info 6 60 cc_finalized); EeInfoConfirmed (sample_info 7 70 cc_confirmed); EeTick]).2.
Proof.
  apply (multiplex_confirms_block (sample_block 7 70) (sample_info 7 70 cc_confirmed) _
    [EeBlock (sample_block 6 60)] [EeTick; EeInfoFinalized (sample_info 6 60 cc_finalized)] [EeTick]);
    [done..|by repeat constructor| |].
  - right. split; [done|]. repeat (constructor; [by try split|]). constructor.
  - vm_compute. intros H. repeat (apply elem_of_cons in H as [H|H]; [discriminate|]).
    by apply not_elem_of_nil in H.
Defined.

(** The commitments of a block are not always emitted in the order
    processed, confirmed, finalized: when the finalized meta of a block
    overtakes its confirmed meta (they travel on different channels), the
    block is emitted as processed and finalized and never as confirmed, and
    its hash stays in the set of confirmed hashes that wait for a block. *)
Theorem multiplex_confirmation_overtaken (b : ProducedBlock) (i j : BlockInfo) :
  pb_commitment_config b = cc_processed ->
  bi_blockhash i = pb_blockhash (pb_inner b) -> bi_blockhash j = pb_blockhash (pb_inner b) ->
  let r := run emitter_step emitter_new [EeBlock b; EeInfoFinalized j; EeInfoConfirmed i] in
  r.2 = [EoBlock b; EoInfo j; EoBlock (to_finalized_block b); EoInfo i] /\
  pb_blockhash (pb_inner b) ∈ em_confirmed_not_yet_processed r.1.
Proof.
  intros Hb Hi Hj. cbn [run emitter_step emitter_block emitter_new]. unfold emitter_finalized.
  cbn [em_recent_processed_blocks]. rewrite Hj, lookup_insert_eq. unfold emitter_confirmed.
  cbn [em_recent_processed_blocks]. rewrite Hi, lookup_delete_eq. simpl. set_solver.
Qed.

Lemma multiplex_confirmation_overtaken_witness :
  let r := run emitter_step emitter_new
    [EeBlock (sample_block 7 70); EeInfoFinalized (sample_info 7 70 cc_finalized);
     EeInfoConfirmed (sample_info 7 70 cc_confirmed)] in
  r.2 = [EoBlock (sample_block 7 70); EoInfo (sample_info 7 70 cc_finalized);
         EoBlock (to_finalized_block (sample_block 7 70)); EoInfo (sample_info 7 70 cc_confirmed)] /\
  70 ∈ em_confirmed_not_yet_processed r.1.
Proof. by apply (multiplex_confirmation_overtaken (sample_block 7 70)). Defined.
