(* ===== verification/Feed.v ===== *)
(** * From the geyser sources to the answers of the server

    The multiplexer of cluster-endpoints/src/grpc_multiplex.rs with its tasks,
    its channels and its restarts, composed with the caching service
    (services/src/data_caching_service.rs) and the sender, which share the data
    cache.  [feed_step] is one action of one of the tasks, so that a sequence of
    events is an interleaving of them.  The second part is what a restart waits
    for. *)

From stdpp Require Import functions.
From S2P Require Import Prelude BTreeMap Types BlockInfoStore DataCache TxService BlockMapping Multiplex.

(** ** The state *)

(** The capacities of the channels: full blocks, metas, and the two broadcast
    channels downstream. *)
Definition BLOCK_CHANNEL : nat := 10.
Definition INFO_CHANNEL : nat := 500.
Definition BLOCK_STREAM : nat := 32.
Definition INFO_STREAM : nat := 32.

(** The task that merges the metas of one commitment and its channel; a task
    that panicked is gone. *)
Record InfoTask := mkInfoTask { it_tip : option Slot; it_queue : list BlockInfo }.

Record Feed := mkFeed {
  fd_reconnect_attempts : Z;
  fd_block_task : option bset;
  fd_blocks : list ProducedBlock;
  fd_infos : CommitmentLevel -> InfoTask;
  fd_emitter : Emitter;
  fd_block_stream : list ProducedBlock;
  fd_info_stream : list BlockInfo;
  fd_cache : DataCache;
}.

(** The actions: a message of a source reaches the task that merges it, the
    emitter takes a block or a meta from a channel or its interval ticks, the
    caching service takes a block or a meta, another event of its, and the
    sender stores a transaction. *)
Inductive feed_event :=
| FdBlockMessage (m : Message)
| FdInfoMessage (c : CommitmentLevel) (m : Message)
| FdTakeBlock
| FdTakeInfo (c : CommitmentLevel)
| FdTick
| FdCacheBlock
| FdCacheInfo
| FdCache (ev : caching_event)
| FdForward (info : SentTransactionInfo).

Section feed.
Context (sdk : Sdk).
Context (pubkey_from_str : string -> option Pubkey) (identity : string).
Context (sink_closed : Z -> bool) (clean_duration : Z).
Abbreviation cache_step := (caching_step pubkey_from_str identity sink_closed clean_duration).

(** A turn of the reconnect loop, [create_grpc_multiplex_blocks_subscription],
    cluster-endpoints/src/grpc_multiplex.rs:261-316: new channels, new tasks, and the
    variables of the receive loop. *)
Definition reconnect (s : Feed) : Feed :=
  mkFeed (fd_reconnect_attempts s + 1) (Some []) [] (fun _ => mkInfoTask (Some 0) []) emitter_new
    (fd_block_stream s) (fd_info_stream s) (fd_cache s).

(** [create_grpc_multiplex_blocks_subscription],
    cluster-endpoints/src/grpc_multiplex.rs:234-260. *)
Definition feed_start (d : DataCache) : Feed :=
  reconnect (mkFeed 0 None [] (fun _ => mkInfoTask None []) emitter_new [] [] d).

(** What the emitter sends, and the end of its loop, [create_grpc_multiplex_blocks_subscription],
    cluster-endpoints/src/grpc_multiplex.rs:450-465. *)
Definition publish (s : Feed) (o : emitter_output) : Feed :=
  match o with
  | EoBlock b =>
      mkFeed (fd_reconnect_attempts s) (fd_block_task s) (fd_blocks s) (fd_infos s) (fd_emitter s)
        (bc_push BLOCK_STREAM (fd_block_stream s) b) (fd_info_stream s) (fd_cache s)
  | EoInfo i =>
      mkFeed (fd_reconnect_attempts s) (fd_block_task s) (fd_blocks s) (fd_infos s) (fd_emitter s)
        (fd_block_stream s) (bc_push INFO_STREAM (fd_info_stream s) i) (fd_cache s)
  | EoRestart => reconnect s
  end.

Definition set_block_task (s : Feed) t blocks :=
  mkFeed (fd_reconnect_attempts s) t blocks (fd_infos s) (fd_emitter s) (fd_block_stream s) (fd_info_stream s) (fd_cache s).
Definition set_info_task (s : Feed) c t :=
  mkFeed (fd_reconnect_attempts s) (fd_block_task s) (fd_blocks s) (<[c := t]> (fd_infos s)) (fd_emitter s)
    (fd_block_stream s) (fd_info_stream s) (fd_cache s).
Definition set_streams (s : Feed) blocks infos d :=
  mkFeed (fd_reconnect_attempts s) (fd_block_task s) (fd_blocks s) (fd_infos s) (fd_emitter s) blocks infos d.

(** One event of the emitter's loop. *)
Definition emit (s : Feed) (e : emitter_event) : Feed :=
  let '(em, out) := emitter_step (fd_emitter s) e in
  foldl publish (mkFeed (fd_reconnect_attempts s) (fd_block_task s) (fd_blocks s) (fd_infos s) em
                   (fd_block_stream s) (fd_info_stream s) (fd_cache s)) out.

Definition info_event (c : CommitmentLevel) (i : BlockInfo) : emitter_event :=
  match c with ClProcessed => EeInfoProcessed i | ClConfirmed => EeInfoConfirmed i | ClFinalized => EeInfoFinalized i end.

(** One action.  A task whose channel is full waits: the message stays with the
    source. *)
Definition feed_step (s : Feed) (ev : feed_event) : Feed * list SignatureNotification :=
  match ev with
  | FdBlockMessage m =>
      match fd_block_task s with
      | Some slots_processed =>
          if bool_decide (length (fd_blocks s) < BLOCK_CHANNEL)%nat then
            match processed_block_step sdk slots_processed m with
            | Done (slots, blocks) => (set_block_task s (Some slots) (fd_blocks s ++ blocks), [])
            | Panic => (set_block_task s None (fd_blocks s), [])
            end
          else (s, [])
      | None => (s, [])
      end
  | FdInfoMessage c m =>
      match fd_infos s c with
      | mkInfoTask (Some tip) queue =>
          if bool_decide (length queue < INFO_CHANNEL)%nat then
            match block_info_step sdk (mkCommitmentConfig c) tip m with
            | Done (tip, infos) => (set_info_task s c (mkInfoTask (Some tip) (queue ++ infos)), [])
            | Panic => (set_info_task s c (mkInfoTask None queue), [])
            end
          else (s, [])
      | mkInfoTask None _ => (s, [])
      end
  | FdTakeBlock =>
      match fd_blocks s with
      | b :: blocks => (emit (set_block_task s (fd_block_task s) blocks) (EeBlock b), [])
      | [] => (s, [])
      end
  | FdTakeInfo c =>
      match it_queue (fd_infos s c) with
      | i :: queue => (emit (set_info_task s c (mkInfoTask (it_tip (fd_infos s c)) queue)) (info_event c i), [])
      | [] => (s, [])
      end
  | FdTick => (emit s EeTick, [])
  | FdCacheBlock =>
      match fd_block_stream s with
      | b :: blocks => let '(d, notes) := cache_step (fd_cache s) (EvBlock b) in (set_streams s blocks (fd_info_stream s) d, notes)
      | [] => (s, [])
      end
  | FdCacheInfo =>
      match fd_info_stream s with
      | i :: infos => let '(d, notes) := cache_step (fd_cache s) (EvBlockInfo i) in (set_streams s (fd_block_stream s) infos d, notes)
      | [] => (s, [])
      end
  | FdCache (EvBlock _) | FdCache (EvBlockInfo _) => (s, [])
  | FdCache ev => let '(d, notes) := cache_step (fd_cache s) ev in (set_streams s (fd_block_stream s) (fd_info_stream s) d, notes)
  | FdForward info => (set_streams s (fd_block_stream s) (fd_info_stream s) (forward_txs (fd_cache s) info).1, [])
  end.

(** ** What the sources delivered *)

(** A source delivered a full block. *)
Definition delivered (evs : list feed_event) (b : ProducedBlock) : Prop :=
  exists u slot, FdBlockMessage (GeyserSubscribeUpdate u) ∈ evs /\
    map_block_from_yellowstone_update sdk u cc_processed = Done (Some (slot, b)).

(** A source delivered the meta of a block at a commitment. *)
Definition reported (evs : list feed_event) (c : CommitmentLevel) (hash : Hash) : Prop :=
  exists meta, FdInfoMessage c (GeyserSubscribeUpdate (Some (UoBlockMeta meta))) ∈ evs /\
    hash_from_str (sdk_base58_decode sdk) (bm_blockhash meta) = Ok hash.

(** ** Everything comes from the sources *)

Section provenance.
(** The blocks and the metas the sources deliver. *)
Context (full : ProducedBlock -> Prop) (meta : CommitmentLevel -> Hash -> Prop).

Definition sourced (ev : feed_event) : Prop :=
  match ev with
  | FdBlockMessage (GeyserSubscribeUpdate u) =>
      forall slot b, map_block_from_yellowstone_update sdk u cc_processed = Done (Some (slot, b)) -> full b
  | FdInfoMessage c (GeyserSubscribeUpdate (Some (UoBlockMeta m))) =>
      forall hash, hash_from_str (sdk_base58_decode sdk) (bm_blockhash m) = Ok hash -> meta c hash
  | _ => True
  end.

(** A block of any commitment: a source delivered it, and, above processed, a
    source reported its hash at that commitment. *)
Definition backed (b : ProducedBlock) : Prop :=
  exists b0, full b0 /\ pb_inner b0 = pb_inner b /\
    (pb_commitment_config b = cc_processed \/ meta (cc_commitment (pb_commitment_config b)) (pb_blockhash (pb_inner b))).

Definition backed_status (sig : Signature) (st : TransactionStatus) : Prop :=
  exists b tx, backed b /\ tx ∈ pb_transactions (pb_inner b) /\ ti_signature tx = sig /\ ts_err st = ti_err tx /\
    ts_slot st = pb_slot (pb_inner b) /\ ts_confirmation_status st = Some (confirmation_status_of (pb_commitment_config b)).

Definition full_processed (b : ProducedBlock) : Prop := full b /\ pb_commitment_config b = cc_processed.

Record emitter_backed (em : Emitter) : Prop := {
  eb_recent : forall hash b, em_recent_processed_blocks em !! hash = Some b -> pb_blockhash (pb_inner b) = hash /\ full_processed b;
  eb_confirmed : forall hash, hash ∈ em_confirmed_not_yet_processed em -> meta ClConfirmed hash;
  eb_finalized : forall hash, hash ∈ em_finalized_not_yet_processed em -> meta ClFinalized hash;
}.

Definition cache_backed (d : DataCache) : Prop :=
  forall sig props st, txs d !! sig = Some props -> txp_status props = Some st -> backed_status sig st.

Record feed_backed (s : Feed) : Prop := {
  fb_blocks : Forall full_processed (fd_blocks s);
  fb_infos : forall c, Forall (fun i => meta c (bi_blockhash i)) (it_queue (fd_infos s c));
  fb_emitter : emitter_backed (fd_emitter s);
  fb_stream : Forall backed (fd_block_stream s);
  fb_cache : cache_backed (fd_cache s);
}.

Lemma emitter_new_backed : emitter_backed emitter_new.
Proof. split; set_solver. Qed.

Lemma full_backed b : full_processed b -> backed b.
Proof. intros [Hf Hc]. exists b. auto. Qed.

Lemma raised_backed b c :
  full_processed b -> meta c (pb_blockhash (pb_inner b)) -> backed (mkProducedBlock (pb_inner b) (mkCommitmentConfig c)).
Proof. intros [Hf Hc] Hm. exists b. auto. Qed.

(** What the emitter receives. *)
Definition event_backed (e : emitter_event) : Prop :=
  match e with
  | EeBlock b => full_processed b
  | EeInfoConfirmed i => meta ClConfirmed (bi_blockhash i)
  | EeInfoFinalized i => meta ClFinalized (bi_blockhash i)
  | _ => True
  end.

Lemma emitter_step_backed em e :
  emitter_backed em -> event_backed e ->
  emitter_backed (emitter_step em e).1 /\ forall b, EoBlock b ∈ (emitter_step em e).2 -> backed b.
Proof.
  intros Hem He. destruct e as [b|i|i|i|]; cbn [emitter_step event_backed] in *.
  - split; [split|].
    + intros hash b'. cbn. intros [[<- <-]|[_ Hb]]%lookup_insert_Some; [by destruct He|by apply (eb_recent _ Hem)].
    + intros hash. cbn. intros [Hh _]%elem_of_difference. by apply (eb_confirmed _ Hem).
    + intros hash. cbn. intros [Hh _]%elem_of_difference. by apply (eb_finalized _ Hem).
    + intros b'. cbn. rewrite elem_of_cons, elem_of_app. intros [[= ->]|[Hb|Hb]]; [by apply full_backed|..].
      * case_decide as Hin; [|by apply not_elem_of_nil in Hb]. apply list_elem_of_singleton in Hb as [= ->].
        apply raised_backed; [done|by apply (eb_confirmed _ Hem)].
      * case_decide as Hin; [|by apply not_elem_of_nil in Hb]. apply list_elem_of_singleton in Hb as [= ->].
        apply raised_backed; [done|by apply (eb_finalized _ Hem)].
  - split; [done|]. set_solver.
  - unfold emitter_confirmed. destruct (em_recent_processed_blocks em !! bi_blockhash i) as [b|] eqn:Hb; (split; [split|]); cbn;
      try apply Hem; try set_solver.
    + intros b' Hx. destruct (eb_recent _ Hem _ _ Hb) as [Hh Hf]. assert (b' = to_confirmed_block b) as -> by set_solver.
      apply raised_backed; [done|by rewrite Hh].
    + intros hash [->%elem_of_singleton|Hx]%elem_of_union; [done|by apply (eb_confirmed _ Hem)].
  - unfold emitter_finalized. destruct (em_recent_processed_blocks em !! bi_blockhash i) as [b|] eqn:Hb; (split; [split|]); cbn;
      try apply Hem; try set_solver.
    + intros hash b' [_ Hx]%lookup_delete_Some. by apply (eb_recent _ Hem).
    + intros b' Hx. destruct (eb_recent _ Hem _ _ Hb) as [Hh Hf]. assert (b' = to_finalized_block b) as -> by set_solver.
      apply raised_backed; [done|by rewrite Hh].
    + intros hash. destruct (em_startup_completed em); [|apply (eb_finalized _ Hem)].
      intros [->%elem_of_singleton|Hx]%elem_of_union; [done|by apply (eb_finalized _ Hem)].
  - unfold emitter_tick. destruct (_ || _); (split; [split|]); cbn; try apply Hem; try set_solver.
    intros hash b [Hb _]%map_lookup_filter_Some. by apply (eb_recent _ Hem).
Qed.

Lemma publish_backed s o :
  feed_backed s -> (forall b, o = EoBlock b -> backed b) -> feed_backed (publish s o).
Proof.
  intros Hs Ho. destruct o as [b|i|]; cbn [publish].
  - split; try apply Hs. apply Forall_forall. intros b' [Hb|Hb]%bc_push_elem; cbn in *.
    + by apply (proj1 (Forall_forall _ _) (fb_stream _ Hs)).
    + subst. by apply Ho.
  - split; apply Hs.
  - split; try apply Hs; cbn; [constructor|constructor|apply emitter_new_backed].
Qed.

Lemma emit_backed s e : feed_backed s -> event_backed e -> feed_backed (emit s e).
Proof.
  intros Hs He. unfold emit. destruct (emitter_step_backed (fd_emitter s) e (fb_emitter _ Hs) He) as [Hem Hout].
  destruct (emitter_step (fd_emitter s) e) as [em out]. cbn [fst snd] in *.
  match goal with |- feed_backed (foldl publish ?s0 out) => assert (feed_backed s0) as H0; [|set (s1 := s0) in *; clearbody s1] end.
  { split; try apply Hs. done. }
  revert s1 H0. induction out as [|o out IH]; intros s1 H0; [done|]. cbn [foldl]. apply IH.
  - intros b Hb. apply Hout, elem_of_cons. by right.
  - apply publish_backed; [done|]. intros b ->. apply Hout, elem_of_cons. by left.
Qed.

Lemma update_status_backed d sig status lv :
  cache_backed d -> backed_status sig status ->
  forall d', txs d' = (txs_update_status (txs d) sig status lv).2 -> cache_backed d'.
Proof.
  intros Hd Hst d' Ht sig' props st Hp Hs. rewrite Ht in Hp. destruct (decide (sig = sig')) as [<-|Hne].
  - destruct (txs_update_status_eq (txs d) sig status lv) as (p & Hp' & Hst' & _). rewrite Hp' in Hp. injection Hp as <-.
    rewrite Hst' in Hs. by injection Hs as <-.
  - rewrite txs_update_status_ne in Hp by done. by apply (Hd sig' props).
Qed.

Lemma cache_block_backed d b : cache_backed d -> backed b -> cache_backed (cache_block d b).1.
Proof.
  intros Hd Hb. unfold cache_block.
  assert (forall l d out, (forall tx, tx ∈ l -> tx ∈ pb_transactions (pb_inner b)) -> cache_backed d ->
    cache_backed (foldl (cache_transaction b) (d, out) l).1) as Hgen.
  { intros l. induction l as [|tx l IH]; intros d0 out Hl Hd0; [done|]. cbn [foldl].
    destruct (cache_transaction b (d0, out) tx) as [d1 out1] eqn:E.
    apply IH; [intros; apply Hl, elem_of_cons; auto|]. unfold cache_transaction in E.
    destruct (subs_notify _ _ _ _) as [subs notes]. injection E as <- _.
    eapply update_status_backed; [exact Hd0| |reflexivity].
    exists b, tx. split_and!; try done. apply Hl, elem_of_cons. by left. }
  by apply Hgen.
Qed.

Lemma cache_step_backed d ev :
  cache_backed d -> (forall b, ev = EvBlock b -> backed b) -> cache_backed (cache_step d ev).1.
Proof.
  intros Hd Hev. destruct ev as [b|b|n|nodes|va|now|n]; cbn [caching_step fst]; try done.
  - apply cache_block_backed; auto.
  - intros sig props st [Hp _]%map_lookup_filter_Some. by apply Hd.
Qed.

Lemma forward_backed d info : cache_backed d -> cache_backed (forward_txs d info).1.
Proof.
  intros Hd sig props st. cbn. intros [[<- <-]|[_ Hp]]%lookup_insert_Some Hs; [done|by apply (Hd sig props)].
Qed.

Lemma grpc_block_processed u slot b :
  map_block_from_yellowstone_update sdk u cc_processed = Done (Some (slot, b)) -> pb_commitment_config b = cc_processed.
Proof.
  destruct u as [[|m|ub|]|]; cbn [map_block_from_yellowstone_update]; try discriminate. unfold grpc_block, from_grpc_block_update.
  destruct (filter_mapM _ _); cbn; [|done]. destruct (ub_block_height ub); cbn; [|done]. destruct (ub_block_time ub); cbn; [|done].
  destruct (hash_from_str _ (ub_blockhash ub)); cbn; [|done]. destruct (hash_from_str _ (ub_parent_blockhash ub)); cbn; [|done].
  by intros [= <- <-].
Qed.

Lemma processed_block_step_backed slots m slots' blocks :
  sourced (FdBlockMessage m) -> processed_block_step sdk slots m = Done (slots', blocks) -> Forall full_processed blocks.
Proof.
  intros Hm H. destruct m as [u|]; cbn [processed_block_step sourced] in *; [|by injection H as <- <-].
  destruct (extract_slot_from_yellowstone_update u); [|by injection H as <- <-].
  destruct (bs_contains _ _); [by injection H as <- <-|]. destruct (_ && _); [by injection H as <- <-|].
  destruct (map_block_from_yellowstone_update sdk u cc_processed) as [[[slot b]|]|] eqn:E; cbn in H; [|by injection H as <- <-|done].
  injection H as <- <-. apply Forall_singleton. split; [by apply (Hm slot)|by eapply grpc_block_processed].
Qed.

Lemma block_info_step_backed c tip m tip' infos :
  sourced (FdInfoMessage c m) -> block_info_step sdk (mkCommitmentConfig c) tip m = Done (tip', infos) ->
  Forall (fun i => meta c (bi_blockhash i)) infos.
Proof.
  intros Hm H. destruct m as [[[|bm| |]|]|]; cbn [block_info_step sourced] in *; try (by injection H as <- <-).
  destruct (tip <? bm_slot bm); [|by injection H as <- <-].
  destruct (bm_block_height bm); cbn in H; [|done].
  destruct (hash_from_str _ _) as [hash|] eqn:E; cbn in H; [|done]. destruct (bm_block_time bm); cbn in H; [|done].
  injection H as <- <-. apply Forall_singleton. cbn. auto.
Qed.

Lemma feed_step_backed s ev : feed_backed s -> sourced ev -> feed_backed (feed_step s ev).1.
Proof.
  intros Hs Hev. destruct ev as [m|c m| |c| | | |ev|info]; cbn [feed_step].
  - destruct (fd_block_task s) as [slots|]; [|done]. case_bool_decide; [|done].
    destruct (processed_block_step sdk slots m) as [[slots' blocks]|] eqn:E; (split; try apply Hs).
    apply Forall_app. split; [apply Hs|]. by eapply processed_block_step_backed.
  - pose proof (fb_infos _ Hs c) as Hi. destruct (fd_infos s c) as [[tip|] queue]; [|done]. case_bool_decide; [|done].
    destruct (block_info_step _ _ _ _) as [[tip' infos]|] eqn:E; (split; try apply Hs); intros c'; cbn;
      (destruct (decide (c = c')) as [<-|Hne]; [rewrite fn_lookup_insert|rewrite fn_lookup_insert_ne by done; apply Hs]).
    + apply Forall_app. split; [done|]. by eapply block_info_step_backed.
    + done.
  - pose proof (fb_blocks _ Hs) as Hb. destruct (fd_blocks s) as [|b blocks]; [done|]. apply Forall_cons in Hb as [Hb Hbs].
    apply emit_backed; [|done]. split; try apply Hs. done.
  - pose proof (fb_infos _ Hs c) as Hi. destruct (it_queue (fd_infos s c)) as [|i queue]; [done|].
    apply Forall_cons in Hi as [Hi His]. apply emit_backed; [|by destruct c].
    split; try apply Hs. intros c'. cbn. destruct (decide (c = c')) as [<-|Hne]; [by rewrite fn_lookup_insert|].
    rewrite fn_lookup_insert_ne by done. apply Hs.
  - by apply emit_backed.
  - pose proof (fb_stream _ Hs) as Hb. destruct (fd_block_stream s) as [|b blocks]; [done|]. apply Forall_cons in Hb as [Hb Hbs].
    pose proof (cache_step_backed (fd_cache s) (EvBlock b) (fb_cache _ Hs)) as Hc. destruct (cache_step _ _) as [d notes].
    split; try apply Hs; [done|]. apply Hc. by intros b' [= <-].
  - pose proof (fun i => cache_step_backed (fd_cache s) (EvBlockInfo i) (fb_cache _ Hs)) as Hc.
    destruct (fd_info_stream s) as [|i infos]; [done|]. specialize (Hc i). destruct (cache_step _ _) as [d notes].
    split; try apply Hs. by apply Hc.
  - pose proof (cache_step_backed (fd_cache s) ev (fb_cache _ Hs)) as Hc.
    destruct ev as [b|i|n|nodes|va|now|n]; try done; destruct (cache_step _ _) as [d notes]; (split; try apply Hs); by apply Hc.
  - split; try apply Hs. apply forward_backed, Hs.
Qed.
End provenance.

(** C2. The server reports what the sources reported.  However the sources,
    the merging tasks, the emitter with its restarts, the caching service and
    the sender interleave, a status the server has for a transaction is that of
    a full block some source delivered, with its slot and its error; and a
    status above processed is one for which a source delivered the meta of that
    block, by its hash, at that commitment. *)
Theorem status_backed_by_sources (d : DataCache) (evs : list feed_event) sig props st :
  (forall sig props, txs d !! sig = Some props -> txp_status props = None) ->
  txs (fd_cache (run feed_step (feed_start d) evs).1) !! sig = Some props -> txp_status props = Some st ->
  exists b tx, delivered evs b /\ tx ∈ pb_transactions (pb_inner b) /\ ti_signature tx = sig /\
    ts_slot st = pb_slot (pb_inner b) /\ ts_err st = ti_err tx /\
    match ts_confirmation_status st with
    | Some TcsProcessed => True
    | Some TcsConfirmed => reported evs ClConfirmed (pb_blockhash (pb_inner b))
    | Some TcsFinalized => reported evs ClFinalized (pb_blockhash (pb_inner b))
    | None => False
    end.
Proof.
  intros Hd Hp Hst.
  assert (feed_backed (delivered evs) (reported evs) (run feed_step (feed_start d) evs).1) as Hb.
  { apply (run_history_on feed_step (fun ev => ev ∈ evs) (fun s _ => feed_backed (delivered evs) (reported evs) s)) with (h := []).
    - intros s _ ev Hev Hs. apply feed_step_backed; [done|].
      destruct ev as [[u|]|c [[[|m| |]|]|]| |c| | | |ev|info]; try done; cbn [sourced].
      + intros slot b Hb. by exists u, slot.
      + intros hash Hh. by exists m.
    - by apply Forall_forall.
    - split; cbn; [constructor|constructor|apply emitter_new_backed|constructor|].
      intros sig' props' st' Hp' Hs'. by rewrite (Hd sig' props' Hp') in Hs'. }
  destruct (fb_cache _ _ _ Hb sig props st Hp Hst) as (b & tx & (b0 & Hfull & Hin & Hc) & Htx & Hsig & Herr & Hslot & Hconf).
  exists b0, tx. rewrite Hin. split_and!; try done. rewrite Hconf. unfold confirmation_status_of.
  destruct (pb_commitment_config b) as [[]]; cbn in *; [done|..]; destruct Hc as [|Hc]; done.
Qed.
End feed.

(** ** One block through the feed *)

Definition sample_feed_sdk : Sdk :=
  mkSdk (fun _ => Some (replicate 32 5)) sample_budget (fun _ => false) (fun _ => None) key_two 0
    (fun _ i => (i =? 0)%nat) (fun _ => "m"%string) (fun _ => "r"%string).
Definition sample_signature : Signature := default 0 (sig_of_bytes (replicate 64 4)).
Definition sample_feed_step := feed_step sample_feed_sdk (fun _ => None) "id" (fun _ => false) 5000.

(** The meta of the block overtakes the block, which two sources deliver. *)
Definition sample_feed : list feed_event :=
  [FdInfoMessage ClConfirmed (GeyserSubscribeUpdate (Some (UoBlockMeta (mkBlockMeta 10 "h" (Some 1000) (Some 8) 9))));
   FdTakeInfo ClConfirmed; FdBlockMessage (GeyserSubscribeUpdate (Some (UoBlock sample_grpc_block)));
   FdBlockMessage (GeyserSubscribeUpdate (Some (UoBlock sample_grpc_block))); FdTakeBlock; FdTakeBlock; FdTick;
   FdCacheBlock; FdCacheInfo; FdCacheBlock].

Definition sample_status : option TransactionStatus :=
  props ← txs (fd_cache (run sample_feed_step (feed_start sample_cache) sample_feed).1) !! sample_signature; txp_status props.

Lemma sample_feed_confirms : (ts_confirmation_status <$> sample_status) = Some (Some TcsConfirmed).
Proof. vm_compute. reflexivity. Qed.

Lemma status_backed_by_sources_witness :
  exists st, sample_status = Some st /\
  exists b tx, delivered sample_feed_sdk sample_feed b /\ tx ∈ pb_transactions (pb_inner b) /\ ti_signature tx = sample_signature /\
    ts_slot st = pb_slot (pb_inner b) /\ ts_err st = ti_err tx /\
    match ts_confirmation_status st with
    | Some TcsProcessed => True
    | Some TcsConfirmed => reported sample_feed_sdk sample_feed ClConfirmed (pb_blockhash (pb_inner b))
    | Some TcsFinalized => reported sample_feed_sdk sample_feed ClFinalized (pb_blockhash (pb_inner b))
    | None => False
    end.
Proof.
  unfold sample_status.
  destruct (txs (fd_cache (run sample_feed_step (feed_start sample_cache) sample_feed).1) !! sample_signature) as [props|] eqn:E;
    [|vm_compute in E; discriminate].
  cbn [mbind option_bind]. destruct (txp_status props) as [st|] eqn:Es.
  - exists st. split; [done|]. exact (status_backed_by_sources sample_feed_sdk (fun _ => None) "id" (fun _ => false) 5000 sample_cache
      sample_feed sample_signature props st (fun _ _ (H : None = Some _) => match H with end) E Es).
  - vm_compute in E. injection E as <-. discriminate Es.
Defined.

(** ** What a restart waits for *)

(** Where the task that merges full blocks is: at the [select] of its loop,
    sending the block of a slot to its channel, or over. *)
Inductive MergerPc := AtSelect | Sending (slot : Slot) (b : ProducedBlock) | Over.

(** The task, from the moment the emitter has left its receive loop and sent
    the exit signal: the receiver of its channel lives on, nobody takes from it. *)
Record Merger := mkMerger { mg_slots : bset; mg_channel : list ProducedBlock; mg_pc : MergerPc }.

(** The task at a restart. *)
Definition merger_at_restart (s : Feed) (slots_processed : bset) : Merger := mkMerger slots_processed (fd_blocks s) AtSelect.

(** What the task does next: its [select] takes a message of the sources, finds
    their channel closed or takes the exit signal; a send is tried. *)
Inductive merger_event := MgMessage (m : Message) | MgClosed | MgExit | MgSend.

Section restart.
Context (sdk : Sdk).

(** A message up to the send, [create_grpc_multiplex_processed_block_task],
    cluster-endpoints/src/grpc_multiplex.rs:71-89: duplicates, old slots and messages without a
    block are passed over. *)
Definition block_of_message (slots_processed : bset) (m : Message) : outcome (option (Slot * ProducedBlock)) :=
  match m with
  | GeyserSubscribeUpdate u =>
      match extract_slot_from_yellowstone_update u with
      | Some slot =>
          if bs_contains slot slots_processed then Done None
          else if (MAX_SIZE / 2 <=? length slots_processed)%nat &&
                  (slot <=? default 0 (bs_first slots_processed)) then Done None
          else
            r ← map_block_from_yellowstone_update sdk u cc_processed;
            Done (match r with Some (_, produced_block) => Some (slot, produced_block) | None => None end)
      | None => Done None
      end
  | Connecting _ => Done None
  end.

(** After the send, [create_grpc_multiplex_processed_block_task],
    cluster-endpoints/src/grpc_multiplex.rs:107-110. *)
Definition slot_sent (slots_processed : bset) (slot : Slot) : bset :=
  let slots' := bs_insert slot slots_processed in
  if (MAX_SIZE <? length slots')%nat then bt_pop_first slots' else slots'.

(** One action of the task while the reconnect loop joins it,
    [create_grpc_multiplex_processed_block_task], cluster-endpoints/src/grpc_multiplex.rs:52-128:
    a mapping that panics ends the task too. *)
Definition merger_step (s : Merger) (ev : merger_event) : Merger :=
  match mg_pc s, ev with
  | AtSelect, MgMessage m =>
      match block_of_message (mg_slots s) m with
      | Done (Some (slot, b)) => mkMerger (mg_slots s) (mg_channel s) (Sending slot b)
      | Done None => s
      | Panic => mkMerger (mg_slots s) (mg_channel s) Over
      end
  | AtSelect, (MgClosed | MgExit) => mkMerger (mg_slots s) (mg_channel s) Over
  | Sending slot b, MgSend =>
      if bool_decide (length (mg_channel s) < BLOCK_CHANNEL)%nat
      then mkMerger (slot_sent (mg_slots s) slot) (mg_channel s ++ [b]) AtSelect
      else s
  | _, _ => s
  end.

(** The two halves are the step of the running task. *)
Lemma processed_block_halves slots m :
  processed_block_step sdk slots m =
  (r ← block_of_message slots m; Done (match r with Some (slot, b) => (slot_sent slots slot, [b]) | None => (slots, []) end)).
Proof.
  unfold processed_block_step, block_of_message. destruct m as [u|n]; [|done]. destruct (extract_slot_from_yellowstone_update u); [|done].
  destruct (bs_contains _ _); [done|]. destruct (_ && _); [done|].
  destruct (map_block_from_yellowstone_update sdk u cc_processed) as [[[slot b]|]|]; done.
Qed.

(** The task cannot end any more: it sends to a full channel. *)
Definition merger_stuck (s : Merger) : Prop :=
  match mg_pc s with Sending _ _ => (BLOCK_CHANNEL <= length (mg_channel s))%nat | _ => False end.

Lemma merger_stuck_stays s evs : merger_stuck s -> foldl merger_step s evs = s.
Proof.
  intros Hs. induction evs as [|ev evs IH]; [done|]. cbn [foldl]. enough (merger_step s ev = s) as -> by done.
  unfold merger_stuck in Hs. unfold merger_step. destruct (mg_pc s), ev; try done. by rewrite bool_decide_eq_false_2 by lia.
Qed.

(** The sources deliver, and the task sends. *)
Definition deliver (msgs : list Message) : list merger_event := m ← msgs; [MgMessage m; MgSend].

(** Messages that each bring a new block fill the channel. *)
Lemma merger_fills msgs : forall s slots blocks,
  mg_pc s = AtSelect -> orun (processed_block_step sdk) (mg_slots s) msgs = Done (slots, blocks) -> length blocks = length msgs ->
  (length (mg_channel s) <= BLOCK_CHANNEL)%nat -> (BLOCK_CHANNEL < length (mg_channel s) + length msgs)%nat ->
  merger_stuck (foldl merger_step s (deliver msgs)).
Proof.
  induction msgs as [|m msgs IH]; intros s slots blocks Hpc Hr Hl Hc Hn; [cbn in Hn; lia|]. cbn [orun] in Hr.
  rewrite processed_block_halves in Hr. destruct (block_of_message (mg_slots s) m) as [r|] eqn:Hm; [|done]. cbn [mbind outcome_bind] in Hr.
  assert (forall l (x y : bset * list ProducedBlock) k, orun (processed_block_step sdk) k l = Done y -> (length y.2 <= length l)%nat) as Hle.
  { clear. intros l _. induction l as [|m l IH]; intros y k; cbn [orun]; [by intros [= <-]|]. rewrite processed_block_halves.
    destruct (block_of_message k m) as [[[slot b]|]|]; [..|done]; cbn [mbind outcome_bind];
      (destruct (orun _ _ l) as [y'|] eqn:E; [|done]); destruct y' as [k' l']; cbn; intros [= <-]; specialize (IH _ _ E); cbn in *; lia. }
  destruct r as [[slot b]|].
  - destruct (orun (processed_block_step sdk) (slot_sent (mg_slots s) slot) msgs) as [[s2 o2]|] eqn:Hr2; [|done]. cbn in Hr. injection Hr as <- <-.
    cbn [length app] in Hl. change (deliver (m :: msgs)) with (MgMessage m :: MgSend :: deliver msgs). cbn [foldl].
    unfold merger_step at 2 3. rewrite Hpc, Hm. cbn [mg_pc mg_channel mg_slots]. case_bool_decide as Hroom.
    + apply (IH _ s2 o2); cbn [mg_pc mg_channel mg_slots]; [done|done|lia|rewrite length_app; cbn; lia|]. rewrite length_app. cbn [length] in *. lia.
    + rewrite merger_stuck_stays; unfold merger_stuck; cbn; lia.
  - destruct (orun (processed_block_step sdk) (mg_slots s) msgs) as [[s2 o2]|] eqn:Hr2; [|done]. cbn in Hr. injection Hr as <- <-.
    pose proof (Hle msgs (s2, o2) (s2, o2) (mg_slots s) Hr2). cbn in *. lia.
Qed.

(** C17. A restart of the multiplexer may never come back.  It joins the
    task that merges the full blocks, whose receiver lives but reads no more.
    The task can still end exactly if it is not stuck, sending to a full channel;
    and if the sources deliver more new blocks than the channel has room for
    before the task takes the exit signal, it is stuck, and whatever happens it stays
    so. *)
Theorem restart_may_hang (f : Feed) (slots_processed : bset) (msgs : list Message) (slots' : bset) (blocks : list ProducedBlock) :
  (length (fd_blocks f) <= BLOCK_CHANNEL)%nat ->
  orun (processed_block_step sdk) slots_processed msgs = Done (slots', blocks) -> length blocks = length msgs ->
  (BLOCK_CHANNEL < length (fd_blocks f) + length msgs)%nat ->
  (forall s, (exists evs, mg_pc (foldl merger_step s evs) = Over) <-> ~ merger_stuck s) /\
  forall evs, mg_pc (foldl merger_step (merger_at_restart f slots_processed) (deliver msgs ++ evs)) <> Over.
Proof.
  intros Hc Hr Hl Hn. split.
  - intros s. split.
    + intros [evs He] Hs. rewrite merger_stuck_stays in He by done. unfold merger_stuck in Hs. by rewrite He in Hs.
    + intros Hs. unfold merger_stuck in Hs. destruct (mg_pc s) as [|slot b|] eqn:Hpc; [|..|by exists []].
      * exists [MgExit]. cbn. unfold merger_step. by rewrite Hpc.
      * exists [MgSend; MgExit]. cbn. unfold merger_step at 2. rewrite Hpc, bool_decide_eq_true_2 by lia. done.
  - intros evs. assert (merger_stuck (foldl merger_step (merger_at_restart f slots_processed) (deliver msgs))) as Hs.
    { by apply (merger_fills msgs _ slots' blocks). }
    rewrite foldl_app, merger_stuck_stays by done. unfold merger_stuck in Hs. by destruct (mg_pc _).
Qed.
End restart.

(** Eleven new blocks arrive before the exit signal is taken. *)
Lemma restart_may_hang_witness :
  (forall s, (exists evs, mg_pc (foldl (merger_step sample_sdk) s evs) = Over) <-> ~ merger_stuck s) /\
  forall evs, mg_pc (foldl (merger_step sample_sdk) (merger_at_restart (feed_start sample_cache) [])
    (deliver (sample_update <$> seqZ 1 11) ++ evs)) <> Over.
Proof.
  destruct (orun (processed_block_step sample_sdk) [] (sample_update <$> seqZ 1 11)) as [[slots blocks]|] eqn:E; [|vm_compute in E; discriminate].
  apply (restart_may_hang sample_sdk (feed_start sample_cache) [] (sample_update <$> seqZ 1 11) slots blocks).
  - vm_compute. lia.
  - exact E.
  - vm_compute in E. injection E as <- <-. reflexivity.
  - vm_compute. lia.
Defined.
