(* ===== verification/RpcPolling.v ===== *)
(** * Polling a node over JSON RPC, and the account streams

    cluster-endpoints/src/rpc_polling/{poll_slots,poll_blocks}.rs and
    cluster-endpoints/src/grpc/grpc_accounts_streaming.rs.  The slot poller
    estimates the slot between two answers of the node; the block poller
    schedules every slot, fetches its block as confirmed and then as finalized,
    and retries.  Its workers, its replay task and its slot poller share two
    queues; [poll_step] is one action of one of them. *)

From S2P Require Import Prelude Types BlockMapping AccountStore.

(** ** Slots *)

(** [poll_commitment_slots], cluster-endpoints/src/rpc_polling/poll_slots.rs:10-39: the
    last slot and the errors in a row, or [None] once it has given up. *)
Definition poll_commitment_slots (s : option (Slot * Z)) (answer : result string Slot) :
    option (Slot * Z) * list Slot :=
  match s with
  | None => (None, [])
  | Some (last_slot, errors) =>
      match answer with
      | Ok slot => if last_slot <? slot then (Some (slot, 0), [slot]) else (Some (last_slot, 0), [])
      | Err _ => if 10 <? errors + 1 then (None, []) else (Some (last_slot, errors + 1), [])
      end
  end.

Inductive slot_event :=
| SeSlot (slot : Slot)
| SeClosed
| SeTimeout.

(** The second task of
    [poll_slots], cluster-endpoints/src/rpc_polling/poll_slots.rs:41-100. *)
Definition poll_slots_step (s : Slot * Slot) (e : slot_event) : (Slot * Slot) * list SlotNotification :=
  let '(current_slot, estimated_slot) := s in
  match e with
  | SeSlot slot =>
      if current_slot <? slot then
        let estimated := if estimated_slot <? slot then slot else estimated_slot in
        ((slot, estimated), [mkSlotNotification slot estimated])
      else (s, [])
  | SeClosed => (s, [])
  | SeTimeout =>
      if estimated_slot <? (current_slot +64 32)%rpc then
        let estimated := (estimated_slot +64 1)%rpc in
        ((current_slot, estimated), [mkSlotNotification current_slot estimated])
      else (s, [])
  end.

(** ** Blocks *)

(** The queues the tasks of [poll_block] share, the workers that wait for a
    slot, the requests the others are waiting for, and whether the slot poller
    and the replay task run. *)
Record Poller := mkPoller {
  po_recent_slot : Slot;
  po_schedule : list (Slot * CommitmentConfig);
  po_idle : nat;
  po_fetching : list (Slot * CommitmentConfig);
  po_retry : list (Slot * CommitmentConfig);
  po_poller : bool;
  po_replayer : bool;
}.

(** A worker's answer comes with whether the two notification channels have
    receivers. *)
Inductive poll_event :=
| PeNotify (n : SlotNotification)
| PeTake
| PeAnswer (i : nat) (answer : result string UiConfirmedBlock) (blocks_open infos_open : bool)
| PeReplay.

Inductive poll_output :=
| PoBlock (b : ProducedBlock)
| PoInfo (i : BlockInfo)
| PoTooOld (slot : Slot)
| PoLost (slot : Slot).

Section polling.
Context (sdk : Sdk).

(** [process_block], cluster-endpoints/src/rpc_polling/poll_blocks.rs:33-53. *)
Definition process_block (answer : result string UiConfirmedBlock) (slot : Slot) (c : CommitmentConfig) :
    outcome (option ProducedBlock) :=
  match answer with
  | Ok block => b ← ui_block sdk block slot c; Done (Some b)
  | Err _ => Done None
  end.

(** A worker's turn once the node has answered:
    [poll_block], cluster-endpoints/src/rpc_polling/poll_blocks.rs:75-112: what it reschedules,
    what it emits, and whether it goes on.  A block that cannot be mapped is a
    panic, a channel without receivers an error; both end the worker, and its slot
    is lost unless the finalized block was emitted. *)
Definition worker_step (slot : Slot) (c : CommitmentConfig) (answer : result string UiConfirmedBlock) (blocks_open infos_open : bool) :
    list (Slot * CommitmentConfig) * list poll_output * bool :=
  match process_block answer slot c with
  | Panic => ([], [PoLost slot], false)
  | Done None => ([(slot, c)], [], true)
  | Done (Some b) =>
      if negb blocks_open then ([], [PoLost slot], false)
      else if negb infos_open then ([], PoBlock b :: (if is_finalized c then [] else [PoLost slot]), false)
      else (if is_finalized c then [] else [(slot, cc_finalized)], [PoBlock b; PoInfo (map_block_info b)], true)
  end.

(** A turn of the replay task:
    [poll_block], cluster-endpoints/src/rpc_polling/poll_blocks.rs:116-146. *)
Definition replay_step (recent : Slot) (r : Slot * CommitmentConfig) :
    list (Slot * CommitmentConfig) * list poll_output :=
  if 128 <? saturating_sub_u64 recent (fst r) then ([], [PoTooOld (fst r)]) else ([r], []).

(** A turn of the slot poller:
    [poll_block], cluster-endpoints/src/rpc_polling/poll_blocks.rs:148-180. *)
Definition slot_poller_step (last_slot : Slot) (n : SlotNotification) : Slot * list (Slot * CommitmentConfig) :=
  if last_slot <? estimated_processed_slot n then
    (estimated_processed_slot n,
     (fun slot => (slot, cc_confirmed)) <$> seqZ (last_slot + 1) (estimated_processed_slot n - last_slot))
  else (last_slot, []).

(** The channel of the scheduled slots is open while a worker lives. *)
Definition schedule_open (s : Poller) : bool := negb ((po_idle s =? 0)%nat && match po_fetching s with [] => true | _ => false end).
Definition all_lost (l : list (Slot * CommitmentConfig)) : list poll_output := PoLost <$> l.*1.

(** One action of one of the tasks of
    [poll_block], cluster-endpoints/src/rpc_polling/poll_blocks.rs:55-183.  When the last worker
    ends, the scheduled slots go with its receiver, and the tasks that send to it
    end when they next do. *)
Definition poll_step (s : Poller) (e : poll_event) : Poller * list poll_output :=
  match e with
  | PeNotify n =>
      if negb (po_poller s) then (s, []) else
      let '(recent, scheduled) := slot_poller_step (po_recent_slot s) n in
      if schedule_open s || match scheduled with [] => true | _ => false end
      then (mkPoller recent (po_schedule s ++ scheduled) (po_idle s) (po_fetching s) (po_retry s) true (po_replayer s), [])
      else (mkPoller recent (po_schedule s) (po_idle s) (po_fetching s) (po_retry s) false (po_replayer s), all_lost scheduled)
  | PeTake =>
      match po_schedule s, po_idle s with
      | r :: rest, S idle => (mkPoller (po_recent_slot s) rest idle (po_fetching s ++ [r]) (po_retry s) (po_poller s) (po_replayer s), [])
      | _, _ => (s, [])
      end
  | PeAnswer i answer blocks_open infos_open =>
      match po_fetching s !! i with
      | Some (slot, c) =>
          let '(retry, out, goes_on) := worker_step slot c answer blocks_open infos_open in
          let idle := if goes_on : bool then S (po_idle s) else po_idle s in
          let s' := mkPoller (po_recent_slot s) (po_schedule s) idle (delete i (po_fetching s)) (po_retry s ++ retry) (po_poller s) (po_replayer s) in
          if schedule_open s' then (s', out)
          else (mkPoller (po_recent_slot s) [] idle (delete i (po_fetching s)) (po_retry s ++ retry) (po_poller s) (po_replayer s),
                out ++ all_lost (po_schedule s))
      | None => (s, [])
      end
  | PeReplay =>
      match po_retry s with
      | r :: rest =>
          if negb (po_replayer s) then (s, []) else
          let '(again, out) := replay_step (po_recent_slot s) r in
          if schedule_open s || match again with [] => true | _ => false end
          then (mkPoller (po_recent_slot s) (po_schedule s ++ again) (po_idle s) (po_fetching s) rest (po_poller s) true, out)
          else (mkPoller (po_recent_slot s) (po_schedule s) (po_idle s) (po_fetching s) [] (po_poller s) false, out ++ all_lost (again ++ rest))
      | [] => (s, [])
      end
  end.
End polling.

(** ** Account streams *)

(** The protocol's account filters. *)
Inductive GrpcAccountFilter :=
| GfDatasize (size : Z)
| GfMemcmp (offset : Z) (data : MemcmpFilterData)
| GfTokenAccountState (state : bool).

(** One filter of a program subscription:
    [start_account_streaming_tasks], cluster-endpoints/src/grpc/grpc_accounts_streaming.rs:59-90. *)
Definition grpc_account_filter (f : AccountFilterType) : GrpcAccountFilter :=
  match f with
  | AfDatasize size => GfDatasize size
  | AfMemcmp m => GfMemcmp (mf_offset m) (mf_data m)
  | AfTokenAccountState => GfTokenAccountState false
  end.

(** The program subscriptions, by the index of their filter, and the accounts
    to subscribe:
    [start_account_streaming_tasks], cluster-endpoints/src/grpc/grpc_accounts_streaming.rs:44-105. *)
Definition subscribe_programs (filters : list AccountFilter) : list (nat * (string * list GrpcAccountFilter)) :=
  omap (fun '(index, f) =>
    program_id ← af_program_id f;
    Some (index, (program_id, match af_filters f with
                              | Some fs => grpc_account_filter <$> fs
                              | None => []
                              end))) (imap pair filters).

Definition accounts_to_subscribe (filters : list AccountFilter) : gset string :=
  foldr (fun f acc => list_to_set (af_accounts f) ∪ acc) ∅ filters.

(** One stream per hundred accounts:
    [start_account_streaming_tasks], cluster-endpoints/src/grpc/grpc_accounts_streaming.rs:118-149. *)
Definition account_subscriptions (filters : list AccountFilter) : list (list string) :=
  let accounts := elements (accounts_to_subscribe filters) in chunks_fuel (length accounts) 100 accounts.

(** An account as it arrives on the stream. *)
Record SubscribeUpdateAccountInfo := mkAccountUpdate {
  ua_pubkey : list Z;
  ua_lamports : Z;
  ua_owner : list Z;
  ua_executable : bool;
  ua_rent_epoch : Z;
  ua_data : list Z;
}.

(** The notification for an account update:
    [start_account_streaming_tasks], cluster-endpoints/src/grpc/grpc_accounts_streaming.rs:163-202. *)
Definition account_notification (slot : Slot) (account : option SubscribeUpdateAccountInfo) :
    outcome (option AccountNotificationMessage) :=
  match account with
  | Some a =>
      pubkey ← unwrap (key_of_bytes (ua_pubkey a));
      owner ← unwrap (key_of_bytes (ua_owner a));
      Done (Some (mkAccountNotification
        (mkAccountData pubkey
           (mkAccount (ua_lamports a) (ua_data a) owner (ua_executable a) (ua_rent_epoch a)) slot) Processed))
  | None => Done None
  end.

(** ** Lemmas *)

Definition notification_le (a b : SlotNotification) : Prop :=
  processed_slot a <= processed_slot b /\ estimated_processed_slot a <= estimated_processed_slot b /\
  (processed_slot a < processed_slot b \/ estimated_processed_slot a < estimated_processed_slot b).

(** The estimate is the slot or up to 32 slots ahead of it; notifications only
    go forward. *)
Definition slots_inv (s : Slot * Slot) (h : list SlotNotification) : Prop :=
  0 <= s.1 < u64_size - 64 /\ s.1 <= s.2 <= s.1 + 32 /\
  Forall (fun n => processed_slot n <= estimated_processed_slot n <= processed_slot n + 32) h /\
  StronglySorted notification_le h /\
  Forall (fun n => processed_slot n <= s.1 /\ estimated_processed_slot n <= s.2) h.

Lemma sorted_snoc {A} (R : relation A) l x : StronglySorted R l -> Forall (fun y => R y x) l -> StronglySorted R (l ++ [x]).
Proof.
  induction 1 as [|y l Hs IH Hy]; intros Hx; [by repeat constructor|]. apply Forall_cons in Hx as [??].
  simpl. constructor; [auto|]. apply Forall_app. split; [done|]. by constructor.
Qed.

Lemma slots_inv_snoc s h c e :
  slots_inv s h -> 0 <= c < u64_size - 64 -> c <= e <= c + 32 -> s.1 <= c -> s.2 <= e -> s.1 < c \/ s.2 < e ->
  slots_inv (c, e) (h ++ [mkSlotNotification c e]).
Proof.
  intros (_ & _ & Hb & Hs & Hle) Hc He H1 H2 H3. unfold slots_inv. simpl. rewrite !Forall_app, !Forall_singleton.
  split_and!; simpl; try lia; try done.
  - apply sorted_snoc; [done|]. eapply Forall_impl; [done|]. intros n [??]. unfold notification_le. simpl. lia.
  - eapply Forall_impl; [done|]. simpl. lia.
Qed.

Definition slot_in_range (e : slot_event) : Prop :=
  match e with SeSlot slot => 0 <= slot < u64_size - 64 | _ => True end.

Lemma poll_slots_step_inv s h e :
  slot_in_range e -> slots_inv s h -> slots_inv (poll_slots_step s e).1 (h ++ (poll_slots_step s e).2).
Proof.
  intros He Hi. destruct s as [c est]. pose proof Hi as (Hc & Hest & _). simpl in Hc, Hest.
  assert (slots_inv (c, est) (h ++ [])) as H0 by by rewrite app_nil_r.
  destruct e as [slot| |]; cbn [poll_slots_step].
  - destruct (c <? slot) eqn:E1; [|done]. bool_lia. simpl in He.
    destruct (est <? slot) eqn:E2; bool_lia; apply (slots_inv_snoc (c, est)); simpl; try done; lia.
  - done.
  - rewrite wrap_u64_id by (unfold in_u64, u64_size in *; lia).
    destruct (est <? c + 32) eqn:E; [|done]. bool_lia.
    rewrite wrap_u64_id by (unfold in_u64, u64_size in *; lia).
    apply (slots_inv_snoc (c, est)); simpl; try done; lia.
Qed.

(** *** Blocks *)

Lemma ui_block_slot sdk block slot c b :
  ui_block sdk block slot c = Done b -> pb_slot (pb_inner b) = slot /\ pb_commitment_config b = c.
Proof.
  unfold ui_block, from_ui_block. intros H.
  repeat match type of H with
  | mbind _ ?x = _ => destruct x eqn:?; cbn [mbind outcome_bind] in H; [|done]
  end. by injection H as <-.
Qed.

Definition finished_slots (o : list poll_output) : list Slot :=
  omap (fun x => match x with
                 | PoBlock b => if is_finalized (pb_commitment_config b) then Some (pb_slot (pb_inner b)) else None
                 | _ => None end) o.
Definition dropped_slots (o : list poll_output) : list Slot :=
  omap (fun x => match x with PoTooOld slot => Some slot | _ => None end) o.
Definition pending_slots (s : Poller) : list Slot :=
  (po_schedule s ++ po_fetching s ++ po_retry s).*1.

Definition lost_slots (o : list poll_output) : list Slot :=
  omap (fun x => match x with PoLost slot => Some slot | _ => None end) o.

Definition poll_inv (start : Slot) (s : Poller) (h : list poll_output) : Prop :=
  start <= po_recent_slot s /\
  pending_slots s ++ finished_slots h ++ dropped_slots h ++ lost_slots h ≡ₚ seqZ (start + 1) (po_recent_slot s - start) /\
  Forall (fun slot => slot + 128 < po_recent_slot s) (dropped_slots h).

Lemma finished_app h o : finished_slots (h ++ o) = finished_slots h ++ finished_slots o.
Proof. apply omap_app. Qed.
Lemma dropped_app h o : dropped_slots (h ++ o) = dropped_slots h ++ dropped_slots o.
Proof. apply omap_app. Qed.
Lemma lost_app h o : lost_slots (h ++ o) = lost_slots h ++ lost_slots o.
Proof. apply omap_app. Qed.

Lemma all_lost_slots l : finished_slots (all_lost l) = [] /\ dropped_slots (all_lost l) = [] /\ lost_slots (all_lost l) = l.*1.
Proof. unfold all_lost, finished_slots, dropped_slots, lost_slots. induction l as [|r l (IH1 & IH2 & IH3)]; [done|]. cbn in *. by rewrite IH1, IH2, IH3. Qed.

(** A slot moves from the pending ones to pending, finished, dropped or lost. *)
Lemma poll_inv_move start s h s' o :
  poll_inv start s h -> po_recent_slot s' = po_recent_slot s ->
  pending_slots s ≡ₚ pending_slots s' ++ finished_slots o ++ dropped_slots o ++ lost_slots o ->
  Forall (fun slot => slot + 128 < po_recent_slot s) (dropped_slots o) ->
  poll_inv start s' (h ++ o).
Proof.
  intros (Hs & Hp & Hd) Hr Hm Ho. split_and!; rewrite ?Hr, ?finished_app, ?dropped_app, ?lost_app; [done| |by apply Forall_app].
  rewrite <- Hp, Hm. solve_Permutation.
Qed.

Lemma worker_step_moves sdk slot c answer bo io retry out goes_on :
  worker_step sdk slot c answer bo io = (retry, out, goes_on) ->
  retry.*1 ++ finished_slots out ++ lost_slots out = [slot] /\ dropped_slots out = [].
Proof.
  unfold worker_step, process_block. destruct answer as [block|e]; [|by intros [= <- <- <-]].
  destruct (ui_block sdk block slot c) as [b|] eqn:Hb; cbn [mbind outcome_bind]; [|by intros [= <- <- <-]].
  destruct (ui_block_slot _ _ _ _ _ Hb) as [Hslot Hc].
  destruct bo; cbn [negb]; [|by intros [= <- <- <-]]. destruct io; cbn [negb]; intros [= <- <- <-]; cbn; rewrite Hc, Hslot; by destruct (is_finalized c).
Qed.

Lemma poll_step_inv sdk start s h e : poll_inv start s h -> poll_inv start (poll_step sdk s e).1 (h ++ (poll_step sdk s e).2).
Proof.
  intros Hi. assert (poll_inv start s (h ++ [])) as H0 by by rewrite app_nil_r.
  destruct e as [n| |i answer bo io|]; cbn [poll_step].
  - destruct (po_poller s); [|done]. cbn [negb]. unfold slot_poller_step. destruct (_ <? _) eqn:E; bool_lia.
    + destruct Hi as (Hs & Hp & Hd). set (new := (fun slot => (slot, cc_confirmed)) <$> seqZ _ _).
      assert (new.*1 = seqZ (po_recent_slot s + 1) (estimated_processed_slot n - po_recent_slot s)) as Hnew.
      { subst new. rewrite <- list_fmap_compose. apply list_fmap_id. }
      assert (seqZ (start + 1) (estimated_processed_slot n - start) = seqZ (start + 1) (po_recent_slot s - start) ++ new.*1) as Hseq.
      { rewrite Hnew. replace (estimated_processed_slot n - start)
          with ((po_recent_slot s - start) + (estimated_processed_slot n - po_recent_slot s)) by lia.
        rewrite seqZ_app by lia. by replace (start + 1 + (po_recent_slot s - start)) with (po_recent_slot s + 1) by lia. }
      destruct (all_lost_slots new) as (L1 & L2 & L3).
      destruct (_ || _); cbn [fst snd]; split_and!; cbn [po_recent_slot]; rewrite ?app_nil_r, ?finished_app, ?dropped_app, ?lost_app, ?L1, ?L2, ?L3, ?app_nil_r;
        try lia; try (eapply Forall_impl; [done|]; simpl; lia); rewrite Hseq, <- Hp; unfold pending_slots; cbn [po_schedule po_fetching po_retry];
        rewrite ?fmap_app; solve_Permutation.
    + rewrite orb_true_r. unfold poll_inv, pending_slots. cbn [fst snd po_recent_slot po_schedule po_fetching po_retry]. by rewrite !app_nil_r.
  - destruct (po_schedule s) as [|r rest] eqn:E; [done|]. destruct (po_idle s) as [|idle]; [done|]. cbn [fst snd].
    eapply poll_inv_move; [done|done| |constructor]. unfold pending_slots. rewrite E. cbn [po_schedule po_fetching po_retry].
    cbn [finished_slots dropped_slots lost_slots omap list_omap]. rewrite !app_nil_r, !fmap_app. cbn [fmap list_fmap]. solve_Permutation.
  - destruct (po_fetching s !! i) as [[slot c]|] eqn:E; [|done]. destruct (worker_step sdk slot c answer bo io) as [[retry out] goes_on] eqn:Hw.
    destruct (worker_step_moves _ _ _ _ _ _ _ _ _ Hw) as [Hf Hd]. pose proof (fmap_Permutation fst _ _ (delete_Permutation _ _ _ E)) as Hfe. simpl in Hfe.
    assert (forall l, (po_schedule s).*1 ++ slot :: (delete i (po_fetching s)).*1 ++ (po_retry s).*1 ++ l ≡ₚ
      (po_schedule s).*1 ++ (delete i (po_fetching s)).*1 ++ (po_retry s).*1 ++ (retry.*1 ++ finished_slots out ++ lost_slots out) ++ l) as Hmove.
    { intros l. rewrite Hf. solve_Permutation. }
    specialize (Hmove []). rewrite !app_nil_r in Hmove. destruct (all_lost_slots (po_schedule s)) as (L1 & L2 & L3).
    destruct (schedule_open _); cbn [fst snd]; (eapply poll_inv_move; [done|done| |rewrite ?dropped_app, Hd, ?L2; by constructor]);
      rewrite ?finished_app, ?dropped_app, ?lost_app, Hd, ?L1, ?L2, ?L3; unfold pending_slots; cbn [po_schedule po_fetching po_retry];
      rewrite !fmap_app, Hfe; cbn [app]; rewrite Hmove; cbn [fmap list_fmap]; solve_Permutation.
  - destruct (po_retry s) as [|r rest] eqn:E; [done|]. destruct (po_replayer s); [|done]. cbn [negb]. unfold replay_step.
    destruct (_ <? _) eqn:Eo; bool_lia.
    + rewrite orb_true_r. cbn [fst snd]. eapply poll_inv_move; [done|done| |by repeat constructor; unfold saturating_sub_u64 in Eo; lia].
      unfold pending_slots. rewrite E. cbn. rewrite app_nil_r, !fmap_app. cbn [fmap list_fmap]. solve_Permutation.
    + destruct (all_lost_slots (r :: rest)) as (L1 & L2 & L3). cbn [app].
      destruct (_ || _); cbn [fst snd]; (eapply poll_inv_move; [done|done| |]); rewrite ?L1, ?L2, ?L3; unfold pending_slots; rewrite ?E;
        cbn [po_schedule po_fetching po_retry]; cbn [finished_slots dropped_slots lost_slots omap list_omap]; try constructor;
        rewrite ?fmap_app; cbn [fmap list_fmap]; rewrite ?app_nil_r; solve_Permutation.
Qed.

(** The node's block can be mapped, and both channels have receivers. *)
Definition harmless (sdk : Sdk) (e : poll_event) : Prop :=
  match e with
  | PeAnswer _ answer blocks_open infos_open =>
      blocks_open = true /\ infos_open = true /\
      (forall block, answer = Ok block -> forall slot c, exists b, ui_block sdk block slot c = Done b)
  | _ => True
  end.

Definition workers (s : Poller) : nat := (po_idle s + length (po_fetching s))%nat.

Lemma harmless_step sdk s e :
  harmless sdk e -> (0 < workers s)%nat -> lost_slots (poll_step sdk s e).2 = [] /\ workers (poll_step sdk s e).1 = workers s.
Proof.
  intros He Hw.
  assert (forall s', workers s' = workers s -> schedule_open s' = true) as Hopen.
  { intros s' Hs'. unfold schedule_open, workers in *. destruct (po_idle s') eqn:Ei, (po_fetching s') eqn:Ef; cbn in *; try done. lia. }
  destruct e as [n| |i answer bo io|]; cbn [poll_step].
  - destruct (po_poller s); [|done]. cbn [negb]. destruct (slot_poller_step _ _) as [recent scheduled]. rewrite (Hopen s) by done. done.
  - destruct (po_schedule s), (po_idle s) eqn:Ei; try done. cbn. split; [done|]. unfold workers. cbn. rewrite length_app, Ei. cbn. lia.
  - destruct (po_fetching s !! i) as [[slot c]|] eqn:E; [|done]. destruct He as (-> & -> & Ha).
    assert (length (po_fetching s) = S (length (delete i (po_fetching s)))) as Hl.
    { pose proof (length_delete (po_fetching s) i ltac:(by eexists)) as Hd. apply lookup_lt_Some in E. rewrite Hd. lia. }
    assert (exists retry out, worker_step sdk slot c answer true true = (retry, out, true) /\ lost_slots out = []) as (retry & out & -> & Ho).
    { unfold worker_step, process_block. destruct answer as [block|e]; [|by eexists _, _]. destruct (Ha block eq_refl slot c) as [b ->]. by eexists _, _. }
    set (s1 := mkPoller _ _ _ _ _ _ _). assert (workers s1 = workers s) as Hs1 by (unfold workers, s1; cbn; lia). rewrite (Hopen s1 Hs1). done.
  - destruct (po_retry s) as [|r rest]; [done|]. destruct (po_replayer s); [|done]. cbn [negb]. unfold replay_step.
    destruct (_ <? _); rewrite (Hopen s) by done; done.
Qed.

(** *** Account streams *)

Lemma accounts_to_subscribe_elem filters a :
  a ∈ accounts_to_subscribe filters <-> exists f, f ∈ filters /\ a ∈ af_accounts f.
Proof.
  induction filters as [|f filters IH]; simpl; [set_solver|]. rewrite elem_of_union, elem_of_list_to_set, IH.
  set_solver.
Qed.

Lemma chunks_fuel_sizes {A} fuel n (l : list A) :
  Forall (fun c => (length c <= n)%nat) (chunks_fuel fuel n l).
Proof.
  revert l. induction fuel as [|fuel IH]; intros [|x l]; simpl; constructor; [|apply IH].
  rewrite length_take. lia.
Qed.

(** ** Properties *)

(** The slot poller's estimates: however the node's answers and the
    timeouts of 400ms interleave, every notification estimates the processed
    slot by at most 32 slots ahead of the last known one and never behind it,
    both slots only go forward, and no notification repeats an earlier one. *)
Theorem poll_slots_estimates (start : Slot) (es : list slot_event) :
  0 <= start < u64_size - 64 -> Forall slot_in_range es ->
  let out := (run poll_slots_step (start, start) es).2 in
  Forall (fun n => processed_slot n <= estimated_processed_slot n <= processed_slot n + 32) out /\
  StronglySorted notification_le out.
Proof.
  intros Hs Hes. assert (slots_inv (start, start) []) as Hi.
  { split_and!; simpl; try lia; constructor. }
  pose proof (run_history_on poll_slots_step slot_in_range slots_inv poll_slots_step_inv es _ [] Hes Hi)
    as (_ & _ & H1 & H2 & _). done.
Qed.

Lemma poll_slots_estimates_witness :
  let out := (run poll_slots_step (10, 10) [SeTimeout; SeTimeout; SeSlot 11; SeClosed; SeTimeout; SeSlot 20]).2 in
  Forall (fun n => processed_slot n <= estimated_processed_slot n <= processed_slot n + 32) out /\
  StronglySorted notification_le out.
Proof.
  apply poll_slots_estimates; [unfold u64_size; lia|].
  repeat (constructor; [try done; unfold slot_in_range, u64_size; lia|]). constructor.
Defined.

(** C30. The block poller accounts for every slot.  Whatever the node answers,
    fails to answer or delays, whether its blocks can be mapped, whether anyone
    listens to the notifications, and however the workers, the replay task and
    the slot poller interleave: every slot from the first scheduled one to the
    most recent one is exactly once among the pending requests, the slots whose
    finalized block was emitted, the slots given up and the slots lost with a
    worker that ended; a slot is given up only when it is more than 128 slots
    old, and none is lost as long as the node's blocks can be mapped and both
    notification channels have receivers. *)
Theorem poll_block_conserves_slots (sdk : Sdk) (start : Slot) (num_parallel_tasks : nat) (es : list poll_event) :
  let '(s, out) := run (poll_step sdk) (mkPoller start [] num_parallel_tasks [] [] true true) es in
  pending_slots s ++ finished_slots out ++ dropped_slots out ++ lost_slots out ≡ₚ seqZ (start + 1) (po_recent_slot s - start) /\
  Forall (fun slot => slot + 128 < po_recent_slot s) (dropped_slots out) /\
  ((0 < num_parallel_tasks)%nat -> Forall (harmless sdk) es -> lost_slots out = []).
Proof.
  set (s0 := mkPoller start [] num_parallel_tasks [] [] true true).
  assert (forall es s h, poll_inv start s h -> poll_inv start (run (poll_step sdk) s es).1 (h ++ (run (poll_step sdk) s es).2)) as Hrun.
  { clear. intros es. induction es as [|e es IH]; intros s h Hi; cbn [run]; [cbn; by rewrite app_nil_r|].
    pose proof (poll_step_inv sdk start s h e Hi) as H1. destruct (poll_step sdk s e) as [s1 o1]. cbn [fst snd] in H1.
    specialize (IH s1 _ H1). destruct (run (poll_step sdk) s1 es) as [s2 o2]. cbn [fst snd] in *. by rewrite app_assoc. }
  assert (forall es s, (0 < workers s)%nat -> Forall (harmless sdk) es -> lost_slots (run (poll_step sdk) s es).2 = []) as Hlost.
  { clear. intros es. induction es as [|e es IH]; intros s Hw Hes; [done|]. apply Forall_cons in Hes as [He Hes]. cbn [run].
    destruct (harmless_step sdk s e He Hw) as [H1 H2]. destruct (poll_step sdk s e) as [s1 o1]. cbn [fst snd] in *.
    specialize (IH s1 ltac:(lia) Hes). destruct (run (poll_step sdk) s1 es) as [s2 o2]. cbn [fst snd] in *. by rewrite lost_app, H1, IH. }
  destruct (Hrun es s0 []) as (_ & Hp & Hd).
  { split_and!; simpl; [lia|by rewrite Z.sub_diag|constructor]. }
  specialize (Hlost es s0). destruct (run (poll_step sdk) s0 es) as [s out]. cbn [fst snd app] in *. split_and!; [done..|].
  intros Hn Hes. apply Hlost; [unfold workers; cbn; lia|done].
Qed.

(** A worker that meets a block it cannot map ends, and the slot with it; the
    only other worker goes on. *)
Lemma sample_lost_slot :
  let sdk := mkSdk (fun _ => None) (fun _ => None) (fun _ => false) (fun _ => None) 0 0
    (fun _ _ => false) (fun _ => "m"%string) (fun _ => "r"%string) in
  let '(s, out) := run (poll_step sdk) (mkPoller 10 [] 2 [] [] true true)
    [PeNotify (mkSlotNotification 11 12); PeTake; PeTake; PeAnswer 0 (Ok (mkUiBlock "p" "h" 9 None None None None)) true true;
     PeAnswer 0 (Err "skipped"%string) true true; PeReplay] in
  lost_slots out = [11] /\ pending_slots s = [12] /\ workers s = 1%nat.
Proof. vm_compute. split_and!; reflexivity. Qed.

(** The account streams cover the configured filters: every account
    named by a filter is on exactly one of the streams and no other account
    is, no stream subscribes more than a hundred accounts, and every program
    filter has its own subscription with its filters. *)
Theorem account_streams_cover_filters (filters : list AccountFilter) :
  (forall a, (exists f, f ∈ filters /\ a ∈ af_accounts f) <-> a ∈ concat (account_subscriptions filters)) /\
  NoDup (concat (account_subscriptions filters)) /\
  Forall (fun c => (length c <= 100)%nat) (account_subscriptions filters) /\
  forall i f p, filters !! i = Some f -> af_program_id f = Some p ->
    (i, (p, match af_filters f with Some fs => grpc_account_filter <$> fs | None => [] end))
      ∈ subscribe_programs filters.
Proof.
  unfold account_subscriptions. rewrite chunks_fuel_concat by lia. split_and!.
  - intros a. by rewrite elem_of_elements, accounts_to_subscribe_elem.
  - apply NoDup_elements.
  - apply chunks_fuel_sizes.
  - intros i f p Hi Hp. apply list_elem_of_omap. exists (i, f). split.
    + apply list_elem_of_lookup. exists i. rewrite list_lookup_imap, Hi. done.
    + by rewrite Hp.
Qed.
