(* ===== verification/AddressLookup.v ===== *)
(** * Address lookup tables

    address-lookup-tables/src/address_lookup_table_store.rs and the interface
    core/src/traits/address_lookup_table_interface.rs.  The store caches the
    tables the transactions of a block refer to and loads what is missing or
    too short from a node. *)

From S2P Require Import Prelude Types.

(** [AddressLookupTableInterface], core/src/traits/address_lookup_table_interface.rs:4-15. *)
Class AddressLookupTableInterface (S : Type) := {
  alt_resolve : S -> MessageAddressTableLookup -> list Pubkey * list Pubkey;
  alt_reload : S -> list MessageAddressTableLookup -> S;
}.

(** [AddressLookupTableStore], address-lookup-tables/src/address_lookup_table_store.rs:19-23. *)
Abbreviation AddressLookupTableStore := (gmap Pubkey (list Pubkey)).

Section store.
(** The SDK's [AddressLookupTable::deserialize] and the node. *)
Context (deserialize : list Z -> option (list Pubkey)).
Context (rpc_get_multiple_accounts : list Pubkey -> result string (list (option (list Z)))).

(** [AddressLookupTableStore::save_account],
    address-lookup-tables/src/address_lookup_table_store.rs:79-89. *)
Definition save_account (m : AddressLookupTableStore) (address : Pubkey) (data : list Z) :
    outcome AddressLookupTableStore :=
  addresses ← unwrap (deserialize data); Done (<[address := addresses]> m).

(** The task of one batch of
    [AddressLookupTableStore::load_alts_list], address-lookup-tables/src/address_lookup_table_store.rs:40-64:
    what it has saved when it ends, be it because an account is no table. *)
Fixpoint save_batch (m : AddressLookupTableStore) (batch : list Pubkey) (accounts : list (option (list Z))) :
    AddressLookupTableStore :=
  match batch, accounts with
  | pk :: batch', Some data :: accounts' =>
      match save_account m pk data with
      | Done m' => save_batch m' batch' accounts'
      | Panic => m
      end
  | _ :: batch', None :: accounts' => save_batch m batch' accounts'
  | _, _ => m
  end.

Definition load_batch (m : AddressLookupTableStore) (batch : list Pubkey) : AddressLookupTableStore :=
  match rpc_get_multiple_accounts batch with
  | Ok accounts => save_batch m batch accounts
  | Err _ => m
  end.

(** [AddressLookupTableStore::load_alts_list],
    address-lookup-tables/src/address_lookup_table_store.rs:33-77. *)
Definition load_alts_list (m : AddressLookupTableStore) (alts : list Pubkey) : AddressLookupTableStore :=
  foldl (fun m batches => foldl load_batch m (chunks_fuel (length batches) 100 batches)) m
    (chunks_fuel (length alts) 1000 alts).

(** Whether a lookup makes the store load its table:
    [AddressLookupTableStore::reload_if_necessary], address-lookup-tables/src/address_lookup_table_store.rs:97-109. *)
Definition must_load (m : AddressLookupTableStore) (alt : MessageAddressTableLookup) : option Pubkey :=
  match m !! lut_account_key alt with
  | Some alt_data =>
      let size := wrap_u8 (Z.of_nat (length alt_data)) in
      if existsb (fun x => size <=? x) (lut_readonly_indexes alt) ||
         existsb (fun x => size <=? x) (lut_writable_indexes alt)
      then Some (lut_account_key alt) else None
  | None => Some (lut_account_key alt)
  end.

(** [AddressLookupTableStore::reload_if_necessary],
    address-lookup-tables/src/address_lookup_table_store.rs:91-112. *)
Definition reload_if_necessary (m : AddressLookupTableStore) (alts : list MessageAddressTableLookup) :
    AddressLookupTableStore := load_alts_list m (omap (must_load m) alts).

(** [AddressLookupTableStore::reload_alt_account],
    address-lookup-tables/src/address_lookup_table_store.rs:114-140. *)
Definition reload_alt_account (m : AddressLookupTableStore) (address : Pubkey)
    (answer : result string (option (list Z))) : outcome AddressLookupTableStore :=
  match answer with
  | Ok (Some data) => save_account m address data
  | _ => Done m
  end.

(** [AddressLookupTableStore::get_accounts_in_address_lookup_table],
    address-lookup-tables/src/address_lookup_table_store.rs:142-170. *)
Definition get_accounts_in_address_lookup_table (m : AddressLookupTableStore) (alt : Pubkey)
    (accounts : list Z) : option (list Pubkey) :=
  match m !! alt with
  | Some alt_account =>
      if existsb (fun index => Z.of_nat (length alt_account) <=? index) accounts then None
      else mapM (fun index => alt_account !! Z.to_nat index) accounts
  | None => None
  end.

(** [AddressLookupTableStore::get_accounts],
    address-lookup-tables/src/address_lookup_table_store.rs:172-178. *)
Definition get_accounts (m : AddressLookupTableStore) (alt : Pubkey) (accounts : list Z) : list Pubkey :=
  default [] (get_accounts_in_address_lookup_table m alt accounts).

(** [AddressLookupTableStore::resolve_addresses_from_lookup_table],
    address-lookup-tables/src/address_lookup_table_store.rs:210-226. *)
Definition resolve_addresses_from_lookup_table (m : AddressLookupTableStore)
    (l : MessageAddressTableLookup) : list Pubkey * list Pubkey :=
  (get_accounts m (lut_account_key l) (lut_writable_indexes l),
   get_accounts m (lut_account_key l) (lut_readonly_indexes l)).

#[export] Instance lookup_table_store_interface : AddressLookupTableInterface AddressLookupTableStore := {|
  alt_resolve := resolve_addresses_from_lookup_table;
  alt_reload := reload_if_necessary;
|}.
End store.

(** [AddressLookupTableStore::serialize_binary] and
    [AddressLookupTableStore::load_binary], address-lookup-tables/src/address_lookup_table_store.rs:180-206,
    up to bincode: the entries of the map, and inserting them one by one. *)
Definition binary_alt_data (m : AddressLookupTableStore) : list (Pubkey * list Pubkey) := map_to_list m.
Definition load_binary (m : AddressLookupTableStore) (data : list (Pubkey * list Pubkey)) :
    AddressLookupTableStore := foldl (fun m '(alt, accounts) => <[alt := accounts]> m) m data.

(** ** Lemmas *)

Definition indexes_ok (l : list Z) : Prop := Forall (fun i => 0 <= i < u8_size) l.

Lemma existsb_false {A} (f : A -> bool) l : existsb f l = false <-> Forall (fun x => f x = false) l.
Proof.
  induction l as [|x l IH]; simpl; [done|]. rewrite orb_false_iff, IH, Forall_cons. done.
Qed.

(** The check in 8 bits is sound: what it lets pass is in the table. *)
Lemma wrapped_size_sound (table : list Pubkey) l :
  indexes_ok l -> existsb (fun x => wrap_u8 (Z.of_nat (length table)) <=? x) l = false ->
  Forall (fun i => 0 <= i < Z.of_nat (length table)) l.
Proof.
  unfold indexes_ok. intros Hi. rewrite existsb_false. intros Hf. rewrite !Forall_forall in *. intros i Hin.
  specialize (Hf i Hin). specialize (Hi i Hin). apply Z.leb_gt in Hf. split; [lia|].
  unfold wrap_u8, u8_size in *.
  pose proof (Z.mod_le (Z.of_nat (length table)) 256 ltac:(lia) ltac:(lia)). lia.
Qed.

Lemma get_accounts_in_range m alt table l :
  m !! alt = Some table -> Forall (fun i => 0 <= i < Z.of_nat (length table)) l ->
  get_accounts m alt l = omap (fun i => table !! Z.to_nat i) l /\
  length (get_accounts m alt l) = length l.
Proof.
  intros Hm Hl. unfold get_accounts, get_accounts_in_address_lookup_table. rewrite Hm.
  replace (existsb _ l) with false.
  - induction Hl as [|i l Hi Hl IH]; simpl; [done|].
    destruct (lookup_lt_is_Some_2 table (Z.to_nat i)) as [pk Hpk]; [lia|]. rewrite Hpk. simpl.
    destruct IH as [IH1 IH2]. destruct (mapM _ l) as [ks|] eqn:E; simpl in *.
    + split; by f_equal.
    + exfalso. apply mapM_None_1 in E. apply Exists_exists in E as (j & Hj & Hn).
      rewrite Forall_forall in Hl. specialize (Hl j Hj). apply lookup_ge_None in Hn. simpl in *. lia.
  - symmetry. apply existsb_false. eapply Forall_impl; [done|]. intros i Hi. apply Z.leb_gt. simpl in Hi. lia.
Qed.

Lemma must_load_key m l k : must_load m l = Some k -> k = lut_account_key l.
Proof. unfold must_load. intros H. destruct (m !! _); [destruct (_ || _)|]; by simplify_eq. Qed.

Section loading.
Context (deserialize : list Z -> option (list Pubkey)) (node : Pubkey -> option (list Z)).
Context (rpc : list Pubkey -> result string (list (option (list Z)))).
Context (rpc_ok : forall batch, rpc batch = Ok (node <$> batch)).
Context (node_tables : forall pk data, node pk = Some data -> is_Some (deserialize data)).

(** The table the node has for a key. *)
Definition node_table (pk : Pubkey) : option (list Pubkey) := data ← node pk; deserialize data.

(** The cache after asking for some keys: the node's table for those it has. *)
Definition refreshed (m m' : AddressLookupTableStore) (asked : list Pubkey) : Prop :=
  forall pk, m' !! pk = if decide (pk ∈ asked) then
                          match node_table pk with Some t => Some t | None => m !! pk end
                        else m !! pk.

Lemma refreshed_app m m1 m2 l1 l2 : refreshed m m1 l1 -> refreshed m1 m2 l2 -> refreshed m m2 (l1 ++ l2).
Proof.
  intros H1 H2 pk. rewrite (H2 pk), (H1 pk). destruct (decide (pk ∈ l1 ++ l2)) as [Hin|Hn].
  - apply elem_of_app in Hin.
    destruct (decide (pk ∈ l2)), (decide (pk ∈ l1)), (node_table pk); try done; by destruct Hin.
  - apply not_elem_of_app in Hn as [??]. by rewrite !decide_False.
Qed.

Lemma save_batch_refreshed m batch : refreshed m (save_batch deserialize m batch (node <$> batch)) batch.
Proof.
  revert m. induction batch as [|k batch IH]; intros m; [by intros pk|]. simpl.
  destruct (node k) as [data|] eqn:Hk.
  - destruct (node_tables k data Hk) as [t Ht]. unfold save_account. rewrite Ht. simpl.
    apply (refreshed_app m (<[k := t]> m) _ [k]); [|apply IH]. intros pk. case_decide as Hin.
    + apply list_elem_of_singleton in Hin as ->. unfold node_table. rewrite Hk. simpl.
      by rewrite Ht, lookup_insert_eq.
    + rewrite list_elem_of_singleton in Hin. by rewrite lookup_insert_ne.
  - apply (refreshed_app m m _ [k]); [|apply IH]. intros pk. case_decide as Hin; [|done].
    apply list_elem_of_singleton in Hin as ->. unfold node_table. by rewrite Hk.
Qed.

Lemma load_batches_refreshed m bs : refreshed m (foldl (load_batch deserialize rpc) m bs) (concat bs).
Proof.
  revert m. induction bs as [|b bs IH]; intros m; simpl; [by intros pk|].
  eapply refreshed_app; [|apply IH]. unfold load_batch. rewrite rpc_ok. apply save_batch_refreshed.
Qed.

Lemma load_alts_list_refreshed m alts : refreshed m (load_alts_list deserialize rpc m alts) alts.
Proof.
  unfold load_alts_list. rewrite <- (chunks_fuel_concat (length alts) 1000 alts) at 3 by lia.
  generalize (chunks_fuel (length alts) 1000 alts) as outer. intros outer. revert m.
  induction outer as [|b outer IH]; intros m; simpl; [by intros pk|].
  eapply refreshed_app; [|apply IH].
  rewrite <- (chunks_fuel_concat (length b) 100 b) at 3 by lia. apply load_batches_refreshed.
Qed.

(** After a reload the cached table resolves the indexes as the node's does. *)
Lemma reload_resolves m alts l table ixs :
  l ∈ alts -> indexes_ok (lut_readonly_indexes l) -> indexes_ok (lut_writable_indexes l) ->
  node_table (lut_account_key l) = Some table ->
  (forall t, m !! lut_account_key l = Some t -> t `prefix_of` table) ->
  ixs = lut_readonly_indexes l \/ ixs = lut_writable_indexes l ->
  Forall (fun i => 0 <= i < Z.of_nat (length table)) ixs ->
  get_accounts (reload_if_necessary deserialize rpc m alts) (lut_account_key l) ixs =
    omap (fun i => table !! Z.to_nat i) ixs.
Proof.
  intros Hl Hr Hw Ht Hpre His Hall. unfold reload_if_necessary.
  pose proof (load_alts_list_refreshed m (omap (must_load m) alts) (lut_account_key l)) as Hm.
  rewrite Ht in Hm. case_decide as Hin; [by apply (get_accounts_in_range _ _ table)|].
  assert (must_load m l = None) as Hno.
  { destruct (must_load m l) as [k|] eqn:E; [|done]. exfalso. apply Hin, list_elem_of_omap. exists l.
    by rewrite E, (must_load_key _ _ _ E). }
  unfold must_load in Hno. destruct (m !! lut_account_key l) as [t|] eqn:Hc; [|done].
  assert (existsb (fun x => wrap_u8 (Z.of_nat (length t)) <=? x) ixs = false) as Hx.
  { destruct (existsb _ (lut_readonly_indexes l)) eqn:E1; [done|].
    destruct (existsb _ (lut_writable_indexes l)) eqn:E2; [done|]. destruct His as [-> | ->]; done. }
  assert (Forall (fun i => 0 <= i < Z.of_nat (length t)) ixs) as Hin_t.
  { apply wrapped_size_sound; [|done]. by destruct His as [-> | ->]. }
  destruct (get_accounts_in_range _ _ _ _ Hm Hin_t) as [-> _].
  destruct (Hpre t eq_refl) as [more ->]. clear -Hin_t.
  induction Hin_t as [|i ixs Hi His IH]; [done|]. cbn [omap list_omap].
  rewrite lookup_app_l by lia. destruct (t !! Z.to_nat i); [f_equal|]; apply IH.
Qed.
End loading.

(** ** Properties *)

(** Resolving the accounts of a block's transactions: when the node
    answers, its accounts are tables, and the cached tables are older versions
    of the node's (tables only grow), then after [reload_if_necessary] every
    lookup of the block whose indexes are in the node's table resolves to
    exactly the addresses the node's table has there, writable and read-only,
    whether or not the 8-bit size check made the store load the table again. *)
Theorem lookups_resolve_after_reload (deserialize : list Z -> option (list Pubkey))
    (node : Pubkey -> option (list Z)) (rpc : list Pubkey -> result string (list (option (list Z))))
    (m : AddressLookupTableStore) (alts : list MessageAddressTableLookup) (l : MessageAddressTableLookup)
    (table : list Pubkey) :
  (forall batch, rpc batch = Ok (node <$> batch)) ->
  (forall pk data, node pk = Some data -> is_Some (deserialize data)) ->
  l ∈ alts -> indexes_ok (lut_readonly_indexes l) -> indexes_ok (lut_writable_indexes l) ->
  node_table deserialize node (lut_account_key l) = Some table ->
  (forall t, m !! lut_account_key l = Some t -> t `prefix_of` table) ->
  Forall (fun i => i < Z.of_nat (length table)) (lut_readonly_indexes l ++ lut_writable_indexes l) ->
  resolve_addresses_from_lookup_table (reload_if_necessary deserialize rpc m alts) l =
  (omap (fun i => table !! Z.to_nat i) (lut_writable_indexes l),
   omap (fun i => table !! Z.to_nat i) (lut_readonly_indexes l)).
Proof.
  intros Hrpc Hnode Hl Hr Hw Ht Hpre [Ar Aw]%Forall_app. unfold resolve_addresses_from_lookup_table.
  assert (forall ixs, indexes_ok ixs -> Forall (fun i => i < Z.of_nat (length table)) ixs ->
            Forall (fun i => 0 <= i < Z.of_nat (length table)) ixs) as Hboth.
  { unfold indexes_ok. intros ixs H1 H2. rewrite !Forall_forall in *. intros i Hi.
    specialize (H1 i Hi). specialize (H2 i Hi). lia. }
  f_equal; apply (reload_resolves deserialize node rpc Hrpc Hnode m alts l table); auto.
Qed.

Lemma lookups_resolve_after_reload_witness :
  resolve_addresses_from_lookup_table
    (reload_if_necessary (fun data => Some data) (fun batch => Ok ((fun pk => Some [pk; 71; 72]) <$> batch))
       {[5 := [5; 71]]} [mkLookup 5 [1] [0; 2]; mkLookup 6 [] [1]]) (mkLookup 5 [1] [0; 2]) = ([71], [5; 72]).
Proof.
  apply (lookups_resolve_after_reload (fun data => Some data) (fun pk => Some [pk; 71; 72])) with
    (l := mkLookup 5 [1] [0; 2]) (table := [5; 71; 72]).
  - done.
  - by eexists.
  - set_solver.
  - unfold u8_size. repeat constructor; lia.
  - unfold u8_size. repeat constructor; lia.
  - done.
  - intros t [= <-]. by exists [72].
  - simpl. repeat constructor; lia.
Defined.

(** A table that holds the 256 addresses an index can name has size 0 in 8
    bits: every lookup of it loads it again. *)
Lemma full_table_always_reloaded m alt table :
  m !! lut_account_key alt = Some table -> length table = 256%nat -> indexes_ok (lut_writable_indexes alt) ->
  lut_writable_indexes alt <> [] -> must_load m alt = Some (lut_account_key alt).
Proof.
  intros Hm Hlen Hok Hne. unfold must_load. rewrite Hm, Hlen.
  destruct (lut_writable_indexes alt) as [|i ixs]; [done|]. apply Forall_cons in Hok as [Hi _].
  assert (existsb (fun x => wrap_u8 (Z.of_nat 256) <=? x) (i :: ixs) = true) as ->.
  { cbn [existsb]. apply orb_true_iff. left. apply Z.leb_le. change (wrap_u8 (Z.of_nat 256)) with 0. lia. }
  by rewrite orb_true_r.
Qed.

(** Writing the cache to a file and loading it restores every table. *)
Lemma binary_roundtrip m : load_binary ∅ (binary_alt_data m) = m.
Proof.
  unfold load_binary, binary_alt_data.
  assert (forall l (m0 : AddressLookupTableStore), NoDup l.*1 ->
    foldl (fun m '(alt, accounts) => <[alt := accounts]> m) m0 l = list_to_map l ∪ m0) as H.
  { induction l as [|[k v] l IH]; intros m0 Hnd; simpl; [by rewrite (left_id_L ∅ _)|].
    apply NoDup_cons in Hnd as [Hk Hnd]. rewrite IH by done.
    rewrite <- insert_union_l, <- insert_union_r; [done|]. by apply not_elem_of_list_to_map_1. }
  rewrite H by apply NoDup_fst_map_to_list. by rewrite (right_id_L ∅ _), list_to_map_to_list.
Qed.
