(* ===== verification/PrioFees.v ===== *)
(** * Prioritization fee statistics

    prioritization_fees/src: the percentiles of a block
    (stats_calculation.rs), the data they are computed from
    (prioritization_fee_data.rs, rpc_data.rs), the statistics per block
    (block_priofees.rs) and per account (account_priofees.rs,
    account_prio_service.rs).  A percentile [p as f32 / 100.0] is the integer
    [p]; the 21 of them are pairwise distinct floats. *)

From S2P Require Import Prelude BTreeMap Types AddressLookup.

(** ** Data *)

(** [PrioFeesData], prioritization_fees/src/prioritization_fee_data.rs:6-10. *)
Record PrioFeesData := mkPrioFeesData { priority : Z; cu_consumed : Z }.

(** [PrioFeesData::default()]. *)
Definition prio_fees_default : PrioFeesData := mkPrioFeesData 0 0.

(** [BlockPrioData], prioritization_fees/src/prioritization_fee_data.rs:21-28. *)
Record BlockPrioData := mkBlockPrioData {
  transaction_data : list PrioFeesData;
  nb_non_vote_tx : Z;
  nb_total_tx : Z;
  non_vote_cu_consumed : Z;
  total_cu_consumed : Z;
}.

Definition block_prio_default : BlockPrioData := mkBlockPrioData [] 0 0 0 0.

(** [PrioFeesStats] and [TxAggregateStats], prioritization_fees/src/rpc_data.rs:5-24. *)
Record PrioFeesStats := mkPrioFeesStats {
  by_tx : list Z;
  by_tx_percentiles : list Z;
  by_cu : list Z;
  by_cu_percentiles : list Z;
  tx_count : Z * Z;
  stats_cu_consumed : Z * Z;
}.

Definition prio_stats_default : PrioFeesStats := mkPrioFeesStats [] [] [] [] (0, 0) (0, 0).

(** [PrioFeesStats::get_percentile], prioritization_fees/src/rpc_data.rs:27-35. *)
Definition get_percentile (s : PrioFeesStats) (p : Z) : outcome (option (Z * Z)) :=
  match list_find (eq p) (by_tx_percentiles s), list_find (eq p) (by_cu_percentiles s) with
  | Some (i, _), Some (j, _) =>
      tx ← unwrap (by_tx s !! i); cu ← unwrap (by_cu s !! j); Done (Some (tx, cu))
  | _, _ => Done None
  end.

(** ** Percentiles *)

(** A stable sort by a key. *)
Fixpoint insert_by {A} (key : A -> Z) (x : A) (l : list A) : list A :=
  match l with
  | [] => [x]
  | y :: l' => if key x <=? key y then x :: l else y :: insert_by key x l'
  end.
Definition sort_by {A} (key : A -> Z) (l : list A) : list A := foldr (insert_by key) [] l.

(** [(0..=100).step_by(5)]. *)
Definition percentiles : list Z := (fun k => 5 * k) <$> seqZ 0 21.

Definition sum_cu (l : list PrioFeesData) : Z := foldl (fun acc d => (acc +64 cu_consumed d)%rpc) 0 l.

(** The fee at a percentile of the transactions:
    [calculate_supp_percentiles], prioritization_fees/src/stats_calculation.rs:26-36. *)
Definition fee_by_tx (data : list PrioFeesData) (p : Z) : outcome Z :=
  let len := Z.of_nat (length data) in
  let cap_index := Z.min (len * p / 100) (Z.max 0 (len - 1)) in
  d ← unwrap (data !! Z.to_nat cap_index); Done (priority d).

(** The inner loop over the computation units:
    [calculate_supp_percentiles], prioritization_fees/src/stats_calculation.rs:48-51.  [rest] is
    the data after [index]; running past its end panics. *)
Fixpoint cu_advance (rest : list PrioFeesData) (target agg : Z) (index : nat) :
    outcome (Z * nat * list PrioFeesData) :=
  match rest with
  | [] => if agg <? target then Panic else Done (agg, index, [])
  | d :: rest' =>
      if agg <? target then cu_advance rest' target (agg +64 cu_consumed d)%rpc (S index)
      else Done (agg, index, rest)
  end.

(** The fees at the percentiles of the computation units:
    [calculate_supp_percentiles], prioritization_fees/src/stats_calculation.rs:45-58. *)
Fixpoint fees_by_cu (data : list PrioFeesData) (cu_sum : Z) (ps : list Z) (agg : Z) (index : nat)
    (rest : list PrioFeesData) : outcome (list Z) :=
  match ps with
  | [] => Done []
  | p :: ps' =>
      '(agg', index', rest') ← cu_advance rest (wrap_u64 (cu_sum * p) / 100) agg index;
      d ← unwrap (data !! index');
      fees ← fees_by_cu data cu_sum ps' agg' index' rest';
      Done (priority d :: fees)
  end.

(** [calculate_supp_percentiles], prioritization_fees/src/stats_calculation.rs:7-78. *)
Definition calculate_supp_percentiles (input : list PrioFeesData) : outcome (list Z * list Z) :=
  let data := match input with [] => [prio_fees_default] | _ => sort_by priority input end in
  dist_fee_by_index ← mapM (fee_by_tx data) percentiles;
  let cu_sum := sum_cu data in
  first ← unwrap (head data);
  dist_fee_by_cu ← fees_by_cu data cu_sum percentiles (cu_consumed first) 0 (tail data);
  Done (dist_fee_by_index, dist_fee_by_cu).

(** [BlockPrioData::calculate_stats], prioritization_fees/src/prioritization_fee_data.rs:31-48. *)
Definition calculate_stats (b : BlockPrioData) : outcome PrioFeesStats :=
  '(tx, cu) ← calculate_supp_percentiles (transaction_data b);
  Done (mkPrioFeesStats tx percentiles cu percentiles (nb_total_tx b, nb_non_vote_tx b)
          (total_cu_consumed b, non_vote_cu_consumed b)).

(** [BlockPrioData::add], prioritization_fees/src/prioritization_fee_data.rs:50-59. *)
Definition block_prio_add (a b : BlockPrioData) : BlockPrioData :=
  mkBlockPrioData (transaction_data a ++ transaction_data b)
    (nb_non_vote_tx a +64 nb_non_vote_tx b)%rpc (nb_total_tx a +64 nb_total_tx b)%rpc
    (non_vote_cu_consumed a +64 non_vote_cu_consumed b)%rpc
    (total_cu_consumed a +64 total_cu_consumed b)%rpc.

Definition aggregate (l : list BlockPrioData) : BlockPrioData := foldl block_prio_add block_prio_default l.

(** ** Per block *)

Definition tx_data (tx : TransactionInfo) : PrioFeesData :=
  mkPrioFeesData (default 0 (ti_prioritization_fees tx)) (default 0 (ti_cu_consumed tx)).

Definition non_votes (txs : list TransactionInfo) : list TransactionInfo :=
  filter (fun tx => ti_is_vote tx = false) txs.

(** The data of a block:
    [start_block_priofees_task], prioritization_fees/src/block_priofees.rs:74-110. *)
Definition block_prio_data (b : ProducedBlock) : BlockPrioData :=
  let txs := pb_transactions (pb_inner b) in
  mkBlockPrioData (tx_data <$> non_votes txs)
    (Z.of_nat (length (non_votes txs))) (Z.of_nat (length txs))
    (sum_cu (tx_data <$> non_votes txs)) (sum_cu (tx_data <$> txs)).

(** The statistics of a processed block are stored and published, old ones
    dropped: [start_block_priofees_task], prioritization_fees/src/block_priofees.rs:65-153. *)
Definition block_priofees_step (slots_to_retain : Z) (recent : list (Z * BlockPrioData)) (b : ProducedBlock) :
    outcome (list (Z * BlockPrioData) * list (Slot * PrioFeesStats)) :=
  if is_processed (pb_commitment_config b) then
    let slot := pb_slot (pb_inner b) in
    let data := block_prio_data b in
    stats ← calculate_stats data;
    Done (filter (fun e => saturating_sub_u64 slot slots_to_retain < e.1) (bt_insert slot data recent),
          [(slot, stats)])
  else Done (recent, []).

(** [PrioFeesService::get_latest_priofees], prioritization_fees/src/block_priofees.rs:28-32. *)
Definition get_latest_priofees (recent : list (Z * BlockPrioData)) : outcome (option (Slot * PrioFeesStats)) :=
  match bt_last recent with
  | Some (slot, v) => stats ← calculate_stats v; Done (Some (slot, stats))
  | None => Done None
  end.

(** [PrioFeesService::get_last_n_priofees_aggregate],
    prioritization_fees/src/block_priofees.rs:34-51. *)
Definition get_last_n_priofees_aggregate (recent : list (Z * BlockPrioData)) (nb : nat) :
    outcome (option (Slot * PrioFeesStats)) :=
  match bt_last recent with
  | Some (last_slot, _) =>
      stats ← calculate_stats (aggregate (take nb (reverse recent)).*2); Done (Some (last_slot, stats))
  | None => Done None
  end.

(** ** Per account *)

(** [AccountPrioFeesStats], prioritization_fees/src/rpc_data.rs:58-62. *)
Record AccountPrioFeesStats := mkAccountStats { write_stats : PrioFeesStats; all_stats : PrioFeesStats }.

(** [AccountPrioStore], prioritization_fees/src/account_priofees.rs:31-42: each account's
    [stats_by_slot]. *)
Record AccountPrioStore := mkAccountPrioStore {
  account_by_prio_fees_all : gmap Pubkey (list (Z * BlockPrioData));
  account_by_prio_fees_writeonly : gmap Pubkey (list (Z * BlockPrioData));
  number_of_slots_to_save : Z;
  aps_last_slot : Slot;
}.

(** [AccountPrioStore::new], prioritization_fees/src/account_priofees.rs:45-56. *)
Definition account_prio_new (n : Z) : AccountPrioStore := mkAccountPrioStore ∅ ∅ n 0.

Definition push_data (v : PrioFeesData) (m : gmap Pubkey (list PrioFeesData)) (k : Pubkey) :
    gmap Pubkey (list PrioFeesData) :=
  match m !! k with Some l => <[k := l ++ [v]]> m | None => <[k := [v]]> m end.

Section accounts.
Context {T : Type} `{AddressLookupTableInterface T}.

(** The accounts a transaction locks, tables resolved:
    [AccountPrioStore::update], prioritization_fees/src/account_priofees.rs:87-98. *)
Definition locked_accounts (alt : option T) (tx : TransactionInfo) : list Pubkey * list Pubkey :=
  match alt with
  | Some t =>
      (ti_writable_accounts tx ++ concat ((fun l => (alt_resolve t l).1) <$> ti_address_lookup_tables tx),
       ti_readable_accounts tx ++ concat ((fun l => (alt_resolve t l).2) <$> ti_address_lookup_tables tx))
  | None => (ti_writable_accounts tx, ti_readable_accounts tx)
  end.

(** One transaction of the loop:
    [AccountPrioStore::update], prioritization_fees/src/account_priofees.rs:82-130. *)
Definition account_tx (alt : option T) (m : gmap Pubkey (list PrioFeesData) * gmap Pubkey (list PrioFeesData))
    (tx : TransactionInfo) : gmap Pubkey (list PrioFeesData) * gmap Pubkey (list PrioFeesData) :=
  let value := tx_data tx in
  let '(writable, readable) := locked_accounts alt tx in
  (foldl (push_data value) m.1 writable,
   foldl (push_data value) (foldl (push_data value) m.2 writable) readable).

(** [convert_to_block_prio_data], prioritization_fees/src/account_priofees.rs:133-143. *)
Definition convert_to_block_prio_data (data : list PrioFeesData) : BlockPrioData :=
  let count := Z.of_nat (length data) in
  mkBlockPrioData data count count (sum_cu data) (sum_cu data).

(** Storing the data of a slot under each account:
    [AccountPrioStore::update], prioritization_fees/src/account_priofees.rs:157-171. *)
Definition store_slot (slot : Slot) (m : gmap Pubkey (list (Z * BlockPrioData)))
    (data : gmap Pubkey BlockPrioData) : gmap Pubkey (list (Z * BlockPrioData)) :=
  map_fold (fun account d m => <[account := bt_insert slot d (default [] (m !! account))]> m) m data.

(** The loop of
    [cleanup_functor], prioritization_fees/src/account_priofees.rs:193-200. *)
Fixpoint pop_old (min_slot : Z) (l : list (Z * BlockPrioData)) : list (Z * BlockPrioData) :=
  match l with
  | (k, d) :: l' => if min_slot <? k then l else pop_old min_slot l'
  | [] => []
  end.

(** The [retain] over the accounts:
    [AccountPrioStore::update], prioritization_fees/src/account_priofees.rs:201-209. *)
Definition cleanup (min_slot : Z) (m : gmap Pubkey (list (Z * BlockPrioData))) :
    gmap Pubkey (list (Z * BlockPrioData)) := filter (fun kv => kv.2 <> []) (pop_old min_slot <$> m).

(** The data a block contributes per account, for write locks and for all
    locks: [AccountPrioStore::update], prioritization_fees/src/account_priofees.rs:58-155. *)
Definition option_fee_key (tx : TransactionInfo) : Z := default (-1) (ti_prioritization_fees tx).

Definition block_accounts (alt : option T) (txs : list TransactionInfo) :
    gmap Pubkey (list PrioFeesData) * gmap Pubkey (list PrioFeesData) :=
  foldl (account_tx alt) (∅, ∅) (sort_by option_fee_key (non_votes txs)).

(** The statistics of an account in the message:
    [AccountPrioStore::update], prioritization_fees/src/account_priofees.rs:234-240. *)
Definition account_stats (write : gmap Pubkey BlockPrioData) (account : Pubkey) (d : BlockPrioData) :
    outcome AccountPrioFeesStats :=
  w ← match write !! account with
      | Some wd => calculate_stats wd
      | None => Done prio_stats_default
      end;
  a ← calculate_stats d;
  Done (mkAccountStats w a).

(** [AccountPrioStore::update], prioritization_fees/src/account_priofees.rs:58-248: the new
    store, the lookup tables after the reload, and the message. *)
Definition account_update (s : AccountPrioStore) (alt : option T) (b : ProducedBlock) :
    outcome (AccountPrioStore * option T * (Slot * gmap Pubkey AccountPrioFeesStats)) :=
  let txs := sort_by option_fee_key (non_votes (pb_transactions (pb_inner b))) in
  let alt' := match alt with
              | Some t => Some (alt_reload t (concat (ti_address_lookup_tables <$> txs)))
              | None => None
              end in
  let '(write, read_write) := block_accounts alt' (pb_transactions (pb_inner b)) in
  let slot := pb_slot (pb_inner b) in
  let write := convert_to_block_prio_data <$> write in
  let read_write := convert_to_block_prio_data <$> read_write in
  let writeonly := store_slot slot (store_slot slot (account_by_prio_fees_writeonly s) write) read_write in
  let min_slot := saturating_sub_u64 slot (number_of_slots_to_save s) in
  stats ← mapM (fun '(account, d) => st ← account_stats write account d; Done (account, st)) (map_to_list read_write);
  Done (mkAccountPrioStore (cleanup min_slot (account_by_prio_fees_all s)) (cleanup min_slot writeonly)
          (number_of_slots_to_save s) slot, alt', (slot, list_to_map stats)).

(** The loop of
    [AccountPrioService::start_account_priofees_task], prioritization_fees/src/account_prio_service.rs:22-68. *)
Definition account_priofees_step (s : AccountPrioStore * option T) (b : ProducedBlock) :
    outcome ((AccountPrioStore * option T) * list (Slot * gmap Pubkey AccountPrioFeesStats)) :=
  if is_processed (pb_commitment_config b) then
    '(store, alt, msg) ← account_update s.1 s.2 b; Done ((store, alt), [msg])
  else Done (s, []).
End accounts.

Definition latest_data (m : gmap Pubkey (list (Z * BlockPrioData))) (account : Pubkey) : BlockPrioData :=
  default block_prio_default (l ← m !! account; e ← bt_last l; Some e.2).

(** [AccountPrioStore::get_latest_stats], prioritization_fees/src/account_priofees.rs:250-278. *)
Definition get_latest_stats (s : AccountPrioStore) (account : Pubkey) : outcome (Slot * AccountPrioFeesStats) :=
  w ← calculate_stats (latest_data (account_by_prio_fees_writeonly s) account);
  a ← calculate_stats (latest_data (account_by_prio_fees_all s) account);
  Done (aps_last_slot s, mkAccountStats w a).

Definition last_n_data (m : gmap Pubkey (list (Z * BlockPrioData))) (account : Pubkey) (nb : nat) :
    BlockPrioData :=
  match m !! account with Some l => aggregate (take nb (reverse l)).*2 | None => block_prio_default end.

(** [AccountPrioStore::get_n_last_stats], prioritization_fees/src/account_priofees.rs:280-306. *)
Definition get_n_last_stats (s : AccountPrioStore) (account : Pubkey) (nb : nat) :
    outcome (Slot * AccountPrioFeesStats) :=
  w ← calculate_stats (last_n_data (account_by_prio_fees_writeonly s) account nb);
  a ← calculate_stats (last_n_data (account_by_prio_fees_all s) account nb);
  Done (aps_last_slot s, mkAccountStats w a).

(** ** Lemmas *)

(** *** Sorting *)

Section sorting.
Context {A : Type} (key : A -> Z).

Lemma insert_by_perm x l : insert_by key x l ≡ₚ x :: l.
Proof.
  induction l as [|y l IH]; simpl; [done|]. destruct (_ <=? _); [done|]. rewrite IH. solve_Permutation.
Qed.

Lemma sort_by_perm l : sort_by key l ≡ₚ l.
Proof. induction l as [|x l IH]; simpl; [done|]. by rewrite insert_by_perm, IH. Qed.

Lemma insert_by_sorted x l :
  StronglySorted (fun a b => key a <= key b) l -> StronglySorted (fun a b => key a <= key b) (insert_by key x l).
Proof.
  induction 1 as [|y l Hs IH Hy]; simpl; [by repeat constructor|]. destruct (_ <=? _) eqn:E; bool_lia.
  - constructor; [by constructor|]. constructor; [done|]. eapply Forall_impl; [done|]. simpl. lia.
  - constructor; [done|]. apply Forall_forall. intros z Hz. rewrite insert_by_perm in Hz.
    apply elem_of_cons in Hz as [->|Hz]; [lia|]. rewrite Forall_forall in Hy. auto.
Qed.

Lemma sort_by_sorted l : StronglySorted (fun a b => key a <= key b) (sort_by key l).
Proof. induction l; simpl; [constructor|]. by apply insert_by_sorted. Qed.
End sorting.

(** *** Computation units *)

Definition psum (l : list PrioFeesData) : Z := foldr (fun d acc => cu_consumed d + acc) 0 l.
Definition non_negative (l : list PrioFeesData) : Prop := Forall (fun d => 0 <= cu_consumed d) l.

Lemma psum_app l1 l2 : psum (l1 ++ l2) = psum l1 + psum l2.
Proof. induction l1; simpl; lia. Qed.

Lemma psum_nonneg l : non_negative l -> 0 <= psum l.
Proof. induction 1; simpl in *; lia. Qed.

Lemma psum_perm l1 l2 : l1 ≡ₚ l2 -> psum l1 = psum l2.
Proof. induction 1; simpl; lia. Qed.

Lemma psum_take l n : non_negative l -> 0 <= psum (take n l) <= psum l.
Proof.
  intros Hl. assert (psum l = psum (take n l) + psum (drop n l)) by (by rewrite <- psum_app, take_drop).
  pose proof (psum_nonneg (take n l) (Forall_take _ _ _ Hl)).
  pose proof (psum_nonneg (drop n l) (Forall_drop _ _ _ Hl)). lia.
Qed.

Lemma sum_cu_psum l : non_negative l -> psum l < u64_size -> sum_cu l = psum l.
Proof.
  intros Hl Hb. unfold sum_cu.
  assert (forall a, 0 <= a -> a + psum l < u64_size ->
    foldl (fun acc d => (acc +64 cu_consumed d)%rpc) a l = a + psum l) as H; [|rewrite H; lia].
  clear Hb. induction Hl as [|d l Hd Hl IH]; intros a Ha Hb; simpl in *; [lia|].
  pose proof (psum_nonneg l Hl). rewrite wrap_u64_id by (unfold in_u64; lia). rewrite IH; lia.
Qed.

(** The position of the walk: [index] and what lies behind it. *)
Definition at_index (data : list PrioFeesData) (index : nat) (agg : Z) (rest : list PrioFeesData) : Prop :=
  (index < length data)%nat /\ rest = drop (S index) data /\ agg = psum (take (S index) data).

Lemma psum_take_S data i d : data !! i = Some d -> psum (take (S i) data) = psum (take i data) + cu_consumed d.
Proof. intros Hd. rewrite (take_S_r _ _ _ Hd), psum_app. simpl. lia. Qed.

(** The inner loop stops at the first position that reaches the target. *)
Lemma cu_advance_spec data target agg index rest :
  non_negative data -> psum data < u64_size -> target <= psum data -> at_index data index agg rest ->
  exists agg' index' rest', cu_advance rest target agg index = Done (agg', index', rest') /\
    at_index data index' agg' rest' /\ (index <= index')%nat /\ target <= agg' /\
    (index' = index \/ psum (take index' data) < target).
Proof.
  intros Hn Hb Ht. revert agg index.
  induction rest as [|d rest IH]; intros agg index (Hi & Hr & Ha); cbn [cu_advance].
  - assert (take (S index) data = data) as Htake.
    { apply take_ge. symmetry in Hr. apply (f_equal length) in Hr. rewrite length_drop in Hr. simpl in Hr. lia. }
    rewrite Htake in Ha. destruct (agg <? target) eqn:E; bool_lia.
    exists agg, index, []. split_and!; [done| |done|done|by left]. split_and!; [done|done|by rewrite Htake].
  - destruct (agg <? target) eqn:E; bool_lia.
    + assert (data !! S index = Some d) as Hd by (by rewrite <- (Nat.add_0_r (S index)), <- lookup_drop, <- Hr).
      pose proof (psum_take_S data (S index) d Hd) as Hs.
      pose proof (psum_take data (S (S index)) Hn) as Hbound.
      rewrite wrap_u64_id by (unfold in_u64; lia).
      destruct (IH (agg + cu_consumed d) (S index)) as (a' & i' & r' & -> & Hat & Hle & Hta & Hmin).
      { split_and!; [by eapply lookup_lt_Some| |lia].
        replace (S (S index)) with (S index + 1)%nat by lia. by rewrite <- drop_drop, <- Hr. }
      exists a', i', r'. split_and!; [done|done|lia|done|].
      right. destruct Hmin as [->|?]; lia.
    + exists agg, index, (d :: rest). split_and!; [done|done|done|done|by left].
Qed.

(** The first transaction, in order of priority, at which a share [p] of all
    computation units is reached. *)
Definition cu_target (data : list PrioFeesData) (p : Z) : Z := psum data * p / 100.
Definition cu_percentile (data : list PrioFeesData) (p : Z) (i : nat) : Prop :=
  (i < length data)%nat /\ cu_target data p <= psum (take (S i) data) /\
  (i = 0%nat \/ psum (take i data) < cu_target data p).

(** The transaction at a share [p] of the transactions. *)
Definition tx_percentile (data : list PrioFeesData) (p : Z) (i : nat) : Prop :=
  i = Z.to_nat (Z.min (Z.of_nat (length data) * p / 100) (Z.of_nat (length data) - 1)).

Definition fee_at (data : list PrioFeesData) (i : nat) (fee : Z) : Prop :=
  exists d, data !! i = Some d /\ fee = priority d.

Lemma cu_target_mono data p q : non_negative data -> p <= q -> cu_target data p <= cu_target data q.
Proof.
  intros Hn Hpq. apply Z.div_le_mono; [lia|]. pose proof (psum_nonneg data Hn). nia.
Qed.

Lemma cu_target_le data p : non_negative data -> 0 <= p <= 100 -> cu_target data p <= psum data.
Proof.
  intros Hn Hp. pose proof (psum_nonneg data Hn).
  unfold cu_target. apply Z.div_le_upper_bound; nia.
Qed.

Lemma fees_by_cu_spec data ps agg index rest t0 :
  non_negative data -> 100 * psum data < u64_size ->
  StronglySorted Z.le ps -> Forall (fun p => 0 <= p <= 100 /\ t0 <= cu_target data p) ps ->
  at_index data index agg rest -> (index = 0%nat \/ psum (take index data) < t0) ->
  exists idxs fees, fees_by_cu data (psum data) ps agg index rest = Done fees /\
    Forall2 (fee_at data) idxs fees /\ Forall2 (cu_percentile data) ps idxs /\
    StronglySorted le idxs /\ Forall (le index) idxs.
Proof.
  intros Hn Hb Hps. pose proof (psum_nonneg data Hn) as Hpos. revert agg index rest t0.
  induction Hps as [|p ps Hps IH Hp]; intros agg index rest t0 Hall Hat Hmin.
  { exists [], []. split_and!; done || constructor. }
  apply Forall_cons in Hall as [[Hp100 Ht0] Hall]. cbn [fees_by_cu].
  rewrite wrap_u64_id by (unfold in_u64; nia). fold (cu_target data p).
  destruct (cu_advance_spec data (cu_target data p) agg index rest Hn) as (a' & i' & r' & E & Hat' & Hle & Hta & Hmin');
    [lia|by apply cu_target_le|done|]. rewrite E. cbn [mbind outcome_bind].
  destruct Hat' as (Hi' & Hr' & Ha'). destruct (lookup_lt_is_Some_2 data i' Hi') as [d Hd]. rewrite Hd.
  cbn [unwrap mbind outcome_bind].
  assert (i' = 0%nat \/ psum (take i' data) < cu_target data p) as Hfirst.
  { destruct Hmin' as [->|?]; [destruct Hmin; [by left|right; lia]|by right]. }
  destruct (IH a' i' r' (cu_target data p)) as (idxs & fees & -> & H1 & H2 & H3 & H4);
    [|by split_and!|done|].
  { rewrite Forall_forall in Hp, Hall |- *. intros q Hq. split; [by apply Hall|]. apply cu_target_mono; auto. }
  cbn [mbind outcome_bind]. exists (i' :: idxs), (priority d :: fees). split_and!; [done|..].
  - constructor; [by exists d|done].
  - constructor; [|done]. split_and!; [done|lia|done].
  - by constructor.
  - constructor; [done|]. eapply Forall_impl; [done|]. simpl. lia.
Qed.

Lemma sorted_lookup_le data i j x y :
  StronglySorted (fun a b => priority a <= priority b) data -> (i <= j)%nat ->
  data !! i = Some x -> data !! j = Some y -> priority x <= priority y.
Proof.
  intros Hs. revert i j. induction Hs as [|d data Hs IH Hd]; intros [|i] [|j] Hij Hx Hy; simplify_eq/=; try lia.
  - rewrite Forall_forall in Hd. apply Hd. by eapply list_elem_of_lookup_2.
  - eapply (IH i j); [lia|done..].
Qed.

(** Fees at growing positions of sorted data grow. *)
Lemma fees_sorted data idxs fees :
  StronglySorted (fun a b => priority a <= priority b) data ->
  StronglySorted le idxs -> Forall2 (fee_at data) idxs fees -> StronglySorted Z.le fees.
Proof.
  intros Hd Hs. revert fees. induction Hs as [|i idxs Hs IH Hi]; intros fees Hf; inversion Hf; subst; [constructor|].
  match goal with H : fee_at data i _ |- _ => destruct H as (x & Hx & ->) end. constructor; [by apply IH|].
  match goal with H : Forall2 _ idxs ?l |- _ => rename H into Hrest; clear -Hd Hi Hx Hrest end.
  induction Hrest as [|j f idxs fees (y & Hy & ->) Hrest IH]; constructor.
  - apply Forall_cons in Hi as [? _]. by eapply (sorted_lookup_le data i j).
  - apply Forall_cons in Hi as [_ ?]. by apply IH.
Qed.

Lemma fees_by_tx_spec data ps :
  data <> [] -> StronglySorted Z.le ps -> Forall (fun p => 0 <= p <= 100) ps ->
  exists idxs fees, mapM (fee_by_tx data) ps = Done fees /\
    Forall2 (fee_at data) idxs fees /\ Forall2 (tx_percentile data) ps idxs /\ StronglySorted le idxs.
Proof.
  intros Hne Hps Hall. assert (0 < length data)%nat as Hlen by (destruct data; simpl; [done|lia]).
  set (at_p p := Z.to_nat (Z.min (Z.of_nat (length data) * p / 100) (Z.of_nat (length data) - 1))).
  assert (forall p, exists d, data !! at_p p = Some d /\ fee_by_tx data p = Done (priority d)) as Hfee.
  { intros p. destruct (lookup_lt_is_Some_2 data (at_p p)) as [d Hd]; [subst at_p; simpl; lia|].
    exists d. split; [done|]. unfold fee_by_tx. rewrite Z.max_r by lia. fold (at_p p). by rewrite Hd. }
  exists (at_p <$> ps).
  assert (exists fees, mapM (fee_by_tx data) ps = Done fees /\ Forall2 (fee_at data) (at_p <$> ps) fees) as (fees & E & Hf).
  { clear Hps Hall. induction ps as [|p ps (fees & IH1 & IH2)]; [by exists []|].
    destruct (Hfee p) as (d & Hd & Hp). exists (priority d :: fees). cbn [mapM fmap list_fmap].
    rewrite Hp. cbn [mbind outcome_bind]. rewrite IH1. split; [done|]. constructor; [by exists d|done]. }
  exists fees. split_and!; [done..| |].
  - apply Forall2_fmap_r. by apply Forall_Forall2_diag, Forall_true.
  - clear -Hps Hall. induction Hps as [|p ps Hps IH Hp]; [constructor|]. apply Forall_cons in Hall as [? Hall].
    simpl. constructor; [by apply IH|]. apply Forall_fmap. rewrite Forall_forall in Hp |- *. intros q Hq.
    specialize (Hp q Hq). subst at_p. simpl in *.
    assert (Z.of_nat (length data) * p / 100 <= Z.of_nat (length data) * q / 100) by (apply Z.div_le_mono; nia). lia.
Qed.

Lemma percentiles_range : Forall (fun p => 0 <= p <= 100) percentiles.
Proof. apply (bool_decide_unpack _). by vm_compute. Qed.

Lemma percentiles_sorted : StronglySorted Z.le percentiles.
Proof. repeat first [lia | constructor]. Qed.

(** The data the percentiles are read from: sorted by fee, never empty. *)
Definition sorted_data (input : list PrioFeesData) : list PrioFeesData :=
  match input with [] => [prio_fees_default] | _ => sort_by priority input end.

Lemma sorted_data_spec input :
  StronglySorted (fun a b => priority a <= priority b) (sorted_data input) /\ sorted_data input <> [] /\
  psum (sorted_data input) = psum input /\ (non_negative input -> non_negative (sorted_data input)).
Proof.
  destruct input as [|d input]; cbn [sorted_data].
  { split_and!; [by repeat constructor|done|done|]. intros _. by repeat constructor. }
  set (l := d :: input). split_and!.
  - apply sort_by_sorted.
  - intros E. assert (l ≡ₚ []) as Hp by (by rewrite <- E, sort_by_perm). by apply Permutation_nil_r in Hp.
  - apply psum_perm, sort_by_perm.
  - unfold non_negative. by rewrite sort_by_perm.
Qed.

Lemma calculate_supp_percentiles_spec input :
  non_negative input -> 100 * psum input < u64_size ->
  exists tx cu, calculate_supp_percentiles input = Done (tx, cu) /\
    (exists i, Forall2 (tx_percentile (sorted_data input)) percentiles i /\ Forall2 (fee_at (sorted_data input)) i tx) /\
    (exists i, Forall2 (cu_percentile (sorted_data input)) percentiles i /\ Forall2 (fee_at (sorted_data input)) i cu) /\
    StronglySorted Z.le tx /\ StronglySorted Z.le cu.
Proof.
  intros Hn Hb. destruct (sorted_data_spec input) as (Hs & Hne & Hsum & Hn'). specialize (Hn' Hn).
  unfold calculate_supp_percentiles. fold (sorted_data input). set (data := sorted_data input) in *.
  rewrite <- Hsum in Hb. pose proof (psum_nonneg data Hn') as Hpos.
  destruct (fees_by_tx_spec data percentiles Hne percentiles_sorted percentiles_range)
    as (itx & tx & -> & Htx & Hitx & Hstx). cbn [mbind outcome_bind].
  rewrite sum_cu_psum by (done || lia).
  destruct (fees_by_cu_spec data percentiles (cu_consumed (default prio_fees_default (head data))) 0 (tail data) 0 Hn' Hb
    percentiles_sorted) as (icu & cu & Hcu & Hfcu & Hicu & Hscu & _).
  - apply Forall_forall. intros p Hp. pose proof (proj1 (Forall_forall _ _) percentiles_range p Hp) as H. simpl in H.
    split; [lia|]. apply Z.div_pos; nia.
  - clearbody data. destruct data as [|d data]; [done|]. split_and!; simpl; [lia|by rewrite drop_0|].
    lia.
  - by left.
  - clearbody data. destruct data as [|d data]; [done|]. cbn [head unwrap mbind outcome_bind]. cbn [default head tail from_option id] in Hcu.
    cbn [tail]. rewrite Hcu. cbn [mbind outcome_bind]. exists tx, cu.
    split_and!; [done|eauto|eauto|by apply (fees_sorted (d :: data) itx)|by apply (fees_sorted (d :: data) icu)].
Qed.

(** ** The correctness of the percentiles *)

(** C34. The percentiles of a block, when a hundred times its computation units
    fit in 64 bits: they are computed without a panic; by transactions, each
    is the fee of the transaction at that share of the transactions in order
    of fee; by computation units, each is the fee of the first transaction at
    which that share of the computation units is reached; both lists grow. *)
Theorem percentiles_correct (input : list PrioFeesData) :
  non_negative input -> 100 * psum input < u64_size ->
  exists data tx cu, calculate_supp_percentiles input = Done (tx, cu) /\
    (input <> [] -> data ≡ₚ input) /\ StronglySorted (fun a b => priority a <= priority b) data /\
    (exists i, Forall2 (tx_percentile data) percentiles i /\ Forall2 (fee_at data) i tx) /\
    (exists i, Forall2 (cu_percentile data) percentiles i /\ Forall2 (fee_at data) i cu) /\
    StronglySorted Z.le tx /\ StronglySorted Z.le cu.
Proof.
  intros Hn Hb. destruct (calculate_supp_percentiles_spec input Hn Hb) as (tx & cu & E & H).
  destruct (sorted_data_spec input) as (Hs & _).
  exists (sorted_data input), tx, cu. split; [done|]. split; [|by split].
  intros Hne. destruct input as [|d input]; [done|]. apply sort_by_perm.
Qed.

Definition sample_fees : list PrioFeesData := [mkPrioFeesData 30 50; mkPrioFeesData 10 100; mkPrioFeesData 20 850].

Lemma percentiles_correct_witness :
  exists tx cu, calculate_supp_percentiles sample_fees = Done (tx, cu) /\ StronglySorted Z.le cu /\
    cu !! 1%nat = Some 10 /\ cu !! 3%nat = Some 20 /\ cu !! 20%nat = Some 30.
Proof.
  destruct (percentiles_correct sample_fees) as (data & tx & cu & E & _ & _ & _ & _ & _ & Hs).
  - apply (bool_decide_unpack _). by vm_compute.
  - by vm_compute.
  - exists tx, cu. split_and!; [done|done|..]; vm_compute in E; by simplify_eq.
Defined.

(** ** The data per account *)

(** A map without empty lists. *)
Definition entry {A} (l : list A) : option (list A) := match l with [] => None | _ => Some l end.

Lemma entry_app_some {A} (l : list A) x : entry (l ++ [x]) = Some (l ++ [x]).
Proof. by destruct l. Qed.

(** How often an account is in a list. *)
Definition count_of (a : Pubkey) (ks : list Pubkey) : nat := length (filter (eq a) ks).

Lemma count_of_app a l1 l2 : count_of a (l1 ++ l2) = (count_of a l1 + count_of a l2)%nat.
Proof. unfold count_of. by rewrite filter_app, length_app. Qed.

Lemma push_data_all v ks : forall m (f : Pubkey -> list PrioFeesData),
  (forall a, m !! a = entry (f a)) ->
  forall a, foldl (push_data v) m ks !! a = entry (f a ++ replicate (count_of a ks) v).
Proof.
  induction ks as [|k ks IH]; intros m f Hm a; cbn [foldl].
  { simpl. by rewrite app_nil_r, Hm. }
  rewrite (IH _ (fun b => f b ++ replicate (count_of b [k]) v)).
  - rewrite (count_of_app a [k] ks : count_of a (k :: ks) = _), replicate_add. by rewrite (assoc_L (++)).
  - intros b. unfold push_data, count_of. rewrite Hm, filter_cons, filter_nil. destruct (decide (b = k)) as [->|Hne]; simpl.
    + rewrite entry_app_some. destruct (f k) eqn:E; simpl; by rewrite lookup_insert_eq.
    + rewrite app_nil_r. destruct (entry (f k)); by rewrite lookup_insert_ne by done.
Qed.

Section accounts_spec.
Context {T : Type} `{AddressLookupTableInterface T}.

(** What the transactions contribute to an account: their fee data once for
    each time they lock it. *)
Definition lock_data (locks : TransactionInfo -> list Pubkey) (txs : list TransactionInfo) (a : Pubkey) :
    list PrioFeesData :=
  concat ((fun tx => replicate (count_of a (locks tx)) (tx_data tx)) <$> txs).

Definition write_locks (alt : option T) (tx : TransactionInfo) : list Pubkey := (locked_accounts alt tx).1.
Definition all_locks (alt : option T) (tx : TransactionInfo) : list Pubkey :=
  (locked_accounts alt tx).1 ++ (locked_accounts alt tx).2.

Lemma account_txs_spec alt txs : forall m (f g : Pubkey -> list PrioFeesData),
  (forall a, m.1 !! a = entry (f a)) -> (forall a, m.2 !! a = entry (g a)) ->
  forall a, (foldl (account_tx alt) m txs).1 !! a = entry (f a ++ lock_data (write_locks alt) txs a) /\
            (foldl (account_tx alt) m txs).2 !! a = entry (g a ++ lock_data (all_locks alt) txs a).
Proof.
  induction txs as [|tx txs IH]; intros m f g Hf Hg a; cbn [foldl].
  { unfold lock_data. simpl. by rewrite !app_nil_r. }
  destruct (IH (account_tx alt m tx)
    (fun b => f b ++ replicate (count_of b (write_locks alt tx)) (tx_data tx))
    (fun b => g b ++ replicate (count_of b (all_locks alt tx)) (tx_data tx))) with (a := a) as [-> ->].
  - intros b. unfold account_tx, write_locks. destruct (locked_accounts alt tx) as [w r]. by apply push_data_all.
  - intros b. unfold account_tx, all_locks. destruct (locked_accounts alt tx) as [w r]. simpl.
    rewrite count_of_app, replicate_add, (assoc_L (++)).
    apply (push_data_all _ _ _ (fun c => g c ++ replicate (count_of c w) (tx_data tx))).
    intros c. by apply push_data_all.
  - unfold lock_data. cbn [fmap list_fmap concat]. by rewrite !(assoc_L (++)).
Qed.

(** The transactions of a block in the order they are visited. *)
Definition visited (b : ProducedBlock) : list TransactionInfo :=
  sort_by option_fee_key (non_votes (pb_transactions (pb_inner b))).

Lemma block_accounts_spec alt b a :
  (block_accounts alt (pb_transactions (pb_inner b))).1 !! a = entry (lock_data (write_locks alt) (visited b) a) /\
  (block_accounts alt (pb_transactions (pb_inner b))).2 !! a = entry (lock_data (all_locks alt) (visited b) a).
Proof. by apply (account_txs_spec alt (visited b) (∅, ∅) (fun _ => []) (fun _ => [])). Qed.

Lemma psum_replicate n d : psum (replicate n d) = Z.of_nat n * cu_consumed d.
Proof. induction n; simpl; lia. Qed.

Lemma lock_data_bounds alt txs a :
  Forall (fun tx => 0 <= cu_consumed (tx_data tx)) txs ->
  non_negative (lock_data (all_locks alt) txs a) /\ non_negative (lock_data (write_locks alt) txs a) /\
  psum (lock_data (write_locks alt) txs a) <= psum (lock_data (all_locks alt) txs a).
Proof.
  induction 1 as [|tx txs Htx _ (IH1 & IH2 & IH3)];
    [by split_and!; [constructor..|]|]. unfold lock_data in *. cbn [fmap list_fmap concat].
  unfold non_negative in *. rewrite !Forall_app, !psum_app, !psum_replicate.
  assert (count_of a (write_locks alt tx) <= count_of a (all_locks alt tx))%nat.
  { unfold all_locks, write_locks. rewrite count_of_app. lia. }
  split_and!; [|done| |done|nia].
  all: by apply Forall_replicate.
Qed.

Lemma calculate_stats_ok d :
  non_negative (transaction_data d) -> 100 * psum (transaction_data d) < u64_size ->
  exists st, calculate_stats d = Done st.
Proof.
  intros Hn Hb. destruct (calculate_supp_percentiles_spec _ Hn Hb) as (tx & cu & E & _).
  unfold calculate_stats. rewrite E. cbn [mbind outcome_bind]. eauto.
Qed.

Lemma mapM_values {V W} (g : Pubkey -> V -> outcome W) (m : gmap Pubkey V) :
  (forall k v, m !! k = Some v -> exists w, g k v = Done w) ->
  exists l, mapM (fun '(k, v) => w ← g k v; Done (k, w)) (map_to_list m) = Done l /\
    forall k, match (list_to_map l : gmap Pubkey W) !! k with
              | Some w => exists v, m !! k = Some v /\ g k v = Done w
              | None => m !! k = None
              end.
Proof.
  intros Hg.
  assert (exists l, mapM (fun '(k, v) => w ← g k v; Done (k, w)) (map_to_list m) = Done l /\
    Forall2 (fun kv kw => kv.1 = kw.1 /\ g kv.1 kv.2 = Done kw.2) (map_to_list m) l) as (l & E & Hl).
  { assert (Forall (fun kv => exists w, g kv.1 kv.2 = Done w) (map_to_list m)) as Hall.
    { apply Forall_forall. intros [k v] Hkv%elem_of_map_to_list. simpl. eauto. }
    induction Hall as [|[k v] kvs [w Hw] _ (l & E & IH)]; [by exists []|].
    simpl in Hw. exists ((k, w) :: l). cbn [mapM]. rewrite Hw. cbn [mbind outcome_bind]. rewrite E.
    cbn [mbind outcome_bind]. split; [done|]. by constructor. }
  exists l. split; [done|]. intros k.
  assert (l.*1 = (map_to_list m).*1) as Hk.
  { clear -Hl. induction Hl as [|? ? ? ? [? _] _ IH]; [done|]. rewrite !fmap_cons. by f_equal. }
  destruct (list_to_map l !! k) as [w|] eqn:Ek.
  - apply elem_of_list_to_map_2 in Ek. apply list_elem_of_lookup_1 in Ek as [i Hi].
    destruct (Forall2_lookup_r _ _ _ _ _ Hl Hi) as ([k' v] & Hin%list_elem_of_lookup_2 & Heq & Hw).
    simpl in *. subst k'. exists v. by apply elem_of_map_to_list in Hin.
  - apply not_elem_of_list_to_map_2 in Ek. rewrite Hk in Ek. apply eq_None_not_Some. intros [v Hv].
    apply Ek. apply list_elem_of_fmap. exists (k, v). split; [done|]. by apply elem_of_map_to_list.
Qed.

(** The lookup tables after the reload of a block. *)
Definition reloaded (alt : option T) (b : ProducedBlock) : option T :=
  (fun t => alt_reload t (concat (ti_address_lookup_tables <$> visited b))) <$> alt.

Lemma account_stats_ok alt b write a :
  Forall (fun tx => 0 <= cu_consumed (tx_data tx)) (visited b) ->
  100 * psum (lock_data (all_locks alt) (visited b) a) < u64_size ->
  write !! a = convert_to_block_prio_data <$> entry (lock_data (write_locks alt) (visited b) a) ->
  exists st, account_stats write a (convert_to_block_prio_data (lock_data (all_locks alt) (visited b) a)) = Done st.
Proof.
  intros Htx Hb Hw. destruct (lock_data_bounds alt (visited b) a Htx) as (H1 & H2 & H3).
  unfold account_stats. rewrite Hw.
  destruct (calculate_stats_ok (convert_to_block_prio_data (lock_data (all_locks alt) (visited b) a))) as [st ->]; [done..|].
  destruct (calculate_stats_ok (convert_to_block_prio_data (lock_data (write_locks alt) (visited b) a))) as [w E];
    [done|simpl; lia|].
  destruct (lock_data (write_locks alt) (visited b) a); cbn [entry fmap option_fmap option_map]; [by eexists|].
  rewrite E. cbn [mbind outcome_bind]. by eexists.
Qed.

(** The statistics published for a block: an account is in the message
    when a transaction of the block that is no vote locks it, directly or
    through a lookup table as loaded for this block; its statistics are those
    of all the transactions that lock it, and, apart, of those that lock it
    for writing. *)
Theorem account_message_stats (s : AccountPrioStore) (alt : option T) (b : ProducedBlock) :
  Forall (fun tx => 0 <= cu_consumed (tx_data tx)) (visited b) ->
  (forall a, 100 * psum (lock_data (all_locks (reloaded alt b)) (visited b) a) < u64_size) ->
  exists s' msg, account_update s alt b = Done (s', reloaded alt b, (pb_slot (pb_inner b), msg)) /\
    forall a, let data_all := lock_data (all_locks (reloaded alt b)) (visited b) a in
              let data_write := lock_data (write_locks (reloaded alt b)) (visited b) a in
      match msg !! a with
      | None => data_all = []
      | Some st => data_all <> [] /\
          calculate_stats (convert_to_block_prio_data data_all) = Done (all_stats st) /\
          (if bool_decide (data_write = []) then write_stats st = prio_stats_default
           else calculate_stats (convert_to_block_prio_data data_write) = Done (write_stats st))
      end.
Proof.
  intros Htx Hb. unfold account_update. fold (visited b).
  replace (match alt with Some t => _ | None => _ end) with (reloaded alt b) by (by destruct alt).
  pose proof (block_accounts_spec (reloaded alt b) b) as Hspec.
  destruct (block_accounts _ _) as [write rw]. simpl in Hspec.
  destruct (mapM_values (account_stats (convert_to_block_prio_data <$> write)) (convert_to_block_prio_data <$> rw))
    as (l & E & Hl).
  { intros a d Hd. rewrite lookup_fmap, (proj2 (Hspec a)) in Hd.
    destruct (lock_data (all_locks _) _ a) as [|x l] eqn:Ea; cbn [entry fmap option_fmap option_map] in Hd; [done|].
    injection Hd as <-. rewrite <- Ea. apply account_stats_ok; [done..|]. by rewrite lookup_fmap, (proj1 (Hspec a)). }
  rewrite E. cbn [mbind outcome_bind]. do 2 eexists. split; [done|]. intros a. specialize (Hl a).
  rewrite lookup_fmap, (proj2 (Hspec a)) in Hl. cbv zeta.
  destruct (list_to_map l !! a) as [st|]; [|by destruct (lock_data _ _ _)].
  destruct Hl as (d & Hd & Hst). unfold account_stats in Hst. rewrite lookup_fmap, (proj1 (Hspec a)) in Hst.
  destruct (lock_data (all_locks _) _ a) as [|x la]; cbn [entry fmap option_fmap option_map] in Hd; [done|].
  injection Hd as <-. split; [done|].
  destruct (lock_data (write_locks _) _ a) as [|y lw]; cbn [entry fmap option_fmap option_map] in Hst.
  - destruct (calculate_stats _) as [st'|]; cbn [mbind outcome_bind] in Hst; by simplify_eq/=.
  - rewrite bool_decide_eq_false_2 by done.
    destruct (calculate_stats (convert_to_block_prio_data (y :: lw))) as [w|]; cbn [mbind outcome_bind] in Hst; [|done].
    destruct (calculate_stats (convert_to_block_prio_data (x :: la))) as [r|]; cbn [mbind outcome_bind] in Hst; [|done].
    injection Hst as <-. done.
Qed.
End accounts_spec.

(** ** The statistics of an account *)

(** A block of two transactions: one writes account 1 and reads account 2,
    the other writes account 2. *)
Definition fee_block (slot : Slot) : ProducedBlock :=
  mkProducedBlock (mkProducedBlockInner
    [mkTransactionInfo 100 false None None (Some 7) (Some 500) 77 "" [1] [2] [];
     mkTransactionInfo 101 false None None (Some 3) (Some 200) 77 "" [2] [] [];
     mkTransactionInfo 102 true None None (Some 1) (Some 100) 77 "" [3] [] []]
    None 10 slot slot (slot - 1) 0 9 None) cc_processed.

(** A fetcher that knows no table. *)
#[local] Instance no_tables : AddressLookupTableInterface unit :=
  {| alt_resolve _ _ := ([], []); alt_reload t _ := t |}.

Lemma account_message_stats_witness :
  exists s' msg st, account_update (account_prio_new 100) (Some tt) (fee_block 5) = Done (s', Some tt, (5, msg)) /\
    msg !! 2 = Some st /\ msg !! 3 = None /\ tx_count (all_stats st) = (2, 2) /\ tx_count (write_stats st) = (1, 1).
Proof.
  destruct (account_message_stats (account_prio_new 100) (Some tt) (fee_block 5)) as (s' & msg & E & H).
  - repeat constructor; done.
  - intros a. assert (forall n k, 100 * psum (replicate n (mkPrioFeesData 3 200) ++ replicate k (mkPrioFeesData 7 500)) =
        Z.of_nat n * 20000 + Z.of_nat k * 50000) as Hsum by (intros; rewrite psum_app, !psum_replicate; simpl; lia).
    pose proof (Hsum (count_of a [2]) (count_of a [1; 2])) as Hs.
    pose proof (length_filter (eq a) [2]) as H1. pose proof (length_filter (eq a) [1; 2]) as H2.
    fold (count_of a [2]) in H1. fold (count_of a [1; 2]) in H2. cbn [length] in H1, H2.
    change (100 * psum (replicate (count_of a [2]) (mkPrioFeesData 3 200) ++
              (replicate (count_of a [1; 2]) (mkPrioFeesData 7 500)) ++ []) < u64_size).
    rewrite app_nil_r, Hs. unfold u64_size. lia.
  - pose proof (H 2) as H2. pose proof (H 3) as H3. clear H. destruct (msg !! 2) as [st|] eqn:E2; [|done].
    exists s', msg, st. destruct (msg !! 3); [by destruct H3 as [? _]|].
    destruct H2 as (_ & Ha & Hw), st as [w r]. vm_compute in Ha, Hw. injection Ha as <-. injection Hw as <-. done.
Defined.

Lemma store_slot_lookup slot m data a :
  store_slot slot m data !! a =
  match data !! a with Some d => Some (bt_insert slot d (default [] (m !! a))) | None => m !! a end.
Proof.
  unfold store_slot. revert a.
  apply (map_fold_weak_ind (fun r data => forall a, r !! a =
    match data !! a with Some d => Some (bt_insert slot d (default [] (m !! a))) | None => m !! a end)).
  - intros a. by rewrite lookup_empty.
  - intros k d data' r Hk IH a. destruct (decide (a = k)) as [->|Hne].
    + by rewrite !lookup_insert_eq, IH, Hk.
    + by rewrite !lookup_insert_ne, IH by done.
Qed.

Lemma pop_old_get min_slot l k : min_slot < k -> bt_get k (pop_old min_slot l) = bt_get k l.
Proof.
  intros Hk. induction l as [|[k' d] l IH]; cbn [pop_old]; [done|]. destruct (min_slot <? k') eqn:E; bool_lia; [done|].
  rewrite IH. cbn [bt_get]. by rewrite (proj2 (Z.eqb_neq k k')) by lia.
Qed.

Lemma cleanup_get min_slot m a k d :
  min_slot < k -> (l ← m !! a; bt_get k l) = Some d -> (l ← cleanup min_slot m !! a; bt_get k l) = Some d.
Proof.
  intros Hk Hd. destruct (m !! a) as [l|] eqn:Ha; [|done]. simpl in Hd.
  assert (bt_get k (pop_old min_slot l) = Some d) as Hp by (by rewrite pop_old_get).
  assert (cleanup min_slot m !! a = Some (pop_old min_slot l)) as ->; [|done].
  apply map_lookup_filter_Some_2; [by rewrite lookup_fmap, Ha|]. simpl. intros E. by rewrite E in Hp.
Qed.

Lemma cleanup_empty min_slot : cleanup min_slot ∅ = ∅.
Proof. unfold cleanup. rewrite fmap_empty. apply map_filter_empty. Qed.

(** The two maps of the store: an update keeps the data of all locks of
    an account, read locks included, in the map the statistics of write locks
    are read from, and never puts anything into the map of all locks, so
    [get_latest_stats] answers with the statistics of an empty block for all
    locks. *)
Theorem read_locks_stored_as_writes {T} `{AddressLookupTableInterface T} (s s' : AccountPrioStore) (alt alt' : option T)
    (b : ProducedBlock) msg (a : Pubkey) :
  account_update s alt b = Done (s', alt', msg) ->
  0 < pb_slot (pb_inner b) -> 0 < number_of_slots_to_save s ->
  lock_data (all_locks (reloaded alt b)) (visited b) a <> [] ->
  (l ← account_by_prio_fees_writeonly s' !! a; bt_get (pb_slot (pb_inner b)) l) =
    Some (convert_to_block_prio_data (lock_data (all_locks (reloaded alt b)) (visited b) a)) /\
  (account_by_prio_fees_all s = ∅ -> account_by_prio_fees_all s' = ∅ /\
     latest_data (account_by_prio_fees_all s') a = block_prio_default).
Proof.
  intros E Hslot Hn Hne. unfold account_update in E. fold (visited b) in E.
  replace (match alt with Some t => _ | None => _ end) with (reloaded alt b) in E by (by destruct alt).
  pose proof (block_accounts_spec (reloaded alt b) b a) as [_ Hspec].
  destruct (block_accounts _ _) as [write rw]. simpl in Hspec.
  destruct (mapM _ _) as [stats|]; cbn [mbind outcome_bind] in E; [|done]. injection E as <- _ _.
  cbn [account_by_prio_fees_writeonly account_by_prio_fees_all]. split.
  - apply cleanup_get; [unfold saturating_sub_u64; lia|].
    rewrite store_slot_lookup, lookup_fmap, Hspec.
    destruct (lock_data _ _ a) as [|x l]; [done|]. simpl. by rewrite bt_get_insert_eq.
  - intros ->. by rewrite cleanup_empty.
Qed.

Lemma read_locks_stored_as_writes_witness :
  exists s' msg, account_update (account_prio_new 100) (Some tt) (fee_block 5) = Done (s', Some tt, msg) /\
    (l ← account_by_prio_fees_writeonly s' !! 2; bt_get 5 l) =
      Some (convert_to_block_prio_data [mkPrioFeesData 3 200; mkPrioFeesData 7 500]) /\
    account_by_prio_fees_all s' = ∅.
Proof.
  destruct (account_update (account_prio_new 100) (Some tt) (fee_block 5)) as [[[s' alt'] msg]|] eqn:E;
    [|by vm_compute in E].
  destruct (read_locks_stored_as_writes (account_prio_new 100) s' (Some tt) alt' (fee_block 5) msg 2 E) as [H1 H2];
    [done..|].
  assert (alt' = Some tt) as -> by (by destruct alt' as [[]|]; [|vm_compute in E]).
  exists s', msg. split_and!; [done|exact H1|]. by apply H2.
Defined.
