(* ===== verification/Stakes.v ===== *)
(** * Stake and vote accounts

    stake_vote/src: the store whose content can be taken away while updates
    keep coming (utils.rs), the stake and vote accounts kept in it (stake.rs,
    vote.rs, account.rs), and the computation of the leader schedule from them
    (the pure part of leader_schedule.rs).  The tasks that use them are in
    StakeLoop. *)

From S2P Require Import Prelude BTreeMap Types LeaderSchedule DataCache.

(** ** The takable store *)

(** [UpdateAction], stake_vote/src/utils.rs:71-75. *)
Inductive UpdateAction (A : Type) :=
| Notify (slot : Slot) (account : A)
| Remove (pubkey : Pubkey) (slot : Slot).
Arguments Notify {A} slot account.
Arguments Remove {A} pubkey slot.

(** [TakeResult], stake_vote/src/utils.rs:77-81: the notifiers to wait for, or
    the content. *)
Inductive TakeResult (C : Type) :=
| Taken (notifiers : list Z)
| Map (content : C).
Arguments Taken {C} notifiers.
Arguments Map {C} content.

(** [TakeResult::and_then], stake_vote/src/utils.rs:83-96. *)
Definition take_and_then {C1 C2} (r1 : TakeResult C1) (r2 : TakeResult C2) : outcome (TakeResult (C1 * C2)) :=
  match r1, r2 with
  | Taken n1, Taken n2 => Done (Taken (n1 ++ n2))
  | Map c1, Map c2 => Done (Map (c1, c2))
  | _, _ => Panic
  end.

(** [TakableContent], stake_vote/src/utils.rs:98-101. *)
Class TakableContent (T C : Type) := content_add_value : C -> UpdateAction T -> C.

(** [TakableMap], stake_vote/src/utils.rs:196-204.  The notifier is the name
    it is known by; [notified] counts its [notify_one]. *)
Record TakableMap (T C : Type) := mkTakableMap {
  content : option C;
  updates : list (UpdateAction T);
  notifier : Z;
  notified : nat;
}.
Arguments mkTakableMap {T C} content updates notifier notified.
Arguments content {T C} t.
Arguments updates {T C} t.
Arguments notifier {T C} t.
Arguments notified {T C} t.

Section takable.
Context {T C : Type} `{TakableContent T C}.

(** [TakableMap::new], stake_vote/src/utils.rs:207-213. *)
Definition takable_new (name : Z) (c : C) : TakableMap T C := mkTakableMap (Some c) [] name 0.

(** [TakableMap::add_value], stake_vote/src/utils.rs:215-229. *)
Definition takable_add_value (m : TakableMap T C) (val : UpdateAction T) (force_in_update : bool) : TakableMap T C :=
  match content m with
  | Some c =>
      if force_in_update then mkTakableMap (Some c) (updates m ++ [val]) (notifier m) (notified m)
      else mkTakableMap (Some (content_add_value c val)) (updates m) (notifier m) (notified m)
  | None => mkTakableMap None (updates m ++ [val]) (notifier m) (notified m)
  end.

(** [Takable::take] of a map, stake_vote/src/utils.rs:111-116. *)
Definition take_map (m : TakableMap T C) : TakeResult C * TakableMap T C :=
  match content m with
  | Some c => (Map c, mkTakableMap None (updates m) (notifier m) (notified m))
  | None => (Taken [notifier m], m)
  end.

(** [Takable::merge] of a map, stake_vote/src/utils.rs:118-130. *)
Definition merge (m : TakableMap T C) (c : C) : result string (TakableMap T C) :=
  match content m with
  | None => Ok (mkTakableMap (Some (foldl content_add_value c (updates m))) [] (notifier m) (S (notified m)))
  | Some _ => Err "TakableMap with a existing content"
  end.

(** [Takable::is_taken] of a map, stake_vote/src/utils.rs:132-134. *)
Definition is_taken (m : TakableMap T C) : bool := match content m with None => true | Some _ => false end.
End takable.

(** [Takable::take] of a pair of maps, stake_vote/src/utils.rs:140-159. *)
Definition take_both {T1 C1 T2 C2} (m1 : TakableMap T1 C1) (m2 : TakableMap T2 C2) :
    outcome (TakeResult (C1 * C2) * (TakableMap T1 C1 * TakableMap T2 C2)) :=
  match is_taken m1, is_taken m2 with
  | true, true | false, false =>
      let '(r1, m1') := take_map m1 in
      let '(r2, m2') := take_map m2 in
      r ← take_and_then r1 r2; Done (r, (m1', m2'))
  | true, false =>
      let '(r1, m1') := take_map m1 in
      match r1 with Taken notif => Done (Taken notif, (m1', m2)) | Map _ => Panic end
  | false, true =>
      let '(r2, m2') := take_map m2 in
      match r2 with Taken notif => Done (Taken notif, (m1, m2')) | Map _ => Panic end
  end.

(** ** Accounts *)

(** The SDK's data the sources read: a stake delegation, the state of a stake
    account, the state of a vote account. *)
Record Delegation := mkDelegation {
  voter_pubkey : Pubkey;
  delegation_amount : Z;
  activation_epoch : Z;
  deactivation_epoch : Z;
}.

Inductive StakeState := Uninitialized | Initialized | Stake (delegation : Delegation) | RewardsPool.

Record VoteState := mkVoteState {
  vs_node_pubkey : Pubkey;
  vs_commission : Z;
  vs_votes : list Slot;
  vs_root_slot : option Slot;
  vs_epoch_credits : list (Z * Z * Z);
}.

(** The SDK's functions, constants and program ids the sources call, with the
    type of its stake history. *)
Record StakeSdk (Hist : Type) := mkStakeSdk {
  sdk_stake_state : list Z -> result string StakeState;
  sdk_vote_state : list Z -> result string VoteState;
  sdk_stake_history : list Z -> option Hist;
  sdk_delegation_stake : Delegation -> Z -> Hist -> option Z -> Z;
  sdk_leader_schedule_new : list (Pubkey * Z) -> list Z -> Z -> Z -> list Pubkey;
  sdk_pubkey_of_bytes : list Z -> option Pubkey;
  sdk_pubkey_to_string : Pubkey -> string;
  sdk_pubkey_from_str : string -> option Pubkey;
  sdk_rate_activation_epoch : EpochSchedule -> option Z;
  sdk_stake_program : Pubkey;
  sdk_vote_program : Pubkey;
  sdk_stake_history_id : Pubkey;
  sdk_max_epoch_credits : nat;
  sdk_delinquent_slot_distance : Z;
  sdk_num_consecutive_leader_slots : Z;
}.
Arguments sdk_stake_state {Hist} s.
Arguments sdk_vote_state {Hist} s.
Arguments sdk_stake_history {Hist} s.
Arguments sdk_delegation_stake {Hist} s.
Arguments sdk_leader_schedule_new {Hist} s.
Arguments sdk_pubkey_of_bytes {Hist} s.
Arguments sdk_pubkey_to_string {Hist} s.
Arguments sdk_pubkey_from_str {Hist} s.
Arguments sdk_rate_activation_epoch {Hist} s.
Arguments sdk_stake_program {Hist} s.
Arguments sdk_vote_program {Hist} s.
Arguments sdk_stake_history_id {Hist} s.
Arguments sdk_max_epoch_credits {Hist} s.
Arguments sdk_delinquent_slot_distance {Hist} s.
Arguments sdk_num_consecutive_leader_slots {Hist} s.

(** The account of a geyser update, with the fields the sources read. *)
Record GeyserAccount := mkGeyserAccount {
  ga_pubkey : list Z;
  ga_lamports : Z;
  ga_owner : list Z;
  ga_data : list Z;
  ga_write_version : Z;
}.

Record SubscribeUpdateAccount := mkUpdateAccount { ua_slot : Slot; ua_account : option GeyserAccount }.

(** [AccountPretty], stake_vote/src/account.rs:10-23: the fields that are read. *)
Record AccountPretty := mkAccountPretty {
  ap_slot : Slot;
  ap_pubkey : Pubkey;
  ap_lamports : Z;
  ap_owner : Pubkey;
  ap_data : list Z;
  ap_write_version : Z;
}.

Section sdk.
Context {Hist : Type} (sdk : StakeSdk Hist).

(** [AccountPretty::new_from_geyser], stake_vote/src/account.rs:26-55. *)
Definition new_from_geyser (geyser_account : SubscribeUpdateAccount) : outcome (option AccountPretty) :=
  match ua_account geyser_account with
  | None => Done None
  | Some inner =>
      pubkey ← unwrap (sdk_pubkey_of_bytes sdk (ga_pubkey inner));
      owner ← unwrap (sdk_pubkey_of_bytes sdk (ga_owner inner));
      Done (Some (mkAccountPretty (ua_slot geyser_account) pubkey (ga_lamports inner) owner (ga_data inner)
                    (ga_write_version inner)))
  end.

(** [read_stake_from_account_data], stake_vote/src/account.rs:84-95. *)
Definition read_stake_from_account_data (data : list Z) : result string (option Delegation) :=
  match data with
  | [] => Err "Error: read Stake account with empty data"
  | _ => st ← sdk_stake_state sdk data;
         Ok match st with Stake d => Some d | Initialized | Uninitialized | RewardsPool => None end
  end.

(** [AccountPretty::read_vote], stake_vote/src/account.rs:65-71. *)
Definition read_vote (a : AccountPretty) : result string VoteState :=
  match ap_data a with
  | [] => Err "Error: read Vote account with empty data"
  | _ => sdk_vote_state sdk (ap_data a)
  end.
End sdk.

(** ** Stakes *)

(** [StoredStake], stake_vote/src/stake.rs:15-22. *)
Record StoredStake := mkStoredStake {
  ss_pubkey : Pubkey;
  ss_lamports : Z;
  ss_stake : Delegation;
  ss_last_update_slot : Slot;
  ss_write_version : Z;
}.

#[export] Instance Delegation_eq_dec : EqDecision Delegation.
Proof. solve_decision. Defined.
#[export] Instance StoredStake_eq_dec : EqDecision StoredStake.
Proof. solve_decision. Defined.

Abbreviation StakeMap := (gmap Pubkey StoredStake).

(** [StakeStore::notify_stake], stake_vote/src/stake.rs:86-108. *)
Definition notify_stake (map : StakeMap) (stake : StoredStake) : StakeMap :=
  match map !! ss_pubkey stake with
  | Some strstake =>
      if ss_last_update_slot strstake <=? ss_last_update_slot stake then <[ss_pubkey stake := stake]> map else map
  | None => <[ss_pubkey stake := stake]> map
  end.

(** [StakeStore::remove_stake], stake_vote/src/stake.rs:110-119. *)
Definition remove_stake (stakes : StakeMap) (account_pk : Pubkey) (update_slot : Slot) : StakeMap :=
  match stakes !! account_pk with
  | Some stake => if ss_last_update_slot stake <=? update_slot then delete account_pk stakes else stakes
  | None => stakes
  end.

(** [StakeStore::process_stake_action], stake_vote/src/stake.rs:78-85. *)
Definition process_stake_action (stakes : StakeMap) (action : UpdateAction StoredStake) : StakeMap :=
  match action with
  | Notify _ stake => notify_stake stakes stake
  | Remove account_pk slot => remove_stake stakes account_pk slot
  end.

(** [TakableContent] for [StakeMap], stake_vote/src/stake.rs:24-28. *)
#[export] Instance stake_content : TakableContent StoredStake StakeMap := process_stake_action.

(** [StakeStore], stake_vote/src/stake.rs:30-40. *)
Abbreviation StakeStore := (TakableMap StoredStake StakeMap).

(** An account of a node's [getProgramAccounts], with the fields that are read. *)
Record ProgramAccount := mkProgramAccount { pa_lamports : Z; pa_data : list Z }.

Section stake_sdk.
Context {Hist : Type} (sdk : StakeSdk Hist).

(** [StakeStore::notify_stake_change], stake_vote/src/stake.rs:42-76. *)
Definition notify_stake_change (store : StakeStore) (account : AccountPretty) (current_end_epoch_slot : Slot) :
    result string StakeStore :=
  if ap_lamports account =? 0 then
    Ok (takable_add_value store (Remove (ap_pubkey account) (ap_slot account))
          (current_end_epoch_slot <? ap_slot account))
  else
    match read_stake_from_account_data sdk (ap_data account) with
    | Err _ => Err "Can't read stake from account data"
    | Ok None => Ok store
    | Ok (Some delegated_stake) =>
        let stake := mkStoredStake (ap_pubkey account) (ap_lamports account) delegated_stake (ap_slot account)
                       (ap_write_version account) in
        Ok (takable_add_value store (Notify (ap_slot account) stake) (current_end_epoch_slot <? ap_slot account))
    end.

(** [merge_program_account_in_strake_map], stake_vote/src/stake.rs:122-149. *)
Definition merge_program_account_in_strake_map (stake_map : StakeMap) (stakes_list : list (Pubkey * ProgramAccount))
    (last_update_slot : Slot) : StakeMap :=
  foldl (fun map '(pk, account) =>
    match read_stake_from_account_data sdk (pa_data account) with
    | Ok (Some delegated_stake) =>
        notify_stake map (mkStoredStake pk (pa_lamports account) delegated_stake last_update_slot 0)
    | _ => map
    end) stake_map stakes_list.
End stake_sdk.

(** ** Votes *)

(** [StoredVote], stake_vote/src/vote.rs:50-56. *)
Record StoredVote := mkStoredVote {
  sv_pubkey : Pubkey;
  sv_vote_data : VoteState;
  sv_last_update_slot : Slot;
  sv_write_version : Z;
}.

#[export] Instance VoteState_eq_dec : EqDecision VoteState.
Proof. solve_decision. Defined.
#[export] Instance StoredVote_eq_dec : EqDecision StoredVote.
Proof. solve_decision. Defined.

Abbreviation VoteMap := (gmap Pubkey StoredVote).

(** [EpochVoteStakes], stake_vote/src/vote.rs:21-25. *)
Record EpochVoteStakes := mkEpochVoteStakes {
  evs_vote_stakes : gmap Pubkey (Z * StoredVote);
  evs_epoch : Z;
}.

(** [EpochVoteStakesCache], stake_vote/src/vote.rs:27-36, with
    [vote_stakes_for_epoch] as the lookup. *)
Abbreviation EpochVoteStakesCache := (gmap Z EpochVoteStakes).

(** [EpochVoteStakesCache::add_stakes_for_epoch], stake_vote/src/vote.rs:38-41. *)
Definition add_stakes_for_epoch (cache : EpochVoteStakesCache) (vote_stakes : EpochVoteStakes) : EpochVoteStakesCache :=
  <[evs_epoch vote_stakes := vote_stakes]> cache.

Abbreviation VoteContent := (VoteMap * EpochVoteStakesCache)%type.

(** [VoteStore::vote_map_insert_vote], stake_vote/src/vote.rs:171-205. *)
Definition vote_map_insert_vote (map : VoteMap) (vote_data : StoredVote) : VoteMap :=
  match map !! sv_pubkey vote_data with
  | Some voteacc =>
      if sv_last_update_slot voteacc <=? sv_last_update_slot vote_data then <[sv_pubkey vote_data := vote_data]> map
      else map
  | None => <[sv_pubkey vote_data := vote_data]> map
  end.

(** [VoteStore::remove_from_store], stake_vote/src/vote.rs:159-169. *)
Definition remove_from_store (votes : VoteMap) (account_pk : Pubkey) (update_slot : Slot) : VoteMap :=
  match votes !! account_pk with
  | Some vote => if sv_last_update_slot vote <=? update_slot then delete account_pk votes else votes
  | None => delete account_pk votes
  end.

(** [VoteStore::process_vote_action], stake_vote/src/vote.rs:148-157. *)
Definition process_vote_action (votes : VoteMap) (action : UpdateAction StoredVote) : VoteMap :=
  match action with
  | Notify _ vote => vote_map_insert_vote votes vote
  | Remove account_pk slot => remove_from_store votes account_pk slot
  end.

(** [TakableContent] for [VoteContent], stake_vote/src/vote.rs:44-48. *)
#[export] Instance vote_content : TakableContent StoredVote VoteContent :=
  fun c val => (process_vote_action c.1 val, c.2).

(** [VoteStore], stake_vote/src/vote.rs:85-98. *)
Abbreviation VoteStore := (TakableMap StoredVote VoteContent).

Section vote_sdk.
Context {Hist : Type} (sdk : StakeSdk Hist).

(** The credits kept by [notify_vote_change], stake_vote/src/vote.rs:116-127. *)
Definition keep_epoch_credits (credits : list (Z * Z * Z)) : list (Z * Z * Z) :=
  if bool_decide (sdk_max_epoch_credits sdk < length credits)%nat
  then drop (length credits - sdk_max_epoch_credits sdk) credits else credits.

(** [VoteStore::notify_vote_change], stake_vote/src/vote.rs:100-146. *)
Definition notify_vote_change (store : VoteStore) (new_account : AccountPretty) (current_end_epoch_slot : Slot) :
    result string VoteStore :=
  if ap_lamports new_account =? 0 then
    Ok (takable_add_value store (Remove (ap_pubkey new_account) (ap_slot new_account))
          (current_end_epoch_slot <? ap_slot new_account))
  else
    match read_vote sdk new_account with
    | Err _ => Err "Can't read Vote from account data"
    | Ok vote =>
        let vote_data := mkVoteState (vs_node_pubkey vote) (vs_commission vote) (vs_votes vote) (vs_root_slot vote)
                           (keep_epoch_credits (vs_epoch_credits vote)) in
        let new_voteacc := mkStoredVote (ap_pubkey new_account) vote_data (ap_slot new_account)
                             (ap_write_version new_account) in
        Ok (takable_add_value store (Notify (ap_slot new_account) new_voteacc)
              (current_end_epoch_slot <? ap_slot new_account))
    end.

(** [merge_program_account_in_vote_map], stake_vote/src/vote.rs:208-234. *)
Definition merge_program_account_in_vote_map (vote_map : VoteMap) (pa_list : list (Pubkey * ProgramAccount))
    (last_update_slot : Slot) : VoteMap :=
  foldl (fun map '(pk, account) =>
    match sdk_vote_state sdk (pa_data account) with
    | Ok vote => vote_map_insert_vote map (mkStoredVote pk vote last_update_slot 0)
    | Err _ => map
    end) vote_map pa_list.

(** [StoredVote::convert_to_rpc_vote_account_info], stake_vote/src/vote.rs:59-82. *)
Definition convert_to_rpc_vote_account_info (v : StoredVote) (activated_stake : Z) (epoch_vote_account : bool) :
    RpcVoteAccountInfo :=
  mkRpcVoteAccountInfo (sdk_pubkey_to_string sdk (sv_pubkey v))
    (sdk_pubkey_to_string sdk (vs_node_pubkey (sv_vote_data v))) activated_stake (vs_commission (sv_vote_data v))
    epoch_vote_account (vs_epoch_credits (sv_vote_data v)) (default 0 (last (vs_votes (sv_vote_data v))))
    (default 0 (vs_root_slot (sv_vote_data v))).

(** The test of the [partition] of
    [get_rpc_vote_accounts_info], stake_vote/src/vote.rs:261-267. *)
Definition is_current (current_slot distance : Z) (info : RpcVoteAccountInfo) : bool :=
  if distance <=? current_slot then saturating_sub_u64 current_slot distance <? rvi_last_vote info
  else 0 <? rvi_last_vote info.

(** The [map] of
    [get_rpc_vote_accounts_info], stake_vote/src/vote.rs:254-260. *)
Definition vote_info (vote_accounts : gmap Pubkey (Z * StoredVote)) (vote : StoredVote) : RpcVoteAccountInfo :=
  let '(stake, epoch_vote_account) :=
    match vote_accounts !! sv_pubkey vote with Some (stake, _) => (stake, true) | None => (0, false) end in
  convert_to_rpc_vote_account_info vote stake epoch_vote_account.

(** [get_rpc_vote_accounts_info], stake_vote/src/vote.rs:237-282. *)
Definition get_rpc_vote_accounts_info (current_slot : Slot) (votes : VoteMap)
    (vote_accounts : gmap Pubkey (Z * StoredVote)) (config : GetVoteAccountsConfig) : RpcVoteAccountStatus :=
  let distance := default (sdk_delinquent_slot_distance sdk) (va_delinquent_slot_distance config) in
  let infos := vote_info vote_accounts <$> (map_to_list votes).*2 in
  let current := filter (fun i => is_current current_slot distance i = true) infos in
  let delinquent := filter (fun i => is_current current_slot distance i = false) infos in
  mkRpcVoteAccountStatus current
    (if default false (va_keep_unstaked_delinquents config) then delinquent
     else filter (fun i => 0 < rvi_activated_stake i) delinquent).

(** [get_rpc_vote_account_info_from_current_epoch_stakes], stake_vote/src/vote.rs:284-296. *)
Definition get_rpc_vote_account_info_from_current_epoch_stakes (e : EpochVoteStakes) : RpcVoteAccountStatus :=
  mkRpcVoteAccountStatus
    ((fun '(stake, vote) => convert_to_rpc_vote_account_info vote stake true) <$> (map_to_list (evs_vote_stakes e)).*2) [].
End vote_sdk.

(** ** Saved stakes *)

(** [StringSavedStake], stake_vote/src/utils.rs:25-30; a file holds one of them as JSON, or
    something else. *)
Record StringSavedStake := mkSavedStake {
  saved_epoch : Z;
  saved_stake_vote_map : gmap string (Z * StoredVote);
}.

Inductive SavedFile := SavedJson (s : StringSavedStake) | OtherContent.

Abbreviation Files := (gmap string SavedFile).

(** ** The leader schedule *)

(** Itertools' [into_group_map]: the values of a key in their order. *)
Definition group_push {V} (m : gmap string (list V)) (e : string * V) : gmap string (list V) :=
  <[e.1 := default [] (m !! e.1) ++ [e.2]]> m.

Section schedule_sdk.
Context {Hist : Type} (sdk : StakeSdk Hist).

(** [LeaderScheduleGeneratedData::get_schedule_by_nodes], stake_vote/src/leader_schedule.rs:30-39. *)
Definition get_schedule_by_nodes (schedule : list Pubkey) : gmap string (list Z) :=
  foldl group_push ∅ (imap (fun i pk => (sdk_pubkey_to_string sdk pk, Z.of_nat i)) schedule).

(** The fold of
    [calculate_epoch_stakes], stake_vote/src/leader_schedule.rs:256-265. *)
Definition delegated_stakes (stake_map : StakeMap) (new_epoch : Z) (history : Hist) (rate : option Z) : gmap Pubkey Z :=
  map_fold (fun _ stake_account m =>
    let delegation := ss_stake stake_account in
    <[voter_pubkey delegation :=
        (default 0 (m !! voter_pubkey delegation) +64 sdk_delegation_stake sdk delegation new_epoch history rate)%rpc]> m)
    ∅ stake_map.

(** [calculate_epoch_stakes], stake_vote/src/leader_schedule.rs:247-284. *)
Definition calculate_epoch_stakes (stake_map : StakeMap) (vote_map : VoteMap) (new_epoch : Z) (history : Hist)
    (rate : option Z) : gmap Pubkey (Z * StoredVote) :=
  let delegated := delegated_stakes stake_map new_epoch history rate in
  map_fold (fun _ vote_account m =>
    <[sv_pubkey vote_account := (default 0 (delegated !! sv_pubkey vote_account), vote_account)]> m) ∅ vote_map.

(** The order of
    [sort_stakes], stake_vote/src/leader_schedule.rs:328-334: larger stakes first, then larger
    keys. *)
Definition stake_order (l r : Pubkey * Z) : Prop := r.2 < l.2 \/ (r.2 = l.2 /\ r.1 <= l.1).

#[export] Instance stake_order_dec : RelDecision stake_order.
Proof. unfold RelDecision, stake_order. solve_decision. Defined.

(** [Vec::dedup]. *)
Fixpoint dedup (l : list (Pubkey * Z)) : list (Pubkey * Z) :=
  match l with
  | x :: ((y :: _) as l') => if decide (x = y) then dedup l' else x :: dedup l'
  | _ => l
  end.

(** [sort_stakes], stake_vote/src/leader_schedule.rs:323-338. *)
Definition sort_stakes (stakes : list (Pubkey * Z)) : list (Pubkey * Z) := dedup (merge_sort stake_order stakes).

(** [u64::to_le_bytes]. *)
Definition to_le_bytes (x : Z) : list Z := (fun i => Z.shiftr x (8 * i) mod u8_size) <$> seqZ 0 8.

(** The stake per node of
    [calculate_leader_schedule], stake_vote/src/leader_schedule.rs:293-299. *)
Definition node_stakes (stake_vote_map : list (Z * StoredVote)) : gmap Pubkey Z :=
  foldl (fun m '(stake, vote_account) =>
    if stake =? 0 then m
    else let node := vs_node_pubkey (sv_vote_data vote_account) in
         <[node := (default 0 (m !! node) +64 stake)%rpc]> m) ∅ stake_vote_map.

(** [calculate_leader_schedule], stake_vote/src/leader_schedule.rs:286-307. *)
Definition calculate_leader_schedule (stake_vote_map : gmap Pubkey (Z * StoredVote)) (epoch slots_in_epoch : Z) :
    list Pubkey :=
  let stakes := map_to_list (node_stakes (map_to_list stake_vote_map).*2) in
  sdk_leader_schedule_new sdk (sort_stakes stakes) (to_le_bytes epoch ++ replicate 24 0) slots_in_epoch
    (sdk_num_consecutive_leader_slots sdk).

(** [calculate_slot_leaders_from_schedule], stake_vote/src/leader_schedule.rs:309-321. *)
Definition calculate_slot_leaders_from_schedule (leader_schedule : gmap string (list Z)) : result string (list Pubkey) :=
  m ← foldl (fun acc '(pk, index_list) =>
        foldl (fun acc index =>
          m ← acc;
          match sdk_pubkey_from_str sdk pk with
          | Some pubkey => Ok (bt_insert index pubkey m)
          | None => Err "Pubkey from leader schedule not a plublic key"
          end) acc index_list) (Ok []) (map_to_list leader_schedule);
  Ok m.*2.

(** [read_schedule_vote_stakes], stake_vote/src/utils.rs:32-45. *)
Definition read_schedule_vote_stakes (files : Files) (path : string) :
    outcome (result string (Z * gmap Pubkey (Z * StoredVote))) :=
  match files !! path with
  | Some (SavedJson s) =>
      l ← mapM (fun '(pk, st) => k ← unwrap (sdk_pubkey_from_str sdk pk); Done (k, st))
            (map_to_list (saved_stake_vote_map s));
      Done (Ok (saved_epoch s, foldl (fun m e => <[e.1 := e.2]> m) ∅ l))
  | _ => Done (Err "can not read the file")
  end.

(** [save_schedule_vote_stakes], stake_vote/src/utils.rs:47-69. *)
Definition save_schedule_vote_stakes (files : Files) (path : string) (m : gmap Pubkey (Z * StoredVote)) (epoch : Z) :
    Files :=
  <[path := SavedJson (mkSavedStake epoch
      (foldl (fun m e => <[sdk_pubkey_to_string sdk e.1 := e.2]> m) ∅ (map_to_list m)))]> files.
End schedule_sdk.

(** ** Lemmas *)

(** *** Folds *)

(** A fold whose steps commute does not see the order of the list. *)
Lemma foldl_perm {A B} (f : A -> B -> A) (l1 l2 : list B) :
  l1 ≡ₚ l2 -> (forall x y, x ∈ l1 -> y ∈ l1 -> forall a, f (f a x) y = f (f a y) x) ->
  forall a, foldl f a l1 = foldl f a l2.
Proof.
  induction 1 as [|x l1 l2 Hp IH|x y l|l1 l2 l3 H12 IH12 H23 IH23]; intros Hc a; simpl.
  - done.
  - apply IH. intros. apply Hc; by right.
  - f_equal. apply Hc; set_solver.
  - rewrite IH12 by done. apply IH23. intros x y Hx Hy. apply Hc; by rewrite H12.
Qed.

(** Collecting pairs with different keys into a hash map. *)
Lemma foldl_insert_list_to_map `{Countable K} {V} (l : list (K * V)) :
  NoDup l.*1 -> foldl (fun m e => <[e.1 := e.2]> m) ∅ l = list_to_map (M := gmap K V) l.
Proof.
  induction l as [|[k v] l IH] using rev_ind; intros Hnd; [done|]. rewrite foldl_app. simpl.
  rewrite IH by (rewrite fmap_app in Hnd; by apply NoDup_app in Hnd as [? _]).
  change (list_to_map (M := gmap K V) ((k, v) :: l) = list_to_map (l ++ [(k, v)])). symmetry.
  apply list_to_map_proper; [done|]. by rewrite (comm (++)).
Qed.

(** *** The takable store *)

Section takable_spec.
Context {T C : Type} `{TakableContent T C}.

(** What happens to a store: a value is added, forced into the waiting list or
    not, its content is taken by a task, or the task that has the content merges
    it back. *)
Inductive takable_op := OpAdd (val : UpdateAction T) (force_in_update : bool) | OpTake | OpMerge.

Definition takable_step (s : TakableMap T C * option C) (op : takable_op) : TakableMap T C * option C :=
  match op with
  | OpAdd val force_in_update => (takable_add_value s.1 val force_in_update, s.2)
  | OpTake => match take_map s.1 with (Map c, m) => (m, Some c) | (Taken _, m) => (m, s.2) end
  | OpMerge => match s.2 with
               | Some c => match merge s.1 c with Ok m => (m, None) | Err _ => s end
               | None => s
               end
  end.

(** The values added by a sequence of operations. *)
Definition added (ops : list takable_op) : list (UpdateAction T) :=
  omap (fun op => match op with OpAdd val _ => Some val | _ => None end) ops.

(** The specification has no content to take: a log of the values that count,
    in their order, the values that wait for the next merge, and whether a task
    works on the content. *)
Record TakableLog := mkTakableLog { lg_applied : list (UpdateAction T); lg_waiting : list (UpdateAction T); lg_taken : bool }.
Definition log_new : TakableLog := mkTakableLog [] [] false.
Definition log_step (l : TakableLog) (op : takable_op) : TakableLog :=
  match op with
  | OpAdd val force_in_update =>
      if lg_taken l || force_in_update then mkTakableLog (lg_applied l) (lg_waiting l ++ [val]) (lg_taken l)
      else mkTakableLog (lg_applied l ++ [val]) (lg_waiting l) (lg_taken l)
  | OpTake => mkTakableLog (lg_applied l) (lg_waiting l) true
  | OpMerge => if lg_taken l then mkTakableLog (lg_applied l ++ lg_waiting l) [] false else l
  end.

(** The content is with the store or with the task, and is that of the log. *)
Definition takable_abs (c : C) (s : TakableMap T C * option C) (l : TakableLog) : Prop :=
  updates s.1 = lg_waiting l /\
  (if lg_taken l then content s.1 = None /\ s.2 = Some (foldl content_add_value c (lg_applied l))
   else content s.1 = Some (foldl content_add_value c (lg_applied l)) /\ s.2 = None).

Lemma takable_step_abs c s l op : takable_abs c s l -> takable_abs c (takable_step s op) (log_step l op).
Proof.
  destruct s as [[c' us n k] held], l as [ap wt [|]]; unfold takable_abs; cbn [fst snd content updates lg_applied lg_waiting lg_taken];
    intros (-> & -> & ->); destruct op as [val [|]| |]; cbn; rewrite ?foldl_app; done.
Qed.

Lemma takable_run_abs c ops : forall s l, takable_abs c s l -> takable_abs c (foldl takable_step s ops) (foldl log_step l ops).
Proof. induction ops as [|op ops IH]; intros s l Hs; [done|]. cbn [foldl]. by apply IH, takable_step_abs. Qed.

(** Every value is in the log once. *)
Lemma log_step_perm l op : lg_applied (log_step l op) ++ lg_waiting (log_step l op) ≡ₚ (lg_applied l ++ lg_waiting l) ++ added [op].
Proof.
  destruct op as [val force| |]; cbn [log_step added omap list_omap]; rewrite ?app_nil_r; [|done|by destruct (lg_taken l); cbn; rewrite ?app_nil_r].
  destruct (lg_taken l || force); cbn [lg_applied lg_waiting]; [by rewrite app_assoc|]. rewrite <- !app_assoc. f_equiv. apply Permutation_app_comm.
Qed.

Lemma log_run_perm ops : forall l,
  lg_applied (foldl log_step l ops) ++ lg_waiting (foldl log_step l ops) ≡ₚ (lg_applied l ++ lg_waiting l) ++ added ops.
Proof.
  induction ops as [|op ops IH]; intros l; cbn [foldl]; [by rewrite app_nil_r|]. rewrite IH, log_step_perm, <- app_assoc.
  change (op :: ops) with ([op] ++ ops). unfold added. by rewrite omap_app.
Qed.

(** Without forced values those that wait are the latest. *)
Definition unforced (op : takable_op) : Prop := match op with OpAdd _ force => force = false | _ => True end.

Lemma log_run_order ops : Forall unforced ops -> forall l, (lg_taken l = false -> lg_waiting l = []) ->
  lg_applied (foldl log_step l ops) ++ lg_waiting (foldl log_step l ops) = (lg_applied l ++ lg_waiting l) ++ added ops /\
  (lg_taken (foldl log_step l ops) = false -> lg_waiting (foldl log_step l ops) = []).
Proof.
  induction 1 as [|op ops Hop _ IH]; intros l Hl; cbn [foldl]; [by rewrite app_nil_r|]. change (op :: ops) with ([op] ++ ops).
  unfold added. rewrite omap_app, app_assoc. fold (added ops) (added [op]).
  assert (lg_applied (log_step l op) ++ lg_waiting (log_step l op) = (lg_applied l ++ lg_waiting l) ++ added [op] /\
    (lg_taken (log_step l op) = false -> lg_waiting (log_step l op) = [])) as [<- H2]; [|by apply IH].
  destruct l as [ap wt tk]; cbn [lg_applied lg_waiting lg_taken] in *. destruct op as [val force| |]; cbn [unforced] in Hop; cbn.
  - subst force. destruct tk; cbn; [by rewrite app_assoc|]. rewrite Hl by done. by rewrite !app_nil_r.
  - by rewrite app_nil_r.
  - destruct tk; cbn; by rewrite ?app_nil_r.
Qed.
End takable_spec.
Arguments takable_op T : clear implicits.
Arguments TakableLog T : clear implicits.

(** C23. The store refines a log of values that is never taken.  Whatever the
    interleaving of added values, forced into the waiting list or not, with tasks that
    take the content and merge it back: the content is with the store or with
    the task that took it, never both, and is the one obtained by applying the
    values of the log in their order; the waiting list is that of the log;
    applied and waiting are together the added values, none lost and none
    twice.  A value that is forced, or added while the content is taken, waits for
    the next merge; if none is forced, then as soon as the store has its content it has
    all values, in the order they were added, and nothing waits. *)
Theorem takable_refines_content {T C} `{TakableContent T C} (name : Z) (c : C) (ops : list (takable_op T)) :
  let s := foldl takable_step (takable_new name c, None) ops in
  let l := foldl log_step log_new ops in
  updates s.1 = lg_waiting l /\
  (if lg_taken l then content s.1 = None /\ s.2 = Some (foldl content_add_value c (lg_applied l))
   else content s.1 = Some (foldl content_add_value c (lg_applied l)) /\ s.2 = None) /\
  lg_applied l ++ lg_waiting l ≡ₚ added ops /\
  (Forall unforced ops -> is_Some (content s.1) -> content s.1 = Some (foldl content_add_value c (added ops)) /\ updates s.1 = []).
Proof.
  cbn zeta. pose proof (takable_run_abs c ops (takable_new name c, None) log_new ltac:(by split_and!)) as [H1 H2].
  split_and!; [done|done|apply (log_run_perm ops log_new)|]. intros Hu Hc.
  destruct (log_run_order ops Hu log_new ltac:(done)) as [H3 H4]. destruct (lg_taken (foldl log_step log_new ops)).
  - destruct H2 as [H2 _]. rewrite H2 in Hc. by destruct Hc.
  - rewrite H1, H4 by done. split; [|done]. rewrite H4, app_nil_r in H3 by done. rewrite (proj1 H2). do 2 f_equal. exact H3.
Qed.

Definition sample_delegation (voter amount : Z) : Delegation := mkDelegation voter amount 0 10.
Definition sample_stake (pk voter amount slot : Z) : StoredStake :=
  mkStoredStake pk (amount + 5) (sample_delegation voter amount) slot 0.

(** The second stake is of the next epoch: it waits, and counts after the merge. *)
Lemma sample_takable_run :
  let ops := [OpAdd (Notify 1 (sample_stake 1 50 100 1)) false; OpAdd (Notify 9 (sample_stake 2 50 7 9)) true; OpTake; OpAdd (Remove 1 3) false; OpTake] in
  let s := foldl takable_step (takable_new 0 (∅ : StakeMap), None) ops in
  content s.1 = None /\ length (updates s.1) = 2%nat /\
  content (takable_step s OpMerge).1 = Some {[ 2 := sample_stake 2 50 7 9 ]}.
Proof. vm_compute. split_and!; reflexivity. Qed.

(** *** Stored accounts *)

Lemma notify_stake_comm m x y :
  ss_pubkey x <> ss_pubkey y \/ ss_last_update_slot x <> ss_last_update_slot y \/ x = y ->
  notify_stake (notify_stake m x) y = notify_stake (notify_stake m y) x.
Proof.
  intros Hxy. destruct (decide (x = y)) as [->|Hne]; [done|]. unfold notify_stake.
  destruct (decide (ss_pubkey x = ss_pubkey y)) as [Hk|Hk].
  - rewrite Hk. destruct (m !! ss_pubkey y) as [z|] eqn:Hz; repeat (case_match; bool_lia; simplify_map_eq);
      rewrite ?insert_insert_eq; try done; naive_solver lia.
  - destruct (m !! ss_pubkey x) eqn:Hx, (m !! ss_pubkey y) eqn:Hy; repeat (case_match; simplify_map_eq); try done;
      by rewrite insert_insert_ne.
Qed.

(** The order in which the updates of stake accounts arrive does not
    matter, as long as no two different updates of an account carry the same
    slot: for each account the update of the newest slot is kept. *)
Theorem stake_updates_commute (m : StakeMap) (l1 l2 : list StoredStake) :
  l1 ≡ₚ l2 ->
  (forall x y, x ∈ l1 -> y ∈ l1 -> ss_pubkey x = ss_pubkey y -> ss_last_update_slot x = ss_last_update_slot y -> x = y) ->
  foldl process_stake_action m ((fun s => Notify (ss_last_update_slot s) s) <$> l1) =
  foldl process_stake_action m ((fun s => Notify (ss_last_update_slot s) s) <$> l2).
Proof.
  intros Hp Hd. apply foldl_perm; [by rewrite Hp|].
  intros ? ? (x & -> & Hx)%list_elem_of_fmap (y & -> & Hy)%list_elem_of_fmap a. simpl.
  apply notify_stake_comm. destruct (decide (ss_pubkey x = ss_pubkey y)); [|by left].
  destruct (decide (ss_last_update_slot x = ss_last_update_slot y)); [|by right; left]. right; right. by apply Hd.
Qed.

Lemma stake_updates_commute_witness :
  let l := [sample_stake 1 50 100 4; sample_stake 2 50 7 4; sample_stake 1 50 300 9; sample_stake 1 51 200 6] in
  foldl process_stake_action ∅ ((fun s => Notify (ss_last_update_slot s) s) <$> l) =
  foldl process_stake_action ∅ ((fun s => Notify (ss_last_update_slot s) s) <$> reverse l).
Proof.
  intros l. apply stake_updates_commute; [by rewrite reverse_Permutation|].
  intros x y Hx Hy. subst l. rewrite !elem_of_cons, !elem_of_nil in Hx, Hy.
  destruct_or! Hx; destruct_or! Hy; subst; try done.
Defined.

(** *** Epoch stakes *)

(** The stake the stake accounts delegate to a vote account. *)
Definition stake_of {Hist} (sdk : StakeSdk Hist) (epoch : Z) (history : Hist) (rate : option Z) (voter : Pubkey)
    (s : StoredStake) : Z :=
  if decide (voter_pubkey (ss_stake s) = voter) then sdk_delegation_stake sdk (ss_stake s) epoch history rate else 0.

Definition total_delegated {Hist} (sdk : StakeSdk Hist) (stake_map : StakeMap) (epoch : Z) (history : Hist)
    (rate : option Z) (voter : Pubkey) : Z :=
  list_sum (stake_of sdk epoch history rate voter <$> (map_to_list stake_map).*2).

Lemma wrap_add_l a b : wrap_u64 (wrap_u64 a + b) = wrap_u64 (a + b).
Proof. unfold wrap_u64. by rewrite Zplus_mod_idemp_l. Qed.

Lemma delegated_stakes_total {Hist} (sdk : StakeSdk Hist) stake_map epoch history rate voter :
  default 0 (delegated_stakes sdk stake_map epoch history rate !! voter) =
  wrap_u64 (total_delegated sdk stake_map epoch history rate voter).
Proof.
  unfold delegated_stakes. revert voter.
  apply (map_fold_weak_ind (fun r m => forall voter, default 0 (r !! voter) =
    wrap_u64 (total_delegated sdk m epoch history rate voter))).
  - intros voter. by rewrite lookup_empty.
  - intros pk s m r Hpk IH voter. unfold total_delegated.
    erewrite (list_sum_perm (_ <$> (map_to_list (<[pk:=s]> m)).*2)); [|by rewrite map_to_list_insert].
    rewrite !fmap_cons. cbn [list_sum foldr snd]. fold (list_sum (stake_of sdk epoch history rate voter <$> (map_to_list m).*2)).
    fold (total_delegated sdk m epoch history rate voter). unfold stake_of at 1. case_decide as Hv.
    + subst voter. rewrite lookup_insert_eq. simpl. rewrite IH, wrap_add_l. f_equal. lia.
    + by rewrite lookup_insert_ne, IH.
Qed.

(** The entries of the map of vote accounts are stored under their key. *)
Definition votes_keyed (votes : VoteMap) : Prop := map_Forall (fun pk v => sv_pubkey v = pk) votes.

(** The stakes of an epoch: every vote account, and no other, gets the sum
    of what the stake accounts delegate to it at that epoch, in 64 bits; the
    order in which the accounts are visited does not matter. *)
Theorem calculate_epoch_stakes_exact {Hist} (sdk : StakeSdk Hist) (stake_map : StakeMap) (vote_map : VoteMap)
    (epoch : Z) (history : Hist) (rate : option Z) (pk : Pubkey) :
  votes_keyed vote_map ->
  calculate_epoch_stakes sdk stake_map vote_map epoch history rate !! pk =
  (fun v => (wrap_u64 (total_delegated sdk stake_map epoch history rate pk), v)) <$> vote_map !! pk.
Proof.
  unfold calculate_epoch_stakes, votes_keyed. revert pk.
  apply (map_fold_weak_ind (fun r m => forall pk, map_Forall (fun pk v => sv_pubkey v = pk) m -> r !! pk =
    (fun v => (wrap_u64 (total_delegated sdk stake_map epoch history rate pk), v)) <$> m !! pk)).
  - intros pk _. by rewrite !lookup_empty.
  - intros k v m r Hk IH pk Hm. apply map_Forall_insert in Hm as [Hv Hm]; [|done]. subst k.
    destruct (decide (pk = sv_pubkey v)) as [->|Hne].
    + rewrite !lookup_insert_eq. simpl. by rewrite delegated_stakes_total.
    + rewrite !lookup_insert_ne by done. by apply IH.
Qed.

(** An SDK that hands out slots to the largest stakes in turn, reads a stake
    account as voter and amount, a vote account as node and last vote, and
    writes a key in unary. *)
Fixpoint unary (c : Ascii.ascii) (n : nat) : string :=
  match n with 0%nat => EmptyString | S n' => String c (unary c n') end.
Definition letter_n : Ascii.ascii := Ascii.ascii_of_nat 110.
Definition letter_p : Ascii.ascii := Ascii.ascii_of_nat 112.
Definition unary_key (pk : Pubkey) : string :=
  if pk <? 0 then unary letter_n (Z.to_nat (- pk)) else unary letter_p (Z.to_nat pk).
Definition unary_parse (s : string) : Pubkey :=
  match s with
  | String c _ => if Ascii.eqb c letter_n then - Z.of_nat (String.length s) else Z.of_nat (String.length s)
  | EmptyString => 0
  end.

Lemma unary_length c n : String.length (unary c n) = n.
Proof. induction n; simpl; congruence. Qed.

Lemma unary_round_trip pk : unary_parse (unary_key pk) = pk.
Proof.
  unfold unary_key, unary_parse. destruct (pk <? 0) eqn:E; bool_lia.
  - destruct (Z.to_nat (- pk)) as [|n] eqn:En; [lia|]. cbn [unary String.length]. rewrite unary_length. simpl. lia.
  - destruct (Z.to_nat pk) as [|n] eqn:En; [simpl; lia|]. cbn [unary String.length]. rewrite unary_length. simpl. lia.
Qed.

Definition sample_sdk : StakeSdk unit := {|
  sdk_stake_state := fun d => match d with
    | [v; a] => Ok (Stake (sample_delegation v a)) | [_] => Ok Initialized | _ => Err "not a stake" end;
  sdk_vote_state := fun d => match d with
    | [n; v] => Ok (mkVoteState n 0 [v] None []) | _ => Err "not a vote account" end;
  sdk_stake_history := fun d => match d with [] => None | _ => Some tt end;
  sdk_delegation_stake := fun d _ _ _ => delegation_amount d;
  sdk_leader_schedule_new := fun stakes _ slots _ => (fun i => default 0 ((stakes.*1) !! Z.to_nat (i mod Z.of_nat (length stakes)))) <$> seqZ 0 slots;
  sdk_pubkey_of_bytes := fun b => match b with [x] => Some x | _ => None end;
  sdk_pubkey_to_string := unary_key;
  sdk_pubkey_from_str := fun s => Some (unary_parse s);
  sdk_rate_activation_epoch := fun _ => None;
  sdk_stake_program := 1;
  sdk_vote_program := 2;
  sdk_stake_history_id := 3;
  sdk_max_epoch_credits := 5;
  sdk_delinquent_slot_distance := 128;
  sdk_num_consecutive_leader_slots := 4;
|}.

Definition sample_vote (pk node last_vote slot : Z) : StoredVote :=
  mkStoredVote pk (mkVoteState node 0 [last_vote] None []) slot 0.

Lemma calculate_epoch_stakes_exact_witness :
  calculate_epoch_stakes sample_sdk
    {[1 := sample_stake 1 50 100 4; 2 := sample_stake 2 50 7 4; 3 := sample_stake 3 51 9 4]}
    {[50 := sample_vote 50 70 3 3]} 8 tt None !! 50 = Some (107, sample_vote 50 70 3 3).
Proof.
  rewrite calculate_epoch_stakes_exact; [by vm_compute|].
  intros pk v [<- <-]%lookup_singleton_Some. done.
Defined.

(** *** The input of the schedule *)

#[export] Instance stake_order_trans : Transitive stake_order.
Proof. intros [] [] []. unfold stake_order. simpl. lia. Qed.

#[export] Instance stake_order_total : Total stake_order.
Proof. intros [] []. unfold stake_order. simpl. lia. Qed.

Lemma dedup_NoDup l : NoDup l -> dedup l = l.
Proof.
  induction 1 as [|x l Hx Hl IH]; [done|]. destruct l as [|y l]; [done|]. cbn [dedup] in *.
  rewrite decide_False by set_solver. by rewrite IH.
Qed.

Lemma sort_stakes_spec l :
  NoDup l -> StronglySorted stake_order (sort_stakes l) /\ sort_stakes l ≡ₚ l.
Proof.
  intros Hl. unfold sort_stakes. rewrite dedup_NoDup by (by rewrite merge_sort_Permutation).
  split; [|apply merge_sort_Permutation].
  apply StronglySorted_merge_sort; apply _.
Qed.

(** The stake of a node: the non-zero stakes of its vote accounts. *)
Definition node_of (e : Z * StoredVote) : Pubkey := vs_node_pubkey (sv_vote_data e.2).
Definition node_total (l : list (Z * StoredVote)) (node : Pubkey) : Z :=
  list_sum (fst <$> filter (fun e => node_of e = node) l).

Lemma node_stakes_spec l : forall node,
  (is_Some (node_stakes l !! node) <-> exists e, e ∈ l /\ e.1 <> 0 /\ node_of e = node) /\
  default 0 (node_stakes l !! node) = wrap_u64 (node_total l node).
Proof.
  induction l as [|[s v] l IH] using rev_ind; intros node.
  { split; [|done]. unfold node_stakes. simpl. rewrite lookup_empty, is_Some_alt. set_solver. }
  unfold node_stakes. rewrite foldl_app. fold (node_stakes l). simpl. specialize (IH node) as [IH1 IH2].
  unfold node_total. rewrite filter_app, fmap_app. unfold list_sum. rewrite foldr_app.
  assert (forall l a, foldr Z.add a l = list_sum l + a) as Hsum.
  { clear. intros l a. unfold list_sum. induction l; simpl; lia. }
  rewrite filter_cons, filter_nil. unfold node_of at 2.
  setoid_rewrite elem_of_app. setoid_rewrite elem_of_cons. setoid_rewrite elem_of_nil.
  destruct (s =? 0) eqn:Hs; bool_lia; case_decide as Hn; simpl; rewrite Hsum; fold (node_total l node).
  1: subst s. 1: rewrite Z.add_0_r. 2: rewrite Z.add_0_r. 1,2: split; [rewrite IH1; naive_solver|done].
  - simpl in Hn. subst node. rewrite lookup_insert_eq. simpl. split; [split; [intros _; exists (s, v); naive_solver|done]|].
    rewrite IH2, wrap_add_l. f_equal. unfold node_total. lia.
  - rewrite lookup_insert_ne by done. rewrite Z.add_0_r. split; [|done]. rewrite IH1. naive_solver.
Qed.

(** What the leader schedule of an epoch is computed from: the nodes with
    a vote account of non-zero stake, each once with the sum of these stakes
    in 64 bits, largest stake first and ties by the larger key, whatever the
    order the hash maps are visited in, and a seed of 32 bytes that starts
    with the epoch. *)
Theorem leader_schedule_input {Hist} (sdk : StakeSdk Hist) (m : gmap Pubkey (Z * StoredVote)) (epoch slots : Z) :
  exists stakes, calculate_leader_schedule sdk m epoch slots =
      sdk_leader_schedule_new sdk stakes (to_le_bytes epoch ++ replicate 24 0) slots
        (sdk_num_consecutive_leader_slots sdk) /\
    length (to_le_bytes epoch ++ replicate 24 0) = 32%nat /\
    StronglySorted stake_order stakes /\ NoDup stakes.*1 /\
    forall node stake, (node, stake) ∈ stakes <->
      (exists e, e ∈ (map_to_list m).*2 /\ e.1 <> 0 /\ node_of e = node) /\
      stake = wrap_u64 (node_total (map_to_list m).*2 node).
Proof.
  set (l := map_to_list (node_stakes (map_to_list m).*2)).
  destruct (sort_stakes_spec l (NoDup_map_to_list _)) as [Hs Hp].
  exists (sort_stakes l). split_and!; [done| |done| |].
  - by rewrite length_app.
  - rewrite Hp. apply NoDup_fst_map_to_list.
  - intros node stake. rewrite Hp. unfold l. rewrite elem_of_map_to_list.
    destruct (node_stakes_spec (map_to_list m).*2 node) as [H1 H2]. rewrite <- H1, <- H2.
    destruct (node_stakes _ !! node) as [s|]; simpl; [|naive_solver]. naive_solver.
Qed.

(** *** Round trips *)


Lemma group_push_lookup {V} (l : list (string * V)) : forall m k,
  default [] (foldl group_push m l !! k) = default [] (m !! k) ++ (snd <$> filter (fun e => e.1 = k) l).
Proof.
  induction l as [|[k' v] l IH]; intros m k; simpl; [by rewrite app_nil_r|].
  rewrite IH, filter_cons. unfold group_push. simpl. case_decide as Hk.
  - subst k'. rewrite lookup_insert_eq. simpl. by rewrite <- (assoc_L (++)).
  - by rewrite lookup_insert_ne.
Qed.

Lemma bt_foldl_insert_wf {V} (l : list (Z * V)) : forall m, bt_wf m ->
  bt_wf (foldl (fun m e => bt_insert e.1 e.2 m) m l).
Proof. induction l; intros m Hm; simpl; [done|]. apply IHl. by apply bt_wf_insert. Qed.

Lemma bt_foldl_insert_get {V} (l : list (Z * V)) k v :
  (forall k v v', (k, v) ∈ l -> (k, v') ∈ l -> v = v') ->
  bt_get k (foldl (fun m e => bt_insert e.1 e.2 m) [] l) = Some v <-> (k, v) ∈ l.
Proof.
  induction l as [|[k' v'] l IH] using rev_ind; intros Hf; simpl; [set_solver|]. rewrite foldl_app. simpl.
  destruct (decide (k = k')) as [->|Hne].
  - rewrite bt_get_insert_eq, elem_of_app, list_elem_of_singleton. split.
    + intros [= ->]. by right.
    + intros Hv. f_equal. apply (Hf k'); set_solver.
  - rewrite bt_get_insert_ne by done. rewrite IH by (intros k0 v0 v1 ? ?; apply (Hf k0); set_solver). set_solver.
Qed.

Lemma imap_wf {V} (l : list V) : forall n, bt_wf (imap (fun i x => (Z.of_nat (n + i), x)) l).
Proof.
  induction l as [|x l IH]; intros n; [by apply bt_wf_nil|]. cbn [imap]. apply bt_wf_cons. split.
  - assert (imap ((fun i x => (Z.of_nat (n + i), x)) ∘ S) l = imap (fun i x => (Z.of_nat (S n + i), x)) l) as ->; [|apply IH].
    apply imap_ext. intros i y _. simpl. do 2 f_equal. lia.
  - apply Forall_fmap, Forall_forall. intros [k y] (i & z & [= -> ->] & _)%elem_of_lookup_imap_1. simpl. lia.
Qed.

Section round_trips.
Context {Hist : Type} (sdk : StakeSdk Hist).
Context (key_round_trip : forall pk, sdk_pubkey_from_str sdk (sdk_pubkey_to_string sdk pk) = Some pk).

Lemma get_schedule_by_nodes_elem schedule s idxs i :
  get_schedule_by_nodes sdk schedule !! s = Some idxs -> i ∈ idxs ->
  exists n pk, i = Z.of_nat n /\ schedule !! n = Some pk /\ s = sdk_pubkey_to_string sdk pk.
Proof.
  intros Hs Hi. pose proof (group_push_lookup (imap (fun i pk => (sdk_pubkey_to_string sdk pk, Z.of_nat i)) schedule) ∅ s) as H.
  fold (get_schedule_by_nodes sdk schedule) in H. rewrite Hs, lookup_empty in H. simpl in H. subst idxs.
  apply list_elem_of_fmap in Hi as ([s' i'] & -> & [Hk (n & z & E & Hn)%elem_of_lookup_imap_1]%list_elem_of_filter).
  simplify_eq/=. eauto.
Qed.

Lemma get_schedule_by_nodes_all schedule n pk :
  schedule !! n = Some pk -> exists idxs,
    get_schedule_by_nodes sdk schedule !! sdk_pubkey_to_string sdk pk = Some idxs /\ Z.of_nat n ∈ idxs.
Proof.
  intros Hn. pose proof (group_push_lookup (imap (fun i pk => (sdk_pubkey_to_string sdk pk, Z.of_nat i)) schedule) ∅
    (sdk_pubkey_to_string sdk pk)) as H. fold (get_schedule_by_nodes sdk schedule) in H. rewrite lookup_empty in H. simpl in H.
  assert (Z.of_nat n ∈ default [] (get_schedule_by_nodes sdk schedule !! sdk_pubkey_to_string sdk pk)) as Hin.
  { rewrite H. apply list_elem_of_fmap. exists (sdk_pubkey_to_string sdk pk, Z.of_nat n). split; [done|].
    apply list_elem_of_filter. split; [done|].
    apply (elem_of_lookup_imap_2 (fun i pk => (sdk_pubkey_to_string sdk pk, Z.of_nat i)) _ _ _ Hn). }
  destruct (get_schedule_by_nodes sdk schedule !! _) as [idxs|]; [|by apply not_elem_of_nil in Hin]. eauto.
Qed.

(** The indexes of a schedule with their keys parsed. *)
Definition parsed (kvs : list (string * list Z)) : list (Z * Pubkey) :=
  concat (map (fun e => map (fun i => (i, default 0 (sdk_pubkey_from_str sdk e.1))) e.2) kvs).

Lemma parsed_elem kvs i p :
  (i, p) ∈ parsed kvs <-> exists s idxs, (s, idxs) ∈ kvs /\ i ∈ idxs /\ p = default 0 (sdk_pubkey_from_str sdk s).
Proof.
  unfold parsed. rewrite list_elem_of_In, in_concat. setoid_rewrite <- list_elem_of_In. split.
  - intros (l & ([s idxs] & <- & Hin)%list_elem_of_In%in_map_iff & (j & [= <- <-] & Hj)%list_elem_of_In%in_map_iff).
    rewrite <- !list_elem_of_In in *. eauto.
  - intros (s & idxs & Hin & Hi & ->). eexists. split; [apply list_elem_of_fmap; by exists (s, idxs)|].
    apply list_elem_of_fmap. simpl. eauto.
Qed.

Lemma slot_leaders_fold kvs : forall m,
  (forall s idxs i, (s, idxs) ∈ kvs -> i ∈ idxs -> is_Some (sdk_pubkey_from_str sdk s)) ->
  foldl (fun acc '(pk, index_list) =>
    foldl (fun acc index =>
      m ← acc;
      match sdk_pubkey_from_str sdk pk with
      | Some pubkey => Ok (bt_insert index pubkey m)
      | None => Err "Pubkey from leader schedule not a plublic key"
      end) acc index_list) (Ok m) kvs =
  Ok (foldl (fun m e => bt_insert e.1 e.2 m) m (parsed kvs)).
Proof.
  induction kvs as [|[s idxs] kvs IH]; intros m Hp; [done|]. cbn [foldl]. unfold parsed.
  cbn [map concat]. rewrite foldl_app. fold (parsed kvs). cbn [fst snd].
  assert (forall m, foldl (fun acc index => m ← acc;
      match sdk_pubkey_from_str sdk s with
      | Some pubkey => Ok (bt_insert index pubkey m)
      | None => Err "Pubkey from leader schedule not a plublic key"
      end) (Ok m) idxs =
    Ok (foldl (fun m e => bt_insert e.1 e.2 m) m (map (fun i => (i, default 0 (sdk_pubkey_from_str sdk s))) idxs))) as ->.
  { assert (forall i, i ∈ idxs -> is_Some (sdk_pubkey_from_str sdk s)) as Hs by (intros i; apply (Hp s idxs i); left).
    clear -Hs. induction idxs as [|i idxs IH]; intros m; [done|]. cbn [foldl map mbind result_bind].
    destruct (Hs i ltac:(left)) as [p Hsp]. rewrite Hsp in *. apply IH. intros j Hj. apply (Hs j). by right. }
  apply IH. intros s' idxs' i Hin. apply (Hp s' idxs' i). by right.
Qed.

Lemma slot_leaders_of_nodes schedule :
  calculate_slot_leaders_from_schedule sdk (get_schedule_by_nodes sdk schedule) = Ok schedule.
Proof.
  unfold calculate_slot_leaders_from_schedule. set (kvs := map_to_list _).
  assert (forall i p, (i, p) ∈ parsed kvs <-> exists n, i = Z.of_nat n /\ schedule !! n = Some p) as Hpairs.
  { intros i p. rewrite parsed_elem. split.
    - intros (s & idxs & Hin%elem_of_map_to_list & Hi & ->).
      destruct (get_schedule_by_nodes_elem schedule s idxs i Hin Hi) as (n & pk & -> & Hn & ->).
      exists n. rewrite key_round_trip. done.
    - intros (n & -> & Hn). destruct (get_schedule_by_nodes_all schedule n p Hn) as (idxs & Hs & Hi).
      exists (sdk_pubkey_to_string sdk p), idxs. rewrite key_round_trip. split_and!; [by apply elem_of_map_to_list|done..]. }
  rewrite slot_leaders_fold.
  2:{ intros s idxs i Hin%elem_of_map_to_list Hi.
      destruct (get_schedule_by_nodes_elem schedule s idxs i Hin Hi) as (n & pk & _ & _ & ->).
      rewrite key_round_trip. done. }
  cbn [mbind result_bind]. f_equal.
  assert (foldl (fun m e => bt_insert e.1 e.2 m) [] (parsed kvs) = imap (fun i x => (Z.of_nat (0 + i), x)) schedule) as ->.
  { apply bt_wf_ext; [apply bt_foldl_insert_wf, bt_wf_nil|apply imap_wf|]. intros k. apply option_eq. intros p.
    rewrite bt_foldl_insert_get, (bt_get_elem _ _ _ (imap_wf schedule 0)), Hpairs.
    - rewrite elem_of_lookup_imap. naive_solver.
    - intros k' v v'. rewrite !Hpairs. naive_solver lia. }
  rewrite fmap_imap. etrans; [apply (imap_const id)|apply list_fmap_id].
Qed.
End round_trips.

(** A schedule given by slots survives the form the RPC answers have: the
    slots of each node, with the keys as strings, give back the leader of
    every slot in order. *)
Theorem schedule_by_nodes_roundtrip {Hist} (sdk : StakeSdk Hist) (schedule : list Pubkey) :
  (forall pk, sdk_pubkey_from_str sdk (sdk_pubkey_to_string sdk pk) = Some pk) ->
  calculate_slot_leaders_from_schedule sdk (get_schedule_by_nodes sdk schedule) = Ok schedule.
Proof. intros Hk. by apply slot_leaders_of_nodes. Qed.


Lemma schedule_by_nodes_roundtrip_witness :
  calculate_slot_leaders_from_schedule sample_sdk (get_schedule_by_nodes sample_sdk [7; 7; 3; 7; 2]) = Ok [7; 7; 3; 7; 2].
Proof.
  apply schedule_by_nodes_roundtrip. intros pk. cbn [sample_sdk sdk_pubkey_from_str sdk_pubkey_to_string].
  by rewrite unary_round_trip.
Defined.

(** The vote stakes saved for a restart are read back as they were saved. *)
Theorem saved_stakes_roundtrip {Hist} (sdk : StakeSdk Hist) (files : Files) (path : string)
    (m : gmap Pubkey (Z * StoredVote)) (epoch : Z) :
  (forall pk, sdk_pubkey_from_str sdk (sdk_pubkey_to_string sdk pk) = Some pk) ->
  read_schedule_vote_stakes sdk (save_schedule_vote_stakes sdk files path m epoch) path = Done (Ok (epoch, m)).
Proof.
  intros Hk. unfold read_schedule_vote_stakes, save_schedule_vote_stakes. rewrite lookup_insert_eq. cbn [saved_stake_vote_map].
  set (named := (fun e => (sdk_pubkey_to_string sdk e.1, e.2)) <$> map_to_list m).
  assert (NoDup named.*1) as Hnd.
  { unfold named. rewrite <- list_fmap_compose. apply NoDup_fmap_2_strong; [|apply NoDup_map_to_list].
    intros [k1 v1] [k2 v2] H1%elem_of_map_to_list H2%elem_of_map_to_list Heq. simpl in Heq.
    assert (Some k1 = Some k2) as [= ->] by (by rewrite <- !Hk, Heq). by simplify_eq. }
  replace (foldl _ ∅ (map_to_list m)) with (list_to_map named : gmap string (Z * StoredVote)).
  2:{ rewrite <- foldl_insert_list_to_map by done. unfold named. by rewrite foldl_fmap. }
  set (L := map_to_list (list_to_map named : gmap string _)).
  assert (L ≡ₚ named) as HL by (by apply map_to_list_to_map).
  assert (Forall (fun e => is_Some (sdk_pubkey_from_str sdk e.1)) L) as Hall.
  { rewrite HL. unfold named. apply Forall_fmap, Forall_true. intros e. simpl. by rewrite Hk. }
  assert (mapM (fun '(pk, st) => k ← unwrap (sdk_pubkey_from_str sdk pk); Done (k, st)) L =
    Done ((fun e => (default 0 (sdk_pubkey_from_str sdk e.1), e.2)) <$> L)) as ->.
  { clear -Hall. induction Hall as [|[s v] L [k Hs] _ IH]; [done|]. cbn [mapM]. simpl in Hs. rewrite Hs.
    cbn [unwrap mbind outcome_bind]. rewrite IH. cbn [mbind outcome_bind]. rewrite fmap_cons. simpl. by rewrite Hs. }
  cbn [mbind outcome_bind]. do 3 f_equal.
  assert (((fun e => (default 0 (sdk_pubkey_from_str sdk e.1), e.2)) <$> L) ≡ₚ map_to_list m) as Hback.
  { rewrite HL. unfold named. rewrite <- list_fmap_compose.
    rewrite <- (list_fmap_id (map_to_list m)) at 2. erewrite (list_fmap_ext _ id); [done|].
    intros i [k v] _. simpl. by rewrite Hk. }
  rewrite foldl_insert_list_to_map by (rewrite Hback; apply NoDup_fst_map_to_list).
  rewrite (list_to_map_proper (M := gmap Z) _ (map_to_list m)); [apply list_to_map_to_list| |done].
  rewrite Hback. apply NoDup_fst_map_to_list.
Qed.

Lemma saved_stakes_roundtrip_witness :
  read_schedule_vote_stakes sample_sdk
    (save_schedule_vote_stakes sample_sdk ∅ "f" {[50 := (107, sample_vote 50 70 3 3)]} 8) "f" =
  Done (Ok (8, {[50 := (107, sample_vote 50 70 3 3)]})).
Proof.
  apply saved_stakes_roundtrip. intros pk. cbn [sample_sdk sdk_pubkey_from_str sdk_pubkey_to_string].
  by rewrite unary_round_trip.
Defined.

(** The answer to [getVoteAccounts]: every vote account is either current
    or delinquent and reported once, with the stake it has in the epoch,
    except the delinquent ones without stake, which are reported only on
    request. *)
Theorem vote_accounts_partition {Hist} (sdk : StakeSdk Hist) (slot : Slot) (votes : VoteMap)
    (stakes : gmap Pubkey (Z * StoredVote)) (config : GetVoteAccountsConfig) :
  let r := get_rpc_vote_accounts_info sdk slot votes stakes config in
  exists unstaked, rvs_current r ++ rvs_delinquent r ++ unstaked ≡ₚ vote_info sdk stakes <$> (map_to_list votes).*2 /\
    Forall (fun i => is_current slot (default (sdk_delinquent_slot_distance sdk) (va_delinquent_slot_distance config)) i = false /\
              rvi_activated_stake i <= 0) unstaked /\
    (va_keep_unstaked_delinquents config = Some true -> unstaked = []).
Proof.
  cbv zeta. unfold get_rpc_vote_accounts_info. set (distance := default _ _). set (infos := vote_info _ _ <$> _).
  set (delinquent := filter (fun i => is_current slot distance i = false) infos).
  assert (infos ≡ₚ filter (fun i => is_current slot distance i = true) infos ++ delinquent) as Hp.
  { unfold delinquent. clear. induction infos as [|i infos IH]; [done|]. rewrite !filter_cons.
    destruct (is_current slot distance i); simpl; rewrite IH at 1; solve_Permutation. }
  cbn [rvs_current rvs_delinquent].
  destruct (va_keep_unstaked_delinquents config) as [[]|]; simpl.
  1: exists []; by rewrite app_nil_r.
  all: exists (filter (fun i => ~ 0 < rvi_activated_stake i) delinquent); split_and!; [|
    apply Forall_forall; intros i [Hs [Hi _]%list_elem_of_filter]%list_elem_of_filter; split; [done|lia]|done].
  all: rewrite Hp at 2; apply Permutation_app_head; symmetry.
  all: clear; induction delinquent as [|i l IH]; [done|]; rewrite !filter_cons; do 2 case_decide; try lia; simpl;
    rewrite IH at 1; solve_Permutation.
Qed.
