(* ===== verification/StakeLoop.v ===== *)
(** * The stake and vote loop

    stake_vote/src: the epoch change (epoch.rs), the tasks that compute the
    leader schedule (leader_schedule.rs) and load the accounts at start
    (bootstrap.rs), the [getVoteAccounts] requests (rpcrequest.rs) and the loop
    that drives them (lib.rs).

    A spawned task is kept in the state until the loop receives its result;
    the events of a run choose which task finishes when.  A task that waits on
    notifiers may finish at any time, which includes every time the runtime
    would let it finish.  The node's answers and the state of the block store
    at an event are part of the event. *)

From S2P Require Import Prelude BTreeMap Types BlockInfoStore LeaderSchedule DataCache Stakes.

(** ** Epoch changes *)

(** [ScheduleEpochData], stake_vote/src/epoch.rs:6-20. *)
Record ScheduleEpochData (Hist : Type) := mkScheduleEpochData {
  sd_current_epoch : Z;
  sd_slots_in_epoch : Z;
  sd_last_slot_in_epoch : Slot;
  sd_current_confirmed_slot : Slot;
  sd_new_rate_activation_epoch : option Z;
  sd_new_stake_history : option Hist;
  sd_next_epoch_change : option (Z * Slot);
}.
Arguments mkScheduleEpochData {Hist}.
Arguments sd_current_epoch {Hist} s.
Arguments sd_slots_in_epoch {Hist} s.
Arguments sd_last_slot_in_epoch {Hist} s.
Arguments sd_current_confirmed_slot {Hist} s.
Arguments sd_new_rate_activation_epoch {Hist} s.
Arguments sd_new_stake_history {Hist} s.
Arguments sd_next_epoch_change {Hist} s.

(** The fields of [LeaderScheduleEvent::Init], stake_vote/src/leader_schedule.rs:70-70. *)
Record InitArgs (Hist : Type) := mkInit {
  in_new_epoch : Z;
  in_slots_in_epoch : Z;
  in_rate : option Z;
  in_history : Hist;
}.
Arguments mkInit {Hist}.
Arguments in_new_epoch {Hist} i.
Arguments in_slots_in_epoch {Hist} i.
Arguments in_rate {Hist} i.
Arguments in_history {Hist} i.

Section epochs.
Context {Hist : Type}.

(** [ScheduleEpochData::new], stake_vote/src/epoch.rs:23-39. *)
Definition schedule_epoch_new (epoch slots last_slot confirmed_slot : Z) (rate : option Z) : ScheduleEpochData Hist :=
  mkScheduleEpochData epoch slots last_slot confirmed_slot rate None None.

(** [ScheduleEpochData::verify_epoch_change], stake_vote/src/epoch.rs:92-110. *)
Definition verify_epoch_change (s : ScheduleEpochData Hist) : ScheduleEpochData Hist * option (InitArgs Hist) :=
  match sd_new_stake_history s, sd_next_epoch_change s with
  | Some history, Some (next_epoch, last_slot) =>
      (mkScheduleEpochData next_epoch (sd_slots_in_epoch s) last_slot (sd_current_confirmed_slot s)
         (sd_new_rate_activation_epoch s) None None,
       Some (mkInit next_epoch (sd_slots_in_epoch s) (sd_new_rate_activation_epoch s) history))
  | _, _ => (s, None)
  end.

(** [ScheduleEpochData::manage_change_epoch], stake_vote/src/epoch.rs:64-90. *)
Definition manage_change_epoch (es : EpochSchedule) (s : ScheduleEpochData Hist) :
    ScheduleEpochData Hist * option (InitArgs Hist) :=
  if sd_last_slot_in_epoch s <=? sd_current_confirmed_slot s then
    let next_epoch := ep_epoch (get_epoch_at_slot es (sd_last_slot_in_epoch s +64 1)%rpc) in
    let last_slot := es_get_last_slot_in_epoch es next_epoch in
    verify_epoch_change (mkScheduleEpochData (sd_current_epoch s) (sd_slots_in_epoch s) (sd_last_slot_in_epoch s)
      (sd_current_confirmed_slot s) (sd_new_rate_activation_epoch s) (sd_new_stake_history s)
      (Some (next_epoch, last_slot)))
  else (s, None).

(** [ScheduleEpochData::process_new_confirmed_slot], stake_vote/src/epoch.rs:41-53. *)
Definition process_new_confirmed_slot (es : EpochSchedule) (s : ScheduleEpochData Hist) (new_slot : Slot) :
    ScheduleEpochData Hist * option (InitArgs Hist) :=
  if sd_current_confirmed_slot s <? new_slot then
    manage_change_epoch es (mkScheduleEpochData (sd_current_epoch s) (sd_slots_in_epoch s) (sd_last_slot_in_epoch s)
      new_slot (sd_new_rate_activation_epoch s) (sd_new_stake_history s) (sd_next_epoch_change s))
  else (s, None).

(** [ScheduleEpochData::set_epoch_stake_history], stake_vote/src/epoch.rs:55-62. *)
Definition set_epoch_stake_history (s : ScheduleEpochData Hist) (history : Hist) :
    ScheduleEpochData Hist * option (InitArgs Hist) :=
  verify_epoch_change (mkScheduleEpochData (sd_current_epoch s) (sd_slots_in_epoch s) (sd_last_slot_in_epoch s)
    (sd_current_confirmed_slot s) (sd_new_rate_activation_epoch s) (Some history) (sd_next_epoch_change s)).
End epochs.

(** ** The leader schedule tasks *)

(** [LeaderScheduleGeneratedData], stake_vote/src/leader_schedule.rs:22-27. *)
Record LeaderScheduleGeneratedData := mkGenerated {
  lg_schedule : list Pubkey;
  lg_rpc_data : LeaderScheduleData;
  lg_epoch : Z;
}.

(** [LeaderScheduleEvent], stake_vote/src/leader_schedule.rs:68-79. *)
Inductive LeaderScheduleEvent (Hist : Type) :=
| LsInit (i : InitArgs Hist)
| MergeStoreAndSaveSchedule (stakes : StakeMap) (votes : VoteMap) (cache : EpochVoteStakesCache)
    (data : LeaderScheduleGeneratedData) (i : InitArgs Hist).
Arguments LsInit {Hist}.
Arguments MergeStoreAndSaveSchedule {Hist}.

(** A spawned task of the schedule: the computation on the taken stores, or
    the wait for their notifiers. *)
Inductive ScheduleTask (Hist : Type) :=
| LsCompute (i : InitArgs Hist) (stakes : StakeMap) (votes : VoteMap) (cache : EpochVoteStakesCache)
| LsWait (notifiers : list Z) (i : InitArgs Hist).
Arguments LsCompute {Hist}.
Arguments LsWait {Hist}.

(** [LeaderScheduleResult], stake_vote/src/leader_schedule.rs:81-85. *)
Inductive LeaderScheduleResult (Hist : Type) :=
| LsTaskHandle (task : ScheduleTask Hist)
| LsEvent (event : LeaderScheduleEvent Hist)
| LsEnd (data : LeaderScheduleGeneratedData).
Arguments LsTaskHandle {Hist}.
Arguments LsEvent {Hist}.
Arguments LsEnd {Hist}.

(** The paths, stake_vote/src/bootstrap.rs:29-33. *)
Definition CURRENT_EPOCH_VOTE_STAKES_FILE : string := "current_vote_stakes.json".
Definition NEXT_EPOCH_VOTE_STAKES_FILE : string := "next_vote_stakes.json".

Section schedule.
Context {Hist : Type} (sdk : StakeSdk Hist).

Definition rpc_data_of (schedule : list Pubkey) (epoch : Z) : LeaderScheduleData :=
  mkLeaderScheduleData (get_schedule_by_nodes sdk schedule) schedule epoch.

(** The blocking task of
    [process_leadershedule_event], stake_vote/src/leader_schedule.rs:124-195. *)
Definition compute_schedule (files : Files) (i : InitArgs Hist) (stakes : StakeMap) (votes : VoteMap)
    (cache : EpochVoteStakesCache) : LeaderScheduleEvent Hist * Files :=
  let epoch_vote_stakes := calculate_epoch_stakes sdk stakes votes (in_new_epoch i) (in_history i) (in_rate i) in
  let next_epoch := (in_new_epoch i +64 1)%rpc in
  let leader_schedule := calculate_leader_schedule sdk epoch_vote_stakes next_epoch (in_slots_in_epoch i) in
  let renamed := match files !! NEXT_EPOCH_VOTE_STAKES_FILE with
                 | Some f => <[CURRENT_EPOCH_VOTE_STAKES_FILE := f]> (delete NEXT_EPOCH_VOTE_STAKES_FILE files)
                 | None => files
                 end in
  (MergeStoreAndSaveSchedule stakes votes (add_stakes_for_epoch cache (mkEpochVoteStakes epoch_vote_stakes (in_new_epoch i)))
     (mkGenerated leader_schedule (rpc_data_of leader_schedule next_epoch) next_epoch) i,
   save_schedule_vote_stakes sdk renamed NEXT_EPOCH_VOTE_STAKES_FILE epoch_vote_stakes next_epoch).

(** [process_leadershedule_event], stake_vote/src/leader_schedule.rs:107-245. *)
Definition process_leadershedule_event (event : LeaderScheduleEvent Hist) (stakestore : StakeStore) (votestore : VoteStore) :
    outcome (LeaderScheduleResult Hist * StakeStore * VoteStore) :=
  match event with
  | LsInit i =>
      match take_both stakestore votestore with
      | Done (Map (stakes, (votes, cache)), (ss, vs)) => Done (LsTaskHandle (LsCompute i stakes votes cache), ss, vs)
      | Done (Taken notifiers, (ss, vs)) => Done (LsTaskHandle (LsWait notifiers i), ss, vs)
      | Panic => Panic
      end
  | MergeStoreAndSaveSchedule stakes votes cache data i =>
      match merge stakestore stakes, merge votestore (votes, cache) with
      | Ok ss, Ok vs => Done (LsEnd data, ss, vs)
      | rs, rv => Done (LsEvent (LsInit i), match rs with Ok ss => ss | Err _ => stakestore end,
                        match rv with Ok vs => vs | Err _ => votestore end)
      end
  end.

(** [run_leader_schedule_events], stake_vote/src/leader_schedule.rs:87-105: the generated
    schedule, if any, the tasks and the stores.  An event leads to at most one
    further event, so two rounds are enough. *)
Fixpoint run_leader_schedule_events (fuel : nat) (event : LeaderScheduleEvent Hist) (tasks : list (ScheduleTask Hist))
    (stakestore : StakeStore) (votestore : VoteStore) :
    outcome (option LeaderScheduleGeneratedData * list (ScheduleTask Hist) * StakeStore * VoteStore) :=
  match fuel with
  | 0%nat => Panic
  | S fuel' =>
      match process_leadershedule_event event stakestore votestore with
      | Done (LsTaskHandle task, ss, vs) => Done (None, tasks ++ [task], ss, vs)
      | Done (LsEvent event', ss, vs) => run_leader_schedule_events fuel' event' tasks ss vs
      | Done (LsEnd data, ss, vs) => Done (Some data, tasks, ss, vs)
      | Panic => Panic
      end
  end.

(** The event a task of the schedule ends with. *)
Definition schedule_task_result (files : Files) (t : ScheduleTask Hist) : LeaderScheduleEvent Hist * Files :=
  match t with
  | LsCompute i stakes votes cache => compute_schedule files i stakes votes cache
  | LsWait _ i => (LsInit i, files)
  end.
End schedule.

(** ** Loading the accounts at start *)

(** What the node answers at some moment. *)
Record NodeAnswers := mkNodeAnswers {
  na_stakes : result string (list (Pubkey * ProgramAccount));
  na_votes : result string (list (Pubkey * ProgramAccount));
  na_history : result string ProgramAccount;
  na_epoch_info : result string EpochInfo;
  na_leader_schedule : option Slot -> result string (option (gmap string (list Z)));
}.

(** The schedule and vote accounts a start ends with. *)
Abbreviation BootResult := (result string (CalculatedSchedule * RpcVoteAccountStatus)).

(** [BootstrapEvent], stake_vote/src/bootstrap.rs:184-212. *)
Inductive BootstrapEvent :=
| InitBootstrap (sleep_time : Z) (rpc_url : string)
| BootstrapAccountsFetched (stakes votes : list (Pubkey * ProgramAccount)) (history : ProgramAccount) (rpc_url : string)
| StoreExtracted (stake_map : StakeMap) (vote_map : VoteMap) (cache : EpochVoteStakesCache)
    (stakes votes : list (Pubkey * ProgramAccount)) (history : ProgramAccount) (rpc_url : string)
| AccountsMerged (stake_map : StakeMap) (vote_map : VoteMap) (cache : EpochVoteStakesCache) (rpc_url : string)
    (leader_schedule_result : BootResult)
| BootExit.

(** A spawned task of the start: one that yields its event at once, the fetch
    of the accounts, the wait for the stores, the merge of the accounts into
    the taken stores for an epoch. *)
Inductive BootTask :=
| BtReady (event : BootstrapEvent)
| BtFetch (rpc_url : string)
| BtWait (notifiers : list Z) (event : BootstrapEvent)
| BtMerge (stake_map : StakeMap) (vote_map : VoteMap) (cache : EpochVoteStakesCache)
    (stakes votes : list (Pubkey * ProgramAccount)) (rpc_url : string) (current_epoch_of_loading slots_in_epoch : Z).

(** [BootsrapProcessResult], stake_vote/src/bootstrap.rs:214-220. *)
Inductive BootProcessResult :=
| BrTaskHandle (task : BootTask)
| BrEvent (event : BootstrapEvent)
| BrError (e : string)
| BrEnd (leader_schedule_result : BootResult).

Section bootstrap.
Context {Hist : Type} (sdk : StakeSdk Hist).

(** [bootstrap_current_leader_schedule], stake_vote/src/bootstrap.rs:441-501. *)
Definition bootstrap_current_leader_schedule (files : Files) (current_epoch_of_loading slots_in_epoch : Z) :
    outcome (result string (CalculatedSchedule * EpochVoteStakes * EpochVoteStakes)) :=
  match read_schedule_vote_stakes sdk files CURRENT_EPOCH_VOTE_STAKES_FILE with
  | Panic => Panic
  | Done (Err e) => Done (Err e)
  | Done (Ok (current_epoch, current_epoch_stakes)) =>
      match read_schedule_vote_stakes sdk files NEXT_EPOCH_VOTE_STAKES_FILE with
      | Panic => Panic
      | Done (Err e) => Done (Err e)
      | Done (Ok (next_epoch, next_epoch_stakes)) =>
          if current_epoch_of_loading =? current_epoch then
            let current_schedule := calculate_leader_schedule sdk current_epoch_stakes current_epoch slots_in_epoch in
            let next_schedule := calculate_leader_schedule sdk next_epoch_stakes next_epoch slots_in_epoch in
            Done (Ok (mkCalculatedSchedule (Some (rpc_data_of sdk current_schedule current_epoch))
                        (Some (rpc_data_of sdk next_schedule next_epoch)),
                      mkEpochVoteStakes current_epoch_stakes current_epoch,
                      mkEpochVoteStakes next_epoch_stakes next_epoch))
          else Done (Err "Current epoch bootstrap file doesn't correspond to the validator current epoch.")
      end
  end.

(** [bootstrap_leaderschedule_from_files], stake_vote/src/bootstrap.rs:51-65. *)
Definition bootstrap_leaderschedule_from_files (files : Files) (current_epoch_of_loading slots_in_epoch : Z) :
    outcome (option (CalculatedSchedule * RpcVoteAccountStatus)) :=
  r ← bootstrap_current_leader_schedule files slots_in_epoch current_epoch_of_loading;
  Done match r with
       | Ok (leader_schedule, current_epoch_stakes, _) =>
           Some (leader_schedule, get_rpc_vote_account_info_from_current_epoch_stakes sdk current_epoch_stakes)
       | Err _ => None
       end.

(** [bootstrap_leaderschedule_from_rpc], stake_vote/src/bootstrap.rs:67-122. *)
Definition bootstrap_leaderschedule_from_rpc (node : NodeAnswers) (es : EpochSchedule) : result string CalculatedSchedule :=
  current_epoch ← na_epoch_info node;
  current_opt ← na_leader_schedule node None;
  current_by_node ← match current_opt with Some m => Ok m | None => Err "RPC return no leader schedule" end;
  current_by_slot ← calculate_slot_leaders_from_schedule sdk current_by_node;
  let next_epoch := (ei_epoch current_epoch +64 1)%rpc in
  next_opt ← na_leader_schedule node (Some (es_get_first_slot_in_epoch es next_epoch));
  next_by_node ← match next_opt with Some m => Ok m | None => Err "RPC return no leader schedule" end;
  next_by_slot ← calculate_slot_leaders_from_schedule sdk next_by_node;
  Ok (mkCalculatedSchedule (Some (mkLeaderScheduleData current_by_node current_by_slot (ei_epoch current_epoch)))
        (Some (mkLeaderScheduleData next_by_node next_by_slot next_epoch))).

(** [bootstrap_accounts], stake_vote/src/bootstrap.rs:371-413. *)
Definition bootstrap_accounts (node : NodeAnswers) :
    result string (list (Pubkey * ProgramAccount) * list (Pubkey * ProgramAccount) * ProgramAccount) :=
  stakes ← na_stakes node; votes ← na_votes node; history ← na_history node; Ok (stakes, votes, history).

(** The blocking task of
    [process_bootstrap_event] on extracted stores, stake_vote/src/bootstrap.rs:300-342. *)
Definition merge_accounts (files : Files) (stake_map : StakeMap) (vote_map : VoteMap) (cache : EpochVoteStakesCache)
    (stakes votes : list (Pubkey * ProgramAccount)) (rpc_url : string) (current_epoch_of_loading slots_in_epoch : Z) :
    outcome BootstrapEvent :=
  let stake_map' := merge_program_account_in_strake_map sdk stake_map stakes 0 in
  let vote_map' := merge_program_account_in_vote_map sdk vote_map votes 0 in
  r ← bootstrap_current_leader_schedule files current_epoch_of_loading slots_in_epoch;
  Done match r with
       | Ok (leader_schedule, current_epoch_stakes, next_epoch_stakes) =>
           AccountsMerged stake_map' vote_map'
             (add_stakes_for_epoch (add_stakes_for_epoch cache current_epoch_stakes) next_epoch_stakes) rpc_url
             (Ok (leader_schedule, get_rpc_vote_account_info_from_current_epoch_stakes sdk current_epoch_stakes))
       | Err e => AccountsMerged stake_map' vote_map' cache rpc_url (Err e)
       end.

(** The event a task of the start ends with: the fetch,
    [process_bootstrap_event], stake_vote/src/bootstrap.rs:234-249, and the others. *)
Definition boot_task_result (files : Files) (node : NodeAnswers) (t : BootTask) : outcome BootstrapEvent :=
  match t with
  | BtReady e | BtWait _ e => Done e
  | BtFetch rpc_url =>
      Done match bootstrap_accounts node with
           | Ok (stakes, votes, history) => BootstrapAccountsFetched stakes votes history rpc_url
           | Err _ => BootExit
           end
  | BtMerge sm vm cache stakes votes rpc_url epoch slots => merge_accounts files sm vm cache stakes votes rpc_url epoch slots
  end.

(** [process_bootstrap_event], stake_vote/src/bootstrap.rs:222-369. *)
Definition process_bootstrap_event (event : BootstrapEvent) (stakestore : StakeStore) (votestore : VoteStore)
    (slots_in_epoch current_epoch_of_loading : Z) : outcome (BootProcessResult * StakeStore * VoteStore) :=
  match event with
  | InitBootstrap _ rpc_url => Done (BrTaskHandle (BtFetch rpc_url), stakestore, votestore)
  | BootstrapAccountsFetched stakes votes history rpc_url =>
      match take_both stakestore votestore with
      | Done (Map (stake_map, (vote_map, cache)), (ss, vs)) =>
          Done (BrEvent (StoreExtracted stake_map vote_map cache stakes votes history rpc_url), ss, vs)
      | Done (Taken notifiers, (ss, vs)) => Done (BrTaskHandle (BtWait notifiers event), ss, vs)
      | Panic => Panic
      end
  | StoreExtracted stake_map vote_map cache stakes votes history rpc_url =>
      match sdk_stake_history sdk (pa_data history) with
      | None => Done (BrError "Bootstrap error, can't read stake blockstore from account data.", stakestore, votestore)
      | Some _ => Done (BrTaskHandle (BtMerge stake_map vote_map cache stakes votes rpc_url current_epoch_of_loading
                                        slots_in_epoch), stakestore, votestore)
      end
  | AccountsMerged stake_map vote_map cache rpc_url leader_schedule_result =>
      match merge stakestore stake_map, merge votestore (vote_map, cache) with
      | Ok ss, Ok vs => Done (BrEnd leader_schedule_result, ss, vs)
      | rs, rv => Done (BrEvent (InitBootstrap 10 rpc_url), match rs with Ok ss => ss | Err _ => stakestore end,
                        match rv with Ok vs => vs | Err _ => votestore end)
      end
  | BootExit => Panic
  end.

(** [run_bootstrap_events], stake_vote/src/bootstrap.rs:151-182; as for the schedule, two
    rounds are enough. *)
Fixpoint run_bootstrap_events (fuel : nat) (event : BootstrapEvent) (tasks : list BootTask) (stakestore : StakeStore)
    (votestore : VoteStore) (slots_in_epoch current_epoch_of_loading : Z) :
    outcome (result string (option BootResult) * list BootTask * StakeStore * VoteStore) :=
  match fuel with
  | 0%nat => Panic
  | S fuel' =>
      match process_bootstrap_event event stakestore votestore slots_in_epoch current_epoch_of_loading with
      | Done (BrTaskHandle task, ss, vs) => Done (Ok None, tasks ++ [task], ss, vs)
      | Done (BrEvent event', ss, vs) => run_bootstrap_events fuel' event' tasks ss vs slots_in_epoch current_epoch_of_loading
      | Done (BrEnd r, ss, vs) => Done (Ok (Some r), tasks, ss, vs)
      | Done (BrError e, ss, vs) => Done (Err e, tasks, ss, vs)
      | Panic => Panic
      end
  end.
End bootstrap.

(** ** Requests for the vote accounts *)

(** A task that computes an answer on the taken vote accounts. *)
Record RpcExecTask := mkExecTask {
  ex_votes : VoteMap;
  ex_cache : EpochVoteStakesCache;
  ex_slot : Slot;
  ex_epoch : Z;
  ex_config : GetVoteAccountsConfig;
}.

(** [RpcRequestData], stake_vote/src/rpcrequest.rs:13-27; a return channel is its name. *)
Record RpcRequestData := mkRpcRequestData {
  rpc_notify_task : list (list Z * (Slot * Z * GetVoteAccountsConfig));
  rpc_exec_task : list RpcExecTask;
  pending_rpc_request : option (list Z);
}.

Section requests.
Context {Hist : Type} (sdk : StakeSdk Hist).

(** [RpcRequestData::take_vote_accounts_and_process], stake_vote/src/rpcrequest.rs:76-119, with
    [wait_for_merge_or_get_content] of utils.rs. *)
Definition take_vote_accounts_and_process (r : RpcRequestData) (votestore : VoteStore) (current_slot : Slot) (epoch : Z)
    (config : GetVoteAccountsConfig) : RpcRequestData * VoteStore :=
  match take_map votestore with
  | (Map (votes, cache), vs) =>
      (mkRpcRequestData (rpc_notify_task r) (rpc_exec_task r ++ [mkExecTask votes cache current_slot epoch config])
         (pending_rpc_request r), vs)
  | (Taken notifiers, vs) =>
      (mkRpcRequestData (rpc_notify_task r ++ [(notifiers, (current_slot, epoch, config))]) (rpc_exec_task r)
         (pending_rpc_request r), vs)
  end.

(** [RpcRequestData::process_get_vote_accounts], stake_vote/src/rpcrequest.rs:29-45. *)
Definition process_get_vote_accounts (r : RpcRequestData) (current_slot : Slot) (epoch : Z) (config : GetVoteAccountsConfig)
    (return_channel : Z) (votestore : VoteStore) : RpcRequestData * VoteStore :=
  let pending := match pending_rpc_request r with Some l => l ++ [return_channel] | None => [return_channel] end in
  take_vote_accounts_and_process (mkRpcRequestData (rpc_notify_task r) (rpc_exec_task r) (Some pending))
    votestore current_slot epoch config.

(** The answer of the blocking task of
    [RpcRequestData::take_vote_accounts_and_process], stake_vote/src/rpcrequest.rs:93-116. *)
Definition exec_answer (t : RpcExecTask) : RpcVoteAccountStatus :=
  match ex_cache t !! ex_epoch t with
  | Some stakes => get_rpc_vote_accounts_info sdk (ex_slot t) (ex_votes t) (evs_vote_stakes stakes) (ex_config t)
  | None => mkRpcVoteAccountStatus [] []
  end.

(** [RpcRequestData::notify_end_rpc_get_vote_accounts], stake_vote/src/rpcrequest.rs:46-74. *)
Definition notify_end_rpc_get_vote_accounts (r : RpcRequestData) (votes : VoteMap) (cache : EpochVoteStakesCache)
    (answer : RpcVoteAccountStatus) (votestore : VoteStore) :
    outcome (RpcRequestData * VoteStore * list (Z * RpcVoteAccountStatus)) :=
  let vs := match merge votestore (votes, cache) with Ok vs => vs | Err _ => votestore end in
  match pending_rpc_request r with
  | Some pending =>
      let n := (length pending - 1)%nat in
      let first := if bool_decide (1 < length pending)%nat then take n pending else [] in
      let rest := if bool_decide (1 < length pending)%nat then drop n pending else pending in
      last_channel ← unwrap (last rest);
      Done (mkRpcRequestData (rpc_notify_task r) (rpc_exec_task r) None, vs,
            ((fun c => (c, answer)) <$> first) ++ [(last_channel, answer)])
  | None => Done (r, vs, [])
  end.
End requests.

(** ** The loop *)

(** The variables of [start_stakes_and_votes_loop], stake_vote/src/lib.rs:96-124. *)
Record LoopState (Hist : Type) := mkLoopState {
  st_cache : DataCache;
  st_stakes : StakeStore;
  st_votes : VoteStore;
  st_epoch : ScheduleEpochData Hist;
  st_schedule_tasks : list (ScheduleTask Hist);
  st_boot_tasks : list BootTask;
  st_rpc : RpcRequestData;
  st_bootstrap_done : bool;
  st_files : Files;
  st_running : bool;
}.
Arguments mkLoopState {Hist}.
Arguments st_cache {Hist} l.
Arguments st_stakes {Hist} l.
Arguments st_votes {Hist} l.
Arguments st_epoch {Hist} l.
Arguments st_schedule_tasks {Hist} l.
Arguments st_boot_tasks {Hist} l.
Arguments st_rpc {Hist} l.
Arguments st_bootstrap_done {Hist} l.
Arguments st_files {Hist} l.
Arguments st_running {Hist} l.

(** What the loop receives: the block store has moved on, a slot, a request on
    a channel, the end of a task, an update of the stake history account, of
    an account, or the end of a stream. *)
Inductive LoopEvent :=
| EvBlocks (blocks : BlockInformationStore)
| EvSlot
| EvRequest (config : GetVoteAccountsConfig) (return_channel : Z)
| EvExecDone (i : nat)
| EvNotifyDone (i : nat)
| EvHistoryAccount (account : option GeyserAccount)
| EvAccount (account : SubscribeUpdateAccount)
| EvBootDone (i : nat) (node : NodeAnswers)
| EvScheduleDone (i : nat)
| EvStreamClosed.

Definition set_leader_schedule (d : DataCache) (s : CalculatedSchedule) : DataCache :=
  mkDataCache (block_information_store d) (txs d) (tx_subs d) (slot_cache d) (identity_stakes d) (cluster_info d)
    (epoch_data d) s.

(** [get_current_confirmed_slot], core/src/solana_utils.rs:39-46. *)
Definition get_current_confirmed_slot (d : DataCache) : Slot :=
  binf_slot (get_latest_block_information (block_information_store d) cc_confirmed).

Section setters.
Context {Hist : Type}.
Implicit Type st : LoopState Hist.

Definition with_stores st ss vs := mkLoopState (st_cache st) ss vs (st_epoch st) (st_schedule_tasks st) (st_boot_tasks st)
  (st_rpc st) (st_bootstrap_done st) (st_files st) (st_running st).
Definition with_epoch st e := mkLoopState (st_cache st) (st_stakes st) (st_votes st) e (st_schedule_tasks st)
  (st_boot_tasks st) (st_rpc st) (st_bootstrap_done st) (st_files st) (st_running st).
Definition with_schedule_tasks st l := mkLoopState (st_cache st) (st_stakes st) (st_votes st) (st_epoch st) l
  (st_boot_tasks st) (st_rpc st) (st_bootstrap_done st) (st_files st) (st_running st).
Definition with_boot_tasks st l := mkLoopState (st_cache st) (st_stakes st) (st_votes st) (st_epoch st)
  (st_schedule_tasks st) l (st_rpc st) (st_bootstrap_done st) (st_files st) (st_running st).
Definition with_rpc st r := mkLoopState (st_cache st) (st_stakes st) (st_votes st) (st_epoch st) (st_schedule_tasks st)
  (st_boot_tasks st) r (st_bootstrap_done st) (st_files st) (st_running st).
Definition with_cache st d := mkLoopState d (st_stakes st) (st_votes st) (st_epoch st) (st_schedule_tasks st)
  (st_boot_tasks st) (st_rpc st) (st_bootstrap_done st) (st_files st) (st_running st).
Definition with_done st := mkLoopState (st_cache st) (st_stakes st) (st_votes st) (st_epoch st) (st_schedule_tasks st)
  (st_boot_tasks st) (st_rpc st) true (st_files st) (st_running st).
Definition with_files st f := mkLoopState (st_cache st) (st_stakes st) (st_votes st) (st_epoch st) (st_schedule_tasks st)
  (st_boot_tasks st) (st_rpc st) (st_bootstrap_done st) f (st_running st).
Definition stopped st := mkLoopState (st_cache st) (st_stakes st) (st_votes st) (st_epoch st) (st_schedule_tasks st)
  (st_boot_tasks st) (st_rpc st) (st_bootstrap_done st) (st_files st) false.
End setters.

Section loop.
Context {Hist : Type} (sdk : StakeSdk Hist) (identity : string).

(** [bootstrap_schedule_epoch_data], stake_vote/src/bootstrap.rs:35-49. *)
Definition bootstrap_schedule_epoch_data (d : DataCache) : ScheduleEpochData Hist :=
  let e := get_current_epoch d cc_confirmed in
  schedule_epoch_new (ep_epoch e) (ep_slots_in_epoch e) (es_get_last_slot_in_epoch (epoch_data d) (ep_epoch e))
    (ep_absolute_slot e) (sdk_rate_activation_epoch sdk (epoch_data d)).

(** What a subscription of the loop asks the geyser for: accounts, and accounts
    of owners. *)
Record GeyserFilter := mkGeyserFilter { gf_account : list Pubkey; gf_owner : list Pubkey }.

(** [subscribe_geyser_stake_vote_owner], stake_vote/src/lib.rs:337-372; the programs are the SDK's. *)
Definition subscribe_geyser_stake_vote_owner (stake_program vote_program : Pubkey) : gmap string GeyserFilter :=
  {[ "stake_vote"%string := mkGeyserFilter [] [stake_program; vote_program] ]}.

(** [subscribe_geyser_stake_history], stake_vote/src/lib.rs:374-406. *)
Definition subscribe_geyser_stake_history (stake_history : Pubkey) : gmap string GeyserFilter :=
  {[ "stake_history"%string := mkGeyserFilter [stake_history] [] ]}.

(** The subscriptions before the loop, [start_stakes_and_votes_loop], stake_vote/src/lib.rs:82-95:
    one that fails ends the call. *)
Definition subscribe_streams (subscribe : gmap string GeyserFilter -> result string Z) (stake_program vote_program stake_history : Pubkey) :
    result string (Z * Z) :=
  accounts ← subscribe (subscribe_geyser_stake_vote_owner stake_program vote_program);
  history ← subscribe (subscribe_geyser_stake_history stake_history);
  Ok (accounts, history).

(** The loop's state at its start: [start_stakes_and_votes_loop], stake_vote/src/lib.rs:96-124. *)
Definition loop_new (d : DataCache) (files : Files) (rpc_url : string) : LoopState Hist :=
  mkLoopState d (takable_new 0 ∅) (takable_new 1 (∅, ∅)) (bootstrap_schedule_epoch_data d) []
    [BtReady (InitBootstrap 1 rpc_url)] (mkRpcRequestData [] [] None) false files true.

(** [bootstrat_literpc_leader_schedule], stake_vote/src/lib.rs:40-80; [slots_per_epoch] is the
    field of the SDK's epoch schedule. *)
Definition bootstrat_literpc_leader_schedule (d : DataCache) (files : Files) (node : NodeAnswers)
    (slots_per_epoch current_epoch_of_loading : Z) : outcome DataCache :=
  r ← bootstrap_leaderschedule_from_files sdk files current_epoch_of_loading slots_per_epoch;
  Done match r with
       | Some (schedule, vote_stakes) =>
           set_leader_schedule (set_stakes d (update_stakes_for_identity identity (identity_stakes d) vote_stakes)) schedule
       | None =>
           match bootstrap_leaderschedule_from_rpc sdk node (epoch_data d) with
           | Ok schedule => set_leader_schedule d schedule
           | Err _ => d
           end
       end.

(** Running the events of an epoch change, when the start is over:
    [start_stakes_and_votes_loop], stake_vote/src/lib.rs:132-151, and the same for the stake
    history. *)
Definition epoch_changed (st : LoopState Hist) (change : ScheduleEpochData Hist * option (InitArgs Hist)) :
    outcome (LoopState Hist) :=
  let st1 := with_epoch st change.1 in
  match (if st_bootstrap_done st then change.2 else None) with
  | Some i =>
      match run_leader_schedule_events 2 (LsInit i) (st_schedule_tasks st) (st_stakes st) (st_votes st) with
      | Done (_, tasks, ss, vs) => Done (with_schedule_tasks (with_stores st1 ss vs) tasks)
      | Panic => Panic
      end
  | None => Done st1
  end.

(** A request: [start_stakes_and_votes_loop], stake_vote/src/lib.rs:157-166. *)
Definition request_step (st : LoopState Hist) (config : GetVoteAccountsConfig) (return_channel : Z) : LoopState Hist :=
  let commitment := default cc_confirmed (va_commitment config) in
  let slot := binf_slot (get_latest_block_information (block_information_store (st_cache st)) commitment) in
  let epoch := ep_epoch (get_current_epoch (st_cache st) commitment) in
  let '(r, vs) := process_get_vote_accounts (st_rpc st) slot epoch config return_channel (st_votes st) in
  with_rpc (with_stores st (st_stakes st) vs) r.

(** The end of an answer: [start_stakes_and_votes_loop], stake_vote/src/lib.rs:167-175. *)
Definition exec_step (st : LoopState Hist) (i : nat) : outcome (LoopState Hist * list (Z * RpcVoteAccountStatus)) :=
  match rpc_exec_task (st_rpc st) !! i with
  | Some t =>
      let r := mkRpcRequestData (rpc_notify_task (st_rpc st)) (delete i (rpc_exec_task (st_rpc st)))
                 (pending_rpc_request (st_rpc st)) in
      match notify_end_rpc_get_vote_accounts r (ex_votes t) (ex_cache t) (exec_answer sdk t) (st_votes st) with
      | Done (r', vs, answers) => Done (with_rpc (with_stores st (st_stakes st) vs) r', answers)
      | Panic => Panic
      end
  | None => Done (st, [])
  end.

(** The end of a wait: [start_stakes_and_votes_loop], stake_vote/src/lib.rs:176-179. *)
Definition notify_step (st : LoopState Hist) (i : nat) : LoopState Hist :=
  match rpc_notify_task (st_rpc st) !! i with
  | Some (_, (slot, epoch, config)) =>
      let r := mkRpcRequestData (delete i (rpc_notify_task (st_rpc st))) (rpc_exec_task (st_rpc st))
                 (pending_rpc_request (st_rpc st)) in
      let '(r', vs) := take_vote_accounts_and_process r (st_votes st) slot epoch config in
      with_rpc (with_stores st (st_stakes st) vs) r'
  | None => st
  end.

(** The stake history: [start_stakes_and_votes_loop], stake_vote/src/lib.rs:180-208. *)
Definition history_step (st : LoopState Hist) (account : option GeyserAccount) : outcome (LoopState Hist) :=
  match account with
  | None => Done st
  | Some account =>
      acc_id ← unwrap (sdk_pubkey_of_bytes sdk (ga_pubkey account));
      if acc_id =? sdk_stake_history_id sdk then
        match sdk_stake_history sdk (ga_data account) with
        | Some history => epoch_changed st (set_epoch_stake_history (st_epoch st) history)
        | None => Done st
        end
      else Done st
  end.

(** An account: [start_stakes_and_votes_loop], stake_vote/src/lib.rs:226-263. *)
Definition account_step (st : LoopState Hist) (update : SubscribeUpdateAccount) : outcome (LoopState Hist) :=
  o ← new_from_geyser sdk update;
  Done match o with
       | None => st
       | Some account =>
           if ap_owner account =? sdk_stake_program sdk then
             match notify_stake_change sdk (st_stakes st) account (sd_last_slot_in_epoch (st_epoch st)) with
             | Ok ss => with_stores st ss (st_votes st)
             | Err _ => st
             end
           else if ap_owner account =? sdk_vote_program sdk then
             match notify_vote_change sdk (st_votes st) account (sd_last_slot_in_epoch (st_epoch st)) with
             | Ok vs => with_stores st (st_stakes st) vs
             | Err _ => st
             end
           else st
       end.

(** An event of the start: [start_stakes_and_votes_loop], stake_vote/src/lib.rs:289-311. *)
Definition boot_event_step (st : LoopState Hist) (tasks : list BootTask) (event : BootstrapEvent) :
    outcome (LoopState Hist) :=
  match run_bootstrap_events sdk 2 event tasks (st_stakes st) (st_votes st)
          (sd_slots_in_epoch (st_epoch st)) (sd_current_epoch (st_epoch st)) with
  | Panic => Panic
  | Done (r, tasks', ss, vs) =>
      let st1 := with_boot_tasks (with_stores st ss vs) tasks' in
      Done match r with
           | Ok (Some boot_res) =>
               let d := st_cache st1 in
               let d' := match boot_res with
                         | Ok (schedule, vote_stakes) =>
                             set_leader_schedule (set_stakes d
                               (update_stakes_for_identity identity (identity_stakes d) vote_stakes)) schedule
                         | Err _ => d
                         end in
               with_done (with_epoch (with_cache st1 d') (bootstrap_schedule_epoch_data d'))
           | _ => st1
           end
  end.

(** The end of a task of the start: [start_stakes_and_votes_loop], stake_vote/src/lib.rs:287-312.
    A task that panics is gone. *)
Definition boot_step (st : LoopState Hist) (i : nat) (node : NodeAnswers) : outcome (LoopState Hist) :=
  match st_boot_tasks st !! i with
  | None => Done st
  | Some t =>
      let tasks := delete i (st_boot_tasks st) in
      match boot_task_result sdk (st_files st) node t with
      | Panic => Done (with_boot_tasks st tasks)
      | Done event => boot_event_step st tasks event
      end
  end.

(** The schedule: [start_stakes_and_votes_loop], stake_vote/src/lib.rs:313-330. *)
Definition schedule_step (st : LoopState Hist) (i : nat) : outcome (LoopState Hist) :=
  match st_schedule_tasks st !! i with
  | None => Done st
  | Some t =>
      let '(event, files) := schedule_task_result sdk (st_files st) t in
      match run_leader_schedule_events 2 event (delete i (st_schedule_tasks st)) (st_stakes st) (st_votes st) with
      | Panic => Panic
      | Done (data, tasks, ss, vs) =>
          let st1 := with_files (with_schedule_tasks (with_stores st ss vs) tasks) files in
          Done match data with
               | Some new => with_cache st1 (set_leader_schedule (st_cache st1)
                               (mkCalculatedSchedule (cs_next (leader_schedule (st_cache st1))) (Some (lg_rpc_data new))))
               | None => st1
               end
      end
  end.

(** One turn of [start_stakes_and_votes_loop], stake_vote/src/lib.rs:126-332, with the answers
    it sends. *)
Definition loop_step (st : LoopState Hist) (ev : LoopEvent) :
    outcome (LoopState Hist * list (Z * RpcVoteAccountStatus)) :=
  if st_running st then
    match ev with
    | EvBlocks blocks => Done (with_cache st (set_bis (st_cache st) blocks), [])
    | EvSlot =>
        st' ← epoch_changed st (process_new_confirmed_slot (epoch_data (st_cache st)) (st_epoch st)
                                  (get_current_confirmed_slot (st_cache st)));
        Done (st', [])
    | EvRequest config return_channel => Done (request_step st config return_channel, [])
    | EvExecDone i => exec_step st i
    | EvNotifyDone i => Done (notify_step st i, [])
    | EvHistoryAccount account => st' ← history_step st account; Done (st', [])
    | EvAccount update => st' ← account_step st update; Done (st', [])
    | EvBootDone i node => st' ← boot_step st i node; Done (st', [])
    | EvScheduleDone i => st' ← schedule_step st i; Done (st', [])
    | EvStreamClosed => Done (stopped st, [])
    end
  else Done (st, []).
End loop.

(** ** Who has the content of the stores *)

Definition computing {Hist} (t : ScheduleTask Hist) : bool := match t with LsCompute _ _ _ _ => true | LsWait _ _ => false end.
Definition merging (t : BootTask) : bool := match t with BtMerge _ _ _ _ _ _ _ _ => true | _ => false end.
Definition count {A} (f : A -> bool) (l : list A) : nat := length (filter (fun x => f x = true) l).

Lemma count_app {A} (f : A -> bool) l1 l2 : count f (l1 ++ l2) = (count f l1 + count f l2)%nat.
Proof. unfold count. by rewrite filter_app, length_app. Qed.

Lemma count_filter_cons {A} (f : A -> bool) x l : count f (x :: l) = ((if f x then 1 else 0) + count f l)%nat.
Proof. unfold count. rewrite filter_cons. destruct (f x); simpl; done. Qed.

Lemma count_delete {A} (f : A -> bool) l i x :
  l !! i = Some x -> count f l = ((if f x then 1 else 0) + count f (delete i l))%nat.
Proof.
  intros Hi. unfold count. rewrite (delete_Permutation l i x Hi) at 1. rewrite filter_cons. by destruct (f x).
Qed.

(** [both] tasks have the content of both stores, [exec] tasks that of the
    votes: at most one task has anything, the content it has is not in the
    store, and the stakes are never gone without the votes. *)
Definition stores_inv (ss : StakeStore) (vs : VoteStore) (both exec : nat) : Prop :=
  (both + exec <= 1)%nat /\ (both = 1%nat -> content ss = None) /\ (both + exec = 1 -> content vs = None)%nat /\
  (exec = 1%nat -> content ss <> None) /\ (content ss = None -> content vs = None).

Lemma stores_inv_contents ss ss' vs vs' b e :
  (content ss = None <-> content ss' = None) -> (content vs = None <-> content vs' = None) ->
  stores_inv ss vs b e -> stores_inv ss' vs' b e.
Proof. unfold stores_inv. naive_solver. Qed.

Lemma add_value_content {T C} `{TakableContent T C} (m : TakableMap T C) v f :
  content m = None <-> content (takable_add_value m v f) = None.
Proof. unfold takable_add_value. destruct (content m) eqn:E, f; simpl; naive_solver. Qed.

Section taking.
Context {Hist : Type}.
Implicit Types (ss : StakeStore) (vs : VoteStore).

(** Taking both stores: they are handed out together or not at all. *)
Lemma take_both_inv ss vs b e :
  stores_inv ss vs b e -> exists r ss' vs', take_both ss vs = Done (r, (ss', vs')) /\
    match r with
    | Map _ => stores_inv ss' vs' (S b) e
    | Taken _ => ss' = ss /\ vs' = vs
    end.
Proof.
  intros (H1 & H2 & H3 & H4 & H5). unfold take_both, is_taken, take_map.
  destruct (content ss) as [c1|] eqn:E1, (content vs) as [c2|] eqn:E2; simpl;
    do 3 eexists; (split; [reflexivity|]); simpl; try done.
  assert (b + e <> 1)%nat by naive_solver. split_and!; simpl; naive_solver lia.
Qed.

(** Giving both back. *)
Lemma merge_both_inv ss vs sm vc b e :
  stores_inv ss vs (S b) e -> exists ss' vs', merge ss sm = Ok ss' /\ merge vs vc = Ok vs' /\ stores_inv ss' vs' b e.
Proof.
  intros (H1 & H2 & H3 & H4 & H5). unfold merge.
  assert (b = 0%nat /\ e = 0%nat) as [-> ->] by lia. rewrite H2, H3 by done.
  do 2 eexists. split; [done|]. split; [done|]. split_and!; simpl; naive_solver lia.
Qed.

Lemma run_init_inv (i : InitArgs Hist) tasks ss vs b e :
  stores_inv ss vs b e -> exists t ss' vs',
    run_leader_schedule_events 2 (LsInit i) tasks ss vs = Done (None, tasks ++ [t], ss', vs') /\
    stores_inv ss' vs' ((if computing t then 1 else 0) + b) e.
Proof.
  intros Hinv. destruct (take_both_inv ss vs b e Hinv) as (r & ss' & vs' & E & Hr).
  cbn [run_leader_schedule_events process_leadershedule_event]. rewrite E.
  destruct r as [notifiers|[sm [vm cache]]]; do 3 eexists; (split; [reflexivity|]); simpl; [|done].
  by destruct Hr as [-> ->].
Qed.

Lemma run_merge_inv sm vm cache data (i : InitArgs Hist) tasks ss vs b e :
  stores_inv ss vs (S b) e -> exists ss' vs',
    run_leader_schedule_events 2 (MergeStoreAndSaveSchedule sm vm cache data i) tasks ss vs =
      Done (Some data, tasks, ss', vs') /\ stores_inv ss' vs' b e.
Proof.
  intros Hinv. destruct (merge_both_inv ss vs sm (vm, cache) b e Hinv) as (ss' & vs' & E1 & E2 & Hr).
  cbn [run_leader_schedule_events process_leadershedule_event]. rewrite E1, E2. eauto.
Qed.
End taking.

(** The events a task of the start can carry while it is kept. *)
Definition boot_event_ok (e : BootstrapEvent) : Prop :=
  match e with InitBootstrap _ _ | BootstrapAccountsFetched _ _ _ _ => True | _ => False end.
Definition boot_task_ok (t : BootTask) : Prop := match t with BtReady e | BtWait _ e => boot_event_ok e | _ => True end.

Lemma run_boot_event_inv {Hist} (sdk : StakeSdk Hist) e tasks ss vs slots epoch b x :
  boot_event_ok e -> stores_inv ss vs b x -> exists r new ss' vs',
    run_bootstrap_events sdk 2 e tasks ss vs slots epoch = Done (r, tasks ++ new, ss', vs') /\
    (forall o, r <> Ok (Some o)) /\ Forall boot_task_ok new /\
    (stores_inv ss' vs' (count merging new + b) x).
Proof.
  intros He Hinv. destruct e as [sleep url|stakes votes history url| | |]; try done.
  - do 4 eexists. split; [reflexivity|]. split_and!; [done|by repeat constructor|done].
  - destruct (take_both_inv ss vs b x Hinv) as (r & ss' & vs' & E & Hr).
    cbn [run_bootstrap_events process_bootstrap_event]. rewrite E.
    destruct r as [notifiers|[sm [vm cache]]].
    + destruct Hr as [-> ->]. do 4 eexists. split; [reflexivity|]. split_and!; [done|by repeat constructor|done].
    + cbn [process_bootstrap_event]. destruct (sdk_stake_history sdk (pa_data history)).
      * do 4 eexists. split; [reflexivity|]. split_and!; [done|by repeat constructor|done].
      * exists (Err "Bootstrap error, can't read stake blockstore from account data."), [], ss', vs'.
        rewrite app_nil_r. split_and!; [done..|by constructor|].
        destruct Hr as (H1 & H2 & H3 & H4 & H5). assert (b = 0%nat /\ x = 0%nat) as [-> ->] by lia.
        split_and!; simpl; naive_solver lia.
Qed.

Lemma run_boot_merged_inv {Hist} (sdk : StakeSdk Hist) sm vm cache url res tasks ss vs slots epoch b x :
  stores_inv ss vs (S b) x -> exists ss' vs',
    run_bootstrap_events sdk 2 (AccountsMerged sm vm cache url res) tasks ss vs slots epoch =
      Done (Ok (Some res), tasks, ss', vs') /\ stores_inv ss' vs' b x.
Proof.
  intros Hinv. destruct (merge_both_inv ss vs sm (vm, cache) b x Hinv) as (ss' & vs' & E1 & E2 & Hr).
  cbn [run_bootstrap_events process_bootstrap_event]. rewrite E1, E2. eauto.
Qed.

(** ** The invariant of the loop *)

Definition both_holders {Hist} (st : LoopState Hist) : nat :=
  (count computing (st_schedule_tasks st) + count merging (st_boot_tasks st))%nat.

(** Channels that wait for an answer. *)
Definition waiting (r : RpcRequestData) : list Z := default [] (pending_rpc_request r).

(** A request waits only while a task is on its way to answer it. *)
Definition rpc_inv (r : RpcRequestData) : Prop :=
  pending_rpc_request r <> Some [] /\
  (waiting r <> [] -> rpc_exec_task r <> [] \/ rpc_notify_task r <> []).

Record loop_inv {Hist} (st : LoopState Hist) : Prop := {
  li_stores : stores_inv (st_stakes st) (st_votes st) (both_holders st) (length (rpc_exec_task (st_rpc st)));
  li_boot : Forall boot_task_ok (st_boot_tasks st);
  li_rpc : rpc_inv (st_rpc st);
}.

(** The keys of an account can be read. *)
Definition geyser_ok {Hist} (sdk : StakeSdk Hist) (a : option GeyserAccount) : Prop :=
  match a with
  | Some a => is_Some (sdk_pubkey_of_bytes sdk (ga_pubkey a)) /\ is_Some (sdk_pubkey_of_bytes sdk (ga_owner a))
  | None => True
  end.

(** Events that do not make the loop panic: well-formed keys, and a node that
    answers at start. *)
Definition event_ok {Hist} (sdk : StakeSdk Hist) (ev : LoopEvent) : Prop :=
  match ev with
  | EvHistoryAccount a => geyser_ok sdk a
  | EvAccount u => geyser_ok sdk (ua_account u)
  | EvBootDone _ node => is_ok (bootstrap_accounts node) = true
  | _ => True
  end.

Section loop_proofs.
Context {Hist : Type} (sdk : StakeSdk Hist) (identity : string).
Implicit Type st : LoopState Hist.

Lemma loop_new_inv d files url : loop_inv (loop_new sdk d files url).
Proof. split; simpl; [|by repeat constructor|done]. split_and!; simpl; done || lia. Qed.

Lemma epoch_changed_inv st change :
  loop_inv st -> exists st', epoch_changed st change = Done st' /\ loop_inv st' /\ st_rpc st' = st_rpc st /\
    st_running st' = st_running st.
Proof.
  intros [H1 H2 H3]. unfold epoch_changed. destruct (if st_bootstrap_done st then change.2 else None) as [i|].
  - destruct (run_init_inv i (st_schedule_tasks st) _ _ _ _ H1) as (t & ss & vs & -> & Hinv).
    eexists. split; [reflexivity|]. split; [|done]. split; [|done..].
    unfold both_holders in *. simpl. rewrite count_app, count_filter_cons. unfold count at 2. simpl.
    destruct (computing t); simpl in *; [|by rewrite Nat.add_0_r].
    by replace (count computing (st_schedule_tasks st) + 1 + count merging (st_boot_tasks st))%nat
      with (S (count computing (st_schedule_tasks st) + count merging (st_boot_tasks st))) by lia.
  - eexists. by split_and!.
Qed.

Lemma account_step_inv st u :
  geyser_ok sdk (ua_account u) -> loop_inv st ->
  exists st', account_step sdk st u = Done st' /\ loop_inv st' /\ st_rpc st' = st_rpc st /\ st_running st' = st_running st.
Proof.
  intros Hu [H1 H2 H3]. unfold account_step, new_from_geyser.
  destruct (ua_account u) as [a|]; simpl; [|eexists; by split_and!].
  destruct Hu as [[pk Hpk] [owner Ho]]. rewrite Hpk, Ho. simpl.
  eexists. split; [reflexivity|]. simpl.
  destruct (owner =? _); [|destruct (owner =? _); [|by split_and!]].
  - unfold notify_stake_change. simpl. destruct (ga_lamports a =? 0); [|destruct (read_stake_from_account_data _ _) as [[d|]|]];
      (split; [split; [eapply stores_inv_contents; [apply add_value_content||done|done|exact H1]|done..]|done]) || by split_and!.
  - unfold notify_vote_change. simpl. destruct (ga_lamports a =? 0); [|destruct (read_vote _ _)];
      (split; [split; [eapply stores_inv_contents; [done|apply add_value_content||done|exact H1]|done..]|done]) || by split_and!.
Qed.

(** The parts of a state the invariant looks at. *)
Definition same_rest st st' : Prop := st_rpc st' = st_rpc st /\ st_running st' = st_running st.

Lemma boot_event_step_plain st tasks e :
  boot_event_ok e -> Forall boot_task_ok tasks -> rpc_inv (st_rpc st) ->
  stores_inv (st_stakes st) (st_votes st) (count computing (st_schedule_tasks st) + count merging tasks)
    (length (rpc_exec_task (st_rpc st))) ->
  exists st', boot_event_step sdk identity st tasks e = Done st' /\ loop_inv st' /\ same_rest st st'.
Proof.
  intros He Ht Hrpc Hs. unfold boot_event_step.
  destruct (run_boot_event_inv sdk e tasks _ _ (sd_slots_in_epoch (st_epoch st)) (sd_current_epoch (st_epoch st)) _ _ He Hs)
    as (r & new & ss & vs & -> & Hr & Hnew & Hinv).
  assert (loop_inv (with_boot_tasks (with_stores st ss vs) (tasks ++ new))) as Hst.
  { split; [|by apply Forall_app|done]. unfold both_holders. simpl. rewrite count_app.
    by replace (count computing (st_schedule_tasks st) + (count merging tasks + count merging new))%nat
      with (count merging new + (count computing (st_schedule_tasks st) + count merging tasks))%nat by lia. }
  destruct r as [[o|]|]; [by destruct (Hr o)|..]; eexists; by split_and!.
Qed.

Lemma boot_event_step_merged st tasks sm vm cache url res :
  Forall boot_task_ok tasks -> rpc_inv (st_rpc st) ->
  stores_inv (st_stakes st) (st_votes st) (S (count computing (st_schedule_tasks st) + count merging tasks))
    (length (rpc_exec_task (st_rpc st))) ->
  exists st', boot_event_step sdk identity st tasks (AccountsMerged sm vm cache url res) = Done st' /\ loop_inv st' /\
    same_rest st st'.
Proof.
  intros Ht Hrpc Hs. unfold boot_event_step.
  destruct (run_boot_merged_inv sdk sm vm cache url res tasks _ _ (sd_slots_in_epoch (st_epoch st))
    (sd_current_epoch (st_epoch st)) _ _ Hs) as (ss & vs & -> & Hinv).
  eexists. split; [reflexivity|]. split; [|done]. by split.
Qed.

Lemma boot_step_inv st i node :
  is_ok (bootstrap_accounts node) = true -> loop_inv st ->
  exists st', boot_step sdk identity st i node = Done st' /\ loop_inv st' /\ same_rest st st'.
Proof.
  intros Hnode [H1 H2 H3]. unfold boot_step. destruct (st_boot_tasks st !! i) as [t|] eqn:Ht; [|eexists; by split_and!].
  unfold both_holders in H1. rewrite (count_delete merging _ _ _ Ht) in H1.
  rewrite (delete_Permutation _ _ _ Ht), Forall_cons in H2. destruct H2 as [Hok H2].
  destruct t as [e|url|ns e|sm vm cache stakes votes url epoch slots]; simpl in *.
  - by apply boot_event_step_plain.
  - destruct (bootstrap_accounts node) as [[[stakes votes] history]|]; [|done]. by apply boot_event_step_plain.
  - by apply boot_event_step_plain.
  - rewrite Nat.add_succ_r in H1. unfold merge_accounts.
    destruct (bootstrap_current_leader_schedule _ _ _ _) as [r|]; simpl.
    + destruct r as [[[schedule cur] next]|]; by apply boot_event_step_merged.
    + eexists. split; [reflexivity|]. split; [|done]. split; [|done..]. unfold both_holders. simpl.
      destruct H1 as (A1 & A2 & A3 & A4 & A5). split_and!; simpl; naive_solver lia.
Qed.

Lemma compute_schedule_event files a sm vm cache : exists cache' data files',
  compute_schedule sdk files a sm vm cache = (MergeStoreAndSaveSchedule sm vm cache' data a, files').
Proof. unfold compute_schedule. by do 3 eexists. Qed.

Lemma schedule_step_inv st i :
  loop_inv st -> exists st', schedule_step sdk st i = Done st' /\ loop_inv st' /\ same_rest st st'.
Proof.
  intros [H1 H2 H3]. unfold schedule_step.
  destruct (st_schedule_tasks st !! i) as [t|] eqn:Ht; [|eexists; by split_and!].
  unfold both_holders in H1. rewrite (count_delete computing _ _ _ Ht) in H1.
  destruct t as [a sm vm cache|ns a]; cbn [schedule_task_result computing] in *; simpl in H1.
  - destruct (compute_schedule_event (st_files st) a sm vm cache) as (cache' & data & files & ->).
    destruct (run_merge_inv sm vm cache' data a (delete i (st_schedule_tasks st)) _ _ _ _ H1) as (ss & vs & -> & Hinv).
    eexists. split; [reflexivity|]. split; [|done]. by split.
  - destruct (run_init_inv a (delete i (st_schedule_tasks st)) _ _ _ _ H1) as (t & ss & vs & -> & Hinv).
    eexists. split; [reflexivity|]. split; [|done]. split; [|done..]. unfold both_holders. simpl.
    rewrite count_app, count_filter_cons. change (count computing []) with 0%nat.
    destruct (computing t); simpl in *; [|by rewrite !Nat.add_0_r].
    by replace (count computing (delete i (st_schedule_tasks st)) + 1 + count merging (st_boot_tasks st))%nat
      with (S (count computing (delete i (st_schedule_tasks st)) + count merging (st_boot_tasks st))) by lia.
Qed.

Lemma take_vote_accounts_inv r ss vs b slot epoch config :
  stores_inv ss vs b (length (rpc_exec_task r)) ->
  let '(r', vs') := take_vote_accounts_and_process r vs slot epoch config in
  stores_inv ss vs' b (length (rpc_exec_task r')) /\ pending_rpc_request r' = pending_rpc_request r /\
  (rpc_exec_task r' <> [] \/ rpc_notify_task r' <> []).
Proof.
  intros (H1 & H2 & H3 & H4 & H5). unfold take_vote_accounts_and_process, take_map.
  destruct (content vs) as [[votes cache]|] eqn:E; simpl.
  - split_and!; [|done|left; by destruct (rpc_exec_task r)]. rewrite length_app. simpl.
    assert (b + length (rpc_exec_task r) <> 1)%nat by naive_solver.
    split_and!; simpl; naive_solver lia.
  - split_and!; [|done|right; by destruct (rpc_notify_task r)]. done.
Qed.

Lemma request_step_inv st config c :
  loop_inv st -> loop_inv (request_step st config c) /\ st_running (request_step st config c) = st_running st /\
    waiting (st_rpc (request_step st config c)) = waiting (st_rpc st) ++ [c].
Proof.
  intros [H1 H2 H3]. unfold request_step, process_get_vote_accounts.
  set (pending := match pending_rpc_request (st_rpc st) with Some l => _ | None => _ end).
  set (r0 := mkRpcRequestData _ _ (Some pending)).
  assert (pending = waiting (st_rpc st) ++ [c]) as Hp by (unfold pending, waiting; by destruct (pending_rpc_request _)).
  pose proof (take_vote_accounts_inv r0 (st_stakes st) (st_votes st) (both_holders st)
    (binf_slot (get_latest_block_information (block_information_store (st_cache st)) (default cc_confirmed (va_commitment config))))
    (ep_epoch (get_current_epoch (st_cache st) (default cc_confirmed (va_commitment config)))) config H1) as Htake.
  destruct (take_vote_accounts_and_process r0 _ _ _ _) as [r' vs'] eqn:E. destruct Htake as (Hs & Hpend & Htask).
  unfold waiting. simpl. rewrite Hpend. simpl. split_and!; [|done|done].
  split; simpl; [done|done|]. split; [rewrite Hpend; cbn [r0 pending_rpc_request]; rewrite Hp; intros [= Hnil]; by destruct (waiting (st_rpc st))|done].
Qed.

Lemma notify_step_inv st i :
  loop_inv st -> loop_inv (notify_step st i) /\ st_running (notify_step st i) = st_running st /\
    waiting (st_rpc (notify_step st i)) = waiting (st_rpc st).
Proof.
  intros [H1 H2 H3]. unfold notify_step.
  destruct (rpc_notify_task (st_rpc st) !! i) as [[ns [[slot epoch] config]]|]; [|by split_and!].
  set (r0 := mkRpcRequestData _ _ _).
  pose proof (take_vote_accounts_inv r0 (st_stakes st) (st_votes st) (both_holders st) slot epoch config H1) as Htake.
  destruct (take_vote_accounts_and_process r0 _ _ _ _) as [r' vs'] eqn:E. destruct Htake as (Hs & Hpend & Htask).
  unfold waiting. simpl. rewrite Hpend. simpl. split_and!; [|done|done].
  split; simpl; [done|done|]. split; [rewrite Hpend; apply H3|done].
Qed.

Lemma exec_step_inv st i :
  loop_inv st -> exists st' out, exec_step sdk st i = Done (st', out) /\ loop_inv st' /\ st_running st' = st_running st /\
    out.*1 ++ waiting (st_rpc st') = waiting (st_rpc st).
Proof.
  intros [H1 H2 [H3 H4]]. unfold exec_step. destruct (rpc_exec_task (st_rpc st) !! i) as [t|] eqn:Ht; [|do 2 eexists; by split_and!].
  assert (0 < length (rpc_exec_task (st_rpc st)))%nat as Hlen by (apply lookup_lt_Some in Ht; lia).
  pose proof (length_delete (rpc_exec_task (st_rpc st)) i (mk_is_Some _ _ Ht)) as Hdel.
  unfold notify_end_rpc_get_vote_accounts, merge. destruct H1 as (A1 & A2 & A3 & A4 & A5). rewrite A3 by lia.
  assert (content (st_stakes st) <> None) as Hss by (apply A4; lia). cbn [pending_rpc_request].
  assert (forall vs', stores_inv (st_stakes st) vs' (both_holders st) (length (delete i (rpc_exec_task (st_rpc st))))) as Hinv.
  { intros vs'. split_and!; naive_solver lia. }
  destruct (pending_rpc_request (st_rpc st)) as [l|] eqn:Hp; simpl.
  - assert (exists l' c, l = l' ++ [c]) as (l' & c & ->).
    { destruct l as [|c l'] using rev_ind; [done|]. eauto. }
    rewrite length_app. simpl. replace (length l' + 1 - 1)%nat with (length l') by lia.
    assert (last (if bool_decide (1 < length l' + 1)%nat then drop (length l') (l' ++ [c]) else l' ++ [c]) = Some c) as ->.
    { case_bool_decide; [by rewrite drop_app_length|by rewrite last_snoc]. }
    simpl. do 2 eexists. split; [reflexivity|]. split_and!; [by split| done |].
    unfold waiting. rewrite Hp. simpl. rewrite app_nil_r, fmap_app, <- list_fmap_compose. simpl. f_equal.
    case_bool_decide as Hl; [rewrite take_app_length; apply list_fmap_id|]. destruct l'; [done|simpl in Hl; lia].
  - do 2 eexists. split; [reflexivity|]. split_and!; [|done|by unfold waiting; rewrite Hp].
    split; simpl; [apply Hinv|done|]. done.
Qed.

(** The channel a request asks on. *)
Definition requested (ev : LoopEvent) : list Z := match ev with EvRequest _ c => [c] | _ => [] end.
Definition closes (ev : LoopEvent) : bool := match ev with EvStreamClosed => true | _ => false end.

Lemma loop_step_inv st ev :
  event_ok sdk ev -> loop_inv st -> st_running st = true ->
  exists st' out, loop_step sdk identity st ev = Done (st', out) /\ loop_inv st' /\ st_running st' = negb (closes ev) /\
    out.*1 ++ waiting (st_rpc st') = waiting (st_rpc st) ++ requested ev.
Proof.
  intros Hev Hinv Hrun. unfold loop_step. rewrite Hrun. destruct ev as [blocks| |config c|i|i|a|u|i node|i|]; simpl in Hev.
  - do 2 eexists. split; [reflexivity|]. split_and!; [by destruct Hinv; split|done|by rewrite app_nil_r].
  - destruct (epoch_changed_inv st (process_new_confirmed_slot (epoch_data (st_cache st)) (st_epoch st)
      (get_current_confirmed_slot (st_cache st))) Hinv) as (st' & -> & Hst & Hr & Hrun').
    do 2 eexists. split; [reflexivity|]. split_and!; [done|by rewrite Hrun', Hrun|by rewrite Hr, app_nil_r].
  - destruct (request_step_inv st config c Hinv) as (H1 & H2 & H3). do 2 eexists. split; [reflexivity|].
    split_and!; [done|by rewrite H2, Hrun|done].
  - destruct (exec_step_inv st i Hinv) as (st' & out & -> & H1 & H2 & H3). do 2 eexists. split; [reflexivity|].
    split_and!; [done|by rewrite H2, Hrun|by rewrite app_nil_r].
  - destruct (notify_step_inv st i Hinv) as (H1 & H2 & H3). do 2 eexists. split; [reflexivity|].
    split_and!; [done|by rewrite H2, Hrun|by rewrite H3, app_nil_r].
  - assert (exists st', history_step sdk st a = Done st' /\ loop_inv st' /\ same_rest st st') as (st' & -> & Hst & Hr & Hrun').
    { unfold history_step. destruct a as [a|]; [|eexists; by split_and!]. destruct Hev as [[pk Hpk] _]. rewrite Hpk. simpl.
      destruct (pk =? _); [|eexists; by split_and!].
      destruct (sdk_stake_history sdk (ga_data a)) as [h|]; [|eexists; by split_and!]. by apply epoch_changed_inv. }
    do 2 eexists. split; [reflexivity|]. split_and!; [done|by rewrite Hrun', Hrun|by rewrite Hr, app_nil_r].
  - destruct (account_step_inv st u Hev Hinv) as (st' & -> & Hst & Hr & Hrun').
    do 2 eexists. split; [reflexivity|]. split_and!; [done|by rewrite Hrun', Hrun|by rewrite Hr, app_nil_r].
  - destruct (boot_step_inv st i node Hev Hinv) as (st' & -> & Hst & Hr & Hrun').
    do 2 eexists. split; [reflexivity|]. split_and!; [done|by rewrite Hrun', Hrun|by rewrite Hr, app_nil_r].
  - destruct (schedule_step_inv st i Hinv) as (st' & -> & Hst & Hr & Hrun').
    do 2 eexists. split; [reflexivity|]. split_and!; [done|by rewrite Hrun', Hrun|by rewrite Hr, app_nil_r].
  - do 2 eexists. split; [reflexivity|]. split_and!; [by destruct Hinv; split|done|by rewrite app_nil_r].
Qed.

Lemma loop_total evs d files url :
  Forall (event_ok sdk) evs ->
  exists st out, orun (loop_step sdk identity) (loop_new sdk d files url) evs = Done (st, out) /\ loop_inv st.
Proof.
  intros Hevs. assert (PreOrder (fun _ _ : LoopState Hist => True)) as HR by (by split).
  edestruct (orun_total (loop_step sdk identity) (event_ok sdk) loop_inv (fun _ _ => True))
    as (st & out & E & H & _); [|exact Hevs|apply loop_new_inv|by eauto].
  intros st ev Hev Hst. destruct (st_running st) eqn:Hrun.
  - destruct (loop_step_inv st ev Hev Hst Hrun) as (st' & out & -> & H & _). eauto.
  - unfold loop_step. rewrite Hrun. eauto.
Qed.

Lemma loop_requests evs : forall st,
  Forall (fun ev => event_ok sdk ev /\ closes ev = false) evs -> loop_inv st -> st_running st = true ->
  exists st' out, orun (loop_step sdk identity) st evs = Done (st', out) /\ loop_inv st' /\
    out.*1 ++ waiting (st_rpc st') = waiting (st_rpc st) ++ concat (requested <$> evs).
Proof.
  intros st Hevs. revert st. induction Hevs as [|ev evs [Hev Hc] Hevs IH]; intros st Hst Hrun; simpl.
  - exists st, []. by rewrite app_nil_r.
  - destruct (loop_step_inv st ev Hev Hst Hrun) as (st1 & out1 & -> & H1 & Hr1 & W1). rewrite Hc in Hr1. simpl.
    destruct (IH st1 H1 Hr1) as (st2 & out2 & -> & H2 & W2). simpl. exists st2, (out1 ++ out2). split_and!; [done..|].
    rewrite fmap_app, <- (assoc_L (++)), W2, (assoc_L (++)), W1, (assoc_L (++)). done.
Qed.
End loop_proofs.

(** ** Properties *)

(** C12. The content of the stores is never in two places: whatever the order
    in which slots, accounts, requests and finished tasks reach the loop, with
    readable keys and a node that answers, the loop does not panic; at most one
    task has taken content; while a schedule computation or the start has it,
    both stores are empty, so that its merge succeeds, and while an answer to
    [getVoteAccounts] has the votes, their store is empty and the stakes are
    not. *)
Theorem taken_content_has_one_owner {Hist} (sdk : StakeSdk Hist) (identity : string) (d : DataCache) (files : Files)
    (url : string) (evs : list LoopEvent) :
  Forall (event_ok sdk) evs ->
  exists st out, orun (loop_step sdk identity) (loop_new sdk d files url) evs = Done (st, out) /\
    (both_holders st + length (rpc_exec_task (st_rpc st)) <= 1)%nat /\
    ((0 < both_holders st)%nat -> forall sm vm cache, exists ss vs,
       merge (st_stakes st) sm = Ok ss /\ merge (st_votes st) (vm, cache) = Ok vs) /\
    (forall t, t ∈ rpc_exec_task (st_rpc st) ->
       content (st_stakes st) <> None /\ exists vs, merge (st_votes st) (ex_votes t, ex_cache t) = Ok vs).
Proof.
  intros Hevs. destruct (loop_total sdk identity evs d files url Hevs) as (st & out & E & [Hs _ _]).
  exists st, out. destruct Hs as (H1 & H2 & H3 & H4 & H5). split_and!; [done|done|..].
  - intros Hb sm vm cache. unfold merge. rewrite H2, H3 by lia. eauto.
  - intros t Ht. assert (0 < length (rpc_exec_task (st_rpc st)))%nat by (destruct (rpc_exec_task _); [set_solver|simpl; lia]).
    split; [apply H4; lia|]. unfold merge. rewrite H3 by lia. eauto.
Qed.

(** Requests for the vote accounts are answered in the order they arrive,
    each channel exactly once: at any moment the channels answered so far
    followed by those that wait are the requests received; and while one
    waits, a task that leads to its answer is outstanding. *)
Theorem vote_requests_answered_once {Hist} (sdk : StakeSdk Hist) (identity : string) (d : DataCache) (files : Files)
    (url : string) (evs : list LoopEvent) :
  Forall (fun ev => event_ok sdk ev /\ closes ev = false) evs ->
  exists st out, orun (loop_step sdk identity) (loop_new sdk d files url) evs = Done (st, out) /\
    out.*1 ++ waiting (st_rpc st) = concat (requested <$> evs) /\
    (waiting (st_rpc st) <> [] -> rpc_exec_task (st_rpc st) <> [] \/ rpc_notify_task (st_rpc st) <> []).
Proof.
  intros Hevs. destruct (loop_requests sdk identity evs (loop_new sdk d files url) Hevs (loop_new_inv sdk d files url) eq_refl)
    as (st & out & E & [_ _ [_ Hr]] & W). eauto.
Qed.

(** A node with one stake account that delegates 100 to the vote account 50 of
    node 70. *)
Definition sample_node (history : list Z) : NodeAnswers :=
  mkNodeAnswers (Ok [(11, mkProgramAccount 5 [50; 100])]) (Ok [(50, mkProgramAccount 5 [70; 3])])
    (Ok (mkProgramAccount 1 history)) (Err "no epoch") (fun _ => Err "no schedule").

Definition any_config : GetVoteAccountsConfig := mkGetVoteAccountsConfig None None None None.

(** A start with empty files, then requests while a schedule is computed. *)
Definition sample_run : list LoopEvent :=
  [EvBootDone 0 (sample_node [1]); EvBootDone 0 (sample_node [1]); EvRequest any_config 90; EvBootDone 0 (sample_node [1]);
   EvNotifyDone 0; EvRequest any_config 91; EvExecDone 0].

Lemma sample_run_ok : Forall (fun ev => event_ok sample_sdk ev /\ closes ev = false) sample_run.
Proof. repeat constructor. Qed.

Lemma taken_content_has_one_owner_witness :
  exists st out, orun (loop_step sample_sdk "id") (loop_new sample_sdk sample_cache ∅ "url") (take 2 sample_run) = Done (st, out) /\
    both_holders st = 1%nat /\ exists ss, merge (st_stakes st) ∅ = Ok ss.
Proof.
  destruct (taken_content_has_one_owner sample_sdk "id" sample_cache ∅ "url" (take 2 sample_run)) as (st & out & E & _ & Hm & _).
  { repeat constructor. }
  assert (both_holders st = 1%nat) as Hb by (vm_compute in E; by simplify_eq).
  exists st, out. split_and!; [done|done|]. destruct (Hm ltac:(lia) ∅ ∅ ∅) as (ss & vs & Hss & _). eauto.
Defined.

Lemma vote_requests_answered_once_witness :
  exists st out, orun (loop_step sample_sdk "id") (loop_new sample_sdk sample_cache ∅ "url") sample_run = Done (st, out) /\
    out.*1 = [90; 91] /\ waiting (st_rpc st) = [].
Proof.
  destruct (vote_requests_answered_once sample_sdk "id" sample_cache ∅ "url" sample_run sample_run_ok) as (st & out & E & W & _).
  exists st, out. split; [done|]. assert (waiting (st_rpc st) = []) as Hw by (vm_compute in E; by simplify_eq).
  rewrite Hw, app_nil_r in W. by rewrite W.
Defined.

(** *** Epoch changes *)

(** An epoch changes once both its last slot is confirmed and the new
    stake history has arrived, in either order: the first of the two only
    waits, the second starts the computation for the next epoch with that
    history, and both orders end in the same state, ready for the next
    change. *)
Theorem epoch_change_either_order {Hist} (es : EpochSchedule) `{!EpochScheduleLaws es} (s : ScheduleEpochData Hist)
    (slot : Slot) (history : Hist) :
  sd_new_stake_history s = None -> sd_next_epoch_change s = None ->
  0 <= sd_current_epoch s -> sd_last_slot_in_epoch s = es_get_last_slot_in_epoch es (sd_current_epoch s) ->
  0 <= sd_last_slot_in_epoch s < u64_max -> sd_current_confirmed_slot s < slot -> sd_last_slot_in_epoch s <= slot ->
  let next := ep_epoch (get_epoch_at_slot es (sd_last_slot_in_epoch s + 1)) in
  let '(s1, first1) := process_new_confirmed_slot es s slot in
  let '(s2, second1) := set_epoch_stake_history s history in
  first1 = None /\ second1 = None /\
  set_epoch_stake_history s1 history = process_new_confirmed_slot es s2 slot /\
  set_epoch_stake_history s1 history =
    (mkScheduleEpochData next (sd_slots_in_epoch s) (es_get_last_slot_in_epoch es next) slot
       (sd_new_rate_activation_epoch s) None None,
     Some (mkInit next (sd_slots_in_epoch s) (sd_new_rate_activation_epoch s) history)).
Proof.
  destruct s as [epoch slots last confirmed rate h c]; simpl. intros -> -> He Hlast Hr Hslot Hend.
  assert ((last +64 1)%rpc = last + 1) as Hw by (apply wrap_u64_id; unfold in_u64, u64_max, u64_size in *; lia).
  unfold process_new_confirmed_slot, set_epoch_stake_history, manage_change_epoch, verify_epoch_change. simpl.
  rewrite (proj2 (Z.ltb_lt confirmed slot)) by done. simpl. rewrite (proj2 (Z.leb_le last slot)) by done. simpl.
  by rewrite Hw.
Qed.

Lemma epoch_change_either_order_witness :
  let s := mkScheduleEpochData 4 1000 4999 4990 None None None in
  let s1 := (process_new_confirmed_slot (fixed_epoch_schedule 1000) s 5002).1 in
  (set_epoch_stake_history s1 tt).2 = Some (mkInit 5 1000 None tt).
Proof.
  pose proof (epoch_change_either_order (fixed_epoch_schedule 1000) (mkScheduleEpochData 4 1000 4999 4990 None None None) 5002 tt)
    as H. cbv zeta in H |- *. destruct (process_new_confirmed_slot _ _ _) as [s1 f1]. simpl.
  destruct H as (_ & _ & _ & ->); [done..|by split; vm_compute|done|done|]. done.
Defined.

(** *** What goes wrong *)

(** The answer computed for a request in a state that has its votes. *)
Definition answer_in {Hist} (sdk : StakeSdk Hist) (st : LoopState Hist) (votes : VoteMap) (cache : EpochVoteStakesCache)
    (config : GetVoteAccountsConfig) : RpcVoteAccountStatus :=
  let commitment := default cc_confirmed (va_commitment config) in
  exec_answer sdk (mkExecTask votes cache
    (binf_slot (get_latest_block_information (block_information_store (st_cache st)) commitment))
    (ep_epoch (get_current_epoch (st_cache st) commitment)) config).

(** A request that arrives while another is computed gets the other's
    answer: the second caller receives what was computed for the first
    caller's commitment, delinquency distance and filter. *)
Theorem vote_request_gets_other_answer {Hist} (sdk : StakeSdk Hist) (identity : string) (st : LoopState Hist)
    (votes : VoteMap) (cache : EpochVoteStakesCache) (first second : GetVoteAccountsConfig) (c1 c2 : Z) :
  st_running st = true -> content (st_votes st) = Some (votes, cache) -> st_rpc st = mkRpcRequestData [] [] None ->
  exists st', orun (loop_step sdk identity) st [EvRequest first c1; EvRequest second c2; EvExecDone 0] =
    Done (st', [(c1, answer_in sdk st votes cache first); (c2, answer_in sdk st votes cache first)]).
Proof.
  destruct st as [d ss [vc us n k] ep sched boot rpc bd files running]. simpl. intros -> -> ->. by eexists.
Qed.

(** A loop whose start is over: one vote account, last vote at slot 3, staked
    in the epoch 0. *)
Definition sample_votes : VoteMap := {[50 := sample_vote 50 70 3 3]}.
Definition sample_stakes_cache : EpochVoteStakesCache := {[0 := mkEpochVoteStakes {[50 := (100, sample_vote 50 70 3 3)]} 0]}.
Definition sample_loop : LoopState unit :=
  with_done (with_stores (loop_new sample_sdk sample_cache ∅ "url") (takable_new 0 ∅) (takable_new 1 (sample_votes, sample_stakes_cache))).
Definition config_with (distance : Z) : GetVoteAccountsConfig := mkGetVoteAccountsConfig None None None (Some distance).

Lemma vote_request_gets_other_answer_witness :
  exists st' a, orun (loop_step sample_sdk "id") sample_loop [EvRequest (config_with 5) 90; EvRequest (config_with 100) 91; EvExecDone 0] =
    Done (st', [(90, a); (91, a)]) /\ rvs_current a = [] /\
    rvs_current (answer_in sample_sdk sample_loop sample_votes sample_stakes_cache (config_with 100)) <> [].
Proof.
  destruct (vote_request_gets_other_answer sample_sdk "id" sample_loop sample_votes sample_stakes_cache (config_with 5)
    (config_with 100) 90 91) as (st' & E); [reflexivity..|]. rewrite E. do 2 eexists. split; [reflexivity|]. split; by vm_compute.
Defined.

(** A loop that has lost its stores: nothing holds them and the start is not
    over. *)
Definition stores_lost {Hist} (st : LoopState Hist) : Prop :=
  content (st_stakes st) = None /\ content (st_votes st) = None /\ st_schedule_tasks st = [] /\ st_boot_tasks st = [] /\
  rpc_exec_task (st_rpc st) = [] /\ st_bootstrap_done st = false.

Lemma stores_lost_step {Hist} (sdk : StakeSdk Hist) identity (st : LoopState Hist) ev :
  event_ok sdk ev -> stores_lost st ->
  exists st', loop_step sdk identity st ev = Done (st', []) /\ stores_lost st'.
Proof.
  destruct st as [d [c1 us1 n1 k1] [c2 us2 n2 k2] ep sched boot [nt et pend] bd files running].
  intros Hev (H1 & H2 & H3 & H4 & H5 & H6). simpl in *. subst. unfold loop_step. simpl. destruct running; [|eexists; by split_and!].
  destruct ev as [blocks| |config c|i|i|a|u|i node|i|]; simpl in Hev |- *.
  - eexists. by split_and!.
  - eexists. unfold epoch_changed. simpl. by split_and!.
  - eexists. by split_and!.
  - unfold exec_step. simpl. eexists. by split_and!.
  - unfold notify_step. simpl. destruct (nt !! i) as [[ns [[slot epoch] config]]|]; eexists; by split_and!.
  - unfold history_step. destruct a as [a|]; [|eexists; by split_and!]. destruct Hev as [[pk Hpk] _]. rewrite Hpk. simpl.
    destruct (pk =? _); [|eexists; by split_and!]. destruct (sdk_stake_history sdk (ga_data a)); eexists; by split_and!.
  - unfold account_step, new_from_geyser. destruct (ua_account u) as [a|]; simpl; [|eexists; by split_and!].
    destruct Hev as [[pk Hpk] [o Ho]]. rewrite Hpk, Ho. simpl. eexists. split; [reflexivity|].
    destruct (o =? _); [|destruct (o =? _); [|by split_and!]].
    + unfold notify_stake_change. simpl. destruct (_ =? 0); [by split_and!|].
      destruct (read_stake_from_account_data _ _) as [[]|]; by split_and!.
    + unfold notify_vote_change. simpl. destruct (_ =? 0); [by split_and!|]. destruct (read_vote _ _); by split_and!.
  - unfold boot_step. simpl. eexists. by split_and!.
  - unfold schedule_step. simpl. eexists. by split_and!.
  - eexists. by split_and!.
Qed.

Lemma stores_lost_run {Hist} (sdk : StakeSdk Hist) identity evs : forall st : LoopState Hist,
  Forall (event_ok sdk) evs -> stores_lost st ->
  exists st', orun (loop_step sdk identity) st evs = Done (st', []) /\ stores_lost st'.
Proof.
  intros st Hevs. revert st. induction Hevs as [|ev evs Hev Hevs IH]; intros st Hst; simpl; [by exists st|].
  destruct (stores_lost_step sdk identity st ev Hev Hst) as (st' & -> & Hst'). simpl.
  destruct (IH st' Hst') as (st2 & -> & H). by exists st2.
Qed.

(** A start that cannot read the stake history loses the stores: it has
    taken them and ends without giving them back, so from then on, whatever
    happens, both stay empty, the leader schedule is never computed, and no
    request for the vote accounts is ever answered. *)
Theorem failed_start_loses_stores {Hist} (sdk : StakeSdk Hist) (identity : string) (d : DataCache) (files : Files)
    (url : string) (n1 n2 : NodeAnswers) (stakes votes : list (Pubkey * ProgramAccount)) (history : ProgramAccount)
    (evs : list LoopEvent) :
  bootstrap_accounts n2 = Ok (stakes, votes, history) -> sdk_stake_history sdk (pa_data history) = None ->
  Forall (event_ok sdk) evs ->
  exists st, orun (loop_step sdk identity) (loop_new sdk d files url) (EvBootDone 0 n1 :: EvBootDone 0 n2 :: evs) = Done (st, []) /\
    content (st_stakes st) = None /\ content (st_votes st) = None /\ st_schedule_tasks st = [].
Proof.
  intros Hn Hh Hevs. cbn [orun].
  set (st1 := with_boot_tasks (with_stores (loop_new sdk d files url) (takable_new 0 ∅) (takable_new 1 (∅, ∅))) [BtFetch url]).
  assert (loop_step sdk identity (loop_new sdk d files url) (EvBootDone 0 n1) = Done (st1, [])) as -> by done.
  assert (exists st2, loop_step sdk identity st1 (EvBootDone 0 n2) = Done (st2, []) /\ stores_lost st2) as (st2 & E2 & Hst2).
  { unfold loop_step, boot_step. simpl. rewrite Hn. unfold boot_event_step. simpl. rewrite Hh. eexists. by split_and!. }
  cbn [mbind outcome_bind]. rewrite E2. cbn [mbind outcome_bind].
  destruct (stores_lost_run sdk identity evs st2 Hevs Hst2) as (st & -> & ? & ? & ? & _).
  exists st. by split_and!.
Qed.

Lemma failed_start_loses_stores_witness :
  exists st, orun (loop_step sample_sdk "id") (loop_new sample_sdk sample_cache ∅ "url")
      [EvBootDone 0 (sample_node []); EvBootDone 0 (sample_node []); EvRequest any_config 90; EvNotifyDone 0; EvSlot] = Done (st, []) /\
    content (st_stakes st) = None.
Proof.
  destruct (failed_start_loses_stores sample_sdk "id" sample_cache ∅ "url" (sample_node []) (sample_node [])
    [(11, mkProgramAccount 5 [50; 100])] [(50, mkProgramAccount 5 [70; 3])] (mkProgramAccount 1 [])
    [EvRequest any_config 90; EvNotifyDone 0; EvSlot]) as (st & E & H & _); [done|done|by repeat constructor|]. eauto.
Defined.

(** The update that closes an account. *)
Definition closing (slot : Slot) (pubkey owner data : list Z) (version : Z) : LoopEvent :=
  EvAccount (mkUpdateAccount slot (Some (mkGeyserAccount pubkey 0 owner data version))).

(** A stake account that is closed while the node's accounts are fetched
    comes back: the update that closes it finds nothing to remove and leaves
    no trace, and the fetched copy, taken before, is then inserted with slot
    0. *)
Theorem closed_stake_comes_back {Hist} (sdk : StakeSdk Hist) (identity : string) (d : DataCache) (url : string)
    (n1 n2 n3 : NodeAnswers) (pk : Pubkey) (account : ProgramAccount) (delegation : Delegation)
    (votes : list (Pubkey * ProgramAccount)) (history : ProgramAccount) (h : Hist) (slot : Slot) (key owner data : list Z)
    (version : Z) :
  bootstrap_accounts n2 = Ok ([(pk, account)], votes, history) -> sdk_stake_history sdk (pa_data history) = Some h ->
  read_stake_from_account_data sdk (pa_data account) = Ok (Some delegation) ->
  sdk_pubkey_of_bytes sdk key = Some pk -> sdk_pubkey_of_bytes sdk owner = Some (sdk_stake_program sdk) ->
  slot <= sd_last_slot_in_epoch (bootstrap_schedule_epoch_data sdk d) ->
  exists st stakes, orun (loop_step sdk identity) (loop_new sdk d ∅ url)
      [EvBootDone 0 n1; closing slot key owner data version; EvBootDone 0 n2; EvBootDone 0 n3] = Done (st, []) /\
    content (st_stakes st) = Some stakes /\
    stakes !! pk = Some (mkStoredStake pk (pa_lamports account) delegation 0 0).
Proof.
  intros Hn Hh Hs Hk Ho Hslot. cbn [orun].
  set (st1 := with_boot_tasks (with_stores (loop_new sdk d ∅ url) (takable_new 0 ∅) (takable_new 1 (∅, ∅))) [BtFetch url]).
  assert (loop_step sdk identity (loop_new sdk d ∅ url) (EvBootDone 0 n1) = Done (st1, [])) as -> by done.
  cbn [mbind outcome_bind].
  assert (loop_step sdk identity st1 (closing slot key owner data version) = Done (st1, [])) as ->.
  { unfold loop_step, account_step, new_from_geyser. simpl. rewrite Hk, Ho. simpl. rewrite Z.eqb_refl.
    unfold notify_stake_change, takable_add_value. cbn [ap_lamports ap_pubkey ap_slot content st_stakes]. simpl in Hslot |- *.
    rewrite (proj2 (Z.ltb_ge _ _) Hslot). done. }
  cbn [mbind outcome_bind].
  assert (exists st2 e s, loop_step sdk identity st1 (EvBootDone 0 n2) = Done (st2, []) /\ st_running st2 = true /\
    st_files st2 = ∅ /\ st_boot_tasks st2 = [BtMerge ∅ ∅ ∅ [(pk, account)] votes url e s] /\
    content (st_stakes st2) = None /\ updates (st_stakes st2) = [] /\ content (st_votes st2) = None)
    as (st2 & e & s & -> & R2 & F2 & B2 & S2 & U2 & V2).
  { unfold loop_step, boot_step. simpl. rewrite Hn. unfold boot_event_step. simpl. rewrite Hh. do 3 eexists. by split_and!. }
  cbn [mbind outcome_bind]. unfold loop_step. rewrite R2. unfold boot_step. rewrite B2, F2. cbn.
  unfold boot_event_step, run_bootstrap_events, process_bootstrap_event, merge. rewrite S2, V2, U2. cbn.
  do 2 eexists. split_and!; [reflexivity..|]. unfold merge_program_account_in_strake_map. simpl. rewrite Hs.
  unfold notify_stake. simpl. rewrite lookup_empty. apply lookup_insert_eq.
Qed.

Lemma closed_stake_comes_back_witness :
  exists st stakes, orun (loop_step sample_sdk "id") (loop_new sample_sdk sample_cache ∅ "url")
      [EvBootDone 0 (sample_node [1]); closing 12 [11] [1] [] 6; EvBootDone 0 (sample_node [1]); EvBootDone 0 (sample_node [1])] =
      Done (st, []) /\
    content (st_stakes st) = Some stakes /\ stakes !! 11 = Some (mkStoredStake 11 5 (sample_delegation 50 100) 0 0).
Proof.
  apply (closed_stake_comes_back sample_sdk "id" sample_cache "url" (sample_node [1]) (sample_node [1]) (sample_node [1]) 11
    (mkProgramAccount 5 [50; 100]) (sample_delegation 50 100) [(50, mkProgramAccount 5 [70; 3])] (mkProgramAccount 1 [1]) tt).
  all: try reflexivity. by vm_compute.
Defined.

(** The start from files never succeeds: its two numbers are passed in the
    wrong order, so the epoch in the file is compared with the number of slots
    of an epoch.  With the files saved for the current and the next epoch,
    [bootstrap_current_leader_schedule] answers, and
    [bootstrap_leaderschedule_from_files] does not. *)
Theorem files_start_swaps_arguments {Hist} (sdk : StakeSdk Hist) (files : Files) (epoch slots next : Z)
    (current_stakes next_stakes : gmap Pubkey (Z * StoredVote)) :
  read_schedule_vote_stakes sdk files CURRENT_EPOCH_VOTE_STAKES_FILE = Done (Ok (epoch, current_stakes)) ->
  read_schedule_vote_stakes sdk files NEXT_EPOCH_VOTE_STAKES_FILE = Done (Ok (next, next_stakes)) ->
  epoch <> slots ->
  bootstrap_leaderschedule_from_files sdk files epoch slots = Done None /\
  exists r, bootstrap_current_leader_schedule sdk files epoch slots = Done (Ok r).
Proof.
  intros Hc Hn Hne. unfold bootstrap_leaderschedule_from_files, bootstrap_current_leader_schedule. rewrite Hc, Hn.
  rewrite (proj2 (Z.eqb_neq slots epoch)) by done. rewrite Z.eqb_refl. eauto.
Qed.

Lemma files_start_swaps_arguments_witness :
  let m := {[50 := (107, sample_vote 50 70 3 3)]} in
  let files := save_schedule_vote_stakes sample_sdk (save_schedule_vote_stakes sample_sdk ∅ NEXT_EPOCH_VOTE_STAKES_FILE m 9)
                 CURRENT_EPOCH_VOTE_STAKES_FILE m 8 in
  bootstrap_leaderschedule_from_files sample_sdk files 8 20 = Done None.
Proof. intros m files. by eapply (files_start_swaps_arguments sample_sdk files 8 20 9 m m); vm_compute. Defined.
