(* ===== verification/BlockStore.v ===== *)
(** * The block store

    blockstore/src/block_stores: blocks kept in a Postgres database, one
    schema per epoch (postgres/postgres_block.rs, postgres_transaction.rs,
    postgres_block_store_writer.rs, postgres_block_store_query.rs,
    postgres_session.rs), and the choice between that database and an archive
    (multiple_strategy_block_store.rs, faithful_history).

    The database is modelled by the tables the SQL of the sources creates,
    with their constraints: primary keys, unique and non-null columns, the
    foreign key from transactions to blocks.  A statement takes effect as a
    whole or not at all; rows come back in an order the database chooses.
    Failures of the connection are not modelled, except where the code tests
    for them. *)

From S2P Require Import Prelude Types LeaderSchedule BlockMapping.

(** ** Integers of the database *)

Definition i64_size : Z := 9223372036854775808.
Definition u32_size : Z := 4294967296.
(** [as i64], [as u64] and [as u32]. *)
Definition as_i64 (x : Z) : Z := if x mod u64_size <? i64_size then x mod u64_size else x mod u64_size - u64_size.
Definition as_u64 (x : Z) : Z := wrap_u64 x.
Definition as_u32 (x : Z) : Z := x mod u32_size.

(** ** Rows *)

(** The encodings of the values in text columns: signatures and hashes in
    base58, errors, messages and rewards serialised and in base64. *)
Record Codec := mkCodec {
  cd_signature_to_string : Signature -> string;
  cd_signature_from_str : string -> option Signature;
  cd_hash_to_string : Hash -> string;
  cd_base58_decode : string -> option (list Z);
  cd_error_encode : string -> option string;
  cd_error_decode : string -> option string;
  cd_message_encode : string -> string;
  cd_message_decode : string -> option string;
  cd_rewards_encode : list string -> option string;
  cd_rewards_decode : string -> option (list string);
}.

(** The hashes: 32 bytes. *)
Definition is_hash (h : Hash) : Prop := 0 <= h < 256 ^ 32.

(** Decoding undoes encoding. *)
Class CodecLaws (cd : Codec) : Prop := {
  cd_signature_law : forall s, cd_signature_from_str cd (cd_signature_to_string cd s) = Some s;
  cd_hash_law : forall h, is_hash h -> hash_from_str (cd_base58_decode cd) (cd_hash_to_string cd h) = Ok h;
  cd_error_law : forall e, exists t, cd_error_encode cd e = Some t /\ cd_error_decode cd t = Some e;
  cd_message_law : forall m, cd_message_decode cd (cd_message_encode cd m) = Some m;
  cd_rewards_law : forall r, exists t, cd_rewards_encode cd r = Some t /\ cd_rewards_decode cd t = Some r;
}.

(** [PostgresBlock], blockstore/src/block_stores/postgres/postgres_block.rs:14-24. *)
Record PostgresBlock := mkPostgresBlock {
  pgb_slot : Z;
  pgb_blockhash : string;
  pgb_block_height : Z;
  pgb_parent_slot : Z;
  pgb_block_time : Z;
  pgb_previous_blockhash : string;
  pgb_rewards : option string;
  pgb_leader_id : option string;
}.

(** [PostgresTransaction], blockstore/src/block_stores/postgres/postgres_transaction.rs:20-31. *)
Record PostgresTransaction := mkPostgresTransaction {
  pgt_signature : string;
  pgt_slot : Z;
  pgt_err : option string;
  pgt_cu_requested : option Z;
  pgt_prioritization_fees : option Z;
  pgt_cu_consumed : option Z;
  pgt_recent_blockhash : string;
  pgt_message : string;
}.

Section rows.
Context (cd : Codec).

(** [From<&ProducedBlock> for PostgresBlock],
    blockstore/src/block_stores/postgres/postgres_block.rs:26-46. *)
Definition postgres_block_of (b : ProducedBlock) : PostgresBlock :=
  let i := pb_inner b in
  mkPostgresBlock (as_i64 (pb_slot i)) (cd_hash_to_string cd (pb_blockhash i)) (as_i64 (pb_block_height i))
    (as_i64 (pb_parent_slot i)) (as_i64 (pb_block_time i)) (cd_hash_to_string cd (pb_previous_blockhash i))
    (r ← pb_rewards i; cd_rewards_encode cd r) (pb_leader_id i).

(** [PostgresBlock::to_produced_block],
    blockstore/src/block_stores/postgres/postgres_block.rs:49-73. *)
Definition to_produced_block (b : PostgresBlock) (txs : list TransactionInfo) (c : CommitmentConfig) :
    outcome ProducedBlock :=
  blockhash ← expect_ok (hash_from_str (cd_base58_decode cd) (pgb_blockhash b));
  previous ← expect_ok (hash_from_str (cd_base58_decode cd) (pgb_previous_blockhash b));
  Done (mkProducedBlock (mkProducedBlockInner txs None blockhash (as_u64 (pgb_block_height b)) (as_u64 (pgb_slot b))
    (as_u64 (pgb_parent_slot b)) (as_u64 (pgb_block_time b)) previous (t ← pgb_rewards b; cd_rewards_decode cd t)) c).

(** [PostgresTransaction::new],
    blockstore/src/block_stores/postgres/postgres_transaction.rs:34-49. *)
Definition postgres_transaction_new (value : TransactionInfo) (slot : Slot) : PostgresTransaction :=
  mkPostgresTransaction (cd_signature_to_string cd (ti_signature value)) (as_i64 slot)
    (e ← ti_err value; cd_error_encode cd e) (as_i64 <$> ti_cu_requested value)
    (as_i64 <$> ti_prioritization_fees value) (as_i64 <$> ti_cu_consumed value)
    (cd_hash_to_string cd (ti_recent_blockhash value)) (cd_message_encode cd (ti_message value)).

(** [PostgresTransaction::to_transaction_info],
    blockstore/src/block_stores/postgres/postgres_transaction.rs:51-71. *)
Definition to_transaction_info (t : PostgresTransaction) : outcome TransactionInfo :=
  signature ← unwrap (cd_signature_from_str cd (pgt_signature t));
  recent_blockhash ← expect_ok (hash_from_str (cd_base58_decode cd) (pgt_recent_blockhash t));
  message ← unwrap (cd_message_decode cd (pgt_message t));
  Done (mkTransactionInfo signature false (e ← pgt_err t; cd_error_decode cd e) (as_u32 <$> pgt_cu_requested t)
    (as_u64 <$> pgt_prioritization_fees t) (as_u64 <$> pgt_cu_consumed t) recent_blockhash message [] [] []).
End rows.

(** ** Tables *)

(** A row of the temporary table of a write session, with its columns by
    name: [save_transactions_from_block],
    blockstore/src/block_stores/postgres/postgres_transaction.rs:122-134. *)
Record RawRow := mkRawRow {
  raw_signature : string;
  raw_slot : Z;
  raw_cu_requested : option Z;
  raw_prioritization_fees : option Z;
  raw_cu_consumed : option Z;
  raw_recent_blockhash : option string;
  raw_err : option string;
  raw_message : string;
}.

(** A row of [transaction_blockdata], [build_create_table_statement],
    blockstore/src/block_stores/postgres/postgres_transaction.rs:87-100; its key is the
    transaction id. *)
Record DataRow := mkDataRow {
  row_slot : Z;
  row_cu_requested : option Z;
  row_prioritization_fees : option Z;
  row_cu_consumed : option Z;
  row_recent_blockhash : string;
  row_err : option string;
  row_message : string;
}.

(** The tables of an epoch: [blocks] by slot, [transaction_ids] by signature
    with the next value of its sequence, [transaction_blockdata] by id.
    [build_create_table_statement], blockstore/src/block_stores/postgres/postgres_block.rs:77-96. *)
Record EpochTables := mkEpochTables {
  tb_blocks : gmap Z PostgresBlock;
  tb_ids : gmap string Z;
  tb_next_id : Z;
  tb_data : gmap Z DataRow;
}.

Abbreviation Database := (gmap Z EpochTables).

Definition empty_tables : EpochTables := mkEpochTables ∅ ∅ 1 ∅.

(** The tables after an epoch was started without an error; the statements are
    in [PgStore.start_new_epoch]. *)
Definition start_new_epoch_if_necessary (db : Database) (epoch : EpochRef) : Database * bool :=
  match db !! er_epoch epoch with
  | Some _ => (db, false)
  | None => (<[er_epoch epoch := empty_tables]> db, true)
  end.

(** The tables after a slot was prepared; the calls are in
    [PgStore.prepare_epochs]. *)
Definition prepare_epoch_schema (es : EpochSchedule) (db : Database) (slot : Slot) : Database * bool :=
  let current := epoch_ref_of (get_epoch_at_slot es slot) in
  let '(db1, created_current) := start_new_epoch_if_necessary db current in
  let '(db2, created_next) := start_new_epoch_if_necessary db1 (get_next_epoch current) in
  (db2, created_current || created_next).

(** [drop_epoch_schema],
    blockstore/src/block_stores/postgres/postgres_block_store_writer.rs:276-293. *)
Definition drop_epoch_schema (db : Database) (epoch : EpochRef) : Database := delete (er_epoch epoch) db.

(** The [COPY] into the temporary table, column by column as written:
    [save_transactions_from_block],
    blockstore/src/block_stores/postgres/postgres_transaction.rs:138-197. *)
Definition copy_row (tx : PostgresTransaction) : RawRow :=
  mkRawRow (pgt_signature tx) (pgt_slot tx) (pgt_cu_requested tx) (pgt_prioritization_fees tx) (pgt_cu_consumed tx)
    (pgt_err tx) (Some (pgt_recent_blockhash tx)) (pgt_message tx).

(** The [INSERT] into [transaction_ids]: [save_transactions_from_block],
    blockstore/src/block_stores/postgres/postgres_transaction.rs:206-219. *)
Definition insert_id (t : EpochTables) (r : RawRow) : EpochTables :=
  match tb_ids t !! raw_signature r with
  | Some _ => t
  | None => mkEpochTables (tb_blocks t) (<[raw_signature r := tb_next_id t]> (tb_ids t)) (tb_next_id t + 1) (tb_data t)
  end.
Definition insert_ids (t : EpochTables) (rows : list RawRow) : EpochTables := foldl insert_id t rows.

(** The [INSERT] into [transaction_blockdata], whose values are matched with
    the columns of the table by position: [save_transactions_from_block],
    blockstore/src/block_stores/postgres/postgres_transaction.rs:221-244. *)
Definition insert_data_row (t : EpochTables) (r : RawRow) : result string EpochTables :=
  match tb_ids t !! raw_signature r, raw_err r with
  | Some id, Some recent_blockhash =>
      match tb_data t !! id, tb_blocks t !! raw_slot r with
      | None, Some _ =>
          Ok (mkEpochTables (tb_blocks t) (tb_ids t) (tb_next_id t)
                (<[id := mkDataRow (raw_slot r) (raw_cu_requested r) (raw_prioritization_fees r) (raw_cu_consumed r)
                           recent_blockhash (raw_recent_blockhash r) (raw_message r)]> (tb_data t)))
      | Some _, _ => Err "duplicate key value violates unique constraint"
      | None, None => Err "violates foreign key constraint"
      end
  | _, _ => Err "null value violates not-null constraint"
  end.
Definition insert_data (t : EpochTables) (rows : list RawRow) : result string EpochTables :=
  foldl (fun acc r => t ← acc; insert_data_row t r) (Ok t) rows.

(** ** Writing a block *)

Definition PARALLEL_WRITE_SESSIONS : Z := 4.
Definition MIN_WRITE_CHUNK_SIZE : Z := 500.

(** [div_ceil], blockstore/src/block_stores/postgres/postgres_block_store_writer.rs:312-314. *)
Definition div_ceil (a b : Z) : Z := saturating_sub_u64 (saturating_add_u64 a b) 1 / b.

(** The size of the pieces: [save_block],
    blockstore/src/block_stores/postgres/postgres_block_store_writer.rs:196-197. *)
Definition write_chunk_size (transactions : Z) : nat :=
  Z.to_nat (Z.max (div_ceil transactions PARALLEL_WRITE_SESSIONS) MIN_WRITE_CHUNK_SIZE).

(** Where the task of a piece stands: before the ids, before the data, done,
    or failed with the error of a statement. *)
Inductive PieceState := PieceIds | PieceData | PieceDone | PieceFailed (e : string).

Record Saving := mkSaving {
  sav_tables : EpochTables;
  sav_pieces : list (list RawRow * PieceState);
}.

(** The next statement of a piece's task, [save_transactions_from_block],
    blockstore/src/block_stores/postgres/postgres_transaction.rs:117-247. *)
Definition save_step (s : Saving) (i : nat) : Saving :=
  match sav_pieces s !! i with
  | Some (rows, PieceIds) =>
      mkSaving (insert_ids (sav_tables s) rows) (<[i := (rows, PieceData)]> (sav_pieces s))
  | Some (rows, PieceData) =>
      match insert_data (sav_tables s) rows with
      | Ok t => mkSaving t (<[i := (rows, PieceDone)]> (sav_pieces s))
      | Err e => mkSaving (sav_tables s) (<[i := (rows, PieceFailed e)]> (sav_pieces s))
      end
  | _ => s
  end.

Definition piece_over (p : list RawRow * PieceState) : bool :=
  match p.2 with PieceDone | PieceFailed _ => true | _ => false end.
Definition piece_done (p : list RawRow * PieceState) : bool := match p.2 with PieceDone => true | _ => false end.

(** The tasks of the pieces, in the order [order] the database serves their
    statements, as long as one is not over. *)
Definition run_pieces (t : EpochTables) (pieces : list (list RawRow)) (order : list nat) : Saving :=
  foldl save_step (mkSaving t ((fun rows => (rows, PieceIds)) <$> pieces)) order.

(** [PostgresBlock::save],
    blockstore/src/block_stores/postgres/postgres_block.rs:112-187: the tables and whether the
    row was inserted. *)
Definition save_block_row (t : EpochTables) (b : PostgresBlock) : EpochTables * bool :=
  match tb_blocks t !! pgb_slot b with
  | Some _ => (t, false)
  | None => (mkEpochTables (<[pgb_slot b := b]> (tb_blocks t)) (tb_ids t) (tb_next_id t) (tb_data t), true)
  end.

(** [PostgresBlockStore::save_block],
    blockstore/src/block_stores/postgres/postgres_block_store_writer.rs:160-227: the database
    afterwards and how the call ended. *)
Definition save_block (cd : Codec) (es : EpochSchedule) (order : list nat) (db : Database) (block : ProducedBlock) :
    Database * outcome (result string unit) :=
  let slot := pb_slot (pb_inner block) in
  let transactions : list PostgresTransaction :=
    (fun x => postgres_transaction_new cd x slot) <$> pb_transactions (pb_inner block) in
  let postgres_block := postgres_block_of cd block in
  let epoch := er_epoch (epoch_ref_of (get_epoch_at_slot es slot)) in
  match db !! epoch with
  | None => (db, Done (Err "relation does not exist"))
  | Some tables =>
      let '(tables1, inserted) := save_block_row tables postgres_block in
      if inserted then
        match chunks (write_chunk_size (Z.of_nat (length transactions))) transactions with
        | Panic => (<[epoch := tables1]> db, Panic)
        | Done pieces =>
            if Z.of_nat (length pieces) <=? PARALLEL_WRITE_SESSIONS then
              let s := run_pieces tables1 (map copy_row <$> pieces) order in
              (<[epoch := sav_tables s]> db,
               if forallb piece_done (sav_pieces s) then Done (Ok tt) else Panic)
            else (<[epoch := tables1]> db, Panic)
        end
      else (db, Done (Ok tt))
  end.

(** ** Reading *)

Section query.
Context (cd : Codec) (es : EpochSchedule).
(** The order in which the database returns rows. *)
Context (row_order : list (string * DataRow) -> list (string * DataRow)).

(** The rows of a slot with their signatures: [build_query_statement],
    blockstore/src/block_stores/postgres/postgres_transaction.rs:249-267. *)
Definition select_transactions (t : EpochTables) (slot : Z) : list (string * DataRow) :=
  row_order (omap (fun '(id, row) =>
    if row_slot row =? slot
    then '(sig, _) ← snd <$> list_find (fun e => e.2 = id) (map_to_list (tb_ids t)); Some (sig, row)
    else None) (map_to_list (tb_data t))).

(** A row as [PostgresTransaction]: [query_block],
    blockstore/src/block_stores/postgres/postgres_block_store_query.rs:86-102. *)
Definition transaction_of_row (slot : Slot) (e : string * DataRow) : PostgresTransaction :=
  mkPostgresTransaction e.1 (as_i64 slot) (row_err e.2) (row_cu_requested e.2) (row_prioritization_fees e.2)
    (row_cu_consumed e.2) (row_recent_blockhash e.2) (row_message e.2).

(** [PostgresQueryBlockStore::query_block],
    blockstore/src/block_stores/postgres/postgres_block_store_query.rs:57-145.  A slot of
    2^63 or more is no value of the column. *)
Definition pg_query_block (db : Database) (slot : Slot) : outcome (result string ProducedBlock) :=
  tables ← unwrap (db !! er_epoch (epoch_ref_of (get_epoch_at_slot es slot)));
  match tb_blocks tables !! slot with
  | None => Done (Err "Block not found in postgres")
  | Some row =>
      tx_infos ← mapM (fun e => to_transaction_info cd (transaction_of_row slot e)) (select_transactions tables slot);
      block ← to_produced_block cd row tx_infos cc_confirmed;
      Done (Ok block)
  end.

(** The smallest and the largest key of a table, as [min(slot)] and
    [max(slot)] over its rows. *)
Definition slot_bounds (slots : list Z) : option (Slot * Slot) :=
  match slots with
  | [] => None
  | s :: l => Some (as_u64 (foldr Z.min s l), as_u64 (foldr Z.max s l))
  end.

(** [PostgresQueryBlockStore::get_slot_range_by_epoch],
    blockstore/src/block_stores/postgres/postgres_block_store_query.rs:191-284. *)
Definition get_slot_range_by_epoch (db : Database) : gmap Z (Slot * Slot) :=
  omap (fun t => slot_bounds (map_to_list (tb_blocks t)).*1) db.

(** [PostgresQueryBlockStore::get_slot_range],
    blockstore/src/block_stores/postgres/postgres_block_store_query.rs:170-189. *)
Definition pg_get_slot_range (db : Database) : outcome (Slot * Slot) :=
  match (map_to_list (get_slot_range_by_epoch db)).*2 with
  | [] => Panic
  | r :: l => Done (foldr Z.min r.1 l.*1, foldr Z.max r.2 l.*2)
  end.

(** [PostgresQueryBlockStore::is_block_in_range],
    blockstore/src/block_stores/postgres/postgres_block_store_query.rs:47-55. *)
Definition is_block_in_range (db : Database) (slot : Slot) : bool :=
  let epoch := er_epoch (epoch_ref_of (get_epoch_at_slot es slot)) in
  let matching_range := get_slot_range_by_epoch db !! epoch in
  match (fun '(lo, hi) => (lo <=? slot) && (slot <=? hi)) <$> matching_range with Some _ => true | None => false end.

(** ** Database or archive *)

(** [BlockSource], blockstore/src/block_stores/multiple_strategy_block_store.rs:11-17. *)
Inductive BlockSource := RecentEpochDatabase | FaithfulArchive.

(** The archive's node: [FaithfulBlockStore],
    blockstore/src/block_stores/faithful_history/faithful_block_store.rs:24-57; [fh_get_block] is the
    node's answer, mapped. *)
Record FaithfulBlockStore := mkFaithful { fh_get_block : Slot -> outcome (result string ProducedBlock) }.
Definition faithful_get_slot_range : Slot * Slot := (1, 0).

(** [MultipleStrategyBlockStorage::query_block],
    blockstore/src/block_stores/multiple_strategy_block_store.rs:81-153. *)
Definition query_block (faithful : option FaithfulBlockStore) (db : Database) (slot : Slot) :
    outcome (result string (ProducedBlock * BlockSource)) :=
  if is_block_in_range db slot then
    r ← pg_query_block db slot;
    Done match r with
         | Ok b => Ok (b, RecentEpochDatabase)
         | Err _ => Err "block not found although it was in range"
         end
  else match faithful with
       | Some f =>
           r ← fh_get_block f slot;
           Done match r with
                | Ok b => Ok (b, FaithfulArchive)
                | Err _ => Err "Block not found in faithful_history"
                end
       | None => Done (Err "Block not found - faithful_history not available")
       end.

(** [MultipleStrategyBlockStorage::get_slot_range],
    blockstore/src/block_stores/multiple_strategy_block_store.rs:55-79. *)
Definition get_slot_range (faithful : option FaithfulBlockStore) (db : Database) : outcome (Slot * Slot) :=
  '(lower, upper) ← pg_get_slot_range db;
  let lower' := match faithful with
                | Some _ => if saturating_sub_u64 lower faithful_get_slot_range.2 <=? 1
                            then Z.min lower faithful_get_slot_range.1 else lower
                | None => lower
                end in
  Done (lower', upper).
End query.

(** ** Casts and pieces *)

Lemma as_u64_as_i64 x : in_u64 x -> as_u64 (as_i64 x) = x.
Proof.
  intros Hx. unfold as_i64, as_u64. rewrite Z.mod_small by done. destruct (x <? i64_size) eqn:E; bool_lia.
  - by apply wrap_u64_id.
  - rewrite wrap_u64_neg; unfold in_u64, i64_size, u64_size in *; lia.
Qed.

Lemma as_i64_small x : 0 <= x < i64_size -> as_i64 x = x.
Proof.
  intros Hx. unfold as_i64. rewrite Z.mod_small by (unfold i64_size, u64_size in *; lia).
  by rewrite (proj2 (Z.ltb_lt _ _)) by lia.
Qed.

Lemma as_u32_as_i64 x : 0 <= x < u32_size -> as_u32 (as_i64 x) = x.
Proof.
  intros Hx. rewrite as_i64_small by (unfold u32_size, i64_size in *; lia). by apply Z.mod_small.
Qed.

Lemma chunks_fuel_length {A} fuel n (l : list A) :
  (0 < n)%nat -> (length (chunks_fuel fuel n l) * n < length l + n)%nat.
Proof.
  intros Hn. revert l. induction fuel as [|fuel IH]; intros [|x l]; cbn [chunks_fuel length]; try lia.
  specialize (IH (drop n (x :: l))). rewrite length_drop in IH. cbn [length] in IH.
  set (c := length (chunks_fuel fuel n (drop n (x :: l)))) in *.
  destruct (decide (n <= S (length l))%nat); [lia|]. assert (c = 0%nat) as -> by nia. lia.
Qed.

Lemma write_chunks_ok {A} (l : list A) :
  Z.of_nat (length l) + PARALLEL_WRITE_SESSIONS <= u64_max ->
  exists pieces, chunks (write_chunk_size (Z.of_nat (length l))) l = Done pieces /\
    Z.of_nat (length pieces) <= PARALLEL_WRITE_SESSIONS /\ concat pieces = l.
Proof.
  intros Hlen. unfold PARALLEL_WRITE_SESSIONS in *.
  set (n := write_chunk_size (Z.of_nat (length l))).
  assert (Z.of_nat (length l) <= 4 * Z.of_nat n /\ (0 < n)%nat) as [Hn Hpos].
  { subst n. unfold write_chunk_size, div_ceil, saturating_add_u64, saturating_sub_u64, MIN_WRITE_CHUNK_SIZE, PARALLEL_WRITE_SESSIONS.
    rewrite Z.min_r, (Z.max_r 0) by lia.
    pose proof (Z.div_mod (Z.of_nat (length l) + 4 - 1) 4). pose proof (Z.mod_pos_bound (Z.of_nat (length l) + 4 - 1) 4). lia. }
  unfold chunks. rewrite decide_False by lia. eexists. split; [done|]. split; [|apply chunks_fuel_concat; lia].
  pose proof (chunks_fuel_length (length l) n l Hpos). nia.
Qed.

(** ** The tables *)

Record tables_wf (t : EpochTables) : Prop := {
  wf_next : forall sig id, tb_ids t !! sig = Some id -> id < tb_next_id t;
  wf_inj : forall s1 s2 id, tb_ids t !! s1 = Some id -> tb_ids t !! s2 = Some id -> s1 = s2;
  wf_data : forall id row, tb_data t !! id = Some row ->
    is_Some (tb_blocks t !! row_slot row) /\ exists sig, tb_ids t !! sig = Some id;
}.

(** The data of a signature, and its absence. *)
Definition stored (t : EpochTables) (sig : string) (row : DataRow) : Prop :=
  exists id, tb_ids t !! sig = Some id /\ tb_data t !! id = Some row.
Definition unstored (t : EpochTables) (sig : string) : Prop := forall row, ~ stored t sig row.

(** The row a transaction ends up as. *)
Definition row_of (tx : PostgresTransaction) : DataRow :=
  mkDataRow (pgt_slot tx) (pgt_cu_requested tx) (pgt_prioritization_fees tx) (pgt_cu_consumed tx)
    (pgt_recent_blockhash tx) (pgt_err tx) (pgt_message tx).

(** [t'] has more ids than [t] and the same data. *)
Definition more_ids (t t' : EpochTables) : Prop :=
  tables_wf t' /\ tb_blocks t' = tb_blocks t /\ (forall sig row, stored t' sig row <-> stored t sig row) /\
  forall sig, is_Some (tb_ids t !! sig) -> is_Some (tb_ids t' !! sig).

Lemma insert_id_more t r : tables_wf t -> more_ids t (insert_id t r) /\ is_Some (tb_ids (insert_id t r) !! raw_signature r).
Proof.
  intros Hwf. unfold insert_id. destruct (tb_ids t !! raw_signature r) as [id|] eqn:E; [by split; [split_and!|]|].
  assert (tb_data t !! tb_next_id t = None) as Hfree.
  { destruct (tb_data t !! tb_next_id t) as [row|] eqn:Er; [|done].
    destruct (wf_data t Hwf _ _ Er) as [_ [sig Hsig]]. apply (wf_next t Hwf) in Hsig. lia. }
  split; [|simpl; by rewrite lookup_insert_eq]. split_and!; simpl; [|done|..].
  - split; simpl.
    + intros sig id. rewrite lookup_insert_Some. intros [[<- <-]|[_ H]]; [lia|]. apply (wf_next t Hwf) in H. lia.
    + intros s1 s2 id. rewrite !lookup_insert_Some.
      intros [[<- <-]|[_ H1]] [[<- ?]|[_ H2]]; [done|exfalso..|by eapply (wf_inj t Hwf)].
      * apply (wf_next t Hwf) in H2. lia.
      * subst id. apply (wf_next t Hwf) in H1. lia.
    + intros id row Hrow. destruct (wf_data t Hwf _ _ Hrow) as [Hb [sig Hsig]]. split; [done|].
      exists sig. rewrite lookup_insert_ne by (intros <-; by rewrite E in Hsig). done.
  - intros sig row. unfold stored. simpl. split.
    + intros (id & Hid & Hrow). apply lookup_insert_Some in Hid as [[<- <-]|[_ Hid]]; [by rewrite Hfree in Hrow|eauto].
    + intros (id & Hid & Hrow). exists id. by rewrite lookup_insert_ne by (intros <-; by rewrite E in Hid).
  - intros sig [id Hid]. destruct (decide (raw_signature r = sig)) as [<-|]; [by rewrite lookup_insert_eq|].
    rewrite lookup_insert_ne by done. by exists id.
Qed.

Lemma add_block_wf t slot b :
  tables_wf t -> tables_wf (mkEpochTables (<[slot := b]> (tb_blocks t)) (tb_ids t) (tb_next_id t) (tb_data t)).
Proof.
  intros Hwf. split; simpl; [apply (wf_next t Hwf)|apply (wf_inj t Hwf)|]. intros id row Hrow.
  destruct (wf_data t Hwf id row Hrow) as [[b' Hb] Hs]. split; [|done].
  destruct (decide (slot = row_slot row)) as [->|]; [by rewrite lookup_insert_eq|rewrite lookup_insert_ne by done; by exists b'].
Qed.

Lemma more_ids_trans t1 t2 t3 : more_ids t1 t2 -> more_ids t2 t3 -> more_ids t1 t3.
Proof.
  intros (_ & B1 & S1 & I1) (W2 & B2 & S2 & I2). split_and!; [done|congruence| |auto].
  intros. by rewrite S2, S1.
Qed.

Lemma insert_ids_more rows : forall t, tables_wf t ->
  more_ids t (insert_ids t rows) /\ Forall (fun r => is_Some (tb_ids (insert_ids t rows) !! raw_signature r)) rows.
Proof.
  induction rows as [|r rows IH]; intros t Hwf; cbn [insert_ids foldl]; [by split; [split_and!|constructor]|].
  destruct (insert_id_more t r Hwf) as [H1 Hr]. destruct (IH (insert_id t r) (proj1 H1)) as [H2 Hrows].
  split; [by eapply more_ids_trans|]. constructor; [|done]. by apply H2.
Qed.

(** Inserting the data of one transaction. *)
Lemma insert_data_row_ok t tx :
  tables_wf t -> is_Some (tb_ids t !! pgt_signature tx) -> unstored t (pgt_signature tx) ->
  is_Some (tb_blocks t !! pgt_slot tx) ->
  exists t', insert_data_row t (copy_row tx) = Ok t' /\ tables_wf t' /\ tb_blocks t' = tb_blocks t /\ tb_ids t' = tb_ids t /\
    forall sig row, stored t' sig row <-> stored t sig row \/ (sig = pgt_signature tx /\ row = row_of tx).
Proof.
  intros Hwf [id Hid] Hun [b Hb]. unfold insert_data_row. simpl. rewrite Hid.
  assert (tb_data t !! id = None) as Hnone.
  { destruct (tb_data t !! id) as [row|] eqn:E; [|done]. destruct (Hun row). by exists id. }
  rewrite Hnone, Hb. eexists. split; [reflexivity|]. split_and!; simpl; [|done|done|].
  - split; simpl; [apply (wf_next t Hwf)|apply (wf_inj t Hwf)|].
    intros id' row. rewrite lookup_insert_Some. intros [[<- <-]|[_ H]]; [|by apply (wf_data t Hwf id')].
    split; [by exists b|by eexists].
  - intros sig row. unfold stored. simpl. split.
    + intros (id' & Hs & Hr). apply lookup_insert_Some in Hr as [[<- <-]|[_ Hr]]; [right|left; eauto].
      split; [by eapply (wf_inj t Hwf)|done].
    + intros [(id' & Hs & Hr)|[-> ->]]; [|exists id; by rewrite lookup_insert_eq].
      exists id'. rewrite lookup_insert_ne by (intros <-; by rewrite Hnone in Hr). done.
Qed.

Lemma insert_data_ok txs : forall t,
  tables_wf t -> NoDup (pgt_signature <$> txs) ->
  Forall (fun tx => is_Some (tb_ids t !! pgt_signature tx) /\ unstored t (pgt_signature tx) /\
                    is_Some (tb_blocks t !! pgt_slot tx)) txs ->
  exists t', insert_data t (map copy_row txs) = Ok t' /\ tables_wf t' /\ tb_blocks t' = tb_blocks t /\ tb_ids t' = tb_ids t /\
    forall sig row, stored t' sig row <->
      stored t sig row \/ exists tx, tx ∈ txs /\ sig = pgt_signature tx /\ row = row_of tx.
Proof.
  induction txs as [|tx txs IH]; intros t Hwf Hnd Hall.
  { exists t. split_and!; [done..|]. set_solver. }
  apply Forall_cons in Hall as [(Hid & Hun & Hb) Hall]. rewrite fmap_cons, NoDup_cons in Hnd. destruct Hnd as [Hnew Hnd].
  destruct (insert_data_row_ok t tx Hwf Hid Hun Hb) as (t1 & E1 & W1 & B1 & I1 & S1).
  destruct (IH t1 W1 Hnd) as (t2 & E2 & W2 & B2 & I2 & S2).
  { rewrite Forall_forall in Hall |- *. intros x Hx. destruct (Hall x Hx) as (H1 & H2 & H3). rewrite I1, B1. split_and!; [done| |done].
    intros row. rewrite S1. intros [Hs|[Heq _]]; [by apply (H2 row)|]. apply Hnew. rewrite <- Heq.
    by apply list_elem_of_fmap_2. }
  exists t2. unfold insert_data in *. cbn [map foldl mbind result_bind]. rewrite E1. split_and!; [done|done|congruence..|].
  intros sig row. rewrite S2, S1. set_solver.
Qed.

Lemma alter_some {A} (f : A -> A) (l : list A) i x : l !! i = Some x -> alter f i l = <[i := f x]> l.
Proof.
  intros Hx. apply list_eq. intros j. destruct (decide (i = j)) as [<-|].
  - rewrite list_lookup_alter_eq, Hx, list_lookup_insert_eq; [done|by eapply lookup_lt_Some].
  - by rewrite list_lookup_alter_ne, list_lookup_insert_ne.
Qed.

Lemma alter_none {A} (f : A -> A) (l : list A) i : l !! i = None -> alter f i l = l.
Proof.
  intros Hx. apply list_eq. intros j. destruct (decide (i = j)) as [<-|].
  - by rewrite list_lookup_alter_eq, Hx.
  - by rewrite list_lookup_alter_ne.
Qed.

(** ** The pieces of a block

    The transactions of a block, split into pieces whose tasks insert them
    side by side. *)
Section pieces.
Context (t0 : EpochTables) (pieces : list (list PostgresTransaction)).
Context (wf0 : tables_wf t0).
Context (distinct : NoDup (pgt_signature <$> concat pieces)).
Context (fresh : Forall (fun tx => unstored t0 (pgt_signature tx) /\ is_Some (tb_blocks t0 !! pgt_slot tx)) (concat pieces)).

Definition in_piece (i : nat) (tx : PostgresTransaction) : Prop := exists p, pieces !! i = Some p /\ tx ∈ p.

Lemma in_piece_concat i tx : in_piece i tx -> tx ∈ concat pieces.
Proof.
  intros (p & Hp & Htx). rewrite list_elem_of_In, in_concat. exists p.
  split; [|by apply list_elem_of_In]. apply list_elem_of_In. by eapply list_elem_of_lookup_2.
Qed.

Lemma in_piece_unique i j tx tx' :
  in_piece i tx -> in_piece j tx' -> pgt_signature tx = pgt_signature tx' -> i = j.
Proof.
  clear wf0 fresh. unfold in_piece. revert i j. induction pieces as [|p ps IH]; intros i j (q & Hq & Htx) (q' & Hq' & Htx') Heq; [done|].
  cbn [concat] in distinct. rewrite fmap_app in distinct. apply NoDup_app in distinct as (H1 & H2 & H3).
  destruct i as [|i], j as [|j]; simplify_eq/=; [done|exfalso..|f_equal; apply (IH H3 i j); [by exists q|by exists q'|done]].
  - apply (H2 (pgt_signature tx)); [by apply list_elem_of_fmap_2|]. rewrite Heq. apply list_elem_of_fmap_2.
    rewrite list_elem_of_In, in_concat. exists q'. rewrite <- !list_elem_of_In. split; [by eapply list_elem_of_lookup_2|done].
  - apply (H2 (pgt_signature tx')); [by apply list_elem_of_fmap_2|]. rewrite <- Heq. apply list_elem_of_fmap_2.
    rewrite list_elem_of_In, in_concat. exists q. rewrite <- !list_elem_of_In. split; [by eapply list_elem_of_lookup_2|done].
Qed.

Lemma piece_NoDup i p : pieces !! i = Some p -> NoDup (pgt_signature <$> p).
Proof.
  clear wf0 fresh. revert i. induction pieces as [|q ps IH]; intros [|i] Hp; simplify_eq/=;
    rewrite fmap_app in distinct; apply NoDup_app in distinct as (H1 & _ & H3); [done|by eapply IH].
Qed.

(** What holds after any number of statements: no task has failed, and the
    data of a transaction is there exactly when the task of its piece is
    done. *)
Record saving_inv (s : Saving) (states : list PieceState) : Prop := {
  si_wf : tables_wf (sav_tables s);
  si_blocks : tb_blocks (sav_tables s) = tb_blocks t0;
  si_pieces : sav_pieces s = zip (map copy_row <$> pieces) states;
  si_length : length states = length pieces;
  si_ok : Forall (fun st => match st with PieceFailed _ => False | _ => True end) states;
  si_ids : forall i tx, states !! i = Some PieceData -> in_piece i tx ->
    is_Some (tb_ids (sav_tables s) !! pgt_signature tx);
  si_stored : forall sig row, stored (sav_tables s) sig row <-> stored t0 sig row \/
    exists i tx, states !! i = Some PieceDone /\ in_piece i tx /\ sig = pgt_signature tx /\ row = row_of tx;
}.

Definition advance (st : PieceState) : PieceState :=
  match st with PieceIds => PieceData | PieceData => PieceDone | st => st end.

Lemma sav_pieces_lookup s states i :
  saving_inv s states ->
  sav_pieces s !! i = match pieces !! i, states !! i with Some p, Some st => Some (map copy_row p, st) | _, _ => None end.
Proof.
  intros Hi. rewrite (si_pieces _ _ Hi), lookup_zip_with, list_lookup_fmap. by destruct (pieces !! i), (states !! i).
Qed.

Lemma sav_pieces_insert (states : list PieceState) i p st st' :
  pieces !! i = Some p -> states !! i = Some st ->
  <[i := (map copy_row p, st')]> (zip (map copy_row <$> pieces) states) = zip (map copy_row <$> pieces) (<[i := st']> states).
Proof.
  intros Hp Hst. rewrite insert_zip_with. f_equal. apply list_insert_id. by rewrite list_lookup_fmap, Hp.
Qed.

(** The statement of a piece's ids. *)
Lemma save_step_ids s states i p :
  saving_inv s states -> pieces !! i = Some p -> states !! i = Some PieceIds ->
  saving_inv (mkSaving (insert_ids (sav_tables s) (map copy_row p)) (<[i := (map copy_row p, PieceData)]> (sav_pieces s)))
    (<[i := PieceData]> states).
Proof.
  intros Hi Hp Hst.
  destruct (insert_ids_more (map copy_row p) (sav_tables s) (si_wf _ _ Hi)) as [(W & B & S & I) Hids].
  split; simpl.
  - done.
  - rewrite B. apply Hi.
  - rewrite (si_pieces _ _ Hi). by eapply sav_pieces_insert.
  - rewrite length_insert. apply Hi.
  - apply Forall_insert; [apply Hi|done].
  - intros j tx Hj Htx. destruct (decide (i = j)) as [<-|Hne].
    + destruct Htx as (p' & Hp' & Htx). simplify_eq. rewrite Forall_forall in Hids.
      apply (Hids (copy_row tx)). by apply list_elem_of_fmap_2.
    + rewrite list_lookup_insert_ne in Hj by done. apply I. by eapply (si_ids _ _ Hi).
  - intros sig row. rewrite S, (si_stored _ _ Hi).
    split; (intros [H|(j & tx & Hj & H)]; [by left|right; exists j, tx; split; [|done]]).
    + rewrite list_lookup_insert_ne; [done|]. intros <-. congruence.
    + rewrite list_lookup_insert_ne in Hj; [done|]. intros <-.
      rewrite list_lookup_insert_eq in Hj by (by eapply lookup_lt_Some). done.
Qed.

(** The statement of a piece's data. *)
Lemma save_step_data s states i p :
  saving_inv s states -> pieces !! i = Some p -> states !! i = Some PieceData ->
  exists t, insert_data (sav_tables s) (map copy_row p) = Ok t /\
    saving_inv (mkSaving t (<[i := (map copy_row p, PieceDone)]> (sav_pieces s))) (<[i := PieceDone]> states).
Proof.
  intros Hi Hp Hst.
  destruct (insert_data_ok p (sav_tables s) (si_wf _ _ Hi) (piece_NoDup i p Hp)) as (t & E & W & B & I & S).
  { apply Forall_forall. intros tx Htx. assert (in_piece i tx) as Hin by (by exists p).
    rewrite Forall_forall in fresh. destruct (fresh tx (in_piece_concat i tx Hin)) as [Hun Hb].
    split_and!; [by eapply (si_ids _ _ Hi)| |by rewrite (si_blocks _ _ Hi)].
    intros row. rewrite (si_stored _ _ Hi). intros [H|(j & tx' & Hj & Hin' & Heq & _)]; [by apply (Hun row)|].
    pose proof (in_piece_unique i j tx tx' Hin Hin' Heq) as <-. congruence. }
  exists t. split; [done|]. split; simpl.
  - done.
  - rewrite B. apply Hi.
  - rewrite (si_pieces _ _ Hi). by eapply sav_pieces_insert.
  - rewrite length_insert. apply Hi.
  - apply Forall_insert; [apply Hi|done].
  - intros j tx Hj Htx. rewrite I. destruct (decide (i = j)) as [<-|Hne].
    + by rewrite list_lookup_insert_eq in Hj by (by eapply lookup_lt_Some).
    + rewrite list_lookup_insert_ne in Hj by done. by eapply (si_ids _ _ Hi).
  - intros sig row. rewrite S, (si_stored _ _ Hi). split.
    + intros [[H|(j & tx & Hj & H)]|(tx & Htx & H)]; [by left|right; exists j, tx; split; [|done]|right; exists i, tx].
      * rewrite list_lookup_insert_ne; [done|]. intros <-. congruence.
      * rewrite list_lookup_insert_eq by (by eapply lookup_lt_Some). split; [done|]. split; [by exists p|done].
    + intros [H|(j & tx & Hj & (p' & Hp' & Htx) & H)]; [by left; left|].
      destruct (decide (i = j)) as [<-|Hne]; [simplify_eq; right; by exists tx|].
      rewrite list_lookup_insert_ne in Hj by done. left. right. exists j, tx. split_and!; [done|by exists p'|apply H..].
Qed.

Lemma save_step_inv s states i :
  saving_inv s states -> saving_inv (save_step s i) (alter advance i states).
Proof.
  intros Hi. unfold save_step. rewrite (sav_pieces_lookup s states i Hi).
  destruct (pieces !! i) as [p|] eqn:Hp; cycle 1.
  { rewrite alter_none; [done|]. apply lookup_ge_None in Hp. apply lookup_ge_None. by rewrite (si_length _ _ Hi). }
  destruct (states !! i) as [st|] eqn:Hst.
  2:{ apply lookup_ge_None in Hst. apply lookup_lt_Some in Hp. rewrite (si_length _ _ Hi) in Hst. lia. }
  rewrite (alter_some _ _ _ _ Hst).
  destruct st; simpl.
  - by apply save_step_ids.
  - destruct (save_step_data s states i p Hi Hp Hst) as (t & -> & H). done.
  - by rewrite list_insert_id.
  - by rewrite list_insert_id.
Qed.

(** Where the tasks stand after the statements [order]. *)
Definition states_after (order : list nat) : list PieceState :=
  foldl (fun states i => alter advance i states) (replicate (length pieces) PieceIds) order.

Lemma run_pieces_inv order : saving_inv (run_pieces t0 (map copy_row <$> pieces) order) (states_after order).
Proof.
  unfold run_pieces, states_after.
  assert (saving_inv (mkSaving t0 ((fun rows => (rows, PieceIds)) <$> (map copy_row <$> pieces)))
            (replicate (length pieces) PieceIds)) as H0.
  { split; simpl; [done|done| |by rewrite length_replicate|by apply Forall_replicate| |].
    - clear. induction pieces as [|p ps IH]; [done|]. cbn. by f_equal.
    - intros i tx Hi. by apply lookup_replicate in Hi as [? _].
    - intros sig row. split; [by left|]. intros [H|(i & tx & Hi & _)]; [done|]. by apply lookup_replicate in Hi as [? _]. }
  revert H0. generalize (replicate (length pieces) PieceIds).
  generalize (mkSaving t0 ((fun rows => (rows, PieceIds)) <$> (map copy_row <$> pieces))).
  induction order as [|i order IH]; intros s states H; [done|]. cbn [foldl]. apply IH. by apply save_step_inv.
Qed.

Lemma states_after_lookup order i :
  (i < length pieces)%nat -> states_after order !! i = Some (Nat.iter (count_occ Nat.eq_dec order i) advance PieceIds).
Proof.
  intros Hi. unfold states_after. induction order as [|j order IH] using rev_ind.
  { cbn [foldl]. by rewrite lookup_replicate_2. }
  rewrite foldl_app, count_occ_app. cbn [foldl count_occ]. destruct (Nat.eq_dec j i) as [->|Hne].
  - rewrite list_lookup_alter_eq, IH, Nat.add_1_r. done.
  - rewrite list_lookup_alter_ne by done. by rewrite IH, Nat.add_0_r.
Qed.

(** The order serves both statements of every piece. *)
Definition serves_all (order : list nat) : Prop :=
  forall i, (i < length pieces)%nat -> (2 <= count_occ Nat.eq_dec order i)%nat.

Lemma states_after_done order i :
  serves_all order -> (i < length pieces)%nat -> states_after order !! i = Some PieceDone.
Proof.
  intros Hs Hi. rewrite states_after_lookup by done. f_equal.
  destruct (count_occ Nat.eq_dec order i) as [|[|n]] eqn:E; try (specialize (Hs i Hi); lia).
  clear. induction n as [|n IH]; [done|]. change (advance (Nat.iter (S (S n)) advance PieceIds) = PieceDone). by rewrite IH.
Qed.

(** Once both statements of every piece have been served, in any order, every
    task is done and exactly the transactions of the block were added. *)
Lemma run_pieces_complete order :
  serves_all order ->
  let s := run_pieces t0 (map copy_row <$> pieces) order in
  forallb piece_done (sav_pieces s) = true /\ tables_wf (sav_tables s) /\ tb_blocks (sav_tables s) = tb_blocks t0 /\
  forall sig row, stored (sav_tables s) sig row <->
    stored t0 sig row \/ exists tx, tx ∈ concat pieces /\ sig = pgt_signature tx /\ row = row_of tx.
Proof.
  intros Hs s. pose proof (run_pieces_inv order) as Hi. fold s in Hi. split_and!.
  - apply forallb_forall. intros x Hx. rewrite <- list_elem_of_In in Hx. apply list_elem_of_lookup_1 in Hx as [i Hx].
    rewrite (sav_pieces_lookup _ _ _ Hi) in Hx. destruct (pieces !! i) as [p|] eqn:Hp; [|done].
    rewrite states_after_done in Hx; [by simplify_eq|done|by eapply lookup_lt_Some].
  - apply Hi.
  - apply Hi.
  - intros sig row. rewrite (si_stored _ _ Hi). split.
    + intros [H|(i & tx & _ & Hin & H)]; [by left|]. right. exists tx. split; [by eapply in_piece_concat|done].
    + intros [H|(tx & Hin & H)]; [by left|]. right. rewrite list_elem_of_In, in_concat in Hin. destruct Hin as (p & Hp & Htx).
      rewrite <- list_elem_of_In in Hp. apply list_elem_of_lookup_1 in Hp as [i Hp]. exists i, tx. split_and!; [|exists p|apply H..].
      * apply states_after_done; [done|by eapply lookup_lt_Some].
      * by rewrite list_elem_of_In.
Qed.
End pieces.

(** ** Ranges of slots *)

Lemma foldr_min_spec s l : foldr Z.min s l ∈ s :: l /\ forall x, x ∈ s :: l -> foldr Z.min s l <= x.
Proof.
  induction l as [|y l [IH1 IH2]]; simpl; [set_solver by lia|]. split.
  - destruct (Z.min_spec y (foldr Z.min s l)) as [[_ ->]|[_ ->]]; set_solver.
  - intros x Hx. assert (x = y \/ x ∈ s :: l) as [->|H] by set_solver; [lia|]. specialize (IH2 x H). lia.
Qed.

Lemma foldr_max_spec s l : foldr Z.max s l ∈ s :: l /\ forall x, x ∈ s :: l -> x <= foldr Z.max s l.
Proof.
  induction l as [|y l [IH1 IH2]]; simpl; [set_solver by lia|]. split.
  - destruct (Z.max_spec y (foldr Z.max s l)) as [[_ ->]|[_ ->]]; set_solver.
  - intros x Hx. assert (x = y \/ x ∈ s :: l) as [->|H] by set_solver; [lia|]. specialize (IH2 x H). lia.
Qed.

(** A block of the database. *)
Definition has_block (db : Database) (epoch slot : Z) : Prop :=
  exists t, db !! epoch = Some t /\ is_Some (tb_blocks t !! slot).
Definition slots_ok (db : Database) : Prop := forall epoch slot, has_block db epoch slot -> 0 <= slot < i64_size.

Lemma elem_of_block_slots t slot : slot ∈ (map_to_list (tb_blocks t)).*1 <-> is_Some (tb_blocks t !! slot).
Proof.
  rewrite list_elem_of_fmap. split.
  - intros ([s b] & -> & H%elem_of_map_to_list). by exists b.
  - intros [b H]. exists (slot, b). split; [done|]. by apply elem_of_map_to_list.
Qed.

(** The range of an epoch is the one of its blocks. *)
Lemma slot_range_by_epoch_spec db epoch :
  slots_ok db ->
  match get_slot_range_by_epoch db !! epoch with
  | Some (lo, hi) => has_block db epoch lo /\ has_block db epoch hi /\ forall slot, has_block db epoch slot -> lo <= slot <= hi
  | None => forall slot, ~ has_block db epoch slot
  end.
Proof.
  intros Hok. unfold get_slot_range_by_epoch. rewrite lookup_omap. destruct (db !! epoch) as [t|] eqn:Et; simpl.
  2:{ intros slot (t & Ht & _). congruence. }
  assert (forall slot, slot ∈ (map_to_list (tb_blocks t)).*1 <-> has_block db epoch slot) as Hin.
  { intros slot. rewrite elem_of_block_slots. split; [by exists t|]. intros (t' & Ht & H). congruence. }
  destruct ((map_to_list (tb_blocks t)).*1) as [|s l]; simpl.
  { intros slot H%Hin. set_solver. }
  destruct (foldr_min_spec s l) as [Hm1 Hm2], (foldr_max_spec s l) as [Hx1 Hx2].
  assert (forall x, x ∈ s :: l -> as_u64 x = x) as Hid.
  { intros x Hx%Hin. apply Hok in Hx. apply wrap_u64_id. unfold in_u64, i64_size, u64_size in *. lia. }
  rewrite !Hid by done. split_and!; [by apply Hin..|]. intros slot Hs%Hin. split; [by apply Hm2|by apply Hx2].
Qed.

(** The range of slots the database reports is tight: every stored block
    lies in it and both its ends are stored blocks.  On a database without
    blocks asking for it panics. *)
Theorem slot_range_is_tight db :
  slots_ok db ->
  match pg_get_slot_range db with
  | Done (lo, hi) => (exists e, has_block db e lo) /\ (exists e, has_block db e hi) /\
      forall e slot, has_block db e slot -> lo <= slot <= hi
  | Panic => forall e slot, ~ has_block db e slot
  end.
Proof.
  intros Hok. unfold pg_get_slot_range.
  assert (forall r, r ∈ (map_to_list (get_slot_range_by_epoch db)).*2 <-> exists e, get_slot_range_by_epoch db !! e = Some r) as Hin.
  { intros r. rewrite list_elem_of_fmap. split.
    - intros ([e r'] & -> & H%elem_of_map_to_list). by exists e.
    - intros [e H]. exists (e, r). split; [done|]. by apply elem_of_map_to_list. }
  destruct ((map_to_list (get_slot_range_by_epoch db)).*2) as [|r l].
  - intros e slot Hb. pose proof (slot_range_by_epoch_spec db e Hok) as Hs.
    destruct (get_slot_range_by_epoch db !! e) as [r|] eqn:E; [|by eapply Hs].
    assert (r ∈ []) as H by (apply Hin; by exists e). set_solver.
  - destruct (foldr_min_spec r.1 l.*1) as [Hm1 Hm2], (foldr_max_spec r.2 l.*2) as [Hx1 Hx2].
    rewrite <- !(fmap_cons fst), <- !(fmap_cons snd) in *.
    assert (forall lo hi, (lo, hi) ∈ r :: l -> exists e, has_block db e lo /\ has_block db e hi) as Hends.
    { intros lo hi [e He]%Hin. pose proof (slot_range_by_epoch_spec db e Hok) as Hs. rewrite He in Hs. exists e. by split; apply Hs. }
    split_and!.
    + apply list_elem_of_fmap in Hm1 as ([lo hi] & -> & Hr). destruct (Hends lo hi Hr) as (e & H & _). by exists e.
    + apply list_elem_of_fmap in Hx1 as ([lo hi] & -> & Hr). destruct (Hends lo hi Hr) as (e & _ & H). by exists e.
    + intros e slot Hb. pose proof (slot_range_by_epoch_spec db e Hok) as Hs.
      destruct (get_slot_range_by_epoch db !! e) as [[lo hi]|] eqn:E; [|by destruct (Hs slot)].
      destruct Hs as (_ & _ & Hs). specialize (Hs slot Hb).
      assert ((lo, hi) ∈ r :: l) as Hr by (apply Hin; by exists e).
      specialize (Hm2 lo (list_elem_of_fmap_2 fst _ _ Hr)). specialize (Hx2 hi (list_elem_of_fmap_2 snd _ _ Hr)). lia.
Qed.

(** The schema a slot's rows are in. *)
Definition epoch_of (es : EpochSchedule) (slot : Slot) : Z := er_epoch (epoch_ref_of (get_epoch_at_slot es slot)).

(** The test for the range looks for any block of the epoch. *)
Lemma in_range_iff es db slot :
  is_block_in_range es db slot = true <-> exists other, has_block db (epoch_of es slot) other.
Proof.
  unfold is_block_in_range, get_slot_range_by_epoch, has_block. fold (epoch_of es slot). rewrite lookup_omap.
  destruct (db !! epoch_of es slot) as [t|]; simpl; [|split; [done|by intros (? & ? & ? & _)]].
  destruct ((map_to_list (tb_blocks t)).*1) as [|s l] eqn:E; simpl; split; try done.
  - intros (other & t' & [= <-] & H%elem_of_block_slots). rewrite E in H. set_solver.
  - intros _. exists s, t. split; [done|]. apply elem_of_block_slots. rewrite E. set_solver.
Qed.

(** ** Reading the rows of a slot *)

Lemma find_signature t sig id :
  tables_wf t -> tb_ids t !! sig = Some id ->
  snd <$> list_find (fun e : string * Z => e.2 = id) (map_to_list (tb_ids t)) = Some (sig, id).
Proof.
  intros Hwf Hid. destruct (list_find (fun e => e.2 = id) (map_to_list (tb_ids t))) as [[i [sig' id']]|] eqn:E; simpl.
  - apply list_find_Some in E as (Hi & Heq & _). simpl in Heq. subst id'.
    apply list_elem_of_lookup_2, elem_of_map_to_list in Hi. by rewrite (wf_inj t Hwf sig sig' id).
  - apply list_find_None in E. rewrite Forall_forall in E. by destruct (E (sig, id)); [apply elem_of_map_to_list|].
Qed.

Section reading.
Context (row_order : list (string * DataRow) -> list (string * DataRow)).
Context (order_permutes : forall l, row_order l ≡ₚ l).

(** The rows of a slot are those stored for it, each once. *)
Lemma select_transactions_spec t slot txs :
  tables_wf t -> NoDup (pgt_signature <$> txs) ->
  (forall sig row, stored t sig row /\ row_slot row = slot <-> exists tx, tx ∈ txs /\ sig = pgt_signature tx /\ row = row_of tx) ->
  select_transactions row_order t slot ≡ₚ (fun tx => (pgt_signature tx, row_of tx)) <$> txs.
Proof.
  intros Hwf Hnd Hin. unfold select_transactions. rewrite order_permutes.
  set (f := fun '(id, row) => _).
  assert (forall id row sig row', f (id, row) = Some (sig, row') ->
    row' = row /\ row_slot row = slot /\ tb_ids t !! sig = Some id) as Hf.
  { intros id row sig row'. subst f. cbn beta iota. destruct (Z.eqb_spec (row_slot row) slot) as [Hs|]; [|done].
    destruct (list_find _ _) as [[i [sig' id']]|] eqn:E; [|done]. intros [= -> ->].
    apply list_find_Some in E as (Hi & Heq & _). apply list_elem_of_lookup_2, elem_of_map_to_list in Hi. by simpl in Heq; subst. }
  apply NoDup_Permutation.
  - apply (NoDup_fmap_1 (fun e => (default 0 (tb_ids t !! e.1), e.2))).
    apply NoDup_omap_key; [|apply NoDup_map_to_list]. intros [id row] [sig row'] H. simpl.
    by destruct (Hf _ _ _ _ H) as (-> & _ & ->).
  - apply (NoDup_fmap_1 fst). rewrite <- list_fmap_compose. done.
  - intros [sig row]. rewrite list_elem_of_omap, list_elem_of_fmap. split.
    + intros ([id row'] & Hrow & H). apply elem_of_map_to_list in Hrow. destruct (Hf _ _ _ _ H) as (-> & Hs & Hid).
      destruct (proj1 (Hin sig row')) as (tx & Htx & -> & ->); [|by exists tx]. split; [by exists id|done].
    + intros (tx & [= -> ->] & Htx). destruct (proj2 (Hin (pgt_signature tx) (row_of tx))) as [(id & Hid & Hrow) Hs]; [by exists tx|].
      exists (id, row_of tx). split; [by apply elem_of_map_to_list|]. subst f. cbn beta iota.
      rewrite (proj2 (Z.eqb_eq _ _) Hs), (find_signature t _ id Hwf Hid). done.
Qed.

Lemma mapM_map_done {A B C} (f : B -> outcome C) (e : A -> B) (g : A -> C) l :
  (forall x, x ∈ l -> f (e x) = Done (g x)) -> mapM f (map e l) = Done (g <$> l).
Proof.
  induction l as [|x l IH]; intros Hf; [done|]. cbn [map mapM]. rewrite (Hf x) by set_solver.
  cbn [mbind outcome_bind]. rewrite IH by set_solver. done.
Qed.

Context (cd : Codec) `{!CodecLaws cd} (es : EpochSchedule).

(** The values of a transaction and of a block that fit their types. *)
Definition info_ok (x : TransactionInfo) : Prop :=
  is_hash (ti_recent_blockhash x) /\ (forall n, ti_cu_requested x = Some n -> 0 <= n < u32_size) /\
  (forall n, ti_prioritization_fees x = Some n -> in_u64 n) /\ (forall n, ti_cu_consumed x = Some n -> in_u64 n).
Definition block_ok (b : ProducedBlockInner) : Prop :=
  is_hash (pb_blockhash b) /\ is_hash (pb_previous_blockhash b) /\ in_u64 (pb_block_height b) /\
  in_u64 (pb_parent_slot b) /\ in_u64 (pb_block_time b) /\ Forall info_ok (pb_transactions b).

(** What a transaction is read back as. *)
Definition stored_info (x : TransactionInfo) : TransactionInfo :=
  mkTransactionInfo (ti_signature x) false (ti_err x) (ti_cu_requested x) (ti_prioritization_fees x)
    (ti_cu_consumed x) (ti_recent_blockhash x) (ti_message x) [] [] [].

Lemma fmap_fmap_id {A} (f g : A -> A) (o : option A) :
  (forall x, o = Some x -> f (g x) = x) -> f <$> (g <$> o) = o.
Proof. destruct o; [|done]. intros H. simpl. by rewrite H. Qed.

Lemma transaction_read_back x slot :
  info_ok x ->
  let tx := postgres_transaction_new cd x slot in
  to_transaction_info cd (transaction_of_row slot (pgt_signature tx, row_of tx)) = Done (stored_info x).
Proof.
  intros (Hh & Hcu & Hf & Hc). unfold to_transaction_info, stored_info. cbn.
  rewrite cd_signature_law. cbn. rewrite (cd_hash_law _ Hh). cbn. rewrite cd_message_law. cbn.
  rewrite !fmap_fmap_id by eauto using as_u64_as_i64, as_u32_as_i64.
  do 2 f_equal. destruct (ti_err x) as [e|]; [|done]. cbn. destruct (cd_error_law (cd:=cd) e) as (t & -> & Ht). done.
Qed.

Lemma block_read_back (b : ProducedBlock) txs c :
  let i := pb_inner b in
  block_ok i -> in_u64 (pb_slot i) ->
  to_produced_block cd (postgres_block_of cd b) txs c =
  Done (mkProducedBlock (mkProducedBlockInner txs None (pb_blockhash i) (pb_block_height i) (pb_slot i) (pb_parent_slot i)
          (pb_block_time i) (pb_previous_blockhash i) (pb_rewards i)) c).
Proof.
  intros i (H1 & H2 & H3 & H4 & H5 & _) Hs. unfold to_produced_block. cbn. fold i.
  rewrite (cd_hash_law _ H1). cbn. rewrite (cd_hash_law _ H2). cbn. rewrite !as_u64_as_i64 by done.
  do 3 f_equal. destruct (pb_rewards i) as [r|]; [|done]. cbn. destruct (cd_rewards_law (cd:=cd) r) as (t & -> & Ht). done.
Qed.

Definition pg_transactions (b : ProducedBlockInner) : list PostgresTransaction :=
  (fun x => postgres_transaction_new cd x (pb_slot b)) <$> pb_transactions b.

(** A block that can be saved: its slot is not there yet, none of its
    transactions is. *)
Record savable (t : EpochTables) (b : ProducedBlockInner) : Prop := {
  sv_slot : 0 <= pb_slot b < i64_size;
  sv_new : tb_blocks t !! pb_slot b = None;
  sv_distinct : NoDup (ti_signature <$> pb_transactions b);
  sv_unstored : forall x, x ∈ pb_transactions b -> unstored t (cd_signature_to_string cd (ti_signature x));
  sv_length : Z.of_nat (length (pb_transactions b)) + PARALLEL_WRITE_SESSIONS <= u64_max;
}.

(** Each of the four write sessions is served both its statements. *)
Definition serves_sessions (order : list nat) : Prop :=
  forall i, (i < 4)%nat -> (2 <= count_occ Nat.eq_dec order i)%nat.

Lemma pg_transactions_NoDup b :
  NoDup (ti_signature <$> pb_transactions b) -> NoDup (pgt_signature <$> pg_transactions b).
Proof.
  intros Hnd. unfold pg_transactions. rewrite <- list_fmap_compose.
  rewrite (list_fmap_ext _ (cd_signature_to_string cd ∘ ti_signature)) by done. rewrite list_fmap_compose.
  apply NoDup_fmap_2; [|done]. intros s1 s2 Heq. apply (inj Some). by rewrite <- !cd_signature_law, Heq.
Qed.

(** The tables after a block was saved. *)
Lemma save_block_tables order db t (b : ProducedBlock) :
  let i := pb_inner b in
  db !! epoch_of es (pb_slot i) = Some t -> tables_wf t -> savable t i -> serves_sessions order ->
  exists t', save_block cd es order db b = (<[epoch_of es (pb_slot i) := t']> db, Done (Ok tt)) /\ tables_wf t' /\
    tb_blocks t' = <[pb_slot i := postgres_block_of cd b]> (tb_blocks t) /\
    forall sig row, stored t' sig row <->
      stored t sig row \/ exists tx, tx ∈ pg_transactions i /\ sig = pgt_signature tx /\ row = row_of tx.
Proof.
  intros i Hdb Hwf Hsv Hord. unfold save_block. fold i. fold (epoch_of es (pb_slot i)) (pg_transactions i). rewrite Hdb.
  unfold save_block_row. cbn [pgb_slot postgres_block_of]. fold i. rewrite (as_i64_small _ (sv_slot _ _ Hsv)), (sv_new _ _ Hsv).
  set (t1 := mkEpochTables (<[pb_slot i := postgres_block_of cd b]> (tb_blocks t)) (tb_ids t) (tb_next_id t) (tb_data t)).
  assert (tables_wf t1) as Hwf1 by (by apply add_block_wf).
  destruct (write_chunks_ok (pg_transactions i)) as (pieces & -> & Hle & Hcat).
  { unfold pg_transactions. rewrite length_fmap. apply (sv_length _ _ Hsv). }
  rewrite (proj2 (Z.leb_le _ _) Hle). unfold PARALLEL_WRITE_SESSIONS in Hle.
  destruct (run_pieces_complete t1 pieces Hwf1) with (order := order) as (-> & Hwf' & Hb & Hst).
  - rewrite Hcat. apply pg_transactions_NoDup, Hsv.
  - rewrite Hcat. apply Forall_fmap, Forall_forall. intros x Hx. simpl.
    rewrite (as_i64_small _ (sv_slot _ _ Hsv)), lookup_insert_eq. split; [by apply (sv_unstored _ _ Hsv)|done].
  - intros j Hj. apply Hord. lia.
  - eexists. split; [reflexivity|]. rewrite Hcat in Hst. done.
Qed.

(** C13. A block whose slot and transactions are not in the database yet is
    saved whatever the order in which the database serves the statements of
    the write sessions, and is then read back from the database, whether or not
    there is an archive and whatever the order of the rows: with the slots, height, time, hashes and rewards it had, and with
    its transactions, each once, without their account lists and marked as no
    votes.  The leader is not read back and the block counts as confirmed. *)
Theorem save_then_query order db t (b : ProducedBlock) faithful :
  let i := pb_inner b in
  db !! epoch_of es (pb_slot i) = Some t -> tables_wf t -> savable t i -> block_ok i -> serves_sessions order ->
  exists db' txs, save_block cd es order db b = (db', Done (Ok tt)) /\ txs ≡ₚ stored_info <$> pb_transactions i /\
    query_block cd es row_order faithful db' (pb_slot i) =
    Done (Ok (mkProducedBlock (mkProducedBlockInner txs None (pb_blockhash i) (pb_block_height i) (pb_slot i)
                (pb_parent_slot i) (pb_block_time i) (pb_previous_blockhash i) (pb_rewards i)) cc_confirmed,
              RecentEpochDatabase)).
Proof.
  intros i Hdb Hwf Hsv Hok Hord.
  destruct (save_block_tables order db t b Hdb Hwf Hsv Hord) as (t' & Hsave & Hwf' & Hb & Hst). fold i in Hsave, Hb, Hst.
  assert (select_transactions row_order t' (pb_slot i) ≡ₚ (fun tx => (pgt_signature tx, row_of tx)) <$> pg_transactions i) as Hperm.
  { apply select_transactions_spec; [done|apply pg_transactions_NoDup, Hsv|]. intros sig row. rewrite Hst. split.
    - intros [[(id & _ & Hrow)|H] Hs]; [|done]. destruct (wf_data t Hwf id row Hrow) as [[b' Hb'] _].
      rewrite Hs, (sv_new _ _ Hsv) in Hb'. done.
    - intros (tx & Htx & -> & ->). split; [right; by exists tx|]. unfold pg_transactions in Htx.
      apply list_elem_of_fmap in Htx as (x & -> & _). simpl. apply as_i64_small, Hsv. }
  unfold pg_transactions in Hperm. rewrite <- list_fmap_compose in Hperm.
  apply Permutation_map_inv in Hperm as (l & Hl & Hperm).
  exists (<[epoch_of es (pb_slot i) := t']> db), (stored_info <$> l). split_and!; [done|by rewrite Hperm|].
  unfold query_block. rewrite (proj2 (in_range_iff es _ _)); cycle 1.
  { exists (pb_slot i), t'. by rewrite Hb, !lookup_insert_eq. }
  unfold pg_query_block. fold (epoch_of es (pb_slot i)). rewrite lookup_insert_eq. cbn [unwrap mbind outcome_bind].
  rewrite Hb, lookup_insert_eq, Hl.
  rewrite (mapM_map_done _ _ stored_info); cycle 1.
  { intros x Hx. apply transaction_read_back. destruct Hok as (_ & _ & _ & _ & _ & Hall). rewrite Forall_forall in Hall.
    apply Hall. by rewrite Hperm. }
  cbn [mbind outcome_bind]. rewrite block_read_back; [done|done|].
  pose proof (sv_slot _ _ Hsv). fold i. unfold in_u64, i64_size, u64_size in *. lia.
Qed.

(** Saving a block whose slot is already stored changes nothing: not the
    block, and not its transactions, whatever they are. *)
Lemma saved_block_is_kept order db t (b : ProducedBlock) :
  db !! epoch_of es (pb_slot (pb_inner b)) = Some t -> is_Some (tb_blocks t !! as_i64 (pb_slot (pb_inner b))) ->
  save_block cd es order db b = (db, Done (Ok tt)).
Proof.
  intros Hdb [b' Hb]. unfold save_block, save_block_row. fold (epoch_of es (pb_slot (pb_inner b))). rewrite Hdb. cbn [pgb_slot postgres_block_of].
  by rewrite Hb.
Qed.
End reading.

(** ** Transactions that are already there *)

Lemma insert_data_err rows e : foldl (fun acc r => t ← acc; insert_data_row t r) (Err e) rows = Err e.
Proof. by induction rows. Qed.

Lemma insert_data_fresh rows : forall t t',
  insert_data t rows = Ok t' ->
  Forall (fun r => forall id, tb_ids t !! raw_signature r = Some id -> tb_data t !! id = None) rows.
Proof.
  induction rows as [|r rows IH]; intros t t'; [constructor|]. unfold insert_data. cbn [foldl mbind result_bind].
  destruct (insert_data_row t r) as [t1|e] eqn:E1; [|by rewrite insert_data_err]. intros H.
  specialize (IH t1 t' H). unfold insert_data_row in E1.
  destruct (tb_ids t !! raw_signature r) as [id|] eqn:Eid, (raw_err r); try done.
  destruct (tb_data t !! id) eqn:Ed, (tb_blocks t !! raw_slot r); try done. injection E1 as <-. constructor; [congruence|].
  eapply Forall_impl; [exact IH|]. simpl. intros r' Hr id' Hid. specialize (Hr id' Hid).
  by apply lookup_insert_None in Hr as [? _].
Qed.

(** A piece with a transaction that is stored already fails as a whole. *)
Lemma insert_data_stored t rows sig row r :
  stored t sig row -> r ∈ rows -> raw_signature r = sig -> exists e, insert_data t rows = Err e.
Proof.
  intros (id & Hid & Hrow) Hr <-. destruct (insert_data t rows) as [t'|e] eqn:E; [|by exists e].
  apply insert_data_fresh in E. rewrite Forall_forall in E. specialize (E r Hr id Hid). congruence.
Qed.

(** The only piece fails at its second statement and stays failed. *)
Lemma run_one_piece t rows e order :
  insert_data (insert_ids t rows) rows = Err e -> (2 <= count_occ Nat.eq_dec order 0)%nat ->
  run_pieces t [rows] order = mkSaving (insert_ids t rows) [(rows, PieceFailed e)].
Proof.
  intros He. unfold run_pieces. cbn [fmap list_fmap]. intros Hc.
  assert (forall l, foldl save_step (mkSaving (insert_ids t rows) [(rows, PieceFailed e)]) l
                    = mkSaving (insert_ids t rows) [(rows, PieceFailed e)]) as H3.
  { induction l as [|[|j] l IH]; [done|..]; cbn [foldl save_step sav_pieces lookup list_lookup]; done. }
  assert (forall l, (1 <= count_occ Nat.eq_dec l 0)%nat -> foldl save_step (mkSaving (insert_ids t rows) [(rows, PieceData)]) l
                    = mkSaving (insert_ids t rows) [(rows, PieceFailed e)]) as H2.
  { induction l as [|[|j] l IH]; [simpl; lia|..]; intros Hl; cbn [foldl].
    - cbn [save_step sav_pieces sav_tables lookup list_lookup]. rewrite He. apply H3.
    - apply IH. by rewrite count_occ_cons_neq in Hl. }
  induction order as [|[|j] order IH]; [simpl in Hc; lia|..]; cbn [foldl].
  - apply H2. rewrite count_occ_cons_eq in Hc by done. lia.
  - apply IH. by rewrite count_occ_cons_neq in Hc.
Qed.

Lemma write_one_chunk {A} (l : list A) :
  (0 < length l <= 500)%nat -> chunks (write_chunk_size (Z.of_nat (length l))) l = Done [l].
Proof.
  intros Hl. assert (write_chunk_size (Z.of_nat (length l)) = 500%nat) as ->.
  { unfold write_chunk_size, div_ceil, saturating_add_u64, saturating_sub_u64, MIN_WRITE_CHUNK_SIZE, PARALLEL_WRITE_SESSIONS.
    rewrite Z.min_r, (Z.max_r 0), Z.max_r; [done|..]; unfold u64_max, u64_size; [|lia..].
    apply Z.lt_succ_r, Z.div_lt_upper_bound; lia. }
  unfold chunks. rewrite decide_False by lia. f_equal. destruct l as [|x l]; [simpl in Hl; lia|].
  cbn [length chunks_fuel]. rewrite take_ge, drop_ge by (cbn [length] in *; lia). by destruct (length l).
Qed.

Section losing.
Context (cd : Codec) `{!CodecLaws cd} (es : EpochSchedule).
Context (row_order : list (string * DataRow) -> list (string * DataRow)) (order_permutes : forall l, row_order l ≡ₚ l).

(** C40. A block of at most 500 transactions, one of which the epoch already
    has, loses all of them: saving it panics, but its row stays, so that
    saving it again is skipped, and reading it gives a block without
    transactions. *)
Theorem stored_transaction_empties_block order db t (b : ProducedBlock) x row :
  let i := pb_inner b in
  db !! epoch_of es (pb_slot i) = Some t -> tables_wf t -> 0 <= pb_slot i < i64_size -> block_ok i ->
  tb_blocks t !! pb_slot i = None -> (length (pb_transactions i) <= 500)%nat ->
  x ∈ pb_transactions i -> stored t (cd_signature_to_string cd (ti_signature x)) row -> serves_sessions order ->
  exists db' b', save_block cd es order db b = (db', Panic) /\
    (forall order', save_block cd es order' db' b = (db', Done (Ok tt))) /\
    pg_query_block cd es row_order db' (pb_slot i) = Done (Ok b') /\ pb_transactions (pb_inner b') = [].
Proof.
  intros i Hdb Hwf Hslot Hok Hnew Hlen Hx Hst Hord.
  set (t1 := mkEpochTables (<[pb_slot i := postgres_block_of cd b]> (tb_blocks t)) (tb_ids t) (tb_next_id t) (tb_data t)).
  set (rows := map copy_row (pg_transactions cd i)). set (t2 := insert_ids t1 rows).
  destruct (insert_ids_more rows t1 (add_block_wf t _ _ Hwf)) as [(Hwf2 & Hb2 & Hst2 & _) _]. fold t2 in Hwf2, Hb2, Hst2.
  assert (exists e, insert_data t2 rows = Err e) as [e He].
  { eapply (insert_data_stored t2 rows _ row (copy_row (postgres_transaction_new cd x (pb_slot i)))); [|set_solver|done].
    by apply Hst2. }
  exists (<[epoch_of es (pb_slot i) := t2]> db).
  assert (save_block cd es order db b = (<[epoch_of es (pb_slot i) := t2]> db, Panic)) as Hsave.
  { unfold save_block. fold i. fold (epoch_of es (pb_slot i)) (pg_transactions cd i). rewrite Hdb. unfold save_block_row.
    cbn [pgb_slot postgres_block_of]. fold i. rewrite as_i64_small, Hnew by done.
    rewrite write_one_chunk; cycle 1.
    { unfold pg_transactions. rewrite length_fmap. destruct (pb_transactions i); [set_solver|simpl in *; lia]. }
    fold t1. simpl. fold rows. rewrite (run_one_piece t1 rows e); [done|done|]. apply Hord. lia. }
  assert (tb_blocks t2 !! pb_slot i = Some (postgres_block_of cd b)) as Hrow by (rewrite Hb2; apply lookup_insert_eq).
  eexists. split_and!; [done| | |].
  - intros order'. eapply saved_block_is_kept; [apply lookup_insert_eq|]. fold i. rewrite as_i64_small by done. by eexists.
  - unfold pg_query_block. fold (epoch_of es (pb_slot i)). rewrite lookup_insert_eq. cbn [unwrap mbind outcome_bind]. rewrite Hrow.
    assert (select_transactions row_order t2 (pb_slot i) = []) as ->.
    { apply Permutation_nil_r. apply (select_transactions_spec row_order order_permutes t2 (pb_slot i) []); [done|constructor|].
      intros sig r. rewrite Hst2. split; [|set_solver]. intros [(id & _ & Hr) Hs].
      destruct (wf_data t Hwf id r Hr) as [[b' Hb'] _]. rewrite Hs, Hnew in Hb'. done. }
    change (mapM _ []) with (Done ([] : list TransactionInfo)). cbn [mbind outcome_bind].
    rewrite block_read_back; [done|done|done|]. fold i. unfold in_u64, i64_size, u64_size in *. lia.
  - done.
Qed.
End losing.

Section strategy.
Context (cd : Codec) (es : EpochSchedule) (row_order : list (string * DataRow) -> list (string * DataRow)).

(** The test whether a slot is in the range of the database looks only
    for a range of the slot's epoch, not whether the slot lies in it: in an
    epoch of which the database has any block, a slot it does not have is
    answered with an error, and the archive that may have it is not asked. *)
Theorem archive_not_asked_within_epoch db slot other faithful :
  has_block db (epoch_of es slot) other -> ~ has_block db (epoch_of es slot) slot ->
  query_block cd es row_order faithful db slot = Done (Err "block not found although it was in range").
Proof.
  intros Hother Hnone. unfold query_block.
  rewrite (proj2 (in_range_iff es db slot)) by (by exists other).
  unfold pg_query_block. fold (epoch_of es slot). destruct Hother as (t & Ht & _). rewrite Ht. cbn [unwrap mbind outcome_bind].
  destruct (tb_blocks t !! slot) as [b|] eqn:E; [|done]. destruct Hnone. exists t. by rewrite E.
Qed.
End strategy.

(** ** A codec *)

Fixpoint string_of_bytes (l : list Z) : string :=
  match l with [] => EmptyString | b :: l => String (Ascii.ascii_of_N (Z.to_N b)) (string_of_bytes l) end.
Fixpoint bytes_of_string (s : string) : list Z :=
  match s with EmptyString => [] | String c s => Z.of_N (Ascii.N_of_ascii c) :: bytes_of_string s end.
Fixpoint bytes_be (n : nat) (z : Z) : list Z :=
  match n with 0%nat => [] | Datatypes.S n => bytes_be n (z / 256) ++ [z mod 256] end.

Lemma bytes_of_string_of_bytes l : Forall (fun b => 0 <= b < 256) l -> bytes_of_string (string_of_bytes l) = l.
Proof.
  induction 1 as [|b l Hb Hl IH]; [done|]. simpl. rewrite IH, Ascii.N_ascii_embedding by lia. f_equal. lia.
Qed.

Lemma string_of_bytes_length l : String.length (string_of_bytes l) = length l.
Proof. induction l as [|b l IH]; [done|]. simpl. by rewrite IH. Qed.

Lemma bytes_be_spec n : forall z, 0 <= z < 256 ^ Z.of_nat n ->
  length (bytes_be n z) = n /\ Forall (fun b => 0 <= b < 256) (bytes_be n z) /\
  foldl (fun acc b => acc * 256 + b) 0 (bytes_be n z) = z.
Proof.
  induction n as [|n IH]; intros z Hz; [simpl in *; split_and!; [done|constructor|lia]|].
  assert (0 <= z / 256 < 256 ^ Z.of_nat n) as Hq.
  { rewrite Nat2Z.inj_succ, Z.pow_succ_r in Hz by lia. split; [apply Z.div_pos; lia|]. apply Z.div_lt_upper_bound; lia. }
  destruct (IH _ Hq) as (H1 & H2 & H3). pose proof (Z.mod_pos_bound z 256). simpl. split_and!.
  - rewrite length_app, H1. simpl. lia.
  - apply Forall_app. split; [done|]. constructor; [lia|constructor].
  - rewrite foldl_app, H3. simpl. pose proof (Z.div_mod z 256). lia.
Qed.

(** Rewards: each character of a string behind a mark, a dot at its end. *)
Fixpoint mark_string (s rest : string) : string :=
  match s with
  | EmptyString => String (Ascii.ascii_of_nat 46) rest
  | String c s => String (Ascii.ascii_of_nat 0) (String c (mark_string s rest))
  end.
Fixpoint unmark_strings (s : string) : option (list string) :=
  match s with
  | EmptyString => Some []
  | String k s1 =>
      if Ascii.eqb k (Ascii.ascii_of_nat 46) then l ← unmark_strings s1; Some (EmptyString :: l)
      else match s1 with
           | EmptyString => None
           | String c s2 => l ← unmark_strings s2; match l with [] => None | x :: l => Some (String c x :: l) end
           end
  end.

Lemma unmark_mark s rest l : unmark_strings rest = Some l -> unmark_strings (mark_string s rest) = Some (s :: l).
Proof.
  intros Hl. induction s as [|c s IH]; simpl; [by rewrite Hl|]. by rewrite IH.
Qed.

Fixpoint tally (n : nat) : string := match n with 0%nat => EmptyString | Datatypes.S n => String (Ascii.ascii_of_nat 49) (tally n) end.
Lemma tally_length n : String.length (tally n) = n.
Proof. induction n; simpl; congruence. Qed.

Definition sample_codec : Codec := mkCodec
  (fun s => String (Ascii.ascii_of_nat (if s <? 0 then 45 else 43)) (tally (Z.abs_nat s)))
  (fun t => match t with
            | EmptyString => None
            | String c t => Some (if Ascii.eqb c (Ascii.ascii_of_nat 45) then - Z.of_nat (String.length t) else Z.of_nat (String.length t))
            end)
  (fun h => string_of_bytes (bytes_be 32 h)) (fun t => Some (bytes_of_string t)) Some Some id Some
  (fun r => Some (foldr mark_string EmptyString r)) unmark_strings.

#[export] Instance sample_codec_laws : CodecLaws sample_codec.
Proof.
  split.
  - intros s. unfold sample_codec. cbn [cd_signature_to_string cd_signature_from_str]. f_equal. rewrite tally_length.
    destruct (s <? 0) eqn:E; bool_lia; simpl; lia.
  - intros h Hh. destruct (bytes_be_spec 32 h Hh) as (H1 & H2 & H3). unfold hash_from_str, hash_of_bytes, array_of_bytes.
    cbn [cd_hash_to_string cd_base58_decode sample_codec]. rewrite string_of_bytes_length, bytes_of_string_of_bytes by done.
    by rewrite H1, decide_True, H3.
  - by eexists.
  - done.
  - intros r. eexists. split; [done|]. simpl. induction r as [|x r IH]; [done|]. simpl. by apply unmark_mark.
Qed.

(** ** Witnesses *)

Definition sample_info (sig : Signature) : TransactionInfo :=
  mkTransactionInfo sig true (if sig =? 2 then Some "InsufficientFunds" else None) (Some 1000) (Some 7) None 5 "message" [3] [4] [].
Definition sample_block (slot : Slot) (sigs : list Signature) : ProducedBlock :=
  mkProducedBlock (mkProducedBlockInner (sample_info <$> sigs) (Some "leader") 11 12 slot 6 1700000000 13 (Some ["r1"; "r2"]))
    cc_finalized.
Definition sample_epochs : EpochSchedule := fixed_epoch_schedule 10.
Definition all_sessions : list nat := [0; 1; 2; 3; 3; 2; 1; 0]%nat.

Lemma all_sessions_serve : serves_sessions all_sessions.
Proof. intros [|[|[|[|i]]]] Hi; vm_compute; lia. Qed.

Lemma sample_block_ok slot sigs : block_ok (pb_inner (sample_block slot sigs)).
Proof.
  unfold block_ok, is_hash, in_u64, u64_size. simpl. split_and!; try lia.
  apply Forall_fmap, Forall_forall. intros s _. unfold info_ok, is_hash, in_u64, u64_size, u32_size. simpl.
  split_and!; intros; simplify_eq; lia.
Qed.

Lemma empty_tables_wf : tables_wf empty_tables.
Proof. split; set_solver. Qed.

Lemma save_then_query_witness :
  exists db' txs, save_block sample_codec sample_epochs all_sessions {[ 0 := empty_tables ]} (sample_block 7 [1; 2]) = (db', Done (Ok tt)) /\
    txs ≡ₚ stored_info <$> (sample_info <$> [1; 2]) /\
    query_block sample_codec sample_epochs id None db' 7 =
    Done (Ok (mkProducedBlock (mkProducedBlockInner txs None 11 12 7 6 1700000000 13 (Some ["r1"; "r2"])) cc_confirmed,
              RecentEpochDatabase)).
Proof.
  apply (save_then_query id (fun l => reflexivity l) sample_codec sample_epochs all_sessions {[ 0 := empty_tables ]} empty_tables
           (sample_block 7 [1; 2]) None); [done|apply empty_tables_wf| |apply sample_block_ok|apply all_sessions_serve].
  split; simpl; [unfold i64_size; lia|done| |by intros ? _ ? (? & ? & _)|vm_compute; done]. apply NoDup_cons; split; [set_solver|apply NoDup_singleton].
Defined.

(** An epoch with the block of slot 6 and its transaction. *)
Definition sample_tx : PostgresTransaction := postgres_transaction_new sample_codec (sample_info 1) 6.
Definition sample_tables : EpochTables :=
  mkEpochTables {[ 6 := postgres_block_of sample_codec (sample_block 6 [1]) ]} {[ pgt_signature sample_tx := 1 ]} 2
    {[ 1 := row_of sample_tx ]}.

Lemma sample_tables_wf : tables_wf sample_tables.
Proof.
  split; simpl.
  - intros sig id [<- <-]%lookup_singleton_Some. lia.
  - intros s1 s2 id [<- _]%lookup_singleton_Some [<- _]%lookup_singleton_Some. done.
  - intros id row [<- <-]%lookup_singleton_Some. split; [by eexists|]. exists (pgt_signature sample_tx). apply lookup_singleton_eq.
Qed.

Lemma sample_tables_block epoch slot : has_block {[ 0 := sample_tables ]} epoch slot -> epoch = 0 /\ slot = 6.
Proof.
  intros (t & [<- <-]%lookup_singleton_Some & [b Hb]). cbn [sample_tables tb_blocks] in Hb.
  by apply lookup_singleton_Some in Hb as [<- _].
Qed.

Lemma stored_transaction_empties_block_witness :
  exists db' b', save_block sample_codec sample_epochs all_sessions {[ 0 := sample_tables ]} (sample_block 7 [2; 1; 3]) = (db', Panic) /\
    (forall order', save_block sample_codec sample_epochs order' db' (sample_block 7 [2; 1; 3]) = (db', Done (Ok tt))) /\
    pg_query_block sample_codec sample_epochs id db' 7 = Done (Ok b') /\ pb_transactions (pb_inner b') = [].
Proof.
  apply (stored_transaction_empties_block sample_codec sample_epochs id (fun l => reflexivity l) all_sessions {[ 0 := sample_tables ]}
           sample_tables (sample_block 7 [2; 1; 3]) (sample_info 1) (row_of sample_tx)).
  - done.
  - apply sample_tables_wf.
  - simpl. unfold i64_size. lia.
  - apply sample_block_ok.
  - done.
  - simpl. lia.
  - simpl. set_solver.
  - exists 1. split; [apply lookup_singleton_eq|done].
  - apply all_sessions_serve.
Defined.

Lemma slot_range_is_tight_witness :
  match pg_get_slot_range {[ 0 := sample_tables ]} with
  | Done (lo, hi) => (exists e, has_block {[ 0 := sample_tables ]} e lo) /\ (exists e, has_block {[ 0 := sample_tables ]} e hi) /\
      forall e slot, has_block {[ 0 := sample_tables ]} e slot -> lo <= slot <= hi
  | Panic => forall e slot, ~ has_block {[ 0 := sample_tables ]} e slot
  end.
Proof.
  apply (slot_range_is_tight {[ 0 := sample_tables ]}). intros e slot [_ ->]%sample_tables_block. unfold i64_size. lia.
Defined.

Lemma archive_not_asked_within_epoch_witness :
  let archive := mkFaithful (fun slot => Done (Ok (sample_block slot [9]))) in
  query_block sample_codec sample_epochs id (Some archive) {[ 0 := sample_tables ]} 8 =
  Done (Err "block not found although it was in range").
Proof.
  apply (archive_not_asked_within_epoch sample_codec sample_epochs id {[ 0 := sample_tables ]} 8 6).
  - exists sample_tables. split; [done|by eexists].
  - intros [_ H]%sample_tables_block. done.
Defined.
