(* ===== verification/PgSession.v ===== *)
(** * Sessions with the database

    blockstore/src/block_stores/postgres: the names of the schemas
    (postgres_epoch.rs), the lists of placeholders of a statement
    (postgres_session.rs, [multiline_query]), the configuration read from the
    environment (postgres_config.rs), and the two caches of a session behind
    a lock ([PostgresSessionCache], [PostgresWriteSession]), whose calls
    interleave. *)

From S2P Require Import Prelude Types LeaderSchedule.

Open Scope string_scope.
Open Scope Z_scope.

(** ** Decimal numbers *)

(** [Display] of a u64: at most 20 digits. *)
Fixpoint decimal_fuel (fuel : nat) (n : Z) (acc : string) : string :=
  match fuel with
  | 0%nat => acc
  | Datatypes.S fuel =>
      let acc := String (Ascii.ascii_of_nat (48 + Z.to_nat (n mod 10))) acc in
      if n <? 10 then acc else decimal_fuel fuel (n / 10) acc
  end.
Definition decimal (n : Z) : string := decimal_fuel 20 n EmptyString.

(** [str::parse::<u64>]. *)
Definition digit_of (c : Ascii.ascii) : option Z :=
  let n := Z.of_nat (Ascii.nat_of_ascii c) in if (48 <=? n) && (n <=? 57) then Some (n - 48) else None.
Fixpoint parse_digits (acc : Z) (s : string) : option Z :=
  match s with
  | EmptyString => Some acc
  | String c s =>
      d ← digit_of c;
      let n := acc * 10 + d in
      if n <? u64_size then parse_digits n s else None
  end.
Definition parse_u64 (s : string) : option Z :=
  match s with
  | EmptyString => None
  | String c s' =>
      if Ascii.eqb c (Ascii.ascii_of_nat 43) then match s' with EmptyString => None | _ => parse_digits 0 s' end
      else parse_digits 0 s
  end.

(** [str::strip_prefix] and [str::trim_start_matches]. *)
Fixpoint strip_prefix (p s : string) : option string :=
  match p, s with
  | EmptyString, _ => Some s
  | String c p, String d s => if Ascii.eqb c d then strip_prefix p s else None
  | _, EmptyString => None
  end.
Fixpoint trim_fuel (fuel : nat) (p s : string) : string :=
  match fuel with
  | 0%nat => s
  | Datatypes.S fuel => match strip_prefix p s with Some s' => trim_fuel fuel p s' | None => s end
  end.
Definition trim_start_matches (p s : string) : string := trim_fuel (Datatypes.S (String.length s)) p s.

(** ** Names of schemas *)

Definition EPOCH_SCHEMA_PREFIX : string := "rpc2a_epoch_".

(** [PostgresEpoch::build_schema_name],
    blockstore/src/block_stores/postgres/postgres_epoch.rs:5-11. *)
Definition build_schema_name (epoch : EpochRef) : string := EPOCH_SCHEMA_PREFIX ++ decimal (er_epoch epoch).

(** [PostgresEpoch::parse_epoch_from_schema_name],
    blockstore/src/block_stores/postgres/postgres_epoch.rs:33-37. *)
Definition parse_epoch_from_schema_name (schema_name : string) : outcome EpochRef :=
  let epoch_number_str := trim_start_matches EPOCH_SCHEMA_PREFIX schema_name in
  epoch ← unwrap (parse_u64 epoch_number_str);
  Done (mkEpochRef epoch).

(** ** Placeholders *)

(** The body of the inner loop: [PostgresSession::multiline_query],
    blockstore/src/block_stores/postgres/postgres_session.rs:96-105. *)
Definition push_arg (args row : nat) (types : list string) (st : string * Z) (i : nat) : outcome (string * Z) :=
  let '(query, arg_index) := st in
  query ← (if (row =? 0)%nat && negb (match types with [] => true | _ => false end)
           then ty ← unwrap (types !! i); Done (query ++ "($" ++ decimal arg_index ++ ")::" ++ ty)
           else Done (query ++ "$" ++ decimal arg_index));
  Done (if negb (i =? args - 1)%nat then query ++ "," else query, (arg_index +64 1)%rpc).

(** [for i in 0..n]. *)
Definition for_range {S} (n : nat) (f : S -> nat -> outcome S) (s : S) : outcome S :=
  foldl (fun acc i => s ← acc; f s i) (Done s) (seq 0 n).

(** [PostgresSession::multiline_query],
    blockstore/src/block_stores/postgres/postgres_session.rs:91-114. *)
Definition multiline_query (query : string) (args rows : nat) (types : list string) : outcome string :=
  st ← for_range rows (fun '(query, arg_index) row =>
         st ← for_range args (push_arg args row types) (query ++ "(", arg_index);
         let query := st.1 ++ ")" in
         Done (if negb (row =? rows - 1)%nat then query ++ "," else query, st.2)) (query, 1);
  Done st.1.

(** [PostgresSession::values_vecvec] and [PostgresSession::values_vec],
    blockstore/src/block_stores/postgres/postgres_session.rs:116-131. *)
Definition values_vecvec (args rows : nat) (types : list string) : outcome string := multiline_query EmptyString args rows types.
Definition values_vec (args : nat) (types : list string) : outcome string := multiline_query EmptyString args 1 types.

(** ** Configuration *)

(** [PostgresSessionSslConfig] and [PostgresSessionConfig],
    blockstore/src/block_stores/postgres/postgres_config.rs:5-16. *)
Record PostgresSessionSslConfig := mkSslConfig { ca_pem_b64 : string; client_pks_b64 : string; client_pks_pass : string }.
Record PostgresSessionConfig := mkSessionConfig { pg_config : string; pg_ssl : option PostgresSessionSslConfig }.

Definition env_var (env : gmap string string) (name : string) : result string string :=
  match env !! name with Some v => Ok v | None => Err name end.

(** [PostgresSessionConfig::new_from_env],
    blockstore/src/block_stores/postgres/postgres_config.rs:18-57; [ssl_disabled] is the
    driver's parser, asked for the mode of the connection. *)
Definition new_from_env (ssl_disabled : string -> result string bool) (env : gmap string string) :
    result string (option PostgresSessionConfig) :=
  match env !! "PG_ENABLED" with
  | None => Ok None
  | Some enable_pg =>
      if String.eqb enable_pg "true" then
        env_pg_config ← env_var env "PG_CONFIG";
        disabled ← ssl_disabled env_pg_config;
        ssl ← (if disabled : bool then Ok None
               else ca ← env_var env "CA_PEM_B64";
                    pks ← env_var env "CLIENT_PKS_B64";
                    pass ← env_var env "CLIENT_PKS_PASS";
                    Ok (Some (mkSslConfig ca pks pass)));
        Ok (Some (mkSessionConfig env_pg_config ssl))
      else Ok None
  end.

(** ** Cached sessions

    A session is the number of its connection.  A call of a cache waits for
    the lock, looks at the cached session while it holds the lock for
    reading, and replaces a broken one by a new one, for which it needs the
    lock for writing.  A task that waits to write blocks the readers that
    come after it. *)

Inductive CallState :=
| CallStart
| CallReading
| CallWaiting (new : Z)
| CallDone (session : Z)
| CallFailed.

Record SessionCache := mkSessionCache {
  sc_current : Z;
  sc_next : Z;
  sc_broken : gset Z;
  sc_calls : list CallState;
}.

(** A new call, the next step of a call (and whether a connection can be made
    then), a connection that breaks. *)
Inductive SessionEvent := BeginCall | AdvanceCall (i : nat) (connects : bool) | BreakSession (session : Z).

Definition is_waiting (c : CallState) : bool := match c with CallWaiting _ => true | _ => false end.
Definition is_reading (c : CallState) : bool := match c with CallReading => true | _ => false end.

Definition set_call (s : SessionCache) (i : nat) (c : CallState) : SessionCache :=
  mkSessionCache (sc_current s) (sc_next s) (sc_broken s) (<[i := c]> (sc_calls s)).

(** The first two steps of both caches: the lock, then the look at the
    session, with a new connection if it is broken. *)
Definition start_call (s : SessionCache) (i : nat) : SessionCache :=
  if existsb is_waiting (sc_calls s) then s else set_call s i CallReading.
Definition look_call (s : SessionCache) (i : nat) (connects : bool) : SessionCache :=
  if bool_decide (sc_current s ∈ sc_broken s) then
    if connects
    then mkSessionCache (sc_current s) (sc_next s + 1) (sc_broken s) (<[i := CallWaiting (sc_next s)]> (sc_calls s))
    else set_call s i CallFailed
  else set_call s i (CallDone (sc_current s)).
Definition replace_call (s : SessionCache) (i : nat) (new : Z) : SessionCache :=
  mkSessionCache new (sc_next s) (sc_broken s) (<[i := CallDone new]> (sc_calls s)).

(** [PostgresSessionCache::get_session],
    blockstore/src/block_stores/postgres/postgres_session.rs:241-251: the lock is given back before a
    connection is made. *)
Definition get_session_step (s : SessionCache) (i : nat) (connects : bool) : SessionCache :=
  match sc_calls s !! i with
  | Some CallStart => start_call s i
  | Some CallReading => look_call s i connects
  | Some (CallWaiting new) => if existsb is_reading (sc_calls s) then s else replace_call s i new
  | _ => s
  end.

(** [PostgresWriteSession::get_write_session],
    blockstore/src/block_stores/postgres/postgres_session.rs:285-299: the lock for reading is held
    until the call returns. *)
Definition get_write_session_step (s : SessionCache) (i : nat) (connects : bool) : SessionCache :=
  match sc_calls s !! i with
  | Some CallStart => start_call s i
  | Some CallReading => look_call s i connects
  | Some (CallWaiting new) =>
      if existsb (fun c => is_reading c || is_waiting c) (sc_calls s) then s else replace_call s i new
  | _ => s
  end.

Definition session_step (advance : SessionCache -> nat -> bool -> SessionCache) (s : SessionCache) (e : SessionEvent) :
    SessionCache :=
  match e with
  | BeginCall => mkSessionCache (sc_current s) (sc_next s) (sc_broken s) ((sc_calls s ++ [CallStart])%list)
  | AdvanceCall i connects => advance s i connects
  | BreakSession c => mkSessionCache (sc_current s) (sc_next s) ({[c]} ∪ sc_broken s) (sc_calls s)
  end.

(** ** Numbers and names *)

Lemma digit_of_digit d : 0 <= d < 10 -> digit_of (Ascii.ascii_of_nat (48 + Z.to_nat d)) = Some d.
Proof.
  intros Hd. unfold digit_of. rewrite Ascii.nat_ascii_embedding by lia.
  rewrite (proj2 (Z.leb_le _ _)), (proj2 (Z.leb_le _ _)) by lia. simpl. f_equal. lia.
Qed.

Lemma parse_decimal_fuel fuel : forall n acc, 0 <= n < 10 ^ Z.of_nat fuel -> n < u64_size -> (0 < fuel)%nat ->
  parse_digits 0 (decimal_fuel fuel n acc) = parse_digits n acc.
Proof.
  induction fuel as [|fuel IH]; intros n acc Hn Hu Hf; [lia|]. cbn [decimal_fuel].
  pose proof (Z.mod_pos_bound n 10). pose proof (Z.div_mod n 10).
  rewrite Nat2Z.inj_succ, Z.pow_succ_r in Hn by lia.
  destruct (n <? 10) eqn:E; bool_lia.
  - cbn [parse_digits]. rewrite digit_of_digit, Z.mod_small by lia. cbn [mbind option_bind].
    by rewrite (proj2 (Z.ltb_lt _ _)) by lia.
  - assert (0 < fuel)%nat by (destruct fuel; [simpl in Hn; lia|lia]).
    rewrite IH by first [lia | split; [apply Z.div_pos; lia|apply Z.div_lt_upper_bound; lia]].
    cbn [parse_digits]. rewrite digit_of_digit by lia. cbn [mbind option_bind].
    replace (n / 10 * 10 + n mod 10) with n by lia. by rewrite (proj2 (Z.ltb_lt _ _)) by lia.
Qed.

Lemma decimal_fuel_head fuel : forall n acc, (0 < fuel)%nat ->
  exists d s, 0 <= d < 10 /\ decimal_fuel fuel n acc = String (Ascii.ascii_of_nat (48 + Z.to_nat d)) s.
Proof.
  induction fuel as [|fuel IH]; intros n acc Hf; [lia|]. cbn [decimal_fuel]. pose proof (Z.mod_pos_bound n 10).
  destruct (n <? 10); [exists (n mod 10), acc; split; [lia|done]|].
  destruct fuel; [exists (n mod 10), acc; split; [lia|done]|]. apply IH. lia.
Qed.

Lemma digit_cases d : 0 <= d < 10 ->
  d = 0 \/ d = 1 \/ d = 2 \/ d = 3 \/ d = 4 \/ d = 5 \/ d = 6 \/ d = 7 \/ d = 8 \/ d = 9.
Proof. lia. Qed.

(** Printing then parsing a u64. *)
Lemma parse_decimal n : in_u64 n -> parse_u64 (decimal n) = Some n.
Proof.
  intros Hn. unfold decimal. destruct (decimal_fuel_head 20 n EmptyString ltac:(lia)) as (d & s & Hd & E).
  assert (parse_digits 0 (decimal_fuel 20 n EmptyString) = Some n) as Hp.
  { rewrite parse_decimal_fuel; [done|..]; unfold in_u64, u64_size in *; lia. }
  rewrite E in Hp |- *. unfold parse_u64. rewrite Hp.
  apply digit_cases in Hd. destruct_or! Hd; subst d; reflexivity.
Qed.

(** The name of an epoch's schema determines the epoch: parsing it gives
    back every epoch. *)
Theorem schema_name_roundtrip epoch :
  in_u64 (er_epoch epoch) -> parse_epoch_from_schema_name (build_schema_name epoch) = Done epoch.
Proof.
  intros He. unfold parse_epoch_from_schema_name, build_schema_name.
  assert (trim_start_matches EPOCH_SCHEMA_PREFIX (EPOCH_SCHEMA_PREFIX ++ decimal (er_epoch epoch)) = decimal (er_epoch epoch)) as ->.
  { unfold decimal. destruct (decimal_fuel_head 20 (er_epoch epoch) EmptyString ltac:(lia)) as (d & s & Hd & ->).
    apply digit_cases in Hd. destruct_or! Hd; subst d; reflexivity. }
  rewrite parse_decimal by done. by destruct epoch.
Qed.

Lemma schema_name_roundtrip_witness : parse_epoch_from_schema_name (build_schema_name (mkEpochRef 644)) = Done (mkEpochRef 644).
Proof. apply (schema_name_roundtrip (mkEpochRef 644)). vm_compute. intuition congruence. Defined.

(** ** Placeholders *)

Fixpoint join (sep : string) (l : list string) : string :=
  match l with
  | [] => EmptyString
  | x :: l' => match l' with [] => x | _ => x ++ sep ++ join sep l' end
  end.

(** The placeholder of argument [i] of a row, the [k]th of the statement. *)
Definition arg_text (row : nat) (types : list string) (k : Z) (i : nat) : string :=
  if (row =? 0)%nat then match types !! i with Some ty => "($" ++ decimal k ++ ")::" ++ ty | None => "$" ++ decimal k end
  else "$" ++ decimal k.
Definition row_text (args : nat) (types : list string) (row : nat) : string :=
  "(" ++ join "," ((fun i => arg_text row types (1 + Z.of_nat (row * args + i)) i) <$> seq 0 args) ++ ")".

Lemma string_app_assoc (a b c : string) : (a ++ b) ++ c = a ++ (b ++ c).
Proof. induction a as [|x a IH]; [done|]. cbn -[String.append]; unfold String.append; fold String.append. f_equal. exact IH. Qed.
Lemma string_app_nil (a : string) : a ++ EmptyString = a.
Proof. induction a as [|x a IH]; [done|]. cbn -[String.append]; unfold String.append; fold String.append. f_equal. exact IH. Qed.

(** A loop that writes a text per round, with a comma after all but the last,
    and counts in steps. *)
Lemma for_range_join n (f : string * Z -> nat -> outcome (string * Z)) (text : nat -> string) (step k0 : Z) q :
  (forall q i, (i < n)%nat ->
    f (q, k0 + step * Z.of_nat i) i =
    Done (if negb (i =? n - 1)%nat then (q ++ text i) ++ "," else q ++ text i, k0 + step * Z.of_nat (Datatypes.S i))) ->
  for_range n f (q, k0) = Done (q ++ join "," (text <$> seq 0 n), k0 + step * Z.of_nat n).
Proof.
  intros Hf. unfold for_range.
  enough (forall m a q, (a + m = n)%nat ->
    foldl (fun acc i => s ← acc; f s i) (Done (q, k0 + step * Z.of_nat a)) (seq a m) =
    Done (q ++ join "," (text <$> seq a m), k0 + step * Z.of_nat n)) as H.
  { specialize (H n 0%nat q eq_refl). by rewrite Z.mul_0_r, Z.add_0_r in H. }
  induction m as [|m IH]; intros a q' Ha.
  { simpl. rewrite string_app_nil. do 3 f_equal. lia. }
  cbn [seq foldl mbind outcome_bind]. rewrite Hf by lia. destruct (Nat.eqb_spec a (n - 1)) as [Hl|Hl]; cbn [negb].
  - assert (m = 0%nat) as -> by lia. cbn [seq foldl fmap list_fmap join]. do 3 f_equal. lia.
  - rewrite IH by lia. destruct m as [|m]; [lia|]. rewrite !string_app_assoc. done.
Qed.

Lemma push_arg_spec args row types q k i :
  types = [] \/ (args <= length types)%nat -> (i < args)%nat -> in_u64 (k + 1) ->
  push_arg args row types (q, k) i =
  Done (if negb (i =? args - 1)%nat then (q ++ arg_text row types k i) ++ "," else q ++ arg_text row types k i, k + 1).
Proof.
  intros Ht Hi Hk. unfold push_arg, arg_text.
  destruct (row =? 0)%nat; cbn [andb]; [|cbn [mbind outcome_bind]; by rewrite (wrap_u64_id (k + 1)) by done].
  destruct types as [|ty types]; cbn [negb].
  - rewrite lookup_nil. cbn [mbind outcome_bind]. by rewrite (wrap_u64_id (k + 1)) by done.
  - destruct Ht as [?|Ht]; [done|]. destruct (lookup_lt_is_Some_2 (ty :: types) i) as [t ->]; [lia|].
    cbn [unwrap mbind outcome_bind]. by rewrite (wrap_u64_id (k + 1)) by done.
Qed.

(** The loops write the placeholders of all rows, numbered from 1 without
    gaps, rows in parentheses and separated by commas, the first row with the
    types of the columns if there are any.  With fewer types than columns
    they panic. *)
Theorem multiline_query_spec query args rows types :
  (types = [] \/ (args <= length types)%nat) -> in_u64 (1 + Z.of_nat (rows * args)) ->
  multiline_query query args rows types = Done (query ++ join "," (row_text args types <$> seq 0 rows)).
Proof.
  intros Ht Hu. unfold multiline_query.
  rewrite (for_range_join rows _ (row_text args types) (Z.of_nat args)); [done|].
  intros q row Hrow. cbn beta iota.
  rewrite (for_range_join args _ (fun i => arg_text row types (1 + Z.of_nat (row * args + i)) i) 1).
  - cbn [mbind outcome_bind fst snd]. unfold row_text. rewrite !string_app_assoc. do 2 f_equal. lia.
  - intros q' i Hi. replace (1 + Z.of_nat args * Z.of_nat row + 1 * Z.of_nat i) with (1 + Z.of_nat (row * args + i)) by lia.
    rewrite push_arg_spec; [do 2 f_equal; lia|done|done|]. unfold in_u64 in *. nia.
Qed.

Lemma multiline_query_spec_witness :
  multiline_query "VALUES " 3 2 ["text"; "int"; "int"] =
  Done ("VALUES " ++ join "," (row_text 3 ["text"; "int"; "int"] <$> seq 0 2)) /\
  multiline_query "VALUES " 3 2 ["text"; "int"; "int"] = Done "VALUES (($1)::text,($2)::int,($3)::int),($4,$5,$6)" /\
  multiline_query "VALUES " 3 2 ["text"] = Panic.
Proof.
  split; [apply (multiline_query_spec "VALUES " 3 2 ["text"; "int"; "int"])|by vm_compute].
  - right. simpl. lia.
  - vm_compute. intuition congruence.
Defined.

(** ** Cached sessions *)

Lemma existsb_lookup {A} (p : A -> bool) (l : list A) i x : l !! i = Some x -> p x = true -> existsb p l = true.
Proof.
  intros Hl Hp. apply existsb_exists. exists x. split; [|done]. apply list_elem_of_In. by eapply list_elem_of_lookup_2.
Qed.

(** While a call of the write session waits, it keeps waiting and no other
    call starts. *)
Lemma write_session_stuck s i new e :
  sc_calls s !! i = Some (CallWaiting new) ->
  let s' := session_step get_write_session_step s e in
  sc_calls s' !! i = Some (CallWaiting new) /\
  forall k, (forall c, sc_calls s !! k = Some c -> c = CallStart) -> forall c, sc_calls s' !! k = Some c -> c = CallStart.
Proof.
  intros Hi. pose proof (existsb_lookup is_waiting _ _ _ Hi eq_refl) as Hw.
  assert (existsb (fun c => is_reading c || is_waiting c) (sc_calls s) = true) as Hrw by (by eapply existsb_lookup).
  destruct e as [|j b|c]; simpl.
  - split; [by rewrite lookup_app_l by (by eapply lookup_lt_Some)|]. intros k Hk c Hc.
    apply lookup_app_Some in Hc as [Hc|[_ Hc]]; [by apply Hk|].
    by apply list_lookup_singleton_Some in Hc as [_ <-].
  - unfold get_write_session_step. destruct (sc_calls s !! j) as [[| |n| |]|] eqn:Ej; try done.
    + unfold start_call. by rewrite Hw.
    + assert (i <> j) by congruence.
      assert (forall c, sc_calls (set_call s j c) !! i = Some (CallWaiting new) /\
                forall k, (forall c, sc_calls s !! k = Some c -> c = CallStart) ->
                forall c', sc_calls (set_call s j c) !! k = Some c' -> c' = CallStart) as Hset.
      { intros c. simpl. split; [by rewrite list_lookup_insert_ne|]. intros k Hk c'.
        destruct (decide (j = k)) as [<-|]; [by specialize (Hk _ Ej)|]. rewrite list_lookup_insert_ne by done. apply Hk. }
      unfold look_call. destruct (bool_decide _), b; apply Hset.
    + by rewrite Hrw.
  - done.
Qed.

(** Once a call of the write session finds the session broken and makes a
    new connection, it waits for the lock it holds itself: whatever happens
    afterwards it does not return, and no call that had not started returns
    either. *)
Theorem write_session_never_returns s i evs :
  sc_calls s !! i = Some CallReading -> sc_current s ∈ sc_broken s ->
  let s' := foldl (session_step get_write_session_step) (get_write_session_step s i true) evs in
  sc_calls s' !! i = Some (CallWaiting (sc_next s)) /\
  forall k, (forall c, sc_calls s !! k = Some c -> c = CallStart) -> forall c, sc_calls s' !! k = Some c -> c = CallStart.
Proof.
  intros Hi Hb. unfold get_write_session_step, look_call. rewrite Hi, bool_decide_true by done.
  set (s0 := mkSessionCache _ _ _ _).
  assert (sc_calls s0 !! i = Some (CallWaiting (sc_next s))) as H0
    by (apply list_lookup_insert_eq; by eapply lookup_lt_Some).
  assert (forall k, (forall c, sc_calls s !! k = Some c -> c = CallStart) -> forall c, sc_calls s0 !! k = Some c -> c = CallStart) as H1.
  { intros k Hk c Hc. simpl in Hc. destruct (decide (i = k)) as [<-|]; [by specialize (Hk _ Hi)|].
    rewrite list_lookup_insert_ne in Hc by done. by apply Hk. }
  clearbody s0. revert s0 H0 H1. induction evs as [|e evs IH]; intros s0 H0 H1; [done|]. cbn [foldl].
  destruct (write_session_stuck s0 i (sc_next s) e H0) as [H2 H3]. apply IH; [done|]. intros k Hk. apply H3. by apply H1.
Qed.

Lemma write_session_never_returns_witness :
  let s := mkSessionCache 0 1 {[0]} [CallReading; CallStart] in
  let s' := foldl (session_step get_write_session_step) (get_write_session_step s 0 true) [AdvanceCall 1 true; AdvanceCall 0 true] in
  sc_calls s' !! 0%nat = Some (CallWaiting 1) /\
  forall k, (forall c, sc_calls s !! k = Some c -> c = CallStart) -> forall c, sc_calls s' !! k = Some c -> c = CallStart.
Proof.
  apply (write_session_never_returns (mkSessionCache 0 1 {[0]} [CallReading; CallStart]) 0 [AdvanceCall 1 true; AdvanceCall 0 true]).
  - done.
  - simpl. set_solver.
Defined.

(** The steps a call of the cache still has. *)
Definition rank (c : CallState) : nat := match c with CallStart => 3 | CallReading => 2 | CallWaiting _ => 1 | _ => 0 end.
Definition total_rank (s : SessionCache) : nat := sum_list_with rank (sc_calls s).

Lemma sum_list_insert (l : list CallState) i c c' :
  l !! i = Some c -> (sum_list_with rank (<[i := c']> l) + rank c = sum_list_with rank l + rank c')%nat.
Proof.
  revert i. induction l as [|x l IH]; intros [|i] Hi; simplify_eq/=; [lia|]. specialize (IH i Hi). lia.
Qed.

(** As long as a call is not over, one of them can take a step. *)
Lemma get_session_progress s :
  (0 < total_rank s)%nat -> exists i, (total_rank (get_session_step s i true) < total_rank s)%nat.
Proof.
  intros Hr. destruct (existsb is_reading (sc_calls s)) eqn:Er.
  { apply existsb_exists in Er as (c & Hc & Hcr). destruct c; try done. apply list_elem_of_In, list_elem_of_lookup_1 in Hc as [i Hi].
    exists i. unfold get_session_step, look_call. rewrite Hi. unfold total_rank.
    destruct (bool_decide _); simpl; match goal with |- context [<[i := ?c]> _] => pose proof (sum_list_insert _ i _ c Hi) end; simpl in *; lia. }
  destruct (existsb is_waiting (sc_calls s)) eqn:Ew.
  { apply existsb_exists in Ew as (c & Hc & Hcr). destruct c as [| |new| |]; try done.
    apply list_elem_of_In, list_elem_of_lookup_1 in Hc as [i Hi]. exists i. unfold get_session_step, total_rank. rewrite Hi, Er. simpl.
    pose proof (sum_list_insert _ i _ (CallDone new) Hi). simpl in *. lia. }
  assert (exists i, sc_calls s !! i = Some CallStart) as [i Hi].
  { assert (exists c, c ∈ sc_calls s /\ (0 < rank c)%nat) as (c & Hc & Hrank).
    { clear Er Ew. unfold total_rank in Hr. induction (sc_calls s) as [|c l IH]; simpl in *; [lia|].
      destruct (decide (0 < rank c)%nat); [by exists c; set_solver|]. destruct IH as (c' & ? & ?); [lia|]. exists c'. set_solver. }
    apply list_elem_of_lookup_1 in Hc as [i Hi]. exists i. rewrite Hi. destruct c; try (simpl in Hrank; lia); [done| |].
    - by rewrite (existsb_lookup is_reading _ _ _ Hi eq_refl) in Er.
    - by rewrite (existsb_lookup is_waiting _ _ _ Hi eq_refl) in Ew. }
  exists i. unfold get_session_step, start_call, total_rank. rewrite Hi, Ew. simpl.
  pose proof (sum_list_insert _ i _ CallReading Hi). simpl in *. lia.
Qed.

(** The calls of the session cache never block one another: in every
    state there are at most three steps per call after which each has
    returned. *)
Theorem session_cache_calls_return s :
  exists order, (length order <= 3 * length (sc_calls s))%nat /\
    Forall (fun c => match c with CallDone _ | CallFailed => True | _ => False end)
      (sc_calls (foldl (fun s i => get_session_step s i true) s order)).
Proof.
  assert (total_rank s <= 3 * length (sc_calls s))%nat as Hb.
  { unfold total_rank. induction (sc_calls s) as [|c l IH]; simpl; [lia|]. destruct c; simpl; lia. }
  enough (exists order, (length order <= total_rank s)%nat /\
    Forall (fun c => match c with CallDone _ | CallFailed => True | _ => False end)
      (sc_calls (foldl (fun s i => get_session_step s i true) s order))) as (order & Hl & H) by (exists order; split; [lia|done]).
  clear Hb. remember (total_rank s) as n eqn:Hn. revert s Hn. induction (lt_wf n) as [n _ IH]. intros s ->.
  destruct (decide (0 < total_rank s)%nat) as [Hr|Hr].
  - destruct (get_session_progress s Hr) as [i Hi]. destruct (IH _ Hi _ eq_refl) as (order & Hl & H).
    exists (i :: order). split; [simpl; lia|done].
  - exists []. split; [simpl; lia|]. unfold total_rank in Hr. simpl. clear IH. induction (sc_calls s) as [|c l IH]; [constructor|].
    simpl in Hr. constructor; [destruct c; simpl in Hr; try done; lia|apply IH; lia].
Qed.
