(* ===== verification/Bridge.v ===== *)
(** * The RPC server

    lite-rpc/src/bridge.rs ([LiteBridge]) and bridge_pubsub.rs
    ([LitePubSubBridge]): the handlers of the JSON RPC methods and the tasks
    of the subscriptions, composed from the stores and services of the other
    files; the calculation method of the prioritization fees
    (prioritization_fees/src/prioritization_fee_calculation_method.rs).

    The handlers read shared stores; each is modelled on the state it reads.
    Methods the server does not implement answer [MethodNotFound].  The SDK's
    parsers and encodings are the fields of [BridgeSdk]. *)

From S2P Require Import Prelude BTreeMap Types BlockInfoStore LeaderSchedule DataCache TxService AccountStore.
From S2P Require Import AccountService BlockMapping PrioFees PgSession.

Open Scope Z_scope.

(** The error codes of the JSON RPC library. *)
Inductive ErrorCode :=
| MethodNotFound
| InvalidParams
| InternalError
| OversizedRequest
| ServerError (code : Z).

(** [RpcErrors], lite-rpc/src/rpc_errors.rs:1-6. *)
Definition RPC_ACCOUNT_NOT_FOUND : Z := 0.

(** The response with the slot it is about. *)
Record RpcResponse (A : Type) := mkResponse { rs_slot : Slot; rs_value : A }.
Arguments mkResponse {A} rs_slot rs_value.
Arguments rs_slot {A} _.
Arguments rs_value {A} _.

(** ** The calculation method of the fees *)

(** [PrioritizationFeeCalculationMethod],
    prioritization_fees/src/prioritization_fee_calculation_method.rs:3-10. *)
Inductive PrioritizationFeeCalculationMethod := MethodLatest | LastNBlocks (n : Z) | MethodUnknown.

(** [str::replace] by the empty string, of a string that is not empty. *)
Fixpoint remove_all_fuel (fuel : nat) (pat s : string) : string :=
  match fuel with
  | 0%nat => s
  | Datatypes.S fuel =>
      match strip_prefix pat s with
      | Some rest => remove_all_fuel fuel pat rest
      | None => match s with EmptyString => EmptyString | String c s' => String c (remove_all_fuel fuel pat s') end
      end
  end.
Definition remove_all (pat s : string) : string := remove_all_fuel (Datatypes.S (String.length s)) pat s.
Definition starts_with (pat s : string) : bool := match strip_prefix pat s with Some _ => true | None => false end.

(** [PrioritizationFeeCalculationMethod::deserialize], of a string,
    prioritization_fees/src/prioritization_fee_calculation_method.rs:12-34. *)
Definition parse_method (s : string) : PrioritizationFeeCalculationMethod :=
  if String.eqb s "latest" then MethodLatest
  else if starts_with "last_n_blocks" s then
    match parse_u64 (remove_all ")" (remove_all "last_n_blocks(" s)) with
    | Some nb => LastNBlocks nb
    | None => MethodUnknown
    end
  else MethodUnknown.

(** ** The server *)

(** [UiTransactionEncoding] and [TransactionBinaryEncoding] of the SDK. *)
Inductive UiTransactionEncoding := UteBinary | UteBase64 | UteBase58 | UteJson | UteJsonParsed.
Inductive TransactionBinaryEncoding := TbeBase58 | TbeBase64.

Record BridgeSdk := mkBridgeSdk {
  sdk_pubkey_from_str : string -> option Pubkey;
  sdk_signature_from_str : string -> option Signature;
  sdk_signature_to_string : Signature -> string;
  sdk_hash_to_string : Hash -> string;
  sdk_base58 : string -> option (list Z);
  sdk_base64 : string -> option (list Z);
  sdk_into_binary_encoding : UiTransactionEncoding -> option TransactionBinaryEncoding;
  sdk_deserialize : list Z -> result string VersionedTransaction;
  sdk_budget_id : Pubkey;
  sdk_parse_budget : list Z -> option ComputeBudgetInstruction;
}.

(** The configurations, as far as the handlers read them. *)
Record RpcContextConfig := mkContextConfig { ctx_commitment : option CommitmentConfig; ctx_min_context_slot : option Slot }.
Record RpcSendTransactionConfig := mkSendConfig {
  snd_encoding : option UiTransactionEncoding;
  snd_max_retries : option Z;
}.

Definition u64_top : Z := u64_max.
Definition MAX_BASE58_SIZE : Z := 1683.
Definition MAX_BASE64_SIZE : Z := 1644.
Definition PACKET_DATA_SIZE : Z := 1232.

Section bridge.
Context (sdk : BridgeSdk).
Context {S : Type} `{AccountStorage S} {UiAccount : Type}.
Context (base64 : Z) (encode_ui_account : Pubkey -> Account -> Z -> option (Z * Z) -> UiAccount).
Context (ui_lamports : UiAccount -> Z).

(** [LiteBridge], lite-rpc/src/bridge.rs:64-74. *)
Record LiteBridge := mkBridge {
  lb_data_cache : DataCache;
  lb_transaction_service : TransactionService;
  lb_prio_fees : list (Z * BlockPrioData);
  lb_account_priofees : AccountPrioStore;
  lb_accounts : option S;
}.

Definition latest (b : LiteBridge) (c : CommitmentConfig) : BlockInformation :=
  get_latest_block_information (block_information_store (lb_data_cache b)) c.

(** [LiteBridge::get_block], lite-rpc/src/bridge.rs:100-113, and likewise
    [get_blocks], [get_signatures_for_address], [get_first_available_block],
    [request_airdrop] and [get_vote_accounts]. *)
Definition rpc_get_block {A} (slot : Slot) : result ErrorCode A := Err MethodNotFound.

(** [LiteBridge::get_cluster_nodes], lite-rpc/src/bridge.rs:134-142. *)
Definition rpc_get_cluster_nodes (b : LiteBridge) : result ErrorCode (list RpcContactInfo) :=
  Ok (map_to_list (cluster_info (lb_data_cache b))).*2.

(** [LiteBridge::get_slot], lite-rpc/src/bridge.rs:144-155. *)
Definition rpc_get_slot (b : LiteBridge) (config : option RpcContextConfig) : result ErrorCode Slot :=
  let commitment_config := default cc_default ((fun c => default cc_default (ctx_commitment c)) <$> config) in
  Ok (binf_slot (latest b commitment_config)).

(** [LiteBridge::get_block_height], lite-rpc/src/bridge.rs:157-167. *)
Definition rpc_get_block_height (b : LiteBridge) (config : option RpcContextConfig) : result ErrorCode Z :=
  let commitment_config := match config with None => cc_finalized | Some x => default cc_default (ctx_commitment x) end in
  Ok (binf_block_height (latest b commitment_config)).

(** [LiteBridge::get_block_time], lite-rpc/src/bridge.rs:169-178. *)
Definition rpc_get_block_time (b : LiteBridge) (slot : Slot) : result ErrorCode Z :=
  match get_block_info_by_slot (block_information_store (lb_data_cache b)) slot with
  | Some info => Ok (binf_block_time info)
  | None => Err InvalidParams
  end.

(** [LiteBridge::get_latest_blockhash], lite-rpc/src/bridge.rs:185-218. *)
Definition rpc_get_latest_blockhash (b : LiteBridge) (config : option RpcContextConfig) :
    result ErrorCode (RpcResponse (string * Z)) :=
  let commitment_config := default cc_default ((fun c => default cc_confirmed (ctx_commitment c)) <$> config) in
  let info := latest b commitment_config in
  Ok (mkResponse (binf_slot info)
        (sdk_hash_to_string sdk (binf_blockhash info), (binf_block_height info +64 150)%rpc)).

(** [LiteBridge::is_blockhash_valid], lite-rpc/src/bridge.rs:220-246. *)
Definition rpc_is_blockhash_valid (b : LiteBridge) (blockhash : string) (config : option (option CommitmentLevel)) :
    outcome (result ErrorCode (RpcResponse bool)) :=
  let commitment := mkCommitmentConfig (default (cc_commitment cc_default) (default None config)) in
  hash ← expect_ok (hash_from_str (sdk_base58 sdk) blockhash);
  let '(is_valid, slot) := is_blockhash_valid (block_information_store (lb_data_cache b)) hash commitment in
  Done (Ok (mkResponse slot is_valid)).

(** [LiteBridge::get_epoch_info], lite-rpc/src/bridge.rs:248-265. *)
Definition rpc_get_epoch_info (b : LiteBridge) (config : option RpcContextConfig) : result ErrorCode EpochInfo :=
  let commitment_config := default cc_default ((fun c => default cc_default (ctx_commitment c)) <$> config) in
  let block_info := latest b commitment_config in
  Ok (as_epoch_info (get_current_epoch (lb_data_cache b) commitment_config) (binf_block_height block_info) None).

(** [LiteBridge::get_signature_statuses], lite-rpc/src/bridge.rs:279-304. *)
Definition rpc_get_signature_statuses (b : LiteBridge) (sigs : list string) :
    outcome (result ErrorCode (RpcResponse (list (option TransactionStatus)))) :=
  statuses ← mapM (fun s => sig ← unwrap (sdk_signature_from_str sdk s);
                            Done (v ← txs_get (txs (lb_data_cache b)) sig; txp_status v)) sigs;
  Done (Ok (mkResponse (binf_slot (latest b cc_finalized)) statuses)).

Definition pair_max (p : Z * Z) : Z := Z.max p.1 p.2.

(** [LiteBridge::get_recent_prioritization_fees], lite-rpc/src/bridge.rs:306-345. *)
Definition rpc_get_recent_prioritization_fees (b : LiteBridge) (pubkey_strs : list string) :
    outcome (result ErrorCode (list (Slot * Z))) :=
  let accounts := omap (sdk_pubkey_from_str sdk) pubkey_strs in
  if negb (length accounts =? length pubkey_strs)%nat then Done (Err InvalidParams)
  else
    global_prio_fees ← get_latest_priofees (lb_prio_fees b);
    max_p75 ← match global_prio_fees with
              | Some (_, fees) => p ← get_percentile fees 75; Done (pair_max (default (0, 0) p))
              | None => Done 0
              end;
    ret ← mapM (fun account =>
            '(slot, stats) ← get_latest_stats (lb_account_priofees b) account;
            p ← get_percentile (all_stats stats) 75;
            Done (slot, Z.max max_p75 (pair_max (default (0, 0) p)))) accounts;
    Done (Ok ret).

(** [LiteBridge::send_transaction], lite-rpc/src/bridge.rs:347-412. *)
Definition rpc_send_transaction (b : LiteBridge) (now : Z) (tx : string) (config : option RpcSendTransactionConfig) :
    outcome (result ErrorCode string * list send_effect) :=
  let encoding := default UteBase58 (c ← config; snd_encoding c) in
  let len := Z.of_nat (String.length tx) in
  let expected_size := match encoding with UteBase58 => MAX_BASE58_SIZE | UteBase64 => MAX_BASE64_SIZE | _ => u64_top end in
  if expected_size <? len then Done (Err OversizedRequest, [])
  else
    let wire_output :=
      match sdk_into_binary_encoding sdk encoding with
      | None => Err InvalidParams
      | Some TbeBase58 =>
          if MAX_BASE58_SIZE <? len then Err OversizedRequest
          else match sdk_base58 sdk tx with Some w => Ok w | None => Err InvalidParams end
      | Some TbeBase64 =>
          if MAX_BASE64_SIZE <? len then Err OversizedRequest
          else match sdk_base64 sdk tx with Some w => Ok w | None => Err InvalidParams end
      end in
    match wire_output with
    | Err e => Done (Err e, [])
    | Ok w =>
        if PACKET_DATA_SIZE <? Z.of_nat (length w) then Done (Err OversizedRequest, [])
        else
          let max_retries := wrap_u16 <$> (c ← config; snd_max_retries c) in
          '(r, out) ← send_wire_transaction (sdk_deserialize sdk) (sdk_budget_id sdk) (sdk_parse_budget sdk)
                        (lb_transaction_service b) (block_information_store (lb_data_cache b)) now w max_retries;
          Done (match r with Ok sig => Ok (sdk_signature_to_string sdk sig) | Err _ => Err InternalError end, out)
    end.

(** [LiteBridge::get_leader_schedule], lite-rpc/src/bridge.rs:434-448. *)
Definition rpc_get_leader_schedule (b : LiteBridge) (slot : option Slot) (config : option (option CommitmentConfig)) :
    result ErrorCode (option (gmap string (list Z))) :=
  Ok (get_leader_schedule_for_slot (leader_schedule (lb_data_cache b)) slot (default None config)
        (block_information_store (lb_data_cache b)) (epoch_data (lb_data_cache b))).

(** [LiteBridge::get_slot_leaders], lite-rpc/src/bridge.rs:450-463. *)
Definition rpc_get_slot_leaders (b : LiteBridge) (start_slot : Slot) (limit : Z) : result ErrorCode (list Pubkey) :=
  match get_slot_leaders (leader_schedule (lb_data_cache b)) start_slot limit (epoch_data (lb_data_cache b)) with
  | Ok l => Ok l
  | Err _ => Err InternalError
  end.

(** [LiteBridge::get_latest_block_priofees], lite-rpc/src/bridge.rs:473-503. *)
Definition rpc_get_latest_block_priofees (b : LiteBridge) (method : option PrioritizationFeeCalculationMethod) :
    outcome (result ErrorCode (RpcResponse PrioFeesStats)) :=
  let answer (res : option (Slot * PrioFeesStats)) : result ErrorCode (RpcResponse PrioFeesStats) :=
    match res with Some (slot, fees) => Ok (mkResponse slot fees) | None => Err InternalError end in
  match default MethodLatest method with
  | MethodLatest => res ← get_latest_priofees (lb_prio_fees b); Done (answer res)
  | LastNBlocks nb => res ← get_last_n_priofees_aggregate (lb_prio_fees b) (Z.to_nat nb); Done (answer res)
  | MethodUnknown => Done (Err InvalidParams)
  end.

(** [LiteBridge::get_latest_account_priofees], lite-rpc/src/bridge.rs:505-532. *)
Definition rpc_get_latest_account_priofees (b : LiteBridge) (account : string)
    (method : option PrioritizationFeeCalculationMethod) : outcome (result ErrorCode (RpcResponse AccountPrioFeesStats)) :=
  match sdk_pubkey_from_str sdk account with
  | None => Done (Err InvalidParams)
  | Some account =>
      match default MethodLatest method with
      | MethodLatest => '(slot, value) ← get_latest_stats (lb_account_priofees b) account; Done (Ok (mkResponse slot value))
      | LastNBlocks nb =>
          '(slot, value) ← get_n_last_stats (lb_account_priofees b) account (Z.to_nat nb); Done (Ok (mkResponse slot value))
      | MethodUnknown => Done (Err InternalError)
      end
  end.

(** The calls that read accounts also give the storage afterwards: a storage
    may load what it is asked for. *)
Abbreviation get_account := (service_get_account base64 encode_ui_account).

(** [LiteBridge::get_account_info], lite-rpc/src/bridge.rs:534-573. *)
Definition rpc_get_account_info (b : LiteBridge) (pubkey_str : string) (config : option RpcAccountInfoConfig) :
    outcome (result ErrorCode (RpcResponse (option UiAccount)) * option S) :=
  match sdk_pubkey_from_str sdk pubkey_str with
  | None => Done (Err InvalidParams, lb_accounts b)
  | Some pubkey =>
      match lb_accounts b with
      | None => Done (Err MethodNotFound, None)
      | Some s =>
          let commitment := default cc_default (c ← config; ac_commitment c) in
          let slot := binf_slot (latest b commitment) in
          '(r, s') ← get_account s pubkey config;
          Done (match r with
                | Ok (_, ui_account) => Ok (mkResponse slot ui_account)
                | Err _ => Err (ServerError RPC_ACCOUNT_NOT_FOUND)
                end, Some s')
      end
  end.

(** The loop of [LiteBridge::get_multiple_accounts], lite-rpc/src/bridge.rs:590-602. *)
Fixpoint get_accounts_loop (s : S) (pubkeys : list (option Pubkey)) (config : option RpcAccountInfoConfig) :
    outcome (list (option UiAccount) * S) :=
  match pubkeys with
  | [] => Done ([], s)
  | pk :: rest =>
      pubkey ← unwrap pk;
      '(r, s1) ← get_account s pubkey config;
      '(l, s2) ← get_accounts_loop s1 rest config;
      Done (match r with Ok (_, ui_account) => ui_account | Err _ => None end :: l, s2)
  end.

(** [LiteBridge::get_multiple_accounts], lite-rpc/src/bridge.rs:575-624. *)
Definition rpc_get_multiple_accounts (b : LiteBridge) (pubkey_strs : list string) (config : option RpcAccountInfoConfig) :
    outcome (result ErrorCode (RpcResponse (list (option UiAccount))) * option S) :=
  let pubkeys := sdk_pubkey_from_str sdk <$> pubkey_strs in
  if existsb (fun o => match o with None => true | _ => false end) pubkeys then Done (Err InternalError, lb_accounts b)
  else
    match lb_accounts b with
    | None => Done (Err MethodNotFound, None)
    | Some s =>
        '(ui_accounts, s') ← get_accounts_loop s pubkeys config;
        let commitment := default cc_default (c ← config; ac_commitment c) in
        let slot := binf_slot (latest b commitment) in
        if (length ui_accounts =? length pubkey_strs)%nat then Done (Ok (mkResponse slot ui_accounts), Some s')
        else Panic
    end.

(** [LiteBridge::get_program_accounts], lite-rpc/src/bridge.rs:626-678; the slot
    is there if the configuration asks for it. *)
Definition rpc_get_program_accounts (b : LiteBridge) (program_id_str : string) (config : option RpcProgramAccountsConfig) :
    outcome (result ErrorCode (option Slot * list (Pubkey * UiAccount)) * option S) :=
  match sdk_pubkey_from_str sdk program_id_str with
  | None => Done (Err InternalError, lb_accounts b)
  | Some program_id =>
      let with_context := default false ((fun c => default false (pc_with_context c)) <$> config) in
      let commitment := default cc_default (c ← config; ac_commitment (pc_account_config c)) in
      let slot := binf_slot (latest b commitment) in
      match lb_accounts b with
      | None => Done (Err MethodNotFound, None)
      | Some s =>
          '(r, s') ← service_get_program_accounts base64 encode_ui_account s program_id config;
          Done (match r with
                | Ok (_, ui_account) => Ok (if with_context then Some slot else None, ui_account)
                | Err _ => Err (ServerError RPC_ACCOUNT_NOT_FOUND)
                end, Some s')
      end
  end.

(** [LiteBridge::get_balance], lite-rpc/src/bridge.rs:680-727. *)
Definition rpc_get_balance (b : LiteBridge) (pubkey_str : string) (config : option RpcContextConfig) :
    outcome (result ErrorCode (RpcResponse Z) * option S) :=
  match sdk_pubkey_from_str sdk pubkey_str with
  | None => Done (Err InvalidParams, lb_accounts b)
  | Some pubkey =>
      let config := (fun x => mkAccountInfoConfig None None (ctx_commitment x) (ctx_min_context_slot x)) <$> config in
      let commitment := default cc_default (c ← config; ac_commitment c) in
      let slot := binf_slot (latest b commitment) in
      match lb_accounts b with
      | None => Done (Err MethodNotFound, None)
      | Some s =>
          '(r, s') ← get_account s pubkey config;
          Done (match r with
                | Ok (_, ui_account) => Ok (mkResponse slot (default 0 (ui_lamports <$> ui_account)))
                | Err _ => Err (ServerError RPC_ACCOUNT_NOT_FOUND)
                end, Some s')
      end
  end.
End bridge.

(** ** Blockhashes *)

Section chain.
(** The chain: the slot of each blockhash and the block height at each slot. *)
Context (slot_of : Hash -> Slot) (height_at : Slot -> Z).
Context (height_mono : forall s1 s2, s1 <= s2 -> height_at s1 <= height_at s2).
Context (height_range : forall s, 0 <= height_at s /\ height_at s + 1000 < u64_size).

Definition on_chain (b : BlockInformation) : Prop :=
  binf_slot b = slot_of (binf_blockhash b) /\ binf_block_height b = height_at (binf_slot b) /\
  binf_last_valid_blockheight b = binf_block_height b + MAX_RECENT_BLOCKHASHES.

Record store_on_chain (s : BlockInformationStore) : Prop := {
  soc_blocks : map_Forall (fun k b => binf_blockhash b = k /\ on_chain b) (blocks s);
  soc_latest : forall c, on_chain (get_latest_block_information s c);
}.

(** The blocks an event brings are on the chain. *)
Definition event_on_chain (ev : caching_event) : Prop :=
  match ev with
  | EvBlock b =>
      pb_slot (pb_inner b) = slot_of (pb_blockhash (pb_inner b)) /\ pb_block_height (pb_inner b) = height_at (pb_slot (pb_inner b))
  | EvBlockInfo b => bi_slot b = slot_of (bi_blockhash b) /\ bi_block_height b = height_at (bi_slot b)
  | _ => True
  end.

Definition finalized_height (s : BlockInformationStore) : Z := binf_block_height (get_latest_block_information s cc_finalized).

(** [s'] follows [s]: it is on the chain, has finalized at least as much, and
    still knows every blockhash that is valid at what it has finalized. *)
Record follows (s s' : BlockInformationStore) : Prop := {
  fo_chain : store_on_chain s';
  fo_height : finalized_height s <= finalized_height s';
  fo_known : forall h b, blocks s !! h = Some b -> finalized_height s' <= binf_last_valid_blockheight b ->
    is_Some (blocks s' !! h);
}.

Lemma follows_refl s : store_on_chain s -> follows s s.
Proof. intros Hs. split; [done|lia|]. intros h b Hb _. by exists b. Qed.

Lemma known_height s h b1 b2 s' :
  store_on_chain s -> store_on_chain s' -> blocks s !! h = Some b1 -> blocks s' !! h = Some b2 ->
  binf_last_valid_blockheight b1 = binf_last_valid_blockheight b2.
Proof.
  intros Hs Hs' H1 H2. destruct (soc_blocks _ Hs _ _ H1) as (E1 & S1 & B1 & L1), (soc_blocks _ Hs' _ _ H2) as (E2 & S2 & B2 & L2).
  congruence.
Qed.

Lemma follows_trans s1 s2 s3 : store_on_chain s1 -> follows s1 s2 -> follows s2 s3 -> follows s1 s3.
Proof.
  intros H1 [C2 H2 K2] [C3 H3 K3]. split; [done|lia|]. intros h b Hb Hh. destruct (K2 h b Hb) as [b2 Hb2]; [lia|].
  apply (K3 h b2 Hb2). by rewrite <- (known_height s1 h b b2 s2 H1 C2 Hb Hb2).
Qed.

Lemma latest_height_mono s s' c :
  store_on_chain s -> store_on_chain s' ->
  binf_slot (get_latest_block_information s c) <= binf_slot (get_latest_block_information s' c) ->
  binf_block_height (get_latest_block_information s c) <= binf_block_height (get_latest_block_information s' c).
Proof.
  intros Hs Hs' Hle. destruct (soc_latest _ Hs c) as (_ & -> & _), (soc_latest _ Hs' c) as (_ & -> & _). by apply height_mono.
Qed.

Lemma add_block_follows s b : store_on_chain s -> on_chain b -> follows s (add_block s b).2.
Proof.
  intros Hs Hb. assert (store_on_chain (add_block s b).2) as Hs'.
  { split.
    - unfold add_block, update_entry, set_latest. cases; simpl; try apply Hs; apply map_Forall_insert_2; first [done | apply Hs].
    - intros c. unfold add_block. rewrite update_entry_latest. unfold get_latest_block_information, set_latest.
      pose proof (soc_latest _ Hs cc_confirmed). pose proof (soc_latest _ Hs cc_finalized). cases; done. }
  split; [done| |].
  - unfold finalized_height. apply latest_height_mono; [done|done|]. rewrite add_block_latest. destruct (Bool.eqb _ _); lia.
  - intros h b' Hh _. unfold add_block. set (s2 := if binf_slot _ <? _ then _ else _).
    assert (blocks s2 = blocks s) as Hb2 by (subst s2; unfold set_latest; by cases).
    rewrite <- Hb2 in Hh. destruct (update_entry_le s2 b h b' Hh) as (b2 & -> & _). by exists b2.
Qed.

Lemma clean_follows s : store_on_chain s -> follows s (bis_clean s).
Proof.
  intros Hs. split.
  - split; [|apply Hs]. intros k b [Hb _]%map_lookup_filter_Some. by apply Hs.
  - apply Z.le_refl.
  - intros h b Hb Hh. exists b. by apply map_lookup_filter_Some.
Qed.

Lemma wrap_height s n : 0 <= n <= 1000 -> (height_at s +64 n)%rpc = height_at s + n.
Proof. intros Hn. apply wrap_u64_id. pose proof (height_range s). unfold in_u64. lia. Qed.

Lemma from_block_on_chain b : event_on_chain (EvBlock b) -> on_chain (from_block b).
Proof. intros [H1 H2]. split_and!; [done|done|]. simpl. rewrite H2. apply wrap_height. unfold MAX_RECENT_BLOCKHASHES. lia. Qed.
Lemma from_block_info_on_chain b : event_on_chain (EvBlockInfo b) -> on_chain (from_block_info b).
Proof. intros [H1 H2]. split_and!; [done|done|]. simpl. rewrite H2. apply wrap_height. unfold MAX_RECENT_BLOCKHASHES. lia. Qed.

Lemma cache_block_bis d b : block_information_store (cache_block d b).1 = (add_block (block_information_store d) (from_block b)).2.
Proof.
  unfold cache_block. apply (cache_transactions_inv (fun d' => block_information_store d' = _)); [|done].
  intros d' out tx Hd. destruct (cache_transaction_proj b d' out tx) as (d'' & -> & Hb & _). simpl. by rewrite Hb.
Qed.

Section caching.
Context (pubkey_from_str : string -> option Pubkey) (identity : string) (sink_closed : Z -> bool) (clean_duration : Z).
Abbreviation step := (caching_step pubkey_from_str identity sink_closed clean_duration).

Lemma caching_step_follows d ev :
  store_on_chain (block_information_store d) -> event_on_chain ev ->
  follows (block_information_store d) (block_information_store (step d ev).1).
Proof.
  intros Hd He. destruct ev; simpl; try (by apply follows_refl).
  - rewrite cache_block_bis. by apply add_block_follows, from_block_on_chain.
  - by apply add_block_follows, from_block_info_on_chain.
  - by apply clean_follows.
Qed.

Lemma caching_run_follows d evs :
  store_on_chain (block_information_store d) -> Forall event_on_chain evs ->
  follows (block_information_store d) (block_information_store (run step d evs).1).
Proof.
  intros Hd Hevs. revert d Hd. induction Hevs as [|e evs He Hevs IH]; intros d Hd; cbn [run]; [by apply follows_refl|].
  pose proof (caching_step_follows d e Hd He) as H1. destruct (step d e) as [d1 o1]. simpl in H1.
  specialize (IH d1 (fo_chain _ _ H1)). destruct (run step d1 evs) as [d2 o2]. simpl in *. by eapply follows_trans.
Qed.
End caching.
End chain.

(** A blockhash the server announced is still valid for it as long as
    neither the finalized height nor the height of the commitment asked for
    has passed the last valid height announced with it, whatever blocks of
    the chain, slots and cleanings were processed in between. *)
Theorem announced_blockhash_stays_valid (sdk : BridgeSdk) {S : Type} (slot_of : Hash -> Slot) (height_at : Slot -> Z)
    pubkey_from_str identity sink_closed clean_duration (b b' : LiteBridge (S := S)) config evs level r :
  (forall s1 s2, s1 <= s2 -> height_at s1 <= height_at s2) ->
  (forall s, 0 <= height_at s /\ height_at s + 1000 < u64_size) ->
  (forall h, is_Some (blocks (block_information_store (lb_data_cache b)) !! h) ->
     hash_from_str (sdk_base58 sdk) (sdk_hash_to_string sdk h) = Ok h) ->
  store_on_chain slot_of height_at (block_information_store (lb_data_cache b)) ->
  Forall (event_on_chain slot_of height_at) evs ->
  lb_data_cache b' = (run (caching_step pubkey_from_str identity sink_closed clean_duration) (lb_data_cache b) evs).1 ->
  is_Some (blocks (block_information_store (lb_data_cache b)) !!
    binf_blockhash (latest b (default cc_default ((fun c => default cc_confirmed (ctx_commitment c)) <$> config)))) ->
  rpc_get_latest_blockhash sdk b config = Ok r ->
  finalized_height (block_information_store (lb_data_cache b')) <= (rs_value r).2 ->
  binf_block_height (latest b' (mkCommitmentConfig level)) <= (rs_value r).2 ->
  exists slot, rpc_is_blockhash_valid sdk b' (rs_value r).1 (Some (Some level)) = Done (Ok (mkResponse slot true)).
Proof.
  intros Hmono Hrange Hsdk Hs Hevs Hd' Hknown Hr Hfin Hlat. unfold rpc_get_latest_blockhash in Hr.
  set (c := default cc_default _) in Hr, Hknown. injection Hr as <-. simpl in *. destruct Hknown as [info Hinfo].
  set (s := block_information_store (lb_data_cache b)) in *. set (s' := block_information_store (lb_data_cache b')) in *.
  assert (follows slot_of height_at s s') as Hf by (subst s'; rewrite Hd'; by apply caching_run_follows).
  pose proof (soc_latest _ _ _ Hs c) as Hl. change (get_latest_block_information s c) with (latest b c) in Hl.
  destruct Hl as (S1 & H1 & L1).
  destruct (soc_blocks _ _ _ Hs _ _ Hinfo) as (E2 & S2 & H2 & L2).
  assert (binf_block_height info = binf_block_height (latest b c)) as Hh by congruence.
  rewrite H1, wrap_height in Hfin, Hlat by (done || lia). unfold MAX_RECENT_BLOCKHASHES in L2.
  destruct (fo_known _ _ _ _ Hf _ _ Hinfo) as [info' Hinfo']; [lia|].
  pose proof (known_height _ _ _ _ _ _ _ Hs (fo_chain _ _ _ _ Hf) Hinfo Hinfo') as Hlv.
  unfold rpc_is_blockhash_valid. rewrite Hsdk by (by exists info).
  cbn [expect_ok mbind outcome_bind default]. unfold is_blockhash_valid. fold s'. rewrite Hinfo'. eexists. do 3 f_equal.
  apply Z.leb_le. change (get_latest_block_information s' _) with (latest b' (mkCommitmentConfig level)). lia.
Qed.

(** ** Transactions *)

(** What [sendTransaction] puts on the channels: nothing when it answers
    with an error; when it answers with a signature, the transaction once for
    the sender, decoded from the request, within a packet, under that
    signature, with the expiry of its blockhash, and at most one entry for
    the replayer, of the same transaction. *)
Theorem send_transaction_effects (sdk : BridgeSdk) {S : Type} (b : LiteBridge (S := S)) now tx config r out :
  rpc_send_transaction sdk b now tx config = Done (r, out) ->
  match r with
  | Err _ => out = []
  | Ok sig =>
      exists info replays block, out = ToSender info :: replays /\ sig = sdk_signature_to_string sdk (si_signature info) /\
        (sdk_base58 sdk tx = Some (si_transaction info) \/ sdk_base64 sdk tx = Some (si_transaction info)) /\
        Z.of_nat (length (si_transaction info)) <= PACKET_DATA_SIZE /\
        block ∈ (map_to_list (blocks (block_information_store (lb_data_cache b)))).*2 /\
        si_last_valid_block_height info = binf_last_valid_blockheight block /\
        last_blockheight (block_information_store (lb_data_cache b)) <= si_last_valid_block_height info /\
        (replays = [] \/ exists n at_time, replays = [ToReplayer (mkTransactionReplay info 0 n at_time)])
  end.
Proof.
  unfold rpc_send_transaction. destruct (_ <? Z.of_nat (String.length tx)); [by intros [= <- <-]|].
  set (wire := match sdk_into_binary_encoding sdk _ with Some _ => _ | None => _ end).
  assert (forall w, wire = Ok w -> sdk_base58 sdk tx = Some w \/ sdk_base64 sdk tx = Some w) as Hwire.
  { intros w. subst wire. cases; naive_solver. }
  clearbody wire. destruct wire as [w|e]; [|by intros [= <- <-]]. specialize (Hwire w eq_refl).
  destruct (PACKET_DATA_SIZE <? Z.of_nat (length w)) eqn:Hlen; [by intros [= <- <-]|]. bool_lia.
  unfold send_wire_transaction. destruct (sdk_deserialize sdk w) as [vt|msg]; [|by intros [= <- <-]].
  destruct (head (vt_signatures vt)) as [sig|]; [|done]. cbn [unwrap mbind outcome_bind].
  unfold get_block_info. destruct (blocks _ !! _) as [info|] eqn:Hb; [|by intros [= <- <-]].
  destruct (binf_last_valid_blockheight info <? _) eqn:Hlv; [by intros [= <- <-]|]. unfold get_last_blockheight in Hlv. bool_lia.
  destruct (prioritization_fee_of _ _ _ _ _) as [fee|]; [|done]. cbn [mbind outcome_bind].
  destruct (tsv_channel_open _); [|by intros [= <- <-]]. intros [= <- <-]. eexists _, _, info. split; [reflexivity|].
  split_and!; simpl; try done.
  - apply list_elem_of_fmap. exists (vm_recent_blockhash (vt_message vt), info). split; [done|]. by apply elem_of_map_to_list.
  - destruct (tsv_replay_open _); [right|by left]. by eexists _, _.
Qed.

Lemma cache_transactions_status block sig l d out :
  (exists tx, tx ∈ l /\ ti_signature tx = sig) ->
  exists p st tx, txs (foldl (cache_transaction block) (d, out) l).1 !! sig = Some p /\ txp_status p = Some st /\
    tx ∈ l /\ ti_signature tx = sig /\ ts_slot st = pb_slot (pb_inner block) /\ ts_err st = ti_err tx /\
    ts_confirmation_status st = Some (confirmation_status_of (pb_commitment_config block)).
Proof.
  induction l as [|x l IH] using rev_ind; intros (tx & Hin & Hsig); [by apply not_elem_of_nil in Hin|].
  rewrite foldl_app. cbn [foldl]. destruct (foldl (cache_transaction block) (d, out) l) as [d' out'] eqn:E. simpl in IH.
  unfold cache_transaction. set (status := mkTransactionStatus _ _ _ _ _). set (lv := match get_block_info _ _ with Some _ => _ | None => _ end).
  rewrite (surjective_pairing (subs_notify _ _ _ _)). cbn [fst set_subs set_txs txs].
  destruct (decide (ti_signature x = sig)) as [Hx|Hx].
  - destruct (txs_update_status_eq (txs d') (ti_signature x) status lv) as (p & Hp & Hst & _).
    exists p, status, x. rewrite <- Hx. split_and!; try done. set_solver.
  - rewrite txs_update_status_ne by done. destruct IH as (p & st & tx' & H1 & H2 & H3 & H4).
    { exists tx. split; [|done]. apply elem_of_app in Hin as [?|?%list_elem_of_singleton]; [done|congruence]. }
    exists p, st, tx'. split_and!; [done|done|set_solver|apply H4..].
Qed.

(** Once a block with a transaction was processed, [getSignatureStatuses]
    answers for its signature with the slot and the commitment of that block
    and the error of the transaction, whatever the server knew before, and
    answers for each signature of the request in its place. *)
Theorem signature_status_after_block (sdk : BridgeSdk) {S : Type} (b : LiteBridge (S := S)) d block sigs keys i s sig :
  lb_data_cache b = (cache_block d block).1 -> mapM (sdk_signature_from_str sdk) sigs = Some keys ->
  sigs !! i = Some s -> keys !! i = Some sig -> sig ∈ ti_signature <$> pb_transactions (pb_inner block) ->
  exists r st tx, rpc_get_signature_statuses sdk b sigs = Done (Ok r) /\ length (rs_value r) = length sigs /\
    rs_value r !! i = Some (Some st) /\
    tx ∈ pb_transactions (pb_inner block) /\ ti_signature tx = sig /\ ts_err st = ti_err tx /\
    ts_slot st = pb_slot (pb_inner block) /\
    ts_confirmation_status st = Some (confirmation_status_of (pb_commitment_config block)).
Proof.
  intros Hd Hkeys Hs Hk (tx0 & -> & Htx0)%list_elem_of_fmap. unfold rpc_get_signature_statuses.
  assert (mapM (fun s => sig ← unwrap (sdk_signature_from_str sdk s);
                         Done (v ← txs_get (txs (lb_data_cache b)) sig; txp_status v)) sigs =
          Done ((fun k => v ← txs_get (txs (lb_data_cache b)) k; txp_status v) <$> keys)) as ->.
  { apply mapM_Some in Hkeys. clear Hs Hk. induction Hkeys as [|s' k l ks Hsk Hl IH]; [done|].
    cbn [mapM fmap list_fmap]. rewrite Hsk. cbn [unwrap mbind outcome_bind]. by rewrite IH. }
  cbn [mbind outcome_bind].
  destruct (cache_transactions_status block (ti_signature tx0) (pb_transactions (pb_inner block))
    (set_bis d (add_block (block_information_store d) (from_block block)).2) []) as (p & st & tx & H1 & H2 & H3 & H4 & H5 & H6 & H7);
    [by exists tx0|].
  eexists _, st, tx. split; [reflexivity|]. simpl. rewrite length_fmap.
  split_and!; [symmetry; by eapply Forall2_length, mapM_Some| |done..]. rewrite list_lookup_fmap, Hk. simpl. unfold txs_get.
  rewrite Hd. unfold cache_block. rewrite H1. simpl. by rewrite H2.
Qed.

(** [getSignatureStatuses] and [isBlockhashValid] panic on a signature and
    on a blockhash that do not parse, instead of answering with an error. *)
Theorem malformed_parameters_panic (sdk : BridgeSdk) {S : Type} (b : LiteBridge (S := S)) sigs s config :
  s ∈ sigs -> sdk_signature_from_str sdk s = None -> (forall h, hash_from_str (sdk_base58 sdk) s <> Ok h) ->
  rpc_get_signature_statuses sdk b sigs = Panic /\ rpc_is_blockhash_valid sdk b s config = Panic.
Proof.
  intros Hs Hn Hh. split.
  - unfold rpc_get_signature_statuses. match goal with |- context [mapM ?g sigs] => set (f := g) end.
    assert (mapM f sigs = Panic) as ->; [|done]. induction sigs as [|x sigs IH]; [by apply not_elem_of_nil in Hs|].
    cbn [mapM]. apply elem_of_cons in Hs as [<-|Hs].
    + subst f. cbn beta. by rewrite Hn.
    + destruct (f x) as [y|]; [|done]. cbn [mbind outcome_bind]. by rewrite (IH Hs).
  - unfold rpc_is_blockhash_valid. destruct (hash_from_str _ s) as [h|e]; [by destruct (Hh h)|done].
Qed.

(** ** Accounts *)

Section accounts_together.
Context (sdk : BridgeSdk) (bytes_match : RpcMemcmp -> list Z -> bool) {UiAccount : Type}.
Context (base64 : Z) (encode_ui_account : Pubkey -> Account -> Z -> option (Z * Z) -> UiAccount).
Context (ui_lamports : UiAccount -> Z).

#[local] Existing Instance inmemory_storage.
Abbreviation bridge := (LiteBridge (S := InmemoryAccountStore)).
Abbreviation info_of := (rpc_get_account_info sdk (H := inmemory_storage bytes_match) base64 encode_ui_account).
Abbreviation multiple_of := (rpc_get_multiple_accounts sdk (H := inmemory_storage bytes_match) base64 encode_ui_account).
Abbreviation balance_of := (rpc_get_balance sdk (H := inmemory_storage bytes_match) base64 encode_ui_account ui_lamports).

(** The answer for one account. *)
Definition account_answer (s : InmemoryAccountStore) (pk : Pubkey) (config : option RpcAccountInfoConfig) : option UiAccount :=
  match service_get_account (H := inmemory_storage bytes_match) base64 encode_ui_account s pk config with
  | Done (Ok (_, a), _) => a
  | _ => None
  end.

Lemma inmemory_get_account s pk config :
  exists r, service_get_account (H := inmemory_storage bytes_match) base64 encode_ui_account s pk config = Done (r, s).
Proof. unfold service_get_account. simpl. eauto. Qed.

Lemma get_accounts_loop_spec s pks config :
  get_accounts_loop (H := inmemory_storage bytes_match) base64 encode_ui_account s (Some <$> pks) config =
  Done ((fun pk => account_answer s pk config) <$> pks, s).
Proof.
  induction pks as [|pk pks IH]; [done|]. cbn [fmap list_fmap get_accounts_loop unwrap mbind outcome_bind].
  unfold account_answer at 1. destruct (inmemory_get_account s pk config) as [r Hr]. rewrite Hr. cbn [mbind outcome_bind].
  rewrite IH. cbn [mbind outcome_bind]. by destruct r as [[? a]|].
Qed.

(** The calls for accounts agree: [getMultipleAccounts] answers for every
    key, in the order of the request, what [getAccountInfo] answers for it,
    with nothing where that is an error; and [getBalance] answers with the
    lamports of that account, 0 if its slot is too old for the request.  None
    of them panics on keys that parse. *)
Theorem account_calls_agree (b : bridge) (s : InmemoryAccountStore) strs pks config i str :
  lb_accounts b = Some s -> mapM (sdk_pubkey_from_str sdk) strs = Some pks -> strs !! i = Some str ->
  exists l r, multiple_of b strs config = Done (Ok l, Some s) /\ length (rs_value l) = length strs /\
    info_of b str config = Done (r, Some s) /\
    rs_value l !! i = Some (match r with Ok a => rs_value a | Err _ => None end) /\
    (forall a, r = Ok a -> rs_slot a = rs_slot l) /\
    forall ctx, config = Some (mkAccountInfoConfig None None (ctx_commitment ctx) (ctx_min_context_slot ctx)) ->
      balance_of b str (Some ctx) =
      Done (match r with
            | Ok a => Ok (mkResponse (rs_slot a) (default 0 (ui_lamports <$> rs_value a)))
            | Err e => Err e
            end, Some s).
Proof.
  intros Hacc Hpks Hstr. apply mapM_Some in Hpks. pose proof (Forall2_length _ _ _ Hpks) as Hlen.
  destruct (Forall2_lookup_l _ _ _ _ _ Hpks Hstr) as (pk & Hpk & Hparse).
  assert (sdk_pubkey_from_str sdk <$> strs = Some <$> pks) as Hparsed.
  { clear -Hpks. induction Hpks as [|x y l k Hxy _ IH]; [done|]. cbn. by rewrite Hxy, IH. }
  destruct (inmemory_get_account s pk config) as [r Hr].
  assert (account_answer s pk config = match r with Ok (_, a) => a | Err _ => None end) as Hans
    by (unfold account_answer; rewrite Hr; by destruct r as [[]|]).
  unfold rpc_get_multiple_accounts, rpc_get_account_info, rpc_get_balance. rewrite Hacc, Hparsed, Hparse.
  assert (existsb (fun o : option Pubkey => match o with None => true | _ => false end) (Some <$> pks) = false) as ->
    by (clear; by induction pks).
  rewrite get_accounts_loop_spec, Hr. cbn [mbind outcome_bind].
  rewrite length_fmap, Hlen, Nat.eqb_refl. eexists _, _. split_and!; [reflexivity|simpl; by rewrite length_fmap|reflexivity|..].
  - simpl. rewrite list_lookup_fmap, Hpk. simpl. rewrite Hans. by destruct r as [[]|].
  - intros a Ha. destruct r as [[]|]; [|done]. by injection Ha as <-.
  - intros ctx Hctx. cbn [fmap option_fmap option_map]. rewrite <- Hctx, Hr. cbn [mbind outcome_bind]. by destruct r as [[]|].
Qed.
End accounts_together.

(** ** The calculation method *)

Fixpoint all_digits (s : string) : Prop :=
  match s with EmptyString => True | String c s => (exists d, 0 <= d < 10 /\ c = Ascii.ascii_of_nat (48 + Z.to_nat d)) /\ all_digits s end.

Lemma decimal_fuel_digits fuel : forall n acc, all_digits acc -> all_digits (decimal_fuel fuel n acc).
Proof.
  induction fuel as [|fuel IH]; intros n acc Hacc; [done|]. cbn [decimal_fuel]. pose proof (Z.mod_pos_bound n 10).
  assert (all_digits (String (Ascii.ascii_of_nat (48 + Z.to_nat (n mod 10))) acc)) by (split; [exists (n mod 10); split; [lia|done]|done]).
  destruct (n <? 10); auto.
Qed.

(** Removing a pattern that starts with no digit passes over digits. *)
Lemma remove_all_digits c pat s t : forall fuel,
  (forall d, 0 <= d < 10 -> Ascii.eqb c (Ascii.ascii_of_nat (48 + Z.to_nat d)) = false) ->
  all_digits s -> (String.length s <= fuel)%nat ->
  remove_all_fuel fuel (String c pat) (String.append s t) = String.append s (remove_all_fuel (fuel - String.length s) (String c pat) t).
Proof.
  induction s as [|x s IH]; intros fuel Hc Hs Hf.
  { change (String.append EmptyString t) with t. simpl. by rewrite Nat.sub_0_r. }
  destruct Hs as [(d & Hd & ->) Hs]. destruct fuel as [|fuel]; simpl in Hf; [lia|].
  change (String.append (String ?x s) t) with (String x (String.append s t)).
  cbn [remove_all_fuel strip_prefix String.length Nat.sub]. rewrite Hc by done. by rewrite IH by (done || lia).
Qed.

Lemma string_length_app s t : String.length (String.append s t) = (String.length s + String.length t)%nat.
Proof.
  induction s as [|x s IH]; [done|]. change (String.append (String x s) t) with (String x (String.append s t)).
  simpl. by rewrite IH.
Qed.

(** The text of a calculation method over the last [n] blocks is
    understood for every [n] of 64 bits. *)
Theorem last_n_blocks_parsed n :
  in_u64 n -> parse_method (String.append "last_n_blocks(" (String.append (decimal n) ")")) = LastNBlocks n.
Proof.
  intros Hn. unfold parse_method.
  assert (all_digits (decimal n)) as Hd by (by apply decimal_fuel_digits).
  pose proof (parse_decimal n Hn) as Hp. revert Hd Hp. generalize (decimal n). intros ds Hd Hp.
  assert (forall k d, k = 108%nat \/ k = 41%nat -> 0 <= d < 10 ->
    Ascii.eqb (Ascii.ascii_of_nat k) (Ascii.ascii_of_nat (48 + Z.to_nat d)) = false) as Hc.
  { intros k d Hk Hdig. apply digit_cases in Hdig. destruct_or! Hdig; destruct_or! Hk; by subst. }
  set (t := String.append (ds) ")").
  assert (remove_all "last_n_blocks(" (String.append "last_n_blocks(" t) = t) as ->.
  { unfold remove_all. rewrite string_length_app. cbn [Nat.add String.length].
    change (remove_all_fuel (Datatypes.S ?f) "last_n_blocks(" (String.append "last_n_blocks(" t)) with (remove_all_fuel f "last_n_blocks(" t).
    subst t. rewrite (remove_all_digits (Ascii.ascii_of_nat 108)); [|by intros; apply Hc; auto|done|idtac].
    2:{ rewrite string_length_app. simpl. lia. }
    f_equal. rewrite string_length_app. simpl String.length. by replace (_ - _)%nat with 15%nat by lia. }
  assert (remove_all ")" t = ds) as ->.
  { unfold remove_all. subst t. rewrite (remove_all_digits (Ascii.ascii_of_nat 41) EmptyString)
      by (first [done|by intros; apply Hc; auto|rewrite string_length_app; simpl; lia]).
    rewrite string_length_app. simpl String.length. replace (_ - _)%nat with 2%nat by lia. apply string_app_nil. }
  by rewrite Hp.
Qed.

(** ** Witnesses *)

(** Keys and signatures are the length of their text, hashes its first
    character, transactions its characters. *)
Definition sample_number (s : string) : option Z :=
  match s with EmptyString => None | _ => Some (Z.of_nat (String.length s)) end.
Definition sample_base58 (s : string) : option (list Z) :=
  match s with EmptyString => None | String c _ => Some ((replicate 31 0 ++ [Z.of_nat (Ascii.nat_of_ascii c)])%list) end.
Definition sample_base64 (s : string) : option (list Z) :=
  match s with EmptyString => None | String c _ => Some [41; Z.of_nat (Ascii.nat_of_ascii c)] end.
Definition sample_char (h : Z) : string := String (Ascii.ascii_of_nat (Z.to_nat h)) EmptyString.
Definition sample_encoding (e : UiTransactionEncoding) : option TransactionBinaryEncoding :=
  match e with UteBase58 | UteBinary => Some TbeBase58 | UteBase64 => Some TbeBase64 | _ => None end.
Definition sample_bridge_sdk : BridgeSdk :=
  mkBridgeSdk sample_number sample_number sample_char sample_char sample_base58 sample_base64 sample_encoding sample_decode 3 (fun _ => None).
Definition bridge_at (d : DataCache) : LiteBridge (S := InmemoryAccountStore) :=
  mkBridge d sample_service [] (account_prio_new 10) (Some account_store_new).

Definition sample_slot_of (h : Hash) : Slot := h - 67.
Definition sample_height_at (s : Slot) : Z := Z.max 0 (Z.min (s - 2) 100000).
Definition sample_chain_events : list caching_event :=
  [EvBlock (sample_produced 11 9 78 cc_finalized []); EvClean 5; EvBlock (sample_produced 100 98 167 cc_finalized []); EvClean 9].

Lemma announced_blockhash_stays_valid_witness :
  exists slot,
    rpc_is_blockhash_valid sample_bridge_sdk
      (bridge_at (run (caching_step (fun _ => None) "id" (fun _ => false) 5000) sample_cache sample_chain_events).1)
      "M" (Some (Some ClConfirmed)) = Done (Ok (mkResponse slot true)).
Proof.
  apply (announced_blockhash_stays_valid sample_bridge_sdk sample_slot_of sample_height_at (fun _ => None) "id" (fun _ => false) 5000
    (bridge_at sample_cache)
    (bridge_at (run (caching_step (fun _ => None) "id" (fun _ => false) 5000) sample_cache sample_chain_events).1)
    None sample_chain_events ClConfirmed (mkResponse 10 ("M"%string, 158))).
  - intros s1 s2 Hle. unfold sample_height_at. lia.
  - intros s. unfold sample_height_at, u64_size. lia.
  - intros h [b Hb]. simpl in Hb. apply lookup_singleton_Some in Hb as [<- _]. reflexivity.
  - split; [|by intros [[]]]. simpl. apply map_Forall_singleton. done.
  - repeat (constructor; try done).
  - reflexivity.
  - by eexists.
  - reflexivity.
  - vm_compute. discriminate.
  - vm_compute. discriminate.
Defined.

Lemma send_transaction_effects_witness :
  exists info replays block,
    [ToSender (mkSentTransactionInfo 41 10 [41; 77] 308 0);
     ToReplayer (mkTransactionReplay (mkSentTransactionInfo 41 10 [41; 77] 308 0) 0 3 2005)] = ToSender info :: replays /\
    ")"%string = sdk_signature_to_string sample_bridge_sdk (si_signature info) /\
    (sample_base58 "M" = Some (si_transaction info) \/ sample_base64 "M" = Some (si_transaction info)) /\
    Z.of_nat (length (si_transaction info)) <= PACKET_DATA_SIZE /\
    block ∈ (map_to_list (blocks sample_store)).*2 /\
    si_last_valid_block_height info = binf_last_valid_blockheight block /\
    last_blockheight sample_store <= si_last_valid_block_height info /\
    (replays = [] \/ exists n at_time, replays = [ToReplayer (mkTransactionReplay info 0 n at_time)]).
Proof.
  apply (send_transaction_effects sample_bridge_sdk (bridge_at sample_cache) 5 "M" (Some (mkSendConfig (Some UteBase64) (Some 3)))
    (Ok ")"%string) _). reflexivity.
Defined.

Lemma signature_status_after_block_witness :
  let block := sample_produced 11 9 78 cc_confirmed [sample_txinfo 3 (Some "failed"%string)] in
  let b := bridge_at (cache_block sample_cache block).1 in
  exists r st tx, rpc_get_signature_statuses sample_bridge_sdk b ["x"%string; "abc"%string] = Done (Ok r) /\
    length (rs_value r) = 2%nat /\ rs_value r !! 1%nat = Some (Some st) /\
    tx ∈ pb_transactions (pb_inner block) /\ ti_signature tx = 3 /\ ts_err st = ti_err tx /\
    ts_slot st = 11 /\ ts_confirmation_status st = Some TcsConfirmed.
Proof.
  apply (signature_status_after_block sample_bridge_sdk
    (bridge_at (cache_block sample_cache (sample_produced 11 9 78 cc_confirmed [sample_txinfo 3 (Some "failed"%string)])).1)
    sample_cache (sample_produced 11 9 78 cc_confirmed [sample_txinfo 3 (Some "failed"%string)])
    ["x"%string; "abc"%string] [1; 3] 1 "abc" 3); try reflexivity. simpl. set_solver.
Defined.

Lemma malformed_parameters_panic_witness :
  rpc_get_signature_statuses sample_bridge_sdk (bridge_at sample_cache) ["abc"%string; EmptyString] = Panic /\
  rpc_is_blockhash_valid sample_bridge_sdk (bridge_at sample_cache) EmptyString None = Panic.
Proof.
  apply (malformed_parameters_panic sample_bridge_sdk (bridge_at sample_cache) ["abc"%string; EmptyString] EmptyString None).
  - set_solver.
  - reflexivity.
  - vm_compute. discriminate.
Defined.

Lemma account_calls_agree_witness :
  let match_none : RpcMemcmp -> list Z -> bool := fun _ _ => false in
  let encode : Pubkey -> Account -> Z -> option (Z * Z) -> Z := fun _ a _ _ => acc_lamports a in
  let s := account_store_new in
  exists l r,
    rpc_get_multiple_accounts sample_bridge_sdk (H := inmemory_storage match_none) 0 encode (bridge_at sample_cache)
      ["x"%string; "abc"%string] None = Done (Ok l, Some s) /\ length (rs_value l) = 2%nat /\
    rpc_get_account_info sample_bridge_sdk (H := inmemory_storage match_none) 0 encode (bridge_at sample_cache) "abc" None = Done (r, Some s) /\
    rs_value l !! 1%nat = Some (match r with Ok a => rs_value a | Err _ => None end) /\
    (forall a, r = Ok a -> rs_slot a = rs_slot l) /\
    forall ctx, None = Some (mkAccountInfoConfig None None (ctx_commitment ctx) (ctx_min_context_slot ctx)) ->
      rpc_get_balance sample_bridge_sdk (H := inmemory_storage match_none) 0 encode id (bridge_at sample_cache) "abc" (Some ctx) =
      Done (match r with
            | Ok a => Ok (mkResponse (rs_slot a) (default 0 (id <$> rs_value a)))
            | Err e => Err e
            end, Some s).
Proof.
  apply (account_calls_agree sample_bridge_sdk (fun _ _ => false) 0 (fun _ a _ _ => acc_lamports a) id (bridge_at sample_cache)
    account_store_new ["x"%string; "abc"%string] [1; 3] None 1 "abc"); reflexivity.
Defined.

Lemma last_n_blocks_parsed_witness : parse_method "last_n_blocks(25)" = LastNBlocks 25 /\ parse_method "last(25)" = MethodUnknown.
Proof. split; [apply (last_n_blocks_parsed 25); vm_compute; intuition congruence|reflexivity]. Defined.
