(* ===== verification/PubSub.v ===== *)
(** * Subscriptions

    lite-rpc/src/bridge_pubsub.rs ([LitePubSubBridge]): the tasks that
    forward the messages of a stream to the connection of a subscriber, and
    the calls that start them.

    A task is a loop over what it receives: a message, a notice that it fell
    behind, the end of the stream, or, where the loop waits with a timeout,
    the timeout ([sub_step]).  With each comes what the connection says at
    that time: that it is closed, and whether a message sent over it arrives.
    What it receives comes from its queue of a broadcast channel, which drops
    the oldest messages of a receiver that falls behind
    ([subscription_step]). *)

From S2P Require Import Prelude BTreeMap Types BlockInfoStore LeaderSchedule DataCache AccountStore AccountService.
From S2P Require Import PrioFees Bridge.

Open Scope Z_scope.

Inductive sub_event (M : Type) :=
| SubMessage (m : M) (closed sent : bool)
| SubLagged
| SubClosed
| SubElapsed (closed : bool).
Arguments SubMessage {M} m closed sent.
Arguments SubLagged {M}.
Arguments SubClosed {M}.
Arguments SubElapsed {M} closed.

(** A task is running or has returned. *)
Inductive task := Running | Returned.

(** What a loop does with a message: skip it, or send a response; [checks] says
    whether it looks at the connection first. *)
Section loop.
Context {M R : Type} (checks : bool) (response : M -> option R).

Definition sub_step (t : task) (e : sub_event M) : task * list R :=
  match t with
  | Returned => (Returned, [])
  | Running =>
      match e with
      | SubMessage m closed sent =>
          if checks && closed then (Returned, [])
          else match response m with
               | None => (Running, [])
               | Some r => if sent then (Running, [r]) else (Returned, [])
               end
      | SubLagged => (Running, [])
      | SubClosed => (Returned, [])
      | SubElapsed closed => (if closed then Returned else Running, [])
      end
  end.

(** The task and its receiver of a broadcast channel: the messages it has not
    taken, whether it has yet to be told that some are lost, and whether the
    sender is still there. *)
Record subscription := mkSubscription {
  su_task : task;
  su_queue : list M;
  su_lagged : bool;
  su_open : bool;
}.
Definition subscribed : subscription := mkSubscription Running [] false true.

Inductive channel_event :=
| CePublish (m : M)
| CeSenderGone
| CeReceive (closed sent : bool)
| CeElapsed (closed : bool).

Inductive sub_output := SoSent (r : R) | SoLost (m : M).

(** What [recv] returns, if it returns, and the receiver after it.  One that
    has fallen behind is told so first. *)
Definition receive (s : subscription) (closed sent : bool) : option (sub_event M * subscription) :=
  if su_lagged s then Some (SubLagged, mkSubscription (su_task s) (su_queue s) false (su_open s))
  else match su_queue s with
       | m :: q => Some (SubMessage m closed sent, mkSubscription (su_task s) q false (su_open s))
       | [] => if su_open s then None else Some (SubClosed, s)
       end.

Definition body (s : subscription) (e : sub_event M) : subscription * list sub_output :=
  let '(t, out) := sub_step (su_task s) e in
  (mkSubscription t (su_queue s) (su_lagged s) (su_open s), SoSent <$> out).

Definition subscription_step (capacity : nat) (s : subscription) (e : channel_event) : subscription * list sub_output :=
  match su_task s with
  | Returned => (s, [])
  | Running =>
      match e with
      | CePublish m =>
          if su_open s then
            let lost := bc_lost capacity (su_queue s) m in
            (mkSubscription Running (bc_push capacity (su_queue s) m)
               (su_lagged s || bool_decide (lost <> [])) true, SoLost <$> lost)
          else (s, [])
      | CeSenderGone => (mkSubscription Running (su_queue s) (su_lagged s) false, [])
      | CeReceive closed sent =>
          match receive s closed sent with Some (ev, s) => body s ev | None => (s, []) end
      | CeElapsed closed =>
          match receive s closed true with Some _ => (s, []) | None => body s (SubElapsed closed) end
      end
  end.
End loop.
Arguments subscription : clear implicits.
Arguments channel_event : clear implicits.
Arguments sub_output : clear implicits.

(** ** The subscriptions *)

(** [SlotInfo] of the RPC client: slot, parent, root. *)
Record SlotInfo := mkSlotInfo { sl_slot : Slot; sl_parent : Slot; sl_root : Slot }.

(** [LitePubSubBridge::slot_subscribe], lite-rpc/src/bridge_pubsub.rs:80-118. *)
Definition slot_response (b : BlockInfo) : option SlotInfo := Some (mkSlotInfo (bi_slot b) (bi_parent b) 0).
Definition slot_subscribe : task -> sub_event BlockInfo -> task * list SlotInfo := sub_step false slot_response.

(** [LitePubSubBridge::latest_block_priofees_subscribe], lite-rpc/src/bridge_pubsub.rs:171-224. *)
Definition block_priofees_response (m : Slot * PrioFeesStats) : option (RpcResponse PrioFeesStats) := Some (mkResponse m.1 m.2).
Definition latest_block_priofees_subscribe := sub_step false block_priofees_response.

(** [LitePubSubBridge::latest_account_priofees_subscribe], lite-rpc/src/bridge_pubsub.rs:226-294:
    the loop looks at the connection only when it has waited for a second. *)
Definition account_priofees_response (account : Pubkey) (m : Slot * gmap Pubkey AccountPrioFeesStats) :
    option (RpcResponse AccountPrioFeesStats) :=
  stats ← m.2 !! account; Some (mkResponse m.1 stats).
Definition latest_account_priofees_subscribe (account : Pubkey) := sub_step false (account_priofees_response account).

(** The capacity of the channel of account notifications:
    [start_lite_rpc], lite-rpc/src/main.rs:211-213. *)
Definition account_notification_capacity : nat := 256.

Section accounts.
Context {UiAccount : Type}.
Context (base64 : Z) (encode_ui_account : Pubkey -> Account -> Z -> option (Z * Z) -> UiAccount).
Context (bytes_match : RpcMemcmp -> list Z -> bool).

Abbreviation to_ui := (convert_account_data_to_ui_account base64 encode_ui_account).

(** The loop of [LitePubSubBridge::account_subscribe], lite-rpc/src/bridge_pubsub.rs:322-366. *)
Definition account_response (account : Pubkey) (config : option RpcAccountInfoConfig) (m : AccountNotificationMessage) :
    option (RpcResponse UiAccount) :=
  let config_commitment := default cc_default (c ← config; ac_commitment c) in
  let min_context_slot := default 0 (c ← config; ac_min_context_slot c) in
  let data := an_data m in
  if negb (ad_pubkey data =? account) then None
  else if negb (bool_decide (commitment_of_config config_commitment = an_commitment m)) then None
  else if ad_updated_slot data <? min_context_slot then None
  else Some (mkResponse (ad_updated_slot data) (to_ui data config)).
(** The task of [LitePubSubBridge::account_subscribe], lite-rpc/src/bridge_pubsub.rs:319-392. *)
Definition account_subscribe (account : Pubkey) (config : option RpcAccountInfoConfig) :=
  subscription_step true (account_response account config) account_notification_capacity.

(** The loop of [LitePubSubBridge::program_subscribe], lite-rpc/src/bridge_pubsub.rs:422-476. *)
Definition program_response (program_id : Pubkey) (config : option RpcProgramAccountsConfig) (m : AccountNotificationMessage) :
    option (RpcResponse (Pubkey * UiAccount)) :=
  let config_commitment := default cc_default (c ← config; ac_commitment (pc_account_config c)) in
  let min_context_slot := default 0 (c ← config; ac_min_context_slot (pc_account_config c)) in
  let data := an_data m in
  if negb (acc_owner (ad_account data) =? program_id) then None
  else if negb (bool_decide (commitment_of_config config_commitment = an_commitment m)) then None
  else if ad_updated_slot data <? min_context_slot then None
  else if match c ← config; pc_filters c with
          | Some filters => existsb (fun f => negb (allows bytes_match data f)) filters
          | None => false
          end then None
  else Some (mkResponse (ad_updated_slot data) (ad_pubkey data, to_ui data (pc_account_config <$> config))).
(** The task of [LitePubSubBridge::program_subscribe], lite-rpc/src/bridge_pubsub.rs:419-501. *)
Definition program_subscribe (program_id : Pubkey) (config : option RpcProgramAccountsConfig) :=
  subscription_step true (program_response program_id config) account_notification_capacity.

(** The start of [LitePubSubBridge::account_subscribe], lite-rpc/src/bridge_pubsub.rs:296-317,
    which [program_subscribe] repeats: the key, if it parses and there is an
    account service. *)
Definition subscribe_key {S : Type} (sdk : BridgeSdk) (accounts : option S) (key : string) : result string Pubkey :=
  match sdk_pubkey_from_str sdk key with
  | None => Err "Invalid account"%string
  | Some account => match accounts with None => Err "Accounts service not configured"%string | Some _ => Ok account end
  end.
End accounts.

(** The start of [LitePubSubBridge::program_subscribe], lite-rpc/src/bridge_pubsub.rs:394-417. *)
Definition program_subscribe_key {S : Type} (sdk : BridgeSdk) (accounts : option S) (pubkey_str : string) : result string Pubkey :=
  subscribe_key sdk accounts pubkey_str.

(** [LitePubSubBridge::block_subscribe] and [LitePubSubBridge::logs_subscribe],
    lite-rpc/src/bridge_pubsub.rs:120-136: the request panics. *)
Definition block_subscribe : outcome unit := Panic.
(** [LitePubSubBridge::slot_updates_subscribe] and [LitePubSubBridge::vote_subscribe],
    lite-rpc/src/bridge_pubsub.rs:159-168. *)
Definition slot_updates_subscribe : outcome unit := Panic.

(** [LitePubSubBridge::signature_subscribe], lite-rpc/src/bridge_pubsub.rs:139-157. *)
Definition pubsub_signature_subscribe (sdk : BridgeSdk) (d : DataCache) (signature : string)
    (commitment : option CommitmentConfig) (sink now : Z) : result string DataCache :=
  match sdk_signature_from_str sdk signature with
  | None => Err "failed to decode string to signature"%string
  | Some sig => Ok (set_subs d (signature_subscribe (tx_subs d) sig (default cc_default commitment) sink now))
  end.

(** ** What a subscriber gets *)

Section loop_lemmas.
Context {M R : Type} (checks : bool) (response : M -> option R) (capacity : nat).
Abbreviation step := (subscription_step checks response capacity).
Implicit Types (s : subscription M) (e : channel_event M) (evs : list (channel_event M)).

Definition published evs : list M := omap (fun e => match e with CePublish m => Some m | _ => None end) evs.
Definition sent_of (out : list (sub_output M R)) : list R :=
  omap (fun o => match o with SoSent r => Some r | SoLost _ => None end) out.
Definition lost_of (out : list (sub_output M R)) : list M :=
  omap (fun o => match o with SoSent _ => None | SoLost m => Some m end) out.

(** The connection is open and the stream goes on. *)
Definition undisturbed e : Prop :=
  match e with
  | CePublish _ => True
  | CeSenderGone => False
  | CeReceive closed sent => closed = false /\ sent = true
  | CeElapsed closed => closed = false
  end.

Lemma sent_of_sent rs : sent_of (SoSent <$> rs) = rs.
Proof. induction rs as [|r rs IH]; [done|]. cbn. by f_equal. Qed.
Lemma lost_of_sent rs : lost_of (SoSent <$> rs) = [].
Proof. by induction rs. Qed.
Lemma sent_of_lost ms : sent_of (SoLost <$> ms) = [].
Proof. by induction ms. Qed.
Lemma lost_of_lost ms : lost_of (SoLost <$> ms) = ms.
Proof. induction ms as [|m ms IH]; [done|]. cbn. by f_equal. Qed.

(** One step: what was published or queued is taken, lost or still queued, and
    the answer to what was taken is sent unless the task returns. *)
Lemma subscription_step_taken s e :
  su_task s = Running ->
  let '(s', out) := step s e in
  exists taken,
    lost_of out ++ taken ++ su_queue s' `sublist_of` su_queue s ++ published [e] /\
    (su_task s' = Running -> sent_of out = omap response taken) /\
    (su_task s' = Returned -> sent_of out = []) /\
    (undisturbed e -> su_open s = true ->
       su_task s' = Running /\ su_open s' = true /\ lost_of out ++ taken ++ su_queue s' = su_queue s ++ published [e]).
Proof.
  destruct s as [t q lagged open]. cbn [su_task su_queue su_open]. intros ->. cbn [subscription_step su_task su_queue su_open su_lagged].
  destruct e as [m| |closed sent|closed]; cbn [published omap list_omap].
  - destruct open; [|exists []; cbn; split_and!; [by apply sublist_inserts_r|done..]].
    exists []. cbn [su_queue su_task su_open app]. rewrite sent_of_lost, lost_of_lost, bc_push_split. done.
  - exists []. cbn. rewrite app_nil_r. done.
  - unfold receive, body. cbn [su_lagged su_queue su_task su_open].
    destruct lagged; [exists []; cbn; by rewrite app_nil_r|]. rewrite app_nil_r.
    destruct q as [|m q]; [destruct open; exists []; cbn; done|]. cbn [sub_step su_task su_queue su_lagged su_open].
    destruct (checks && closed) eqn:Hc.
    { exists []. cbn. split_and!; [by apply sublist_cons|done..|].
      intros [-> ->]. by rewrite andb_false_r in Hc. }
    destruct (response m) as [r|] eqn:Hm; [destruct sent|]; exists [m]; cbn; rewrite ?Hm; split_and!; try done; naive_solver.
  - unfold receive, body. cbn [su_lagged su_queue su_task su_open]. rewrite app_nil_r.
    destruct lagged; [by exists []|]. destruct q as [|m q]; [|by exists []]. destruct open; [|by exists []].
    cbn [sub_step su_task]. destruct closed; exists []; cbn; naive_solver.
Qed.

Lemma returned_stays s evs : su_task s = Returned -> run step s evs = (s, []).
Proof.
  intros Hs. induction evs as [|e evs IH]; [done|]. cbn [run].
  assert (step s e = (s, [])) as -> by (unfold subscription_step; by rewrite Hs). by rewrite IH.
Qed.

Lemma published_cons e evs : published (e :: evs) = published [e] ++ published evs.
Proof. unfold published. cbn [omap list_omap]. by destruct e. Qed.

(** Whatever happens, what arrived is the beginning of the answers to some of
    what was published, in order. *)
Lemma subscription_run_prefix s evs :
  su_task s = Running ->
  exists received, received `sublist_of` su_queue s ++ published evs /\
    sent_of (run step s evs).2 `prefix_of` omap response received.
Proof.
  revert s. induction evs as [|e evs IH]; intros s Hs; [exists []; split; [apply sublist_nil_l|done]|].
  cbn [run]. pose proof (subscription_step_taken s e Hs) as Hstep. destruct (step s e) as [s1 out].
  destruct Hstep as (taken & Hsub & Hrun & Hret & _). rewrite published_cons.
  destruct (su_task s1) eqn:Hs1.
  - destruct (IH s1 Hs1) as (received & Hr & Hp). destruct (run step s1 evs) as [s2 out2]. cbn [snd] in Hp |- *.
    exists (taken ++ received). unfold sent_of in *. rewrite !omap_app, (Hrun eq_refl). split; [|by apply prefix_app].
    rewrite app_assoc. etrans; [|apply sublist_app; [exact Hsub|reflexivity]].
    rewrite <- !app_assoc. apply sublist_inserts_l. by apply sublist_app.
  - rewrite (returned_stays _ _ Hs1). cbn [snd]. rewrite app_nil_r, (Hret eq_refl).
    exists []. split; [apply sublist_nil_l|done].
Qed.

(** While the connection is open and the stream goes on, every message is
    taken, lost or still queued, and every message taken is answered. *)
Lemma subscription_run_exact s evs :
  su_task s = Running -> su_open s = true -> Forall undisturbed evs ->
  let '(s', out) := run step s evs in
  su_task s' = Running /\ su_open s' = true /\ exists received,
    received ++ su_queue s' `sublist_of` su_queue s ++ published evs /\
    lost_of out ++ received ++ su_queue s' ≡ₚ su_queue s ++ published evs /\
    sent_of out = omap response received.
Proof.
  intros Hs Ho Hall. revert s Hs Ho. induction Hall as [|e evs He Hall IH]; intros s Hs Ho.
  { cbn. split_and!; [done..|]. exists []. by rewrite app_nil_r. }
  cbn [run]. pose proof (subscription_step_taken s e Hs) as Hstep. destruct (step s e) as [s1 out].
  destruct Hstep as (taken & _ & Hrun & _ & Heq). destruct (Heq He Ho) as (Hs1 & Ho1 & Eq).
  specialize (IH s1 Hs1 Ho1). destruct (run step s1 evs) as [s2 out2]. destruct IH as (Hs2 & Ho2 & received & Hsub & Hperm & Hsent).
  split_and!; [done..|]. exists (taken ++ received). rewrite published_cons, (app_assoc (su_queue s)), <- Eq.
  unfold sent_of, lost_of in *. rewrite !omap_app, (Hrun Hs1), Hsent. split_and!; [| |done].
  - rewrite <- !app_assoc. apply sublist_inserts_l. by apply sublist_app.
  - rewrite <- !app_assoc. rewrite <- Hperm. solve_Permutation.
Qed.

Lemma sublist_same_length {A} (l k : list A) : l `sublist_of` k -> (length k <= length l)%nat -> l = k.
Proof.
  induction 1 as [|x l k Hs IH|x l k Hs IH]; cbn; intros Hlen; [done|f_equal; apply IH; lia|].
  apply sublist_length in Hs. lia.
Qed.

Lemma run_cons_state s e evs : (run step s (e :: evs)).1 = (run step (step s e).1 evs).1.
Proof. cbn [run]. destruct (step s e) as [s1 out]. cbn [fst]. by destruct (run step s1 evs). Qed.

(** A task that keeps receiving catches up. *)
Lemma subscription_drains s n :
  su_task s = Running -> su_open s = true -> (length (su_queue s) + (if su_lagged s then 1 else 0) <= n)%nat ->
  su_queue (run step s (replicate n (CeReceive false true))).1 = [].
Proof.
  revert s. induction n as [|n IH]; intros [t q lagged open] Ht Ho Hn; cbn in Ht, Ho, Hn; subst.
  { cbn. destruct q; cbn in Hn; [done|lia]. }
  cbn [replicate]. rewrite run_cons_state. apply IH; destruct lagged, q as [|m q]; cbn in *; try done; try lia;
    unfold body; cbn; rewrite andb_false_r; destruct (response m); cbn; (done || lia).
Qed.

Lemma subscription_queue_bounded s evs :
  (length (su_queue s) <= capacity)%nat -> (length (su_queue (run step s evs).1) <= capacity)%nat.
Proof.
  revert s. induction evs as [|e evs IH]; intros s Hs; [done|]. cbn [run].
  assert (length (su_queue (step s e).1) <= capacity)%nat as Hs1.
  { destruct s as [[] q lagged open]; [|done]. cbn [su_queue] in Hs. cbn [subscription_step su_task].
    destruct e as [m| |closed sent|closed]; cbn [su_open su_queue su_lagged]; [destruct open| |..]; try done.
    - cbn [fst su_queue]. unfold bc_push. rewrite length_drop, length_app. cbn. lia.
    - unfold receive, body. cbn [su_open su_queue su_lagged su_task]. destruct lagged; [done|].
      destruct q as [|m q]; [by destruct open|]. cbn [sub_step su_task]. cbn in Hs.
      repeat case_match; simplify_eq/=; lia.
    - destruct (receive _ _ _); [done|]. unfold body. by destruct closed. }
  specialize (IH (step s e).1 Hs1). destruct (step s e) as [s1 out]. cbn [fst] in IH. by destruct (run step s1 evs).
Qed.
End loop_lemmas.

Section exact.
Context {UiAccount : Type}.
Context (base64 : Z) (encode_ui_account : Pubkey -> Account -> Z -> option (Z * Z) -> UiAccount).
Context (bytes_match : RpcMemcmp -> list Z -> bool).

(** What a subscriber of a program asks for. *)
Definition program_wanted (program_id : Pubkey) (config : option RpcProgramAccountsConfig) (m : AccountNotificationMessage) : Prop :=
  ad_owner (an_data m) = program_id /\
  an_commitment m = commitment_of_config (default cc_default (c ← config; ac_commitment (pc_account_config c))) /\
  default 0 (c ← config; ac_min_context_slot (pc_account_config c)) <= ad_updated_slot (an_data m) /\
  Forall (fun f => allows bytes_match (an_data m) f = true) (default [] (c ← config; pc_filters c)).
#[export] Instance program_wanted_dec program_id config m : Decision (program_wanted program_id config m).
Proof. unfold program_wanted. apply _. Defined.

Definition program_answer (config : option RpcProgramAccountsConfig) (m : AccountNotificationMessage) :
    RpcResponse (Pubkey * UiAccount) :=
  mkResponse (ad_updated_slot (an_data m))
    (ad_pubkey (an_data m),
     convert_account_data_to_ui_account base64 encode_ui_account (an_data m) (pc_account_config <$> config)).

Lemma existsb_negb {A} (f : A -> bool) l : existsb (fun x => negb (f x)) l = false <-> Forall (fun x => f x = true) l.
Proof.
  induction l as [|x l IH]; [by split|]. cbn [existsb]. rewrite Forall_cons, orb_false_iff, IH, negb_false_iff. done.
Qed.

Lemma program_response_spec program_id config m :
  program_response base64 encode_ui_account bytes_match program_id config m =
  if decide (program_wanted program_id config m) then Some (program_answer config m) else None.
Proof.
  unfold program_response, program_wanted, ad_owner. set (c := commitment_of_config _). set (lo := default 0 _).
  assert (match c ← config; pc_filters c with
          | Some filters => existsb (fun f => negb (allows bytes_match (an_data m) f)) filters
          | None => false
          end = existsb (fun f => negb (allows bytes_match (an_data m) f)) (default [] (c ← config; pc_filters c))) as ->
    by (by destruct (c ← config; pc_filters c)).
  destruct (Z.eqb_spec (acc_owner (ad_account (an_data m))) program_id) as [Ho|Ho]; cbn [negb];
    [|by rewrite decide_False by tauto].
  destruct (decide (c = an_commitment m)) as [Hc|Hc]; [rewrite bool_decide_true by done|rewrite bool_decide_false by done];
    cbn [negb]; [|by rewrite decide_False by naive_solver].
  destruct (Z.ltb_spec (ad_updated_slot (an_data m)) lo) as [Hl|Hl]; [by rewrite decide_False by lia|].
  destruct (existsb _ _) eqn:Hf; [|rewrite decide_True; [done|split_and!; [done|done|lia|by apply existsb_negb]]].
  rewrite decide_False; [done|]. intros (_ & _ & _ & Hall). apply existsb_negb in Hall. congruence.
Qed.

Lemma omap_decide {A B} (P : A -> Prop) `{!forall x, Decision (P x)} (f : A -> B) (g : A -> option B) (l : list A) :
  (forall x, g x = if decide (P x) then Some (f x) else None) -> omap g l = f <$> filter P l.
Proof.
  intros Hg. induction l as [|x l IH]; [done|]. cbn [omap list_omap]. rewrite Hg, filter_cons. case_decide; by rewrite IH.
Qed.

(** C38. What the subscriber of a program gets.  Account changes reach its
    task through a queue of 256 messages, and one that falls further behind
    loses the oldest.  Whatever happens, the subscriber gets, in the order of
    the changes, answers to changes of accounts of the program that have the
    commitment, the slot and pass the filters it asked for, and nothing else.
    As long as its connection is open and the stream goes on, every change
    published is taken by the task, lost in the queue or still waiting; all
    changes taken that match are answered; all of them are taken in order if
    none is lost; and the queue is empty after 257 receives without a new
    change. *)
Theorem program_subscription_exact program_id config evs :
  let step := program_subscribe base64 encode_ui_account bytes_match program_id config in
  let answers l := program_answer config <$> filter (program_wanted program_id config) l in
  let s := (run step subscribed evs).1 in
  let out := (run step subscribed evs).2 in
  (exists received, received `sublist_of` published evs /\ sent_of out `prefix_of` answers received) /\
  (Forall undisturbed evs ->
     su_task s = Running /\
     (exists received,
        lost_of out ++ received ++ su_queue s ≡ₚ published evs /\
        received ++ su_queue s `sublist_of` published evs /\
        (lost_of out = [] -> received ++ su_queue s = published evs) /\
        sent_of out = answers received) /\
     su_queue (run step s (replicate 257 (CeReceive false true))).1 = []).
Proof.
  intros step answers s out. set (resp := program_response base64 encode_ui_account bytes_match program_id config).
  assert (forall l, omap resp l = answers l) as Hw
    by (intros l; apply omap_decide, program_response_spec).
  split.
  { destruct (subscription_run_prefix true resp account_notification_capacity subscribed evs eq_refl) as (received & Hr & Hp).
    rewrite Hw in Hp. by exists received. }
  intros Hall. pose proof (subscription_run_exact true resp account_notification_capacity subscribed evs eq_refl eq_refl Hall) as H.
  pose proof (subscription_queue_bounded true resp account_notification_capacity subscribed evs ltac:(cbn; lia)) as Hlen.
  change (subscription_step true resp account_notification_capacity) with step in H, Hlen.
  subst s out. destruct (run step subscribed evs) as [s out]. cbn [fst snd] in *.
  destruct H as (Hs & Ho & received & Hsub & Hperm & Hsent). rewrite Hw in Hsent. cbn [su_queue subscribed app] in Hsub, Hperm.
  split_and!; [done| |].
  - exists received. split_and!; try done. intros Hl. rewrite Hl in Hperm. apply sublist_same_length; [done|]. by rewrite <- Hperm.
  - apply subscription_drains; [done..|]. unfold account_notification_capacity in Hlen. case_match; lia.
Qed.
End exact.

Definition sample_program_config : option RpcProgramAccountsConfig :=
  Some (mkProgramAccountsConfig (Some [RfDataSize 0]) (mkAccountInfoConfig None None (Some cc_confirmed) (Some 20)) None).
Definition sample_change (pubkey lamports : Z) (data : list Z) (slot : Slot) (c : Commitment) : AccountNotificationMessage :=
  mkAccountNotification (mkAccountData pubkey (mkAccount lamports data 9 false 0) slot) c.
Definition sample_changes : list (channel_event AccountNotificationMessage) :=
  [CePublish (sample_change 1 5 [] 19 Confirmed); CePublish (sample_change 1 6 [] 20 Confirmed);
   CeReceive false true; CePublish (sample_change 2 7 [1] 21 Confirmed); CeReceive false true;
   CeReceive false true; CeElapsed false; CePublish (sample_change 2 8 [] 22 Processed); CeReceive false true].

Lemma program_subscription_exact_witness :
  let step := program_subscribe 0 (fun _ a _ _ => acc_lamports a) (fun _ _ => true) 9 sample_program_config in
  sent_of (run step subscribed sample_changes).2 = [mkResponse 20 (1, 6)] /\
  su_task (run step subscribed sample_changes).1 = Running /\
  su_queue (run step (run step subscribed sample_changes).1 (replicate 257 (CeReceive false true))).1 = [].
Proof.
  intros step. split; [vm_compute; reflexivity|].
  assert (Forall undisturbed sample_changes) as Hall by (repeat constructor; done).
  destruct (proj2 (program_subscription_exact 0 (fun _ a _ _ => acc_lamports a) (fun _ _ => true) 9
    sample_program_config sample_changes) Hall) as (H1 & _ & H3).
  split; [exact H1|exact H3].
Defined.

(** A confirmed or finalised slot notifies of all its changes in one loop
    without an await.  With more than 256 of them, a subscriber whose task
    takes none meanwhile loses the first ones. *)
Lemma burst_loses_changes :
  let step := program_subscribe 0 (fun _ a _ _ => acc_lamports a) (fun _ _ => true) 9 None in
  lost_of (run step subscribed ((fun i => CePublish (sample_change (Z.of_nat i) 5 [] 20 Finalized)) <$> seq 0 258)).2 =
  [sample_change 0 5 [] 20 Finalized; sample_change 1 5 [] 20 Finalized].
Proof. vm_compute. reflexivity. Qed.

(** The loop of a subscription to the fees of an account looks at the
    connection only after a second without messages.  As long as messages
    about other accounts keep coming, it never returns, however long ago the
    subscriber has gone. *)
Theorem closed_fee_subscription_keeps_running account (evs : list (sub_event (Slot * gmap Pubkey AccountPrioFeesStats))) :
  Forall (fun e => match e with SubMessage m closed _ => closed = true /\ m.2 !! account = None | SubLagged => True | _ => False end) evs ->
  run (latest_account_priofees_subscribe account) Running evs = (Running, []).
Proof.
  unfold latest_account_priofees_subscribe.
  induction 1 as [|e evs He Hevs IH]; [done|]. cbn [run]. destruct e as [m closed sent| | |]; try done; cbn [sub_step].
  - destruct He as [-> Hm]. assert (account_priofees_response account m = None) as -> by (unfold account_priofees_response; by rewrite Hm).
    cbn [andb]. by rewrite IH.
  - by rewrite IH.
Qed.

Lemma closed_fee_subscription_keeps_running_witness :
  run (latest_account_priofees_subscribe 7) Running [SubMessage (5, ∅) true false; SubMessage (6, ∅) true false] = (Running, []).
Proof. apply (closed_fee_subscription_keeps_running 7). repeat constructor; done. Defined.
