(* ===== verification/Proxy.v ===== *)
(** * The forward proxy

    A lite-rpc that does not reach the validators itself sends its
    transactions to a proxy near them: services/src/tpu_utils
    (quic_proxy_connection_manager.rs, quinn_auto_reconnect.rs) on its side,
    quic-forward-proxy/src (proxy_request_format.rs, inbound/proxy_listener.rs,
    shared, quinn_auto_reconnect.rs, outbound/debouncer.rs,
    outbound/sharder.rs) on the side of the proxy.  The task of the proxy that
    sends to the validators is in Forwarder.v.

    Addresses are numbers, connections are the numbers quinn gives them;
    bincode's encoding of a request and the standard library's hash of a
    signature are parameters. *)

From S2P Require Import Prelude Types.

(** ** The wire format *)

Definition FORMAT_VERSION1 : Z := 2500.

(** [TxData], core/src/structures/proxy_request_format.rs:16-23 and
    quic-forward-proxy/src/proxy_request_format.rs:19-20. *)
Record TxData := mkTxData { txd_signature : Signature; txd_raw : list Z }.

(** [TpuNode], core/src/structures/proxy_request_format.rs:25-29. *)
Record TpuNode := mkTpuNode { tpu_socket_addr : Z; identity_tpunode : Pubkey }.

(** [TpuForwardingRequest], core/src/structures/proxy_request_format.rs:31-36. *)
Record TpuForwardingRequest := mkForwardingRequest {
  format_version : Z;
  tpu_nodes : list TpuNode;
  fr_transactions : list TxData;
}.

(** [TpuForwardingRequest::new], core/src/structures/proxy_request_format.rs:49-61. *)
Definition forwarding_request_new (tpu_fanout_nodes : list (Z * Pubkey)) (transactions : list TxData) : TpuForwardingRequest :=
  mkForwardingRequest FORMAT_VERSION1 ((fun '(addr, identity) => mkTpuNode addr identity) <$> tpu_fanout_nodes) transactions.

(** bincode, as the two sides use it. *)
Record WireCodec := mkWireCodec {
  wc_serialize : TpuForwardingRequest -> list Z;
  wc_deserialize : list Z -> option TpuForwardingRequest;
}.
Class WireCodecLaws (wc : WireCodec) : Prop := {
  wc_law : forall r, wc_deserialize wc (wc_serialize wc r) = Some r;
}.

(** [TpuForwardingRequest::try_deserialize_from_wire_format],
    quic-forward-proxy/src/proxy_request_format.rs:74-86. *)
Definition try_deserialize_from_wire_format (wc : WireCodec) (raw : list Z) : outcome (option TpuForwardingRequest) :=
  match wc_deserialize wc raw with
  | Some r => if format_version r =? FORMAT_VERSION1 then Done (Some r) else Panic
  | None => Done None
  end.

(** [TpuForwardingRequest::get_transaction_bytes] and [TpuForwardingRequest::get_hash],
    quic-forward-proxy/src/proxy_request_format.rs:92-104. *)
Definition get_transaction_bytes (r : TpuForwardingRequest) : list (list Z) := txd_raw <$> fr_transactions r.
Definition get_hash (hash : Signature -> Z) (r : TpuForwardingRequest) : outcome Z :=
  tx ← unwrap (head (fr_transactions r)); Done (hash (txd_signature tx)).

(** [ForwardPacket], quic-forward-proxy/src/shared/mod.rs:3-9. *)
Record ForwardPacket := mkForwardPacket { fp_transactions : list (list Z); fp_tpu_address : Z; fp_shard_hash : Z }.

(** [ForwardPacket::new], quic-forward-proxy/src/shared/mod.rs:11-20. *)
Definition forward_packet_new (transactions : list (list Z)) (tpu_address hash : Z) : outcome ForwardPacket :=
  match transactions with [] => Panic | _ => Done (mkForwardPacket transactions tpu_address hash) end.

(** ** The listener *)

(** The loop over the nodes of a request: [ProxyListener::handle_client_connection],
    quic-forward-proxy/src/inbound/proxy_listener.rs:136-150: what reached the
    forwarder's channel, and whether the task panicked.  [accepted] says of
    each packet in turn whether the channel took it in time. *)
Fixpoint forward_to_nodes (hash : Signature -> Z) (r : TpuForwardingRequest) (nodes : list TpuNode) (accepted : list bool) :
    list ForwardPacket * bool :=
  match nodes with
  | [] => ([], false)
  | node :: nodes' =>
      match h ← get_hash hash r; forward_packet_new (get_transaction_bytes r) (tpu_socket_addr node) h with
      | Panic => ([], true)
      | Done p =>
          if default true (head accepted) then
            let '(l, panicked) := forward_to_nodes hash r nodes' (tail accepted) in (p :: l, panicked)
          else ([], true)
      end
  end.

(** The task of one stream: [ProxyListener::handle_client_connection],
    quic-forward-proxy/src/inbound/proxy_listener.rs:107-151. *)
Definition handle_stream (wc : WireCodec) (hash : Signature -> Z) (raw_request : list Z) (accepted : list bool) :
    list ForwardPacket * bool :=
  match try_deserialize_from_wire_format wc raw_request with
  | Done (Some r) =>
      match tpu_nodes r with
      | [] => ([], false)
      | nodes => forward_to_nodes hash r nodes accepted
      end
  | _ => ([], true)
  end.

(** ** Debouncing and sharding *)

(** [Debouncer], quic-forward-proxy/src/outbound/debouncer.rs:5-16: its cooldown
    and when it last fired. *)
Record Debouncer := mkDebouncer { cooldown_ms : Z; db_last : Z }.
Definition debouncer_new (cooldown : Z) : Debouncer := mkDebouncer cooldown (-1).

(** [Debouncer::can_fire], quic-forward-proxy/src/outbound/debouncer.rs:17-35. *)
Definition can_fire (d : Debouncer) (epoch_now : Z) : Debouncer * bool :=
  if cooldown_ms d <? epoch_now - db_last d then (mkDebouncer (cooldown_ms d) epoch_now, true) else (d, false).

(** [Sharder], quic-forward-proxy/src/outbound/sharder.rs:1-17. *)
Record Sharder := mkSharder { n_shards : Z; sh_pos : Z }.
Definition sharder_new (pos n : Z) : outcome Sharder :=
  if (0 <? n) && (pos <? n) then Done (mkSharder n pos) else Panic.
Definition matching (s : Sharder) (hash : Z) : bool := (hash mod n_shards s) =? sh_pos s.

(** ** Reconnecting *)

(** [ConnectionState], quic-forward-proxy/src/quinn_auto_reconnect.rs:22-28; the
    copy in services has no [ShuttingDown]. *)
Inductive ConnectionState :=
| NotConnected
| Connected (conn : Z)
| PermanentError
| FailedAttempt (attempts : Z)
| ShuttingDown.

Definition MAX_RETRY_ATTEMPTS : Z := 10.

(** How an attempt to connect ends. *)
Inductive Attempt := AttemptOk (conn : Z) | AttemptTimedOut | AttemptFailed.

(** [AutoReconnect::create_connection], quic-forward-proxy/src/quinn_auto_reconnect.rs:187-205. *)
Definition create_connection (a : Attempt) : outcome (option Z) :=
  match a with AttemptOk c => Done (Some c) | _ => Done None end.

(** [AutoReconnect::create_connection], services/src/tpu_utils/quinn_auto_reconnect.rs:167-184:
    an error other than a timeout panics. *)
Definition services_create_connection (a : Attempt) : outcome (option Z) :=
  match a with AttemptOk c => Done (Some c) | AttemptTimedOut => Done None | AttemptFailed => Panic end.

Section reconnect.
Context (create : Attempt -> outcome (option Z)).

(** The check under the lock for reading: [AutoReconnect::refresh],
    quic-forward-proxy/src/quinn_auto_reconnect.rs:74-87. *)
Definition connection_usable (st : ConnectionState) (closed : gset Z) : bool :=
  match st with Connected c => negb (bool_decide (c ∈ closed)) | _ => false end.

(** The part under the lock for writing: [AutoReconnect::refresh],
    quic-forward-proxy/src/quinn_auto_reconnect.rs:88-184; the new state and
    whether an attempt to connect was made. *)
Definition refresh_locked (st : ConnectionState) (closed : gset Z) (a : Attempt) : outcome (ConnectionState * bool) :=
  match st with
  | Connected c =>
      if bool_decide (c ∈ closed) then
        new ← create a;
        Done (match new with Some c' => Connected c' | None => FailedAttempt 1 end, true)
      else Done (st, false)
  | NotConnected =>
      new ← create a; Done (match new with Some c => Connected c | None => FailedAttempt 1 end, true)
  | PermanentError => Done (st, false)
  | FailedAttempt attempts =>
      new ← create a;
      Done (match new with
            | Some c => Connected c
            | None => if attempts <? MAX_RETRY_ATTEMPTS then FailedAttempt (attempts + 1) else PermanentError
            end, true)
  | ShuttingDown => Done (st, false)
  end.

(** [AutoReconnect::refresh], quic-forward-proxy/src/quinn_auto_reconnect.rs:73-184, when
    no other call comes between its two parts. *)
Definition refresh (st : ConnectionState) (closed : gset Z) (a : Attempt) : outcome ConnectionState :=
  if connection_usable st closed then Done st else '(st', _) ← refresh_locked st closed a; Done st'.

(** [AutoReconnect::refresh_and_get], quic-forward-proxy/src/quinn_auto_reconnect.rs:60-71. *)
Definition refresh_and_get (st : ConnectionState) (closed : gset Z) (a : Attempt) :
    outcome (ConnectionState * result string Z) :=
  st' ← refresh st closed a;
  Done (st', match st' with
             | NotConnected => Err "not connected"%string
             | Connected c => Ok c
             | PermanentError => Err "permanent error"%string
             | FailedAttempt _ => Err "failed connection attempt"%string
             | ShuttingDown => Err "shutting down"%string
             end).
End reconnect.

(** [AutoReconnect::is_permanent_dead], quic-forward-proxy/src/quinn_auto_reconnect.rs:46-49. *)
Definition is_permanent_dead (st : ConnectionState) : bool := match st with PermanentError => true | _ => false end.

(** [AutoReconnect::force_shutdown], quic-forward-proxy/src/quinn_auto_reconnect.rs:208-220: the
    state and the connection it closes. *)
Definition force_shutdown (st : ConnectionState) : ConnectionState * option Z :=
  (ShuttingDown, match st with Connected c => Some c | _ => None end).

(** Calls of [refresh] side by side: each checks, then waits for the lock if it
    has to. *)
Inductive RefreshPc := RefreshCheck | RefreshLocked | RefreshDone.

Record RefreshCalls := mkRefreshCalls {
  rc_state : ConnectionState;
  rc_pcs : list RefreshPc;
  rc_attempts : nat;
}.

Definition refresh_call_step (closed : gset Z) (s : RefreshCalls) (e : nat * Attempt) : RefreshCalls :=
  match rc_pcs s !! e.1 with
  | Some RefreshCheck =>
      mkRefreshCalls (rc_state s)
        (<[e.1 := if connection_usable (rc_state s) closed then RefreshDone else RefreshLocked]> (rc_pcs s)) (rc_attempts s)
  | Some RefreshLocked =>
      match refresh_locked create_connection (rc_state s) closed e.2 with
      | Done (st, attempted) =>
          mkRefreshCalls st (<[e.1 := RefreshDone]> (rc_pcs s)) (if attempted then Datatypes.S (rc_attempts s) else rc_attempts s)
      | Panic => s
      end
  | _ => s
  end.

(** ** Sending to the proxy *)

(** What a receiver of the broadcast channel sees next. *)
Inductive Received := RxTransaction (t : TxData) | RxLagged | RxClosed.

Definition CHUNK_SIZE_PER_STREAM : nat := 20.

(** The loop that gathers a batch: [QuicProxyConnectionManager::read_transactions_and_broadcast],
    services/src/tpu_utils/quic_proxy_connection_manager.rs:193-213; nothing on an
    error of the channel. *)
Fixpoint gather (n : nat) (queue : list Received) : option (list TxData * list Received) :=
  match n, queue with
  | 0%nat, _ => Some ([], queue)
  | _, [] => Some ([], [])
  | Datatypes.S n, RxTransaction t :: queue => '(txs, rest) ← gather n queue; Some (t :: txs, rest)
  | _, _ => None
  end.

(** [QuicProxyConnectionManager::send_copy_of_txs_to_quicproxy],
    services/src/tpu_utils/quic_proxy_connection_manager.rs:240-271; [sent] says of each
    stream in turn whether it was sent. *)
Fixpoint send_chunks (wc : WireCodec) (tpu_data : list (Z * Pubkey)) (pieces : list (list TxData)) (sent : list bool) :
    list (list Z) * result string unit :=
  match pieces with
  | [] => ([], Ok tt)
  | piece :: pieces' =>
      if default true (head sent) then
        let '(out, r) := send_chunks wc tpu_data pieces' (tail sent) in
        (wc_serialize wc (forwarding_request_new tpu_data piece) :: out, r)
      else ([], Err "Failed to send data to quic proxy"%string)
  end.
Definition send_copy_of_txs_to_quicproxy (wc : WireCodec) (txs : list TxData) (nodes : list TpuNode) (sent : list bool) :
    outcome (list (list Z) * result string unit) :=
  pieces ← chunks CHUNK_SIZE_PER_STREAM txs;
  Done (send_chunks wc ((fun n => (tpu_socket_addr n, identity_tpunode n)) <$> nodes) pieces sent).

(** [QuicProxyConnectionManager], services/src/tpu_utils/quic_proxy_connection_manager.rs:33-39,
    with the receiver of its task. *)
Record ProxyManager := mkProxyManager {
  simple_thread_started : bool;
  current_tpu_nodes : list TpuNode;
  exit_signal : bool;
  pm_task : option (list Received);
}.

Definition proxy_manager_new : ProxyManager := mkProxyManager false [] false None.

(** [QuicProxyConnectionManager::update_connection],
    services/src/tpu_utils/quic_proxy_connection_manager.rs:65-115: the nodes, and the task if
    it was never started. *)
Definition update_connection (m : ProxyManager) (nodes : list TpuNode) : ProxyManager :=
  if simple_thread_started m then mkProxyManager true nodes (exit_signal m) (pm_task m)
  else mkProxyManager true nodes (exit_signal m) (Some []).

(** One round of the task's loop:
    [QuicProxyConnectionManager::read_transactions_and_broadcast],
    services/src/tpu_utils/quic_proxy_connection_manager.rs:158-238. *)
Definition proxy_round (wc : WireCodec) (per_unistream : nat) (m : ProxyManager) (sent : list bool) :
    outcome (ProxyManager * list (list Z)) :=
  let stopped := mkProxyManager (simple_thread_started m) (current_tpu_nodes m) (exit_signal m) None in
  match pm_task m with
  | None => Done (m, [])
  | Some queue =>
      if exit_signal m then Done (stopped, [])
      else
        match queue with
        | [] => Done (m, [])
        | RxTransaction first_tx :: queue =>
            match gather (per_unistream - 1) queue with
            | None => Done (stopped, [])
            | Some (more, rest) =>
                let m' := mkProxyManager (simple_thread_started m) (current_tpu_nodes m) (exit_signal m) (Some rest) in
                match current_tpu_nodes m with
                | [] => Done (m', [])
                | nodes =>
                    '(out, _) ← send_copy_of_txs_to_quicproxy wc (first_tx :: more) nodes sent;
                    Done (m', out)
                end
            end
        | _ :: _ => Done (stopped, [])
        end
  end.

(** What happens to the manager. *)
Inductive ProxyEvent :=
| PeReceive (r : Received)
| PeUpdate (nodes : list TpuNode)
| PeRound (sent : list bool)
| PeExit.

Definition proxy_step (wc : WireCodec) (per_unistream : nat) (m : ProxyManager) (e : ProxyEvent) :
    outcome (ProxyManager * list (list Z)) :=
  match e with
  | PeReceive r =>
      Done (mkProxyManager (simple_thread_started m) (current_tpu_nodes m) (exit_signal m)
              (match pm_task m with Some q => Some ((q ++ [r])%list) | None => None end), [])
  | PeUpdate nodes => Done (update_connection m nodes, [])
  | PeRound sent => proxy_round wc per_unistream m sent
  | PeExit => Done (mkProxyManager (simple_thread_started m) (current_tpu_nodes m) true (pm_task m), [])
  end.

(** ** From lite-rpc to the channel of the forwarder *)

Section delivery.
Context (wc : WireCodec) `{!WireCodecLaws wc} (hash : Signature -> Z).

(** How many of the packets for [n] nodes the channel takes before one times out. *)
Fixpoint taken (n : nat) (accepted : list bool) : nat :=
  match n with
  | O => O
  | S n => if default true (head accepted) then S (taken n (tail accepted)) else O
  end.

Lemma taken_all n accepted : Forall (eq true) accepted -> taken n accepted = n.
Proof. revert accepted. induction n as [|n IH]; intros accepted Ha; [done|]. destruct Ha as [|b accepted <- Ha]; cbn; by rewrite IH. Qed.

Lemma forward_to_nodes_ok r nodes :
  fr_transactions r <> [] ->
  exists h, forall accepted, forward_to_nodes hash r nodes accepted =
    ((fun node => mkForwardPacket (get_transaction_bytes r) (tpu_socket_addr node) h) <$> take (taken (length nodes) accepted) nodes,
     (taken (length nodes) accepted <? length nodes)%nat).
Proof.
  intros Hne. unfold get_transaction_bytes. destruct (fr_transactions r) as [|tx txs] eqn:E; [done|].
  exists (hash (txd_signature tx)). induction nodes as [|node nodes IH]; intros accepted; [done|]. cbn [forward_to_nodes length taken].
  unfold get_hash, get_transaction_bytes in *. rewrite E in *. cbn [head unwrap mbind outcome_bind fmap list_fmap forward_packet_new].
  destruct (default true (hd_error accepted)) eqn:Ha; destruct (default true (head accepted)); try done. by rewrite IH.
Qed.

(** What the listener does with a request that was serialised. *)
Lemma handle_stream_ok nodes txs :
  txs <> [] ->
  exists h, forall accepted,
    handle_stream wc hash (wc_serialize wc (forwarding_request_new ((fun n => (tpu_socket_addr n, identity_tpunode n)) <$> nodes) txs)) accepted =
    ((fun node => mkForwardPacket (txd_raw <$> txs) (tpu_socket_addr node) h) <$> take (taken (length nodes) accepted) nodes,
     (taken (length nodes) accepted <? length nodes)%nat).
Proof.
  intros Htxs. unfold handle_stream, try_deserialize_from_wire_format. rewrite wc_law. cbn [format_version forwarding_request_new].
  rewrite Z.eqb_refl. cbn [tpu_nodes forwarding_request_new].
  assert ((fun '(addr, identity) => mkTpuNode addr identity) <$> ((fun n => (tpu_socket_addr n, identity_tpunode n)) <$> nodes) = nodes) as ->.
  { rewrite <- list_fmap_compose. rewrite <- (list_fmap_id nodes) at 2. apply list_fmap_ext. by intros i []. }
  destruct nodes as [|node nodes]; [by exists 0|]. by apply forward_to_nodes_ok.
Qed.

Lemma send_chunks_ok tpu_data pieces :
  send_chunks wc tpu_data pieces [] = ((fun p => wc_serialize wc (forwarding_request_new tpu_data p)) <$> pieces, Ok tt).
Proof. induction pieces as [|p pieces IH]; [done|]. cbn [send_chunks head default tail fmap list_fmap]. by rewrite IH. Qed.

Lemma chunks_fuel_ne {A} fuel n (l : list A) : (0 < n)%nat -> Forall (fun p => p <> []) (chunks_fuel fuel n l).
Proof.
  intros Hn. revert l. induction fuel as [|fuel IH]; intros [|x l]; cbn [chunks_fuel]; try constructor; [|apply IH].
  destruct n; [lia|done].
Qed.

(** The transactions of the packets for an address. *)
Definition sent_to (a : Z) (packets : list ForwardPacket) : list (list Z) :=
  concat (fp_transactions <$> filter (fun p => fp_tpu_address p = a) packets).

Lemma sent_to_none a raw h nodes :
  a ∉ tpu_socket_addr <$> nodes -> sent_to a ((fun node => mkForwardPacket raw (tpu_socket_addr node) h) <$> nodes) = [].
Proof.
  unfold sent_to. induction nodes as [|n nodes IH]; [done|]. cbn [fmap list_fmap]. rewrite not_elem_of_cons, filter_cons. intros [Hn Hns].
  rewrite decide_False by (simpl; congruence). by apply IH.
Qed.

Lemma sent_to_nodes j node raw h nodes k :
  NoDup (tpu_socket_addr <$> nodes) -> nodes !! j = Some node ->
  sent_to (tpu_socket_addr node) ((fun node => mkForwardPacket raw (tpu_socket_addr node) h) <$> take k nodes) = if (j <? k)%nat then raw else [].
Proof.
  revert j k. induction nodes as [|n nodes IH]; intros j k Hnd Hj; [done|]. cbn [fmap list_fmap] in Hnd. apply NoDup_cons in Hnd as [Hn Hnd].
  destruct k as [|k]; [by destruct (Nat.ltb_spec j 0); [lia|]|]. cbn [take fmap list_fmap]. unfold sent_to. rewrite filter_cons.
  destruct j as [|j]; cbn in Hj.
  - injection Hj as ->. rewrite decide_True by done. cbn [fmap list_fmap concat]. fold (sent_to (tpu_socket_addr node) ((fun n => mkForwardPacket raw (tpu_socket_addr n) h) <$> take k nodes)).
    rewrite sent_to_none, app_nil_r; [done|]. intros Hin. apply Hn. apply list_elem_of_fmap in Hin as (x & -> & Hx). apply list_elem_of_fmap. exists x. split; [done|]. by eapply (subseteq_take k).
  - rewrite decide_False.
    + etransitivity; [exact (IH j k Hnd Hj)|]. by destruct (Nat.ltb_spec j k), (Nat.ltb_spec (S j) (S k)); try lia.
    + cbn. intros He. apply Hn. rewrite He. apply list_elem_of_fmap. exists node. split; [done|]. by eapply list_elem_of_lookup_2.
Qed.

Lemma sent_to_app a l1 l2 : sent_to a ((l1 ++ l2)%list) = (sent_to a l1 ++ sent_to a l2)%list.
Proof. unfold sent_to. by rewrite filter_app, fmap_app, concat_app. Qed.

(** The streams that were sent are those of the first pieces. *)
Lemma send_chunks_pieces tpu_data pieces : forall sent wires r,
  send_chunks wc tpu_data pieces sent = (wires, r) ->
  exists done rest, pieces = (done ++ rest)%list /\ wires = (fun p => wc_serialize wc (forwarding_request_new tpu_data p)) <$> done /\ (r = Ok tt <-> rest = []).
Proof.
  induction pieces as [|p pieces IH]; intros sent wires r; cbn [send_chunks]; [intros [= <- <-]; by exists [], []|].
  destruct (default true (head sent)); [|intros [= <- <-]; by exists [], (p :: pieces)].
  destruct (send_chunks wc tpu_data pieces (tail sent)) as [out r'] eqn:E. intros [= <- <-].
  destruct (IH _ _ _ E) as (l1 & l2 & -> & -> & Hr). by exists (p :: l1), l2.
Qed.

(** The listener's tasks for the streams of some pieces. *)
Lemma handle_streams nodes pieces : forall answers,
  NoDup (tpu_socket_addr <$> nodes) -> Forall (fun p => p <> []) pieces -> length answers = length pieces ->
  let handled := zip_with (handle_stream wc hash)
    ((fun p => wc_serialize wc (forwarding_request_new ((fun n => (tpu_socket_addr n, identity_tpunode n)) <$> nodes) p)) <$> pieces) answers in
  handled.*2 = (fun a => (taken (length nodes) a <? length nodes)%nat) <$> answers /\
  forall j node, nodes !! j = Some node ->
    sent_to (tpu_socket_addr node) (concat handled.*1) =
    txd_raw <$> concat (zip_with (fun p a => if (j <? taken (length nodes) a)%nat then p else []) pieces answers).
Proof.
  cbn zeta. induction pieces as [|p pieces IH]; intros [|a answers] Hnd Hne Hlen; try done. apply Forall_cons in Hne as [Hp Hne].
  destruct (handle_stream_ok nodes p Hp) as [h Hh]. destruct (IH answers Hnd Hne ltac:(cbn in Hlen; lia)) as [IH1 IH2].
  cbn [fmap list_fmap zip_with]. rewrite Hh. cbn [fst snd]. split; [by rewrite IH1|]. intros j node Hj.
  cbn [concat]. rewrite sent_to_app, (IH2 j node Hj), (sent_to_nodes j node), fmap_app by done. by destruct (_ <? _)%nat.
Qed.

(** C26. A batch of transactions sent to the proxy reaches the forwarder's
    channel as far as its streams are sent and the channel has room.  Whichever
    streams of the batch are sent and whichever packets the channel takes in
    time: the pieces sent are a beginning of the batch, all of it exactly if
    the sender reports success; the task of a stream panics exactly if a packet
    timed out; and the [j]-th validator gets, once and in order, the
    transactions of the pieces whose task enqueued more than [j] packets, so all
    of the batch if nothing fails. *)
Theorem proxy_delivers_batch txs nodes sent wires r answers :
  NoDup (tpu_socket_addr <$> nodes) ->
  send_copy_of_txs_to_quicproxy wc txs nodes sent = Done (wires, r) -> length answers = length wires ->
  let handled := zip_with (handle_stream wc hash) wires answers in
  handled.*2 = (fun a => (taken (length nodes) a <? length nodes)%nat) <$> answers /\
  (exists pieces rest, concat (pieces ++ rest) = txs /\ length pieces = length wires /\ (r = Ok tt <-> rest = []) /\
     forall j node, nodes !! j = Some node ->
       sent_to (tpu_socket_addr node) (concat handled.*1) =
       txd_raw <$> concat (zip_with (fun p a => if (j <? taken (length nodes) a)%nat then p else []) pieces answers)) /\
  (r = Ok tt -> Forall (Forall (eq true)) answers -> forall node, node ∈ nodes -> sent_to (tpu_socket_addr node) (concat handled.*1) = txd_raw <$> txs).
Proof.
  intros Hnd. unfold send_copy_of_txs_to_quicproxy, chunks. rewrite decide_False by done. cbn [mbind outcome_bind].
  pose proof (chunks_fuel_concat (length txs) CHUNK_SIZE_PER_STREAM txs ltac:(done) ltac:(lia)) as Hcat.
  pose proof (chunks_fuel_ne (length txs) CHUNK_SIZE_PER_STREAM txs ltac:(unfold CHUNK_SIZE_PER_STREAM; lia)) as Hne.
  destruct (send_chunks _ _ _ _) as [wires' r'] eqn:E. intros [= -> ->] Hlen.
  destruct (send_chunks_pieces _ _ _ _ _ E) as (pieces & rest & Hp & -> & Hr). rewrite Hp in Hcat, Hne.
  rewrite length_fmap in *. apply Forall_app in Hne as [Hne _].
  destruct (handle_streams nodes pieces answers Hnd Hne Hlen) as [H1 H2]. split_and!; [done|by exists pieces, rest|].
  intros Hok%Hr Hall node (j & Hj)%list_elem_of_lookup_1. subst rest. rewrite app_nil_r in Hcat.
  cbn zeta in H2. rewrite (H2 j node Hj), <- Hcat. f_equal. f_equal. clear - Hall Hlen Hj. apply lookup_lt_Some in Hj. revert answers Hall Hlen.
  induction pieces as [|p pieces IH]; intros [|a answers] Hall Hlen; try done. apply Forall_cons in Hall as [Ha Hall]. cbn [zip_with].
  rewrite taken_all, (proj2 (Nat.ltb_lt _ _)) by done. f_equal. apply IH; [done|]. cbn in Hlen. lia.
Qed.

(** The transactions of the requests on the wire, and those still queued. *)
Definition sent_txs (wires : list (list Z)) : list TxData := concat (fr_transactions <$> omap (wc_deserialize wc) wires).
Definition transaction_of (r : Received) : option TxData := match r with RxTransaction t => Some t | _ => None end.
Definition pending (m : ProxyManager) : list TxData := omap transaction_of (default [] (pm_task m)).
Definition received_of (e : ProxyEvent) : option TxData := match e with PeReceive r => transaction_of r | _ => None end.

(** The task runs, there are validators to send to, and the channel brings
    transactions only. *)
Definition task_ok (m : ProxyManager) : Prop :=
  simple_thread_started m = true /\ current_tpu_nodes m <> [] /\ exit_signal m = false /\
  exists q, pm_task m = Some q /\ Forall (fun r => is_Some (transaction_of r)) q.
Definition event_ok (e : ProxyEvent) : Prop :=
  match e with
  | PeReceive r => is_Some (transaction_of r)
  | PeUpdate nodes => nodes <> []
  | PeRound sent => sent = []
  | PeExit => False
  end.

Lemma gather_ok n : forall q, Forall (fun r => is_Some (transaction_of r)) q ->
  exists txs rest, gather n q = Some (txs, rest) /\ (txs ++ omap transaction_of rest)%list = omap transaction_of q /\
    Forall (fun r => is_Some (transaction_of r)) rest.
Proof.
  induction n as [|n IH]; intros q Hq; [by exists [], q|]. destruct Hq as [|r q Hr Hq]; [by exists [], []|].
  destruct r as [t| |]; [|by destruct Hr..]. destruct (IH q Hq) as (txs & rest & E & H1 & H2).
  exists (t :: txs), rest. cbn [gather]. rewrite E. split_and!; [done| |done]. simpl. by rewrite H1.
Qed.

Lemma sent_txs_pieces tpu_data pieces :
  sent_txs ((fun p => wc_serialize wc (forwarding_request_new tpu_data p)) <$> pieces) = concat pieces.
Proof.
  unfold sent_txs. induction pieces as [|p pieces IH]; [done|]. cbn [fmap list_fmap omap list_omap]. rewrite wc_law.
  cbn [fmap list_fmap concat]. by rewrite IH.
Qed.

Lemma sent_txs_app l1 l2 : sent_txs ((l1 ++ l2)%list) = (sent_txs l1 ++ sent_txs l2)%list.
Proof. unfold sent_txs. by rewrite omap_app, fmap_app, concat_app. Qed.

Lemma proxy_step_conserves per_unistream m e :
  task_ok m -> event_ok e ->
  exists m' out, proxy_step wc per_unistream m e = Done (m', out) /\ task_ok m' /\
    (sent_txs out ++ pending m')%list = (pending m ++ option_list (received_of e))%list.
Proof.
  intros (Hst & Hn & Hx & q & Hq & Hall) He. unfold pending. destruct e as [r|nodes|sent|]; cbn [proxy_step]; [| | |done].
  - eexists _, _. split; [reflexivity|]. rewrite Hq. simpl. split.
    + split_and!; [done..|]. eexists. split; [done|]. apply Forall_app. split; [done|by repeat constructor].
    + rewrite omap_app. by destruct r.
  - eexists _, _. split; [reflexivity|]. unfold update_connection. rewrite Hst, Hq. simpl. rewrite app_nil_r. split; [|done].
    split_and!; [done..|]. by exists q.
  - rewrite He. unfold proxy_round. rewrite Hq, Hx. cbn [option_list received_of default]. rewrite app_nil_r.
    destruct Hall as [|r q Hr Hall]; [eexists _, _; split; [reflexivity|]; rewrite Hq; split; [|done]; split_and!; [done..|]; by exists []|].
    destruct r as [t| |]; [|by destruct Hr..]. destruct (gather_ok (per_unistream - 1) q Hall) as (more & rest & -> & Hmore & Hrest).
    destruct (current_tpu_nodes m) as [|node nodes] eqn:En; [done|].
    unfold send_copy_of_txs_to_quicproxy, chunks. rewrite decide_False by done. cbn [mbind outcome_bind]. rewrite send_chunks_ok.
    eexists _, _. split; [reflexivity|]. split; [split_and!; [done|done|done|by exists rest]|].
    rewrite sent_txs_pieces, chunks_fuel_concat by (done || lia). simpl. by rewrite Hmore.
Qed.

(** As long as the channel neither lags nor closes, there are validators
    and the streams arrive, the task sends every transaction it receives once
    and in order: what it sent and what is still queued is what it received. *)
Theorem proxy_manager_conserves per_unistream m evs :
  task_ok m -> Forall event_ok evs ->
  exists m' out, orun (proxy_step wc per_unistream) m evs = Done (m', out) /\ task_ok m' /\
    (sent_txs out ++ pending m')%list = (pending m ++ omap received_of evs)%list.
Proof.
  intros Hm Hevs. revert m Hm. induction Hevs as [|e evs He Hevs IH]; intros m Hm.
  { exists m, []. split_and!; [done|done|]. cbn. by rewrite app_nil_r. }
  destruct (proxy_step_conserves per_unistream m e Hm He) as (m1 & o1 & E1 & Hm1 & C1).
  destruct (IH m1 Hm1) as (m2 & o2 & E2 & Hm2 & C2). exists m2, (o1 ++ o2)%list. cbn [orun]. rewrite E1. cbn [mbind outcome_bind].
  rewrite E2. split_and!; [done|done|]. rewrite sent_txs_app, <- app_assoc, C2, app_assoc, C1, <- app_assoc. f_equal.
  cbn [omap list_omap]. by destruct (received_of e).
Qed.
End delivery.

(** A task that has ended is not started again. *)
Lemma ended_task_step wc per_unistream m e :
  simple_thread_started m = true -> pm_task m = None ->
  exists m', proxy_step wc per_unistream m e = Done (m', []) /\ simple_thread_started m' = true /\ pm_task m' = None.
Proof. intros H1 H2. destruct e; simpl; unfold update_connection, proxy_round; rewrite ?H1, ?H2; eauto. Qed.

Lemma ended_task_sends_nothing wc per_unistream evs : forall m,
  simple_thread_started m = true -> pm_task m = None ->
  exists m', orun (proxy_step wc per_unistream) m evs = Done (m', []) /\ pm_task m' = None.
Proof.
  induction evs as [|e evs IH]; intros m H1 H2; [by exists m|]. cbn [orun].
  destruct (ended_task_step wc per_unistream m e H1 H2) as (m1 & -> & H3 & H4).
  cbn [mbind outcome_bind]. destruct (IH m1 H3 H4) as (m' & -> & H5). by exists m'.
Qed.

(** When its receiver has fallen behind the channel, the task returns, and
    nothing ever starts it again: whatever happens afterwards, no transaction
    reaches the proxy. *)
Theorem lagged_task_never_restarts wc per_unistream m queue sent evs :
  simple_thread_started m = true -> pm_task m = Some (RxLagged :: queue) ->
  exists m', orun (proxy_step wc per_unistream) m (PeRound sent :: evs) = Done (m', []) /\ pm_task m' = None.
Proof.
  intros Hst Hq. cbn [orun proxy_step]. unfold proxy_round. rewrite Hq.
  set (stopped := mkProxyManager _ _ _ None).
  destruct (ended_task_sends_nothing wc per_unistream evs stopped Hst eq_refl) as (m' & E & H). exists m'. split; [|done].
  destruct (exit_signal m); cbn [mbind outcome_bind]; by rewrite E.
Qed.

(** ** Reconnecting *)

Definition fails (a : Attempt) : Prop := match a with AttemptOk _ => False | _ => True end.
Definition refreshes (closed : gset Z) (st : ConnectionState) (l : list Attempt) : outcome ConnectionState :=
  foldl (fun acc a => st ← acc; refresh create_connection st closed a) (Done st) l.

Lemma refreshes_app closed st l1 l2 :
  refreshes closed st ((l1 ++ l2)%list) = (st' ← refreshes closed st l1; refreshes closed st' l2).
Proof.
  unfold refreshes. rewrite foldl_app. destruct (foldl _ (Done st) l1) as [st'|]; [done|]. cbn [mbind outcome_bind].
  induction l2; done.
Qed.

Lemma refresh_fails st closed a :
  fails a -> connection_usable st closed = false ->
  refresh create_connection st closed a =
  Done (match st with
        | FailedAttempt n => if n <? MAX_RETRY_ATTEMPTS then FailedAttempt (n + 1) else PermanentError
        | NotConnected | Connected _ => FailedAttempt 1
        | st => st
        end).
Proof.
  intros Ha Hu. unfold refresh. rewrite Hu. destruct a; [done|..]; destruct st as [|c| | |]; simpl in *; try done.
  all: destruct (bool_decide (c ∈ closed)); done.
Qed.

Lemma refreshes_failing closed l :
  Forall fails l ->
  refreshes closed NotConnected l =
  Done (match l with
        | [] => NotConnected
        | _ => if Z.of_nat (length l) <=? MAX_RETRY_ATTEMPTS then FailedAttempt (Z.of_nat (length l)) else PermanentError
        end).
Proof.
  induction l as [|a l IH] using rev_ind; intros Hl; [done|]. apply Forall_app in Hl as [Hl Ha]. apply Forall_cons in Ha as [Ha _].
  rewrite refreshes_app, (IH Hl). cbn [mbind outcome_bind]. unfold refreshes. cbn [foldl mbind outcome_bind]. unfold MAX_RETRY_ATTEMPTS in *.
  destruct l as [|x l]; [by rewrite refresh_fails|]. rewrite length_app. cbn [app length].
  destruct (Z.leb_spec (Z.of_nat (Datatypes.S (length l))) 10) as [H1|H1];
    destruct (Z.leb_spec (Z.of_nat (Datatypes.S (length l) + 1)) 10) as [H2|H2]; try lia; rewrite refresh_fails by done; f_equal; unfold MAX_RETRY_ATTEMPTS.
  - rewrite (proj2 (Z.ltb_lt _ _)) by lia. f_equal. lia.
  - by rewrite (proj2 (Z.ltb_ge _ _)) by lia.
Qed.

Lemma refreshes_permanent closed l : refreshes closed PermanentError l = Done PermanentError.
Proof. unfold refreshes. induction l as [|a l IH]; done. Qed.

(** A connection is given up after eleven failed attempts in a row, not
    earlier, and then for ever: with fewer failures before it, a successful
    attempt connects; after eleven nothing does. *)
Theorem reconnect_gives_up closed failed l conn :
  Forall fails failed -> conn ∉ closed ->
  ((length failed <= 10)%nat -> refreshes closed NotConnected ((failed ++ [AttemptOk conn])%list) = Done (Connected conn)) /\
  (length failed = 11%nat -> refreshes closed NotConnected ((failed ++ l)%list) = Done PermanentError).
Proof.
  intros Hf Hc. split; intros Hlen; rewrite refreshes_app, refreshes_failing by done; cbn [mbind outcome_bind]; unfold MAX_RETRY_ATTEMPTS.
  - destruct failed as [|a failed]; [done|]. by rewrite (proj2 (Z.leb_le _ _)) by lia.
  - destruct failed as [|a failed]; [done|]. rewrite (proj2 (Z.leb_gt _ _)) by lia. apply refreshes_permanent.
Qed.

Lemma reconnect_gives_up_witness :
  ((length (replicate 11 AttemptTimedOut) <= 10)%nat ->
     refreshes ∅ NotConnected ((replicate 11 AttemptTimedOut ++ [AttemptOk 5])%list) = Done (Connected 5)) /\
  (length (replicate 11 AttemptTimedOut) = 11%nat ->
     refreshes ∅ NotConnected ((replicate 11 AttemptTimedOut ++ [AttemptOk 5])%list) = Done PermanentError).
Proof.
  apply (reconnect_gives_up ∅ (replicate 11 AttemptTimedOut) [AttemptOk 5] 5); [by apply Forall_replicate|set_solver].
Defined.

(** Calls side by side, all of whose attempts succeed. *)
Definition connects_to (closed : gset Z) (e : nat * Attempt) : Prop := exists c, e.2 = AttemptOk c /\ c ∉ closed.

Lemma refresh_call_once closed s e :
  connects_to closed e ->
  rc_attempts s = 0%nat \/ (rc_attempts s = 1%nat /\ connection_usable (rc_state s) closed = true) ->
  let s' := refresh_call_step closed s e in
  rc_attempts s' = 0%nat \/ (rc_attempts s' = 1%nat /\ connection_usable (rc_state s') closed = true).
Proof.
  intros (c & Hc & Hopen) Hs. unfold refresh_call_step. destruct (rc_pcs s !! e.1) as [[| |]|]; [done| |done|done].
  rewrite Hc. assert (connection_usable (Connected c) closed = true) as Hu by (simpl; by rewrite bool_decide_false).
  destruct Hs as [H0|[H1 Hus]].
  - destruct (rc_state s) as [|c0| |n|]; simpl; rewrite ?H0; eauto.
    destruct (bool_decide (c0 ∈ closed)); simpl; rewrite ?H0; eauto.
  - right. destruct (rc_state s) as [|c0| |n|] eqn:Est; try done. simpl in Hus |- *.
    destruct (bool_decide (c0 ∈ closed)) eqn:E; [done|]. simpl. by rewrite E.
Qed.

(** Any number of calls that find the connection unusable at the same
    time make one new connection between them, in whatever order they take
    the lock. *)
Theorem refresh_connects_once closed st n events :
  Forall (connects_to closed) events ->
  (rc_attempts (foldl (refresh_call_step closed) (mkRefreshCalls st (replicate n RefreshCheck) 0) events) <= 1)%nat.
Proof.
  intros Hev.
  assert (forall s, rc_attempts s = 0%nat \/ (rc_attempts s = 1%nat /\ connection_usable (rc_state s) closed = true) ->
    (rc_attempts (foldl (refresh_call_step closed) s events) <= 1)%nat) as H.
  { induction Hev as [|e events He Hev IH]; intros s Hs; cbn [foldl]; [lia|]. apply IH. by apply refresh_call_once. }
  apply H. by left.
Qed.

Lemma refresh_connects_once_witness :
  (rc_attempts (foldl (refresh_call_step {[3%Z]}) (mkRefreshCalls (Connected 3) (replicate 2 RefreshCheck) 0)
    [(0%nat, AttemptOk 4); (1%nat, AttemptOk 5); (1%nat, AttemptOk 5); (0%nat, AttemptOk 6)]) <= 1)%nat.
Proof.
  apply (refresh_connects_once {[3]} (Connected 3) 2). repeat constructor; eexists; (split; [reflexivity|set_solver]).
Defined.

(** ** Debouncing *)

Definition debounce_step (d : Debouncer) (now : Z) : Debouncer * list Z :=
  let '(d', fired) := can_fire d now in (d', if fired : bool then [now] else []).

(** Between two times a debouncer fires lies more than its cooldown, also
    when the clock jumps. *)
Theorem debouncer_spaced d times :
  0 <= cooldown_ms d ->
  let fired := (run debounce_step d times).2 in
  Forall (fun t => db_last d + cooldown_ms d < t) fired /\ StronglySorted (fun t1 t2 => t1 + cooldown_ms d < t2) fired.
Proof.
  intros Hc. revert d Hc. induction times as [|t times IH]; intros d Hc; [by repeat constructor|].
  cbn [run]. destruct (debounce_step d t) as [d1 o1] eqn:E. unfold debounce_step, can_fire in E.
  destruct (Z.ltb_spec (cooldown_ms d) (t - db_last d)) as [Hf|Hf]; injection E as <- <-.
  - specialize (IH (mkDebouncer (cooldown_ms d) t) Hc). destruct (run _ _ times) as [d' out]. simpl in *. destruct IH as [IH1 IH2].
    split; constructor; try done; [lia|]. eapply Forall_impl; [exact IH1|]. simpl. lia.
  - specialize (IH d Hc). by destruct (run _ _ times).
Qed.

Lemma debouncer_spaced_witness :
  let fired := (run debounce_step (debouncer_new 200) [0; 100; 201; 150; 402; 403]).2 in
  Forall (fun t => -1 + 200 < t) fired /\ StronglySorted (fun t1 t2 => t1 + 200 < t2) fired.
Proof. apply (debouncer_spaced (debouncer_new 200)). simpl. lia. Defined.

(** ** A codec and witnesses *)

Definition put_node (n : TpuNode) : list Z := [tpu_socket_addr n; identity_tpunode n].
Definition put_tx (t : TxData) : list Z := txd_signature t :: Z.of_nat (length (txd_raw t)) :: txd_raw t.
Fixpoint take_nodes (n : nat) (l : list Z) : option (list TpuNode * list Z) :=
  match n, l with
  | 0%nat, _ => Some ([], l)
  | Datatypes.S n, addr :: identity :: l => '(ns, rest) ← take_nodes n l; Some (mkTpuNode addr identity :: ns, rest)
  | _, _ => None
  end.
Fixpoint take_txs (n : nat) (l : list Z) : option (list TxData) :=
  match n, l with
  | 0%nat, _ => Some []
  | Datatypes.S n, sig :: len :: l =>
      txs ← take_txs n (drop (Z.to_nat len) l); Some (mkTxData sig (take (Z.to_nat len) l) :: txs)
  | _, _ => None
  end.
Definition sample_wire : WireCodec := mkWireCodec
  (fun r => (format_version r :: Z.of_nat (length (tpu_nodes r)) :: Z.of_nat (length (fr_transactions r)) ::
             concat (put_node <$> tpu_nodes r) ++ concat (put_tx <$> fr_transactions r))%list)
  (fun l => match l with
            | v :: n :: m :: l =>
                '(nodes, rest) ← take_nodes (Z.to_nat n) l; txs ← take_txs (Z.to_nat m) rest; Some (mkForwardingRequest v nodes txs)
            | _ => None
            end).

Lemma take_nodes_put nodes rest : take_nodes (length nodes) ((concat (put_node <$> nodes) ++ rest)%list) = Some (nodes, rest).
Proof. induction nodes as [|[] nodes IH]; [done|]. cbn. by rewrite IH. Qed.

Lemma take_txs_put txs : take_txs (length txs) (concat (put_tx <$> txs)) = Some txs.
Proof.
  induction txs as [|[sig raw] txs IH]; [done|]. cbn [fmap list_fmap concat put_tx length take_txs app txd_signature txd_raw].
  rewrite Nat2Z.id, drop_app_length, IH. cbn [mbind option_bind]. by rewrite take_app_length.
Qed.

#[export] Instance sample_wire_laws : WireCodecLaws sample_wire.
Proof.
  split. intros [v nodes txs]. cbn [wc_deserialize wc_serialize sample_wire format_version tpu_nodes fr_transactions].
  rewrite !Nat2Z.id, take_nodes_put. cbn [mbind option_bind]. by rewrite take_txs_put.
Qed.

Lemma proxy_delivers_batch_witness :
  let txs := [mkTxData 41 [1; 2]; mkTxData 42 [3]] in
  let nodes := [mkTpuNode 8000 1; mkTpuNode 8001 2] in
  let wires := [wc_serialize sample_wire (forwarding_request_new [(8000, 1); (8001, 2)] txs)] in
  let handled := zip_with (handle_stream sample_wire id) wires [[true; false]] in
  handled.*2 = [true] /\
  (exists pieces rest, concat (pieces ++ rest) = txs /\ length pieces = length wires /\ (Ok tt = Ok tt :> result string unit <-> rest = []) /\
     forall j node, nodes !! j = Some node ->
       sent_to (tpu_socket_addr node) (concat handled.*1) =
       txd_raw <$> concat (zip_with (fun p a => if (j <? taken 2 a)%nat then p else []) pieces [[true; false]])) /\
  (Ok tt = Ok tt :> result string unit -> Forall (Forall (eq true)) [[true; false]] -> forall node, node ∈ nodes ->
     sent_to (tpu_socket_addr node) (concat handled.*1) = txd_raw <$> txs).
Proof.
  apply (proxy_delivers_batch sample_wire id [mkTxData 41 [1; 2]; mkTxData 42 [3]] [mkTpuNode 8000 1; mkTpuNode 8001 2] []).
  - apply NoDup_cons; split; [simpl; set_solver|apply NoDup_singleton].
  - reflexivity.
  - reflexivity.
Defined.

Lemma proxy_manager_conserves_witness :
  let m := mkProxyManager true [mkTpuNode 8000 1] false (Some [RxTransaction (mkTxData 40 [0])]) in
  let evs := [PeReceive (RxTransaction (mkTxData 41 [1])); PeRound []; PeUpdate [mkTpuNode 8001 2];
              PeReceive (RxTransaction (mkTxData 42 [2]))] in
  exists m' out, orun (proxy_step sample_wire 8) m evs = Done (m', out) /\ task_ok m' /\
    (sent_txs sample_wire out ++ pending m')%list = [mkTxData 40 [0]; mkTxData 41 [1]; mkTxData 42 [2]].
Proof.
  apply (proxy_manager_conserves sample_wire 8).
  - split_and!; [done..|]. eexists. split; [reflexivity|]. apply Forall_cons_2; [by eexists|]. by apply Forall_nil_2.
  - repeat (apply Forall_cons_2; [first [done|by eexists]|]). by apply Forall_nil_2.
Defined.

Lemma lagged_task_never_restarts_witness :
  let m := mkProxyManager true [mkTpuNode 8000 1] false (Some [RxLagged]) in
  exists m', orun (proxy_step sample_wire 8) m
      [PeRound []; PeUpdate [mkTpuNode 8001 2]; PeReceive (RxTransaction (mkTxData 42 [2])); PeRound []] = Done (m', []) /\
    pm_task m' = None.
Proof. apply (lagged_task_never_restarts sample_wire 8 _ []); reflexivity. Defined.
