(* ===== verification/Forwarder.v ===== *)
(** * The task that sends to the validators

    quic-forward-proxy/src/outbound/tx_forward.rs: [tx_forwarder] takes the
    packets of the listener, keeps four agents for each validator in use and
    hands every packet to all agents over a broadcast channel; an agent sends
    the packets of its validator whose hash is in its shard.

    An agent's exit signal is identified by the generation it was started in.
    The connection of an agent is present by what matters to the agent:
    whether it is permanently dead when the agent looks. *)

From S2P Require Import Prelude Types Proxy.

Definition MAX_PARALLEL_STREAMS : nat := 6.
Definition PARALLEL_TPU_CONNECTION_COUNT : Z := 4.
Definition AGENT_SHUTDOWN_IDLE : Z := 2500.
Definition BROADCAST_CAPACITY : nat := 1024.

(** An agent's task: its validator, its shard, the generation of its exit
    signal, what its receiver has not read, whether the receiver was
    overrun, and whether the task still runs. *)
Record AgentTask := mkAgentTask {
  at_addr : Z;
  at_idx : Z;
  at_gen : nat;
  at_queue : list ForwardPacket;
  at_lagged : bool;
  at_running : bool;
}.

(** The state of [tx_forwarder]: the handles ([AgentHandle],
    quic-forward-proxy/src/outbound/tx_forward.rs:30-41) with their exit signal
    and last use, the signals that were given, and the tasks. *)
Record Forwarder := mkForwarder {
  fw_agents : gmap Z (nat * Z);
  fw_exits : gset nat;
  fw_next : nat;
  fw_tasks : list AgentTask;
  fw_debouncer : Debouncer;
}.

(** The start of [tx_forwarder], quic-forward-proxy/src/outbound/tx_forward.rs:44-56. *)
Definition forwarder_new : Forwarder := mkForwarder ∅ ∅ 0 [] (debouncer_new 200).

(** The four tasks of a new agent: [tx_forwarder],
    quic-forward-proxy/src/outbound/tx_forward.rs:74-87. *)
Definition spawn_agents (addr : Z) (gen : nat) : list AgentTask :=
  (fun idx => mkAgentTask addr idx gen [] false true) <$> seqZ 0 PARALLEL_TPU_CONNECTION_COUNT.

(** [broadcast::Sender::send] on one receiver: the oldest packet goes when the
    channel is full. *)
Definition push_packet (p : ForwardPacket) (t : AgentTask) : AgentTask :=
  if at_running t then
    if (length (at_queue t) <? BROADCAST_CAPACITY)%nat
    then mkAgentTask (at_addr t) (at_idx t) (at_gen t) ((at_queue t ++ [p])%list) (at_lagged t) true
    else mkAgentTask (at_addr t) (at_idx t) (at_gen t) ((drop 1 (at_queue t) ++ [p])%list) true true
  else t.

Definition idle_agent (now current : Z) (e : Z * (nat * Z)) : bool :=
  negb (e.1 =? current) && (AGENT_SHUTDOWN_IDLE <? now - e.2.2).

(** [cleanup_agents], quic-forward-proxy/src/outbound/tx_forward.rs:220-260. *)
Definition cleanup_agents (fw : Forwarder) (current now : Z) : Forwarder :=
  let idle := filter (fun e => idle_agent now current e = true) (map_to_list (fw_agents fw)) in
  mkForwarder (foldl (fun m e => delete e.1 m) (fw_agents fw) idle)
    (foldl (fun s e => {[e.2.1]} ∪ s) (fw_exits fw) idle) (fw_next fw) (fw_tasks fw) (fw_debouncer fw).

(** A packet: the body of the loop of [tx_forwarder],
    quic-forward-proxy/src/outbound/tx_forward.rs:63-215; [now] is the monotonic clock,
    [clock] the system's. *)
Definition forward_packet (fw : Forwarder) (p : ForwardPacket) (now clock : Z) : outcome Forwarder :=
  let addr := fp_tpu_address p in
  let fw1 := match fw_agents fw !! addr with
             | Some (gen, _) => mkForwarder (<[addr := (gen, now)]> (fw_agents fw)) (fw_exits fw) (fw_next fw) (fw_tasks fw) (fw_debouncer fw)
             | None => mkForwarder (<[addr := (fw_next fw, now)]> (fw_agents fw)) (fw_exits fw) (Datatypes.S (fw_next fw))
                         ((fw_tasks fw ++ spawn_agents addr (fw_next fw))%list) (fw_debouncer fw)
             end in
  let '(db, fire) := can_fire (fw_debouncer fw1) clock in
  let fw2 := mkForwarder (fw_agents fw1) (fw_exits fw1) (fw_next fw1) (fw_tasks fw1) db in
  let fw3 := if fire : bool then cleanup_agents fw2 addr now else fw2 in
  if existsb at_running (fw_tasks fw3)
  then Done (mkForwarder (fw_agents fw3) (fw_exits fw3) (fw_next fw3) (push_packet p <$> fw_tasks fw3) (fw_debouncer fw3))
  else Panic.

(** How the streams of a batch fare: which of them are written (those not
    listed are), and the chunk at which the timeout of the batch strikes, if it
    does: the streams of that chunk may have been written, later ones are not
    opened. *)
Record BatchIo := mkBatchIo { bi_written : list bool; bi_timeout : option nat }.

(** [send_tx_batch_to_tpu], quic-forward-proxy/src/outbound/tx_forward.rs:328-338,
    under [timeout_fallback]: six streams at a time, errors are ignored; the
    transactions with whether they were written. *)
Fixpoint send_chunks (io : BatchIo) (pieces : list (list (list Z))) : list (bool * list Z) :=
  match pieces with
  | [] => []
  | chunk :: pieces =>
      imap (fun j tx => (default true (bi_written io !! j), tx)) chunk ++
      match bi_timeout io with
      | Some O => (fun tx => (false, tx)) <$> concat pieces
      | timeout => send_chunks (mkBatchIo (drop (length chunk) (bi_written io)) (pred <$> timeout)) pieces
      end
  end.
Definition send_tx_batch_to_tpu (io : BatchIo) (txs : list (list Z)) : outcome (list (bool * list Z)) :=
  pieces ← chunks MAX_PARALLEL_STREAMS txs; Done (send_chunks io pieces).

Definition for_agent (t : AgentTask) (p : ForwardPacket) : bool :=
  (fp_tpu_address p =? at_addr t) && matching (mkSharder PARALLEL_TPU_CONNECTION_COUNT (at_idx t)) (fp_shard_hash p).

Definition agent_stopped (t : AgentTask) : AgentTask := mkAgentTask (at_addr t) (at_idx t) (at_gen t) [] false false.
Definition agent_queue (t : AgentTask) (q : list ForwardPacket) : AgentTask :=
  mkAgentTask (at_addr t) (at_idx t) (at_gen t) q (at_lagged t) true.

(** One round of an agent's loop: [tx_forwarder],
    quic-forward-proxy/src/outbound/tx_forward.rs:91-190: the task afterwards and the
    transactions of the batch it sent, with whether each was written.  [signalled] is its exit signal, [dead] whether its
    connection is permanently dead. *)
Definition agent_round (t : AgentTask) (signalled dead : bool) (io : BatchIo) : outcome (AgentTask * list (bool * list Z)) :=
  if negb (at_running t) then Done (t, [])
  else if at_lagged t then Done (agent_stopped t, [])
  else
    match at_queue t with
    | [] => Done (t, [])
    | packet :: rest =>
        if signalled && match rest with [] => true | _ => dead end then Done (agent_stopped t, [])
        else if negb (for_agent t packet) then Done (agent_queue t rest, [])
        else if dead then Done (agent_stopped t, [])
        else
          let transactions_batch :=
            (fp_transactions packet ++ concat (fp_transactions <$> filter (fun p => for_agent t p = true) rest))%list in
          sent ← send_tx_batch_to_tpu io transactions_batch;
          Done (agent_queue t [], sent)
    end.

(** What happens to the forwarder. *)
Inductive ForwardEvent :=
| FwPacket (p : ForwardPacket) (now clock : Z)
| FwRound (i : nat) (dead : bool) (io : BatchIo).

(** A transaction was written to a validator, or was not because its stream
    failed or its batch took too long. *)
Inductive FwOutput := FwSent (addr : Z) (tx : list Z) | FwUnsent (addr : Z) (tx : list Z).

(** A step of the system. *)
Definition forward_step (fw : Forwarder) (e : ForwardEvent) : outcome (Forwarder * list FwOutput) :=
  match e with
  | FwPacket p now clock =>
      match forward_packet fw p now clock with Done fw' => Done (fw', []) | Panic => Panic end
  | FwRound i dead io =>
      match fw_tasks fw !! i with
      | None => Done (fw, [])
      | Some t =>
          match agent_round t (bool_decide (at_gen t ∈ fw_exits fw)) dead io with
          | Done (t', sent) =>
              Done (mkForwarder (fw_agents fw) (fw_exits fw) (fw_next fw) (<[i := t']> (fw_tasks fw)) (fw_debouncer fw),
                    map (fun x : bool * list Z => (if x.1 then FwSent else FwUnsent) (at_addr t) x.2) sent)
          | Panic => Panic
          end
      end
  end.

(** ** Every transaction once *)

(** The transactions written to, not written to, received for and queued for a
    validator. *)
Definition sent_at (a : Z) (out : list FwOutput) : list (list Z) :=
  omap (fun o : FwOutput => match o with FwSent b tx => if b =? a then Some tx else None | FwUnsent _ _ => None end) out.
Definition unsent_at (a : Z) (out : list FwOutput) : list (list Z) :=
  omap (fun o : FwOutput => match o with FwUnsent b tx => if b =? a then Some tx else None | FwSent _ _ => None end) out.
Definition received_at (a : Z) (e : ForwardEvent) : list (list Z) :=
  match e with FwPacket p _ _ => if fp_tpu_address p =? a then fp_transactions p else [] | _ => [] end.
Definition task_pending (a : Z) (t : AgentTask) : list (list Z) :=
  if at_addr t =? a then concat (fp_transactions <$> filter (fun p => for_agent t p = true) (at_queue t)) else [].
Definition queued_at (a : Z) (fw : Forwarder) : list (list Z) := concat (task_pending a <$> fw_tasks fw).

Definition task_key (t : AgentTask) : Z * Z := (at_addr t, at_idx t).

(** No agent was ever signalled, all run, and each validator in use has its
    four agents. *)
Record quiet (fw : Forwarder) : Prop := {
  qu_exits : fw_exits fw = ∅;
  qu_running : Forall (fun t => at_running t = true /\ at_lagged t = false) (fw_tasks fw);
  qu_keys : NoDup (task_key <$> fw_tasks fw);
  qu_agents : forall a idx, (a, idx) ∈ task_key <$> fw_tasks fw <-> is_Some (fw_agents fw !! a) /\ 0 <= idx < 4;
}.

(** The step leaves it so: no agent is idle for long, no receiver is overrun,
    no connection is dead. *)
Definition quiet_event (fw : Forwarder) (e : ForwardEvent) : bool :=
  match e with
  | FwPacket p now _ =>
      forallb (fun e => negb (idle_agent now (fp_tpu_address p) e)) (map_to_list (fw_agents fw)) &&
      forallb (fun t => (length (at_queue t) <? BROADCAST_CAPACITY)%nat) (fw_tasks fw)
  | FwRound _ dead _ => negb dead
  end.
Fixpoint quiet_run (fw : Forwarder) (evs : list ForwardEvent) : bool :=
  match evs with
  | [] => true
  | e :: evs => quiet_event fw e && match forward_step fw e with Done (fw', _) => quiet_run fw' evs | Panic => true end
  end.

Lemma quiet_packet fw p now clock :
  quiet_event fw (FwPacket p now clock) = true ->
  map_Forall (fun a v => idle_agent now (fp_tpu_address p) (a, v) = false) (fw_agents fw) /\
  Forall (fun t => (length (at_queue t) < BROADCAST_CAPACITY)%nat) (fw_tasks fw).
Proof.
  unfold quiet_event. rewrite andb_true_iff, !forallb_forall. intros [H1 H2]. split.
  - intros a v Ha. apply negb_true_iff, H1, list_elem_of_In. by apply elem_of_map_to_list.
  - apply Forall_forall. intros t Ht. apply Nat.ltb_lt, H2. by apply list_elem_of_In.
Qed.

Lemma concat_fmap_one {A B} (f f' : A -> list B) (P : A -> Prop) (x : list B) (l : list A) a :
  NoDup l -> a ∈ l -> P a -> (forall b, b ∈ l -> P b -> b = a) ->
  f' a ≡ₚ (f a ++ x)%list -> (forall b, b ∈ l -> ~ P b -> f' b = f b) ->
  concat (f' <$> l) ≡ₚ (concat (f <$> l) ++ x)%list.
Proof.
  intros Hnd Ha HP Huniq Hfa Hfb. apply list_elem_of_split in Ha as (l1 & l2 & ->).
  apply NoDup_app in Hnd as (_ & Hn1 & [Hn2 _]%NoDup_cons).
  assert (forall b, b ∈ (l1 ++ l2)%list -> f' b = f b) as Hsame.
  { intros b Hb. apply Hfb; [set_solver|]. intros HPb. apply Huniq in HPb as ->; set_solver. }
  assert (forall k : list A, (forall b, b ∈ k -> b ∈ (l1 ++ l2)%list) -> f' <$> k = f <$> k) as Hmap.
  { intros k Hk. apply list_fmap_ext. intros i b Hb%list_elem_of_lookup_2. auto. }
  rewrite !fmap_app, !fmap_cons, !concat_app, !concat_cons, (Hmap l1), (Hmap l2) by set_solver. rewrite Hfa. solve_Permutation.
Qed.

Lemma for_agent_iff t p : for_agent t p = true <-> fp_tpu_address p = at_addr t /\ fp_shard_hash p mod 4 = at_idx t.
Proof. unfold for_agent, matching. simpl. rewrite andb_true_iff, !Z.eqb_eq. done. Qed.

Lemma push_packet_quiet p t :
  at_running t = true -> (length (at_queue t) < BROADCAST_CAPACITY)%nat ->
  push_packet p t = mkAgentTask (at_addr t) (at_idx t) (at_gen t) ((at_queue t ++ [p])%list) (at_lagged t) true.
Proof. intros Hr Hq. unfold push_packet. rewrite Hr. by rewrite (proj2 (Nat.ltb_lt _ _)). Qed.

Lemma task_pending_push a p t :
  at_running t = true -> (length (at_queue t) < BROADCAST_CAPACITY)%nat ->
  task_pending a (push_packet p t) =
  (task_pending a t ++ if (at_addr t =? a) && for_agent t p then fp_transactions p else [])%list.
Proof.
  intros Hr Hq. rewrite push_packet_quiet by done. unfold task_pending. simpl.
  destruct (at_addr t =? a); simpl; [|done]. rewrite filter_app, fmap_app, concat_app. f_equal.
  assert (for_agent (mkAgentTask (at_addr t) (at_idx t) (at_gen t) ((at_queue t ++ [p])%list) (at_lagged t) true) p = for_agent t p) as E by done.
  rewrite filter_cons, filter_nil, E. destruct (for_agent t p); simpl; [apply app_nil_r|done].
Qed.

(** The agents of the validator of a packet. *)
Definition with_agents (fw : Forwarder) (addr now : Z) : Forwarder :=
  match fw_agents fw !! addr with
  | Some (gen, _) => mkForwarder (<[addr := (gen, now)]> (fw_agents fw)) (fw_exits fw) (fw_next fw) (fw_tasks fw) (fw_debouncer fw)
  | None => mkForwarder (<[addr := (fw_next fw, now)]> (fw_agents fw)) (fw_exits fw) (Datatypes.S (fw_next fw))
              ((fw_tasks fw ++ spawn_agents addr (fw_next fw))%list) (fw_debouncer fw)
  end.

Lemma spawn_keys addr gen : task_key <$> spawn_agents addr gen = (fun idx => (addr, idx)) <$> seqZ 0 4.
Proof. done. Qed.

Lemma with_agents_quiet fw addr now : quiet fw -> quiet (with_agents fw addr now).
Proof.
  intros [He Hr Hk Ha]. unfold with_agents. destruct (fw_agents fw !! addr) as [[gen last]|] eqn:E; split; simpl; try done.
  - intros a idx. rewrite Ha, lookup_insert_is_Some. destruct (decide (addr = a)) as [<-|]; rewrite ?E; naive_solver.
  - apply Forall_app. split; [done|]. by repeat constructor.
  - rewrite fmap_app, NoDup_app, spawn_keys. split_and!; [done| |].
    + intros [a idx] [[b Hb] _]%Ha Hin. apply list_elem_of_fmap in Hin as (j & [= -> _] & _). congruence.
    + apply NoDup_fmap_2; [by intros ?? [=]|apply NoDup_seqZ].
  - intros a idx. rewrite fmap_app, elem_of_app, Ha, spawn_keys, list_elem_of_fmap, lookup_insert_is_Some. setoid_rewrite elem_of_seqZ.
    split.
    + intros [[Hs Hi]|(j & [= -> ->] & Hj)]; [|split; [by left|lia]]. split; [|done].
      destruct (decide (addr = a)) as [->|]; [by left|by right].
    + intros [[<-|[Hne Hs]] Hi]; [right; exists idx; split; [done|lia]|by left].
Qed.

Lemma with_agents_queued fw a addr now : queued_at a (with_agents fw addr now) = queued_at a fw.
Proof.
  unfold with_agents, queued_at. destruct (fw_agents fw !! addr) as [[gen last]|]; [done|]. simpl.
  rewrite fmap_app, concat_app. replace (concat (task_pending a <$> spawn_agents addr (fw_next fw))) with ([] : list (list Z));
    [apply app_nil_r|]. unfold task_pending. simpl. by destruct (addr =? a).
Qed.

Lemma filter_none {A} (P : A -> Prop) `{!forall x, Decision (P x)} (l : list A) : (forall x, x ∈ l -> ~ P x) -> filter P l = [].
Proof.
  induction l as [|x l IH]; intros Hl; [done|]. rewrite filter_cons, decide_False by (apply Hl; set_solver). apply IH. set_solver.
Qed.

Lemma cleanup_quiet fw current now :
  map_Forall (fun a v => idle_agent now current (a, v) = false) (fw_agents fw) -> cleanup_agents fw current now = fw.
Proof.
  intros H. unfold cleanup_agents.
  assert (filter (fun e => idle_agent now current e = true) (map_to_list (fw_agents fw)) = []) as ->; [|by destruct fw].
  apply filter_none. intros [a v] Hin%elem_of_map_to_list. by rewrite (H a v Hin).
Qed.

Lemma push_all_queued a p tasks :
  NoDup (task_key <$> tasks) -> (fp_tpu_address p, fp_shard_hash p mod 4) ∈ task_key <$> tasks ->
  Forall (fun t => at_running t = true /\ (length (at_queue t) < BROADCAST_CAPACITY)%nat) tasks ->
  concat (task_pending a <$> (push_packet p <$> tasks)) ≡ₚ
  (concat (task_pending a <$> tasks) ++ if fp_tpu_address p =? a then fp_transactions p else [])%list.
Proof.
  intros Hnd Hin Hall. rewrite Forall_forall in Hall. rewrite <- list_fmap_compose.
  apply list_elem_of_fmap in Hin as (t & Hkey & Ht).
  apply (concat_fmap_one (task_pending a) _ (fun t => for_agent t p = true) _ _ t).
  - by apply (NoDup_fmap_1 task_key).
  - done.
  - apply for_agent_iff. by injection Hkey.
  - intros t' Ht' [Ha Hi]%for_agent_iff. apply (NoDup_fmap_inj_on task_key tasks); [done..|]. unfold task_key in *. congruence.
  - destruct (Hall t Ht) as [Hr Hq]. simpl. rewrite task_pending_push by done.
    assert (for_agent t p = true) as -> by (apply for_agent_iff; by injection Hkey).
    injection Hkey as -> _. by rewrite andb_true_r.
  - intros t' Ht' Hno. destruct (Hall t' Ht') as [Hr Hq]. simpl. rewrite task_pending_push by done.
    destruct (for_agent t' p); [done|]. rewrite andb_false_r. apply app_nil_r.
Qed.

Lemma forward_packet_quiet fw p now clock :
  quiet fw -> quiet_event fw (FwPacket p now clock) = true ->
  exists fw', forward_packet fw p now clock = Done fw' /\ quiet fw' /\
    forall a, queued_at a fw' ≡ₚ (queued_at a fw ++ received_at a (FwPacket p now clock))%list.
Proof.
  intros Hq [Hidle Hcap]%quiet_packet. set (addr := fp_tpu_address p). unfold forward_packet. fold addr. fold (with_agents fw addr now).
  pose proof (with_agents_quiet fw addr now Hq) as Hq1. set (fw1 := with_agents fw addr now) in *.
  destruct (can_fire (fw_debouncer fw1) clock) as [db fire].
  set (fw2 := mkForwarder (fw_agents fw1) (fw_exits fw1) (fw_next fw1) (fw_tasks fw1) db).
  assert ((if fire then cleanup_agents fw2 addr now else fw2) = fw2) as ->.
  { destruct fire; [|done]. apply cleanup_quiet. subst fw2 fw1. simpl. unfold with_agents. fold addr in Hidle.
    destruct (fw_agents fw !! addr) as [[gen last]|]; simpl; (apply map_Forall_insert_2; [unfold idle_agent; simpl; by rewrite Z.eqb_refl|done]). }
  assert (Forall (fun t => at_running t = true /\ (length (at_queue t) < BROADCAST_CAPACITY)%nat) (fw_tasks fw1)) as Hall.
  { pose proof (qu_running _ Hq) as Hr. subst fw1. unfold with_agents.
    assert (Forall (fun t => at_running t = true /\ (length (at_queue t) < BROADCAST_CAPACITY)%nat) (fw_tasks fw)) as H0.
    { rewrite Forall_forall in *. intros t Ht. split; [by apply Hr|by apply Hcap]. }
    destruct (fw_agents fw !! addr) as [[gen last]|]; [done|]. simpl. apply Forall_app. split; [done|].
    apply Forall_fmap, Forall_forall. intros i _. simpl. split; [done|unfold BROADCAST_CAPACITY; lia]. }
  assert ((addr, fp_shard_hash p mod 4) ∈ task_key <$> fw_tasks fw1) as Hin.
  { apply (qu_agents _ Hq1). pose proof (Z.mod_pos_bound (fp_shard_hash p) 4). split; [|lia].
    subst fw1. unfold with_agents. destruct (fw_agents fw !! addr) as [[gen last]|]; simpl; by rewrite lookup_insert_eq. }
  assert (existsb at_running (fw_tasks fw2) = true) as ->.
  { apply list_elem_of_fmap in Hin as (t & _ & Ht). apply existsb_exists. exists t. split; [by apply list_elem_of_In|].
    rewrite Forall_forall in Hall. by apply Hall. }
  eexists. split; [reflexivity|]. split.
  - destruct Hq1 as [He Hr Hk Ha]. assert (task_key <$> (push_packet p <$> fw_tasks fw1) = task_key <$> fw_tasks fw1) as Ek.
    { rewrite <- list_fmap_compose. apply list_fmap_ext. intros i t Ht%list_elem_of_lookup_2. rewrite Forall_forall in Hall.
      simpl. by rewrite push_packet_quiet by (by apply Hall). }
    split; simpl; [done| |by rewrite Ek|by setoid_rewrite Ek]. apply Forall_fmap, Forall_forall. intros t Ht.
    rewrite Forall_forall in Hall, Hr. simpl. rewrite push_packet_quiet by (by apply Hall). simpl. split; [done|by apply Hr].
  - intros a. unfold queued_at at 1. simpl. rewrite push_all_queued by first [done|apply Hq1].
    fold (queued_at a fw1). subst fw1. rewrite with_agents_queued. done.
Qed.

(** Every transaction of a batch is tried or given up, once. *)
Lemma send_chunks_all pieces : forall io, (send_chunks io pieces).*2 = concat pieces.
Proof.
  induction pieces as [|chunk pieces IH]; intros io; [done|]. cbn [send_chunks concat]. rewrite fmap_app. f_equal.
  - rewrite fmap_imap. generalize (bi_written io). induction chunk as [|tx chunk IHc]; intros l; [done|]. cbn [imap compose]. cbn. f_equal.
    specialize (IHc (drop 1 l)). rewrite <- IHc at 2. apply imap_ext. done.
  - destruct (bi_timeout io) as [[|k]|]; [|by rewrite IH..]. rewrite <- list_fmap_compose. apply list_fmap_id.
Qed.

Lemma send_tx_batch_all io txs : exists sent, send_tx_batch_to_tpu io txs = Done sent /\ sent.*2 = txs.
Proof.
  unfold send_tx_batch_to_tpu. destruct (chunks MAX_PARALLEL_STREAMS txs) as [pieces|] eqn:E; [|by unfold chunks in E; case_decide].
  cbn [mbind outcome_bind]. eexists. split; [done|]. by rewrite send_chunks_all, (chunks_concat _ _ _ E).
Qed.

(** A batch without failed streams and timeout. *)
Definition faultless (io : BatchIo) : Prop := bi_timeout io = None /\ Forall (eq true) (bi_written io).

Lemma send_chunks_faultless pieces : forall io, faultless io -> Forall (fun x => x.1 = true) (send_chunks io pieces).
Proof.
  induction pieces as [|chunk pieces IH]; intros io [Ht Hw]; [constructor|]. cbn [send_chunks]. apply Forall_app. split.
  - apply Forall_forall. intros x (j & tx & -> & _)%elem_of_lookup_imap_1. cbn. destruct (bi_written io !! j) as [b|] eqn:E; [|done].
    symmetry. by apply (Forall_lookup_1 _ _ _ _ Hw E).
  - rewrite Ht. apply IH. split; [done|]. by apply Forall_drop.
Qed.

(** A round of an undisturbed agent takes a beginning of what it has queued. *)
Lemma agent_round_quiet t io :
  at_running t = true -> at_lagged t = false ->
  exists t' sent, agent_round t false false io = Done (t', sent) /\ task_key t' = task_key t /\
    at_running t' = true /\ at_lagged t' = false /\
    forall a, task_pending a t = ((if at_addr t =? a then sent.*2 else []) ++ task_pending a t')%list.
Proof.
  intros Hr Hl. unfold agent_round. rewrite Hr, Hl. cbn [negb]. destruct (at_queue t) as [|p q] eqn:Eq.
  { exists t, []. split_and!; [done..|]. intros a. by destruct (at_addr t =? a). }
  cbn [andb]. destruct (for_agent t p) eqn:Ef; cbn [negb].
  - destruct (send_tx_batch_all io (fp_transactions p ++ concat (fp_transactions <$> filter (fun p => for_agent t p = true) q))) as (sent & -> & Hs).
    cbn [mbind outcome_bind]. eexists _, _. split; [reflexivity|]. split_and!; [done..|].
    intros a. rewrite Hs. unfold task_pending. rewrite Eq. simpl. destruct (at_addr t =? a); [|done]. rewrite filter_cons, decide_True by done.
    simpl. by rewrite app_nil_r.
  - eexists _, _. split; [reflexivity|]. split_and!; [done..|]. intros a. unfold task_pending. rewrite Eq. simpl.
    destruct (at_addr t =? a); [|done]. rewrite filter_cons, decide_False by congruence. done.
Qed.

Lemma sent_at_map a b (sent : list (bool * list Z)) :
  let out := map (fun x : bool * list Z => (if x.1 then FwSent else FwUnsent) b x.2) sent in
  (sent_at a out ++ unsent_at a out)%list ≡ₚ if b =? a then sent.*2 else [].
Proof.
  cbn zeta. induction sent as [|[[|] tx] sent IH]; [by destruct (b =? a)|..]; cbn [map fst snd fmap list_fmap].
  - change (unsent_at a (FwSent b tx :: ?l)) with (unsent_at a l). unfold sent_at at 1. cbn [omap list_omap]. fold (sent_at a).
    destruct (b =? a); [|done]. cbn [app]. by f_equiv.
  - change (sent_at a (FwUnsent b tx :: ?l)) with (sent_at a l). unfold unsent_at at 1. cbn [omap list_omap]. fold (unsent_at a).
    destruct (b =? a); [|done]. rewrite <- Permutation_middle. by f_equiv.
Qed.

Lemma sent_at_app a l1 l2 : sent_at a ((l1 ++ l2)%list) = (sent_at a l1 ++ sent_at a l2)%list.
Proof. apply omap_app. Qed.
Lemma unsent_at_app a l1 l2 : unsent_at a ((l1 ++ l2)%list) = (unsent_at a l1 ++ unsent_at a l2)%list.
Proof. apply omap_app. Qed.

Lemma forward_round_quiet fw i io :
  quiet fw ->
  exists fw' out, forward_step fw (FwRound i false io) = Done (fw', out) /\ quiet fw' /\
    forall a, (sent_at a out ++ unsent_at a out ++ queued_at a fw')%list ≡ₚ queued_at a fw.
Proof.
  intros Hq. unfold forward_step. destruct (fw_tasks fw !! i) as [t|] eqn:Ei; [|by exists fw, []].
  pose proof (qu_running _ Hq) as Hr. rewrite Forall_forall in Hr.
  destruct (Hr t (list_elem_of_lookup_2 _ _ _ Ei)) as [Hrun Hlag].
  rewrite (qu_exits _ Hq), bool_decide_false by set_solver.
  destruct (agent_round_quiet t io Hrun Hlag) as (t' & sent & -> & Hk & Hrun' & Hlag' & Hp).
  eexists _, _. split; [reflexivity|].
  assert (exists l1 l2, fw_tasks fw = (l1 ++ t :: l2)%list /\ <[i := t']> (fw_tasks fw) = (l1 ++ t' :: l2)%list) as (l1 & l2 & E1 & E2).
  { exists (take i (fw_tasks fw)), (drop (Datatypes.S i) (fw_tasks fw)). split; [symmetry; by apply take_drop_middle|].
    apply insert_take_drop. by eapply lookup_lt_Some. }
  assert (task_key <$> <[i := t']> (fw_tasks fw) = task_key <$> fw_tasks fw) as Ek by (by rewrite E2, E1, !fmap_app, !fmap_cons, Hk).
  split.
  - destruct Hq as [He Hr0 Hnd Ha]. split; simpl; [done| |by rewrite Ek|by setoid_rewrite Ek]. by apply Forall_insert.
  - intros a. rewrite app_assoc, sent_at_map. unfold queued_at. simpl. rewrite E2, E1, !fmap_app, !fmap_cons, !concat_app, !concat_cons, (Hp a).
    solve_Permutation.
Qed.

(** Without faults everything is written. *)
Lemma forward_round_faultless fw i dead io fw' out :
  faultless io -> forward_step fw (FwRound i dead io) = Done (fw', out) -> forall a, unsent_at a out = [].
Proof.
  intros Hf. cbn [forward_step]. destruct (fw_tasks fw !! i) as [t|]; [|by intros [= <- <-]].
  destruct (agent_round t _ dead io) as [[t' sent]|] eqn:Er; [|done]. intros [= <- <-] a.
  assert (Forall (fun x => x.1 = true) sent) as Hs.
  { unfold agent_round in Er. destruct (negb (at_running t)); [injection Er as <- <-; constructor|].
    destruct (at_lagged t); [injection Er as <- <-; constructor|]. destruct (at_queue t) as [|p q]; [injection Er as <- <-; constructor|].
    destruct (_ && _); [injection Er as <- <-; constructor|]. destruct (negb _); [injection Er as <- <-; constructor|].
    destruct dead; [injection Er as <- <-; constructor|]. unfold send_tx_batch_to_tpu in Er. destruct (chunks _ _); [|done].
    cbn [mbind outcome_bind] in Er. injection Er as <- <-. by apply send_chunks_faultless. }
  clear Er. induction Hs as [|[b tx] sent Hb _ IH]; [done|]. cbn [fst snd] in Hb. subst b. exact IH.
Qed.

(** As long as no agent stays idle, no receiver is overrun and no
    connection is dead, the forwarder never panics and takes every transaction
    of every packet exactly once to its validator, in whatever order the
    agents run: for each validator, what was written, what could not be written
    and what is queued is what was received. *)
Theorem forwarder_sends_once evs : forall fw,
  quiet fw -> quiet_run fw evs = true ->
  exists fw' out, orun forward_step fw evs = Done (fw', out) /\ quiet fw' /\
    forall a, (sent_at a out ++ unsent_at a out ++ queued_at a fw')%list ≡ₚ (queued_at a fw ++ concat (received_at a <$> evs))%list.
Proof.
  induction evs as [|e evs IH]; intros fw Hq Hrun.
  { exists fw, []. split_and!; [done|done|]. intros a. cbn. by rewrite app_nil_r. }
  cbn [quiet_run] in Hrun. apply andb_true_iff in Hrun as [He Hrun].
  assert (exists fw1 o1, forward_step fw e = Done (fw1, o1) /\ quiet fw1 /\
    forall a, (sent_at a o1 ++ unsent_at a o1 ++ queued_at a fw1)%list ≡ₚ (queued_at a fw ++ received_at a e)%list) as (fw1 & o1 & E1 & Hq1 & C1).
  { destruct e as [p now clock|i dead io].
    - destruct (forward_packet_quiet fw p now clock Hq He) as (fw1 & E & Hq1 & C). exists fw1, []. unfold forward_step. by rewrite E.
    - destruct dead; [done|]. destruct (forward_round_quiet fw i io Hq) as (fw1 & o1 & E & Hq1 & C). exists fw1, o1.
      split_and!; [done|done|]. intros a. rewrite C. simpl. by rewrite app_nil_r. }
  rewrite E1 in Hrun. destruct (IH fw1 Hq1 Hrun) as (fw2 & o2 & E2 & Hq2 & C2). exists fw2, (o1 ++ o2)%list. cbn [orun]. rewrite E1.
  cbn [mbind outcome_bind]. rewrite E2. split_and!; [done|done|]. intros a. rewrite sent_at_app, unsent_at_app, fmap_cons, concat_cons, (app_assoc (queued_at a fw)), <- C1.
  transitivity ((sent_at a o1 ++ unsent_at a o1 ++ sent_at a o2 ++ unsent_at a o2 ++ queued_at a fw2)%list); [solve_Permutation|].
  rewrite C2. solve_Permutation.
Qed.

Lemma forwarder_new_quiet : quiet forwarder_new.
Proof. split; simpl; [done|constructor|constructor|]. intros a idx. rewrite lookup_empty. split; [set_solver|by intros [[? ?] _]]. Qed.

Definition sample_packets : list ForwardEvent :=
  [FwPacket (mkForwardPacket [[1]; [2]] 8000 6) 0 1000; FwPacket (mkForwardPacket [[3]] 8001 5) 10 1010; FwRound 2 false (mkBatchIo [true; false] None);
   FwPacket (mkForwardPacket [[4]] 8000 6) 20 1300; FwRound 2 false (mkBatchIo [] None)].

Lemma forwarder_sends_once_witness :
  exists fw' out, orun forward_step forwarder_new sample_packets = Done (fw', out) /\ quiet fw' /\
    forall a, (sent_at a out ++ unsent_at a out ++ queued_at a fw')%list ≡ₚ concat (received_at a <$> sample_packets).
Proof. apply (forwarder_sends_once sample_packets forwarder_new forwarder_new_quiet). vm_compute. reflexivity. Defined.

(** ** When agents end *)

(** Agents that were told to exit go on sending while they have packets
    left, also packets that came after new agents were started for their
    validator: a transaction is then sent twice. *)
Theorem restarted_agent_sends_twice t0 t1 :
  exists evs fw' out, concat (received_at 8000 <$> evs) = [t0; t1] /\
    orun forward_step forwarder_new evs = Done (fw', out) /\ sent_at 8000 out = [t0; t1; t1].
Proof.
  exists [FwPacket (mkForwardPacket [t0] 8000 0) 0 1000; FwRound 0 false (mkBatchIo [] None);
          FwPacket (mkForwardPacket [[0]] 8001 0) 3000 4000; FwPacket (mkForwardPacket [t1] 8000 0) 3001 4001;
          FwPacket (mkForwardPacket [[0]] 8001 0) 3002 4002; FwRound 0 false (mkBatchIo [] None); FwRound 0 false (mkBatchIo [] None); FwRound 8 false (mkBatchIo [] None)].
  eexists _, _. split; [reflexivity|]. split; [vm_compute; reflexivity|]. reflexivity.
Qed.

(** When the agents of a validator have all ended, because its connections
    are dead, and no other agent runs, the next packet for that validator
    makes the forwarder panic: nobody listens to the channel, and new agents
    are only started for validators without an entry. *)
Theorem packet_without_agents_panics fw p now clock :
  is_Some (fw_agents fw !! fp_tpu_address p) -> Forall (fun t => at_running t = false) (fw_tasks fw) ->
  forward_packet fw p now clock = Panic.
Proof.
  intros [[gen last] Ha] Hall. unfold forward_packet. rewrite Ha. simpl. destruct (can_fire _ clock) as [db fire].
  assert (forall fw', fw_tasks fw' = fw_tasks fw -> existsb at_running (fw_tasks fw') = false) as Hno.
  { intros fw' ->. apply not_true_is_false. intros (t & Ht & Hr)%existsb_exists. apply list_elem_of_In in Ht.
    rewrite Forall_forall in Hall. by rewrite (Hall t Ht) in Hr. }
  destruct fire; by rewrite Hno.
Qed.

(** Four packets, one for each shard, and agents that find their connection
    dead at their own packet. *)
Definition dead_validator : list ForwardEvent :=
  ((fun h => FwPacket (mkForwardPacket [[h]] 8000 h) h (1000 + h)) <$> [0; 1; 2; 3])%list ++
  [FwRound 0 true (mkBatchIo [] None); FwRound 1 false (mkBatchIo [] None); FwRound 1 true (mkBatchIo [] None); FwRound 2 false (mkBatchIo [] None); FwRound 2 false (mkBatchIo [] None); FwRound 2 true (mkBatchIo [] None);
   FwRound 3 false (mkBatchIo [] None); FwRound 3 false (mkBatchIo [] None); FwRound 3 false (mkBatchIo [] None); FwRound 3 true (mkBatchIo [] None)].
Definition dead_forwarder : Forwarder :=
  match orun forward_step forwarder_new dead_validator with Done (fw, _) => fw | Panic => forwarder_new end.

Lemma packet_without_agents_panics_witness :
  forward_packet dead_forwarder (mkForwardPacket [[9]] 8000 1) 100 1100 = Panic.
Proof.
  apply packet_without_agents_panics.
  - vm_compute. by eexists.
  - vm_compute. repeat constructor.
Defined.
