(* ===== verification/ProxyServer.v ===== *)
(** * The forward proxy as a server

    quic-forward-proxy/src/main.rs, proxy.rs, validator_identity.rs, cli.rs and the
    accept loops of inbound/proxy_listener.rs: the listener and its connections,
    the task of every stream, the channel to the forwarder, and the forwarder
    with its agents ([Forwarder]).  [server_step] is one action of one of them. *)

From S2P Require Import Prelude Types Proxy Forwarder.

Open Scope list_scope.
Open Scope Z_scope.

(** ** The start *)

(** [Args], quic-forward-proxy/src/cli.rs:3-11. *)
Record Args := mkArgs { identity_keypair : string; proxy_listen_addr : string }.

(** [ValidatorIdentity], quic-forward-proxy/src/validator_identity.rs:7-11. *)
Record ValidatorIdentity := mkValidatorIdentity { vi_pubkey : Pubkey; is_dummy_keypair : bool }.

(** [ValidatorIdentity::new], quic-forward-proxy/src/validator_identity.rs:14-25; [fresh]
    is a new key pair. *)
Definition validator_identity_new (fresh : Pubkey) (keypair : option Pubkey) : ValidatorIdentity :=
  match keypair with
  | Some keypair => mkValidatorIdentity keypair false
  | None => mkValidatorIdentity fresh true
  end.

(** [ValidatorIdentity::fmt], quic-forward-proxy/src/validator_identity.rs:38-44. *)
Definition identity_text (to_string : Pubkey -> string) (v : ValidatorIdentity) : string :=
  if is_dummy_keypair v then "no keypair" else to_string (vi_pubkey v).

(** What the start reads: an address, the key file, a fresh key. *)
Record ProxyEnv := mkProxyEnv {
  pe_parse_addr : string -> option Z;
  pe_read_keypair : string -> option Pubkey;
  pe_fresh : Pubkey;
}.

(** The start of [main], quic-forward-proxy/src/main.rs:29-44: the address to listen
    on and the identity towards the validators. *)
Definition proxy_start (env : ProxyEnv) (args : Args) : outcome (Z * ValidatorIdentity) :=
  addr ← unwrap (pe_parse_addr env (proxy_listen_addr args));
  keypair ← (if String.eqb (identity_keypair args) EmptyString then Done None
             else k ← unwrap (pe_read_keypair env (identity_keypair args)); Done (Some k));
  Done (addr, validator_identity_new (pe_fresh env) keypair).

(** ** The server *)

(** [FORWARD_CHANNEL]: the capacity of the channel in
    [QuicForwardProxy::start_services], quic-forward-proxy/src/proxy.rs:36-36. *)
Definition FORWARD_CHANNEL : nat := 1000.

(** How the process ends. *)
Inductive ProxyEnd := ListenerExited | ForwarderExited | Interrupted.

(** The open connections, what the task of each stream has still to enqueue,
    the channel, the forwarder, and how the process ended. *)
Record ProxyState := mkProxyState {
  px_connections : list bool;
  px_streams : list (list ForwardPacket);
  px_channel : list ForwardPacket;
  px_forwarder : Forwarder;
  px_end : option ProxyEnd;
}.

(** [QuicForwardProxy::start_services], quic-forward-proxy/src/proxy.rs:33-64. *)
Definition start_services : ProxyState := mkProxyState [] [] [] forwarder_new None.

Inductive proxy_event :=
| PxIncoming (accepted : bool)
| PxStream (conn : nat) (raw_request : option (list Z))
| PxEnqueue (stream : nat) (timeout : bool)
| PxForward (now clock : Z)
| PxRound (agent : nat) (dead : bool) (io : BatchIo)
| PxClose (conn : nat)
| PxListenerEnds
| PxCtrlC.

Section server.
Context (wc : WireCodec) (hash : Signature -> Z).

Definition set_streams (s : ProxyState) (streams : list (list ForwardPacket)) (channel : list ForwardPacket) : ProxyState :=
  mkProxyState (px_connections s) streams channel (px_forwarder s) (px_end s).
Definition set_forwarder (s : ProxyState) (channel : list ForwardPacket) (fw : Forwarder) : ProxyState :=
  mkProxyState (px_connections s) (px_streams s) channel fw (px_end s).
Definition set_end (s : ProxyState) (e : ProxyEnd) : ProxyState :=
  mkProxyState (px_connections s) (px_streams s) (px_channel s) (px_forwarder s) (Some e).

(** A connection that comes in, [ProxyListener::listen],
    quic-forward-proxy/src/inbound/proxy_listener.rs:34-64: one that cannot be accepted
    makes the listener panic. *)
Definition incoming (s : ProxyState) (accepted : bool) : ProxyState :=
  if accepted then mkProxyState (px_connections s ++ [true]) (px_streams s) (px_channel s) (px_forwarder s) (px_end s)
  else set_end s ListenerExited.

(** A stream that ends, the loop of [ProxyListener::handle_client_connection],
    quic-forward-proxy/src/inbound/proxy_listener.rs:91-175: its task decodes the request
    and has a packet for every node; [None] is a stream that cannot be read. *)
Definition stream_packets (raw_request : option (list Z)) : list ForwardPacket :=
  match raw_request with Some raw => (handle_stream wc hash raw []).1 | None => [] end.
Definition accept_stream (s : ProxyState) (conn : nat) (raw_request : option (list Z)) : ProxyState :=
  match px_connections s !! conn with
  | Some true => set_streams s (px_streams s ++ [stream_packets raw_request]) (px_channel s)
  | _ => s
  end.

(** [ProxyListener::handle_client_connection],
    quic-forward-proxy/src/inbound/proxy_listener.rs:136-150: the task of a stream
    enqueues its next packet; after a timeout it panics
    and the rest of its packets is lost. *)
Definition enqueue (s : ProxyState) (stream : nat) (timeout : bool) : ProxyState :=
  match px_streams s !! stream with
  | Some (p :: rest) =>
      if timeout then set_streams s (<[stream := []]> (px_streams s)) (px_channel s)
      else if bool_decide (length (px_channel s) < FORWARD_CHANNEL)%nat
      then set_streams s (<[stream := rest]> (px_streams s)) (px_channel s ++ [p])
      else s
  | _ => s
  end.

(** The tasks of [QuicForwardProxy::start_services] and the select of [main],
    quic-forward-proxy/src/main.rs:46-61: the end of the listener or of the forwarder ends
    the process, and so does an interrupt. *)
Definition server_act (s : ProxyState) (ev : proxy_event) : ProxyState * list FwOutput :=
  match ev with
  | PxIncoming accepted => (incoming s accepted, [])
  | PxStream conn raw_request => (accept_stream s conn raw_request, [])
  | PxEnqueue stream timeout => (enqueue s stream timeout, [])
  | PxForward now clock =>
      match px_channel s with
      | p :: channel =>
          match forward_step (px_forwarder s) (FwPacket p now clock) with
          | Done (fw, out) => (set_forwarder s channel fw, out)
          | Panic => (set_end (set_forwarder s channel (px_forwarder s)) ForwarderExited, [])
          end
      | [] => (s, [])
      end
  | PxRound agent dead io =>
      match forward_step (px_forwarder s) (FwRound agent dead io) with
      | Done (fw, out) => (set_forwarder s (px_channel s) fw, out)
      | Panic => (s, [])
      end
  | PxClose conn =>
      (mkProxyState (<[conn := false]> (px_connections s)) (px_streams s) (px_channel s) (px_forwarder s) (px_end s), [])
  | PxListenerEnds => (set_end s ListenerExited, [])
  | PxCtrlC => (set_end s Interrupted, [])
  end.

Definition server_step (s : ProxyState) (ev : proxy_event) : ProxyState * list FwOutput :=
  match px_end s with Some _ => (s, []) | None => server_act s ev end.

(** ** What clients asked for *)

(** The transactions for a validator in packets. *)
Definition packets_at (a : Z) (l : list ForwardPacket) : list (list Z) :=
  concat ((fun p => if fp_tpu_address p =? a then fp_transactions p else []) <$> l).

(** The transactions a request asks to send to a validator: all of them, once
    for every time the request names it. *)
Definition requested_at (a : Z) (raw_request : option (list Z)) : list (list Z) :=
  match raw_request with
  | Some raw =>
      match try_deserialize_from_wire_format wc raw with
      | Done (Some r) => concat ((fun node => if tpu_socket_addr node =? a then get_transaction_bytes r else []) <$> tpu_nodes r)
      | _ => []
      end
  | None => []
  end.

(** The transactions that are on their way to a validator. *)
Definition on_the_way (a : Z) (s : ProxyState) : list (list Z) :=
  queued_at a (px_forwarder s) ++ packets_at a (px_channel s) ++ packets_at a (concat (px_streams s)).

(** What a step of the server accepts for a validator. *)
Definition asked_at (a : Z) (s : ProxyState) (ev : proxy_event) : list (list Z) :=
  match px_end s, ev with
  | None, PxStream conn raw => match px_connections s !! conn with Some true => requested_at a raw | _ => [] end
  | _, _ => []
  end.
Fixpoint asked_all (a : Z) (s : ProxyState) (evs : list proxy_event) : list (list Z) :=
  match evs with [] => [] | ev :: evs => asked_at a s ev ++ asked_all a (server_step s ev).1 evs end.

(** The step leaves the agents alone: none stays idle, is overrun or loses its
    connection, and no task of a stream gives up. *)
Definition calm_event (s : ProxyState) (ev : proxy_event) : bool :=
  match ev with
  | PxForward now clock => match px_channel s with p :: _ => quiet_event (px_forwarder s) (FwPacket p now clock) | [] => true end
  | PxRound agent dead io => quiet_event (px_forwarder s) (FwRound agent dead io)
  | PxEnqueue _ timeout => negb timeout
  | _ => true
  end.
Fixpoint calm_run (s : ProxyState) (evs : list proxy_event) : bool :=
  match evs with [] => true | ev :: evs => calm_event s ev && calm_run (server_step s ev).1 evs end.

Lemma packets_at_app a l1 l2 : packets_at a (l1 ++ l2) = packets_at a l1 ++ packets_at a l2.
Proof. unfold packets_at. by rewrite fmap_app, concat_app. Qed.

Lemma packets_at_cons a p l :
  packets_at a (p :: l) = (if fp_tpu_address p =? a then fp_transactions p else []) ++ packets_at a l.
Proof. done. Qed.

(** The task of a stream has a packet for every node of its request. *)
Lemma stream_packets_requested a raw : packets_at a (stream_packets raw) = requested_at a raw.
Proof.
  destruct raw as [raw|]; [|done]. unfold stream_packets, requested_at, handle_stream.
  destruct (try_deserialize_from_wire_format wc raw) as [[r|]|]; [|done..].
  assert (forall nodes, packets_at a (forward_to_nodes hash r nodes []).1 =
    concat ((fun node => if tpu_socket_addr node =? a then get_transaction_bytes r else []) <$> nodes)) as Hn.
  { intros nodes. induction nodes as [|node nodes IH]; [done|]. cbn [forward_to_nodes]. unfold get_hash.
    destruct (fr_transactions r) as [|tx txs] eqn:Et.
    - cbn [head unwrap mbind outcome_bind fst]. unfold get_transaction_bytes. rewrite Et. cbn [fmap list_fmap concat].
      clear. destruct (tpu_socket_addr node =? a); cbn [app]; (induction nodes as [|n nodes IH]; [done|]);
        cbn [fmap list_fmap concat]; rewrite <- IH; by destruct (tpu_socket_addr n =? a).
    - cbn [head unwrap mbind outcome_bind]. unfold forward_packet_new at 1.
      destruct (get_transaction_bytes r) as [|b bs] eqn:Eb; [unfold get_transaction_bytes in Eb; by rewrite Et in Eb|].
      cbn [head tail default from_option]. destruct (forward_to_nodes hash r nodes []) as [l panicked]. cbn [fst] in *.
      rewrite packets_at_cons, IH. done. }
  destruct (tpu_nodes r) as [|node nodes]; [done|]. apply Hn.
Qed.

Lemma concat_insert_head {A} (ls : list (list A)) i x rest :
  ls !! i = Some (x :: rest) -> concat ls ≡ₚ x :: concat (<[i := rest]> ls).
Proof.
  revert i. induction ls as [|l ls IH]; intros [|i] H; simplify_eq/=; [done|].
  rewrite (IH i H). by rewrite Permutation_middle.
Qed.

Lemma packets_at_perm a l1 l2 : l1 ≡ₚ l2 -> packets_at a l1 ≡ₚ packets_at a l2.
Proof.
  unfold packets_at. induction 1; cbn [fmap list_fmap concat]; [done|by f_equiv| |by etrans].
  rewrite !app_assoc. f_equiv. apply Permutation_app_comm.
Qed.

(** One action neither loses nor doubles a transaction. *)
Lemma server_step_conserves s ev :
  quiet (px_forwarder s) -> calm_event s ev = true ->
  quiet (px_forwarder (server_step s ev).1) /\
  (px_end s = None -> px_end (server_step s ev).1 <> Some ForwarderExited) /\
  forall a, sent_at a (server_step s ev).2 ++ unsent_at a (server_step s ev).2 ++ on_the_way a (server_step s ev).1 ≡ₚ on_the_way a s ++ asked_at a s ev.
Proof.
  assert (forall s' : ProxyState, quiet (px_forwarder s') -> px_end s' = None ->
    quiet (px_forwarder (s', @nil FwOutput).1) /\ (None = @None ProxyEnd -> px_end (s', @nil FwOutput).1 <> Some ForwarderExited) /\
    forall a, sent_at a (s', @nil FwOutput).2 ++ unsent_at a (s', @nil FwOutput).2 ++ on_the_way a (s', @nil FwOutput).1 ≡ₚ on_the_way a s' ++ []) as idle.
  { intros s' Hq' He'. split; [done|]. split; [cbn; by rewrite He'|]. intros a. by rewrite app_nil_r. }
  intros Hq Hc. unfold server_step, asked_at. destruct (px_end s) as [e|] eqn:He; [split; [done|]; split; [done|]; intros a; by rewrite app_nil_r|].
  destruct ev as [accepted|conn raw|stream timeout|now clock|agent dead io|conn| |]; cbn [server_act].
  - destruct accepted; cbn; rewrite ?He; (split; [done|]; split; [done|]; intros a; by rewrite app_nil_r).
  - unfold accept_stream. destruct (px_connections s !! conn) as [[|]|];
      try exact (idle s Hq He).
    split; [done|]. split; [cbn; by rewrite He|]. intros a. unfold on_the_way.
    cbn [set_streams px_streams px_channel px_forwarder fst snd]. change (sent_at a []) with (@nil (list Z)); change (unsent_at a []) with (@nil (list Z)).
    rewrite concat_app, packets_at_app. cbn [concat app]. rewrite app_nil_r, stream_packets_requested. by rewrite !app_assoc.
  - unfold enqueue. destruct (px_streams s !! stream) as [[|p rest]|] eqn:Hl;
      try exact (idle s Hq He).
    destruct timeout; [done|]. case_bool_decide; [|exact (idle s Hq He)].
    split; [done|]. split; [cbn; by rewrite He|]. intros a. rewrite app_nil_r. unfold on_the_way.
    cbn [set_streams px_streams px_channel px_forwarder fst snd]. change (sent_at a []) with (@nil (list Z)); change (unsent_at a []) with (@nil (list Z)). cbn [app]. f_equiv.
    rewrite packets_at_app, (packets_at_perm a _ _ (concat_insert_head _ _ _ _ Hl)), packets_at_cons, packets_at_cons.
    cbn [packets_at fmap list_fmap concat]. rewrite app_nil_r. by rewrite <- app_assoc.
  - cbn [calm_event] in Hc. destruct (px_channel s) as [|p channel] eqn:Hch;
      [exact (idle s Hq He)|].
    destruct (forward_packet_quiet (px_forwarder s) p now clock Hq Hc) as (fw & E & Hq' & C). cbn [forward_step]. rewrite E. cbn.
    split; [done|]. split; [by rewrite He|]. intros a. rewrite app_nil_r. unfold on_the_way.
    cbn [set_forwarder px_streams px_channel px_forwarder fst snd]. change (sent_at a []) with (@nil (list Z)); change (unsent_at a []) with (@nil (list Z)). cbn [app].
    rewrite Hch, packets_at_cons. specialize (C a). cbn in C. rewrite C. cbn [received_at]. by rewrite <- !app_assoc.
  - cbn [calm_event quiet_event] in Hc. destruct dead; [done|].
    destruct (forward_round_quiet (px_forwarder s) agent io Hq) as (fw & o & E & Hq' & C). rewrite E. cbn.
    split; [done|]. split; [by rewrite He|]. intros a. rewrite app_nil_r. unfold on_the_way.
    cbn [set_forwarder px_streams px_channel px_forwarder fst snd]. fold (sent_at a o) (unsent_at a o).
    rewrite <- (C a). by rewrite <- !app_assoc.
  - split; [done|]. split; [cbn; by rewrite He|]. intros a. by rewrite app_nil_r.
  - split; [done|]. split; [done|]. intros a. by rewrite app_nil_r.
  - split; [done|]. split; [done|]. intros a. by rewrite app_nil_r.
Qed.

(** A round whose streams are all written in time. *)
Definition faultless_event (ev : proxy_event) : Prop := match ev with PxRound _ _ io => faultless io | _ => True end.

Lemma server_step_faultless s ev a : faultless_event ev -> unsent_at a (server_step s ev).2 = [].
Proof.
  intros Hf. unfold server_step. destruct (px_end s); [done|]. destruct ev as [| | |now clock|agent dead io| | |]; try done; cbn [server_act].
  - destruct (px_channel s); [done|]. cbn [forward_step]. by destruct (forward_packet _ _ _ _).
  - destruct (forward_step _ _) as [[fw out]|] eqn:E; [|done]. by apply (forward_round_faultless _ _ _ _ _ _ Hf E).
Qed.

(** C9. What clients ask the proxy to forward is forwarded once.  As long as
    no agent stays idle or is overrun, no connection to a validator is dead and
    the channel takes the packets in time, in whatever order connections,
    streams, forwarder and agents act: the forwarder does not end the process,
    and for each validator the transactions written to it, with those that could
    not be written because their stream failed or their batch timed out and those
    still in a stream's task, in the channel or with an agent, are those of the
    requests that name it.  If no stream fails and no batch times out, none
    is left unwritten. *)
Theorem proxy_forwards_once (evs : list proxy_event) (s : ProxyState) :
  quiet (px_forwarder s) -> calm_run s evs = true -> px_end s = None ->
  let '(s', out) := run server_step s evs in
  px_end s' <> Some ForwarderExited /\
  (forall a, sent_at a out ++ unsent_at a out ++ on_the_way a s' ≡ₚ on_the_way a s ++ asked_all a s evs) /\
  (Forall faultless_event evs -> forall a, unsent_at a out = []).
Proof.
  intros Hq Hrun He. assert (px_end s <> Some ForwarderExited) as Hne by by rewrite He. clear He.
  revert s Hq Hrun Hne. induction evs as [|ev evs IH]; intros s Hq Hrun Hne.
  { cbn. split; [done|]. split; [|done]. intros a. by rewrite app_nil_r. }
  cbn [calm_run run asked_all] in *. apply andb_true_iff in Hrun as [Hc Hrun].
  destruct (server_step_conserves s ev Hq Hc) as (Hq1 & He1 & C1).
  assert (px_end (server_step s ev).1 <> Some ForwarderExited) as Hne1.
  { destruct (px_end s) as [e|] eqn:E; [|by apply He1]. unfold server_step. rewrite E. cbn [fst]. by rewrite E. }
  pose proof (server_step_faultless s ev) as F1. destruct (server_step s ev) as [s1 o1]. cbn [fst snd] in *. specialize (IH s1 Hq1 Hrun Hne1).
  destruct (run server_step s1 evs) as [s2 o2]. destruct IH as (He2 & C2 & F2). split; [done|]. split.
  - intros a. rewrite sent_at_app, unsent_at_app, (app_assoc (on_the_way a s)), <- C1.
    transitivity (sent_at a o1 ++ unsent_at a o1 ++ sent_at a o2 ++ unsent_at a o2 ++ on_the_way a s2); [solve_Permutation|].
    rewrite C2. solve_Permutation.
  - intros [Hf Hfs]%Forall_cons a. by rewrite unsent_at_app, F2, F1.
Qed.
End server.

(** Two clients, one of which sends a request for two validators and the other
    a stream that is no request. *)
Definition sample_proxy_run : list proxy_event :=
  [PxIncoming true; PxIncoming true;
   PxStream 0 (Some (wc_serialize sample_wire (forwarding_request_new [(8000, 1); (8001, 2)] [mkTxData 41 [1; 2]; mkTxData 42 [3]])));
   PxStream 1 None; PxEnqueue 0 false; PxForward 0 1000; PxEnqueue 0 false; PxClose 0; PxRound 1 false (mkBatchIo [] None); PxForward 1 1001;
   PxRound 5 false (mkBatchIo [true; false] None); PxIncoming false].

Lemma proxy_forwards_once_witness :
  let '(s', out) := run (server_step sample_wire id) start_services sample_proxy_run in
  px_end s' <> Some ForwarderExited /\
  (forall a, sent_at a out ++ unsent_at a out ++ on_the_way a s' ≡ₚ on_the_way a start_services ++ asked_all sample_wire id a start_services sample_proxy_run) /\
  (Forall faultless_event sample_proxy_run -> forall a, unsent_at a out = []).
Proof.
  apply (proxy_forwards_once sample_wire id sample_proxy_run start_services).
  - exact forwarder_new_quiet.
  - vm_compute. reflexivity.
  - reflexivity.
Defined.

(** In that run the first validator is sent both transactions, the second only
    one of them, because of its stream. *)
Lemma sample_proxy_run_sends :
  sent_at 8000 (run (server_step sample_wire id) start_services sample_proxy_run).2 = [[1; 2]; [3]] /\
  sent_at 8001 (run (server_step sample_wire id) start_services sample_proxy_run).2 = [[1; 2]].
Proof. split; vm_compute; reflexivity. Qed.
