(* ===== verification/Logger.v ===== *)
(** * The log of transactions in the database

    lite-rpc/src/postgres_logger: the task that drains the notifications of
    the transaction sender into two batches and writes each batch with one
    statement (mod.rs), the session it uses (postgres_session.rs), and the
    start of the task (main.rs).  A round of the task is one turn of its
    outer loop; what the channel, the server and the network do during a
    round is the event of the round. *)

From S2P Require Import Prelude Types BlockInfoStore DataCache TxService PgSession.

Open Scope string_scope.
Open Scope list_scope.
Open Scope Z_scope.

(** ** Rows and batches *)

(** [u64 as i64]. *)
Definition as_i64 (x : Z) : Z := if x mod u64_size <=? i64_max then x mod u64_size else x mod u64_size - u64_size.

(** [PostgresTx], lite-rpc/src/postgres_logger/mod.rs:36-46. *)
Record PostgresTx := mkPostgresTx {
  pt_signature : string;
  pt_recent_slot : Z;
  pt_forwarded_slot : Z;
  pt_forwarded_local_time : Z;
  pt_processed_slot : option Z;
  pt_cu_consumed : option Z;
  pt_cu_requested : option Z;
  pt_quic_response : Z;
}.

(** [PostgresTxUpdate], lite-rpc/src/postgres_logger/mod.rs:68-75. *)
Record PostgresTxUpdate := mkPostgresTxUpdate {
  pu_signature : string;
  pu_processed_slot : Z;
  pu_cu_consumed : option Z;
  pu_cu_requested : option Z;
  pu_cu_price : option Z;
}.

(** [TransactionUpdateNotification], core/src/structures/notifications.rs:18-29,
    the fields the log reads. *)
Record TransactionUpdateNotification := mkUpdateNotification {
  un_signature : string;
  un_slot : Slot;
  un_cu_consumed : option Z;
  un_cu_requested : option Z;
  un_cu_price : option Z;
}.

(** [NotificationMsg], core/src/structures/notifications.rs:53-59. *)
Inductive NotificationMsg :=
| TxNotificationMsg (txs : list TransactionNotification)
| BlockNotificationMsg (slot : Slot)
| AccountAddrMsg (id : Z) (addr : string)
| UpdateTransactionMsg (updates : list TransactionUpdateNotification).

(** The sizes of [SchemaSize], lite-rpc/src/postgres_logger/mod.rs:48-51. *)
Definition tx_default_size : Z := 88 + 3 * 8 + 2.
(** The sizes of [SchemaSize], lite-rpc/src/postgres_logger/mod.rs:77-80. *)
Definition update_max_size : Z := 88 + 8 + 3 * 8.
Definition MAX_QUERY_SIZE : Z := 200000.

(** [get_max_safe_inserts], lite-rpc/src/postgres_logger/mod.rs:100-106. *)
Definition get_max_safe_inserts (default_size : Z) : outcome Z :=
  if default_size =? 0 then Panic else Done (MAX_QUERY_SIZE / default_size).
(** [get_max_safe_updates], lite-rpc/src/postgres_logger/mod.rs:108-114. *)
Definition get_max_safe_updates (max_size : Z) : outcome Z :=
  if max_size =? 0 then Panic else Done (MAX_QUERY_SIZE / max_size).

(** The constants of [start], evaluated by the compiler. *)
Definition TX_MAX_CAPACITY : Z := match get_max_safe_inserts tx_default_size with Done n => n | Panic => 0 end.
Definition UPDATE_MAX_CAPACITY : Z := match get_max_safe_updates update_max_size with Done n => n | Panic => 0 end.

(** ** Statements *)

Inductive SqlValue := SqlText (s : string) | SqlInt (n : Z) | SqlTime (t : Z) | SqlNull.

Definition sql_option (o : option Z) : SqlValue := match o with Some n => SqlInt n | None => SqlNull end.

(** A row of lite_rpc.Txs. *)
Record TxRow := mkTxRow { tr_tx : PostgresTx; tr_cu_price : option Z }.

(** The two statements: the list of placeholders and the arguments. *)
Inductive Statement :=
| InsertTxs (values : string) (args : list SqlValue)
| UpdateTxs (values : string) (args : list SqlValue).

Definition tx_args (tx : PostgresTx) : list SqlValue :=
  [SqlText (pt_signature tx); SqlInt (pt_recent_slot tx); SqlInt (pt_forwarded_slot tx);
   SqlTime (pt_forwarded_local_time tx); sql_option (pt_processed_slot tx); sql_option (pt_cu_consumed tx);
   sql_option (pt_cu_requested tx); SqlInt (pt_quic_response tx)].

Definition update_args (u : PostgresTxUpdate) : list SqlValue :=
  [SqlText (pu_signature u); SqlInt (pu_processed_slot u); sql_option (pu_cu_consumed u);
   sql_option (pu_cu_requested u); sql_option (pu_cu_price u)].

(** The statement of [send_txs], lite-rpc/src/postgres_logger/mod.rs:116-160;
    none when there is nothing to send. *)
Definition send_txs (txs : list PostgresTx) : outcome (option Statement) :=
  match txs with
  | [] => Done None
  | _ =>
      let args := concat (map tx_args txs) in
      values ← values_vecvec 8 (length txs) [];
      Done (Some (InsertTxs values args))
  end.

(** The statement of [update_txs], lite-rpc/src/postgres_logger/mod.rs:162-212. *)
Definition update_txs (txs : list PostgresTxUpdate) : outcome (option Statement) :=
  match txs with
  | [] => Done None
  | _ =>
      let args := concat (map update_args txs) in
      values ← values_vecvec 5 (length txs) ["text"; "bigint"; "bigint"; "bigint"; "bigint"];
      Done (Some (UpdateTxs values args))
  end.

(** What the server does with the arguments of a statement, row by row. *)
Definition value_option (v : SqlValue) : option Z := match v with SqlInt n => Some n | _ => None end.

Fixpoint read_inserts (args : list SqlValue) : list TxRow :=
  match args with
  | SqlText s :: SqlInt r :: SqlInt f :: SqlTime t :: p :: cc :: cr :: SqlInt q :: args =>
      mkTxRow (mkPostgresTx s r f t (value_option p) (value_option cc) (value_option cr) q) None :: read_inserts args
  | _ => []
  end.

Fixpoint read_updates (args : list SqlValue) : list PostgresTxUpdate :=
  match args with
  | SqlText s :: SqlInt p :: cc :: cr :: cp :: args =>
      mkPostgresTxUpdate s p (value_option cc) (value_option cr) (value_option cp) :: read_updates args
  | _ => []
  end.

Section logger.
(** [Signature::to_string], and the row of the list the server takes when
    several match, which SQL leaves open. *)
Context (sig_text : Signature -> string) (pick : list PostgresTxUpdate -> option PostgresTxUpdate).

(** [From<&TransactionNotification>], lite-rpc/src/postgres_logger/mod.rs:53-66. *)
Definition tx_of_notification (value : TransactionNotification) : PostgresTx :=
  mkPostgresTx (sig_text (tn_signature value)) (as_i64 (tn_recent_slot value)) (as_i64 (tn_forwarded_slot value))
    (tn_forwarded_local_time value) (as_i64 <$> tn_processed_slot value) (as_i64 <$> tn_cu_consumed value)
    (as_i64 <$> tn_cu_requested value) (tn_quic_response value).

(** [From<&TransactionUpdateNotification>],
    lite-rpc/src/postgres_logger/mod.rs:82-92. *)
Definition update_of_notification (value : TransactionUpdateNotification) : PostgresTxUpdate :=
  mkPostgresTxUpdate (un_signature value) (as_i64 (un_slot value)) (as_i64 <$> un_cu_consumed value)
    (un_cu_requested value) (as_i64 <$> un_cu_price value).

(** The update of a row by the rows of [t2] with its signature. *)
Definition update_row (updates : list PostgresTxUpdate) (r : TxRow) : TxRow :=
  match pick (filter (fun u => pu_signature u = pt_signature (tr_tx r)) updates) with
  | Some u =>
      let t := tr_tx r in
      mkTxRow (mkPostgresTx (pt_signature t) (pt_recent_slot t) (pt_forwarded_slot t) (pt_forwarded_local_time t)
                 (Some (pu_processed_slot u)) (pu_cu_consumed u) (pu_cu_requested u) (pt_quic_response t))
              (pu_cu_price u)
  | None => r
  end.

Definition execute_statement (table : list TxRow) (st : Statement) : list TxRow :=
  match st with
  | InsertTxs _ args => table ++ read_inserts args
  | UpdateTxs _ args => map (update_row (read_updates args)) table
  end.

(** How the call for a statement ends: it is answered, it fails before the
    statement takes effect, or it fails after (the connection broke before the
    answer). *)
Inductive StatementEnd := EndOk | EndFailed | EndUnknown.

Definition try_statement (table : list TxRow) (e : StatementEnd) (st : option Statement) : list TxRow :=
  match st, e with
  | Some st, (EndOk | EndUnknown) => execute_statement table st
  | _, _ => table
  end.
Definition reported_ok (e : StatementEnd) : bool := match e with EndOk => true | _ => false end.

(** ** The task *)

Record Logger := mkLogger {
  lg_queue : list NotificationMsg;
  lg_tx_batch : list PostgresTx;
  lg_update_batch : list PostgresTxUpdate;
  lg_session_error : bool;
  lg_session : Z;
  lg_running : bool;
  lg_table : list TxRow;
}.

(** A round: what has come in, whether every sender is gone, whether the
    cached session is closed, the new session if the server accepts one,
    how the call for each statement ends, and which of the two comes first. *)
Record Round := mkRound {
  rd_arrived : list NotificationMsg;
  rd_disconnected : bool;
  rd_closed : bool;
  rd_connects : option Z;
  rd_insert : StatementEnd;
  rd_update : StatementEnd;
  rd_update_first : bool;
}.

Definition at_capacity (tx : list PostgresTx) (upd : list PostgresTxUpdate) : bool :=
  (TX_MAX_CAPACITY <=? Z.of_nat (length tx)) || (UPDATE_MAX_CAPACITY <=? Z.of_nat (length upd)).

(** The inner loop of [start], lite-rpc/src/postgres_logger/mod.rs:234-273; [None]
    when the channel is empty and disconnected. *)
Fixpoint drain (queue : list NotificationMsg) (disconnected : bool) (tx : list PostgresTx) (upd : list PostgresTxUpdate) :
    outcome (option (list NotificationMsg * list PostgresTx * list PostgresTxUpdate)) :=
  if at_capacity tx upd then Done (Some (queue, tx, upd)) else
  match queue with
  | [] => Done (if disconnected then None else Some ([], tx, upd))
  | msg :: queue =>
      match msg with
      | TxNotificationMsg l => drain queue disconnected (tx ++ map tx_of_notification l) upd
      | BlockNotificationMsg _ => drain queue disconnected tx upd
      | UpdateTransactionMsg l => drain queue disconnected tx (upd ++ map update_of_notification l)
      | AccountAddrMsg _ _ => Panic
      end
  end.

(** [PostgresSessionCache::get_session],
    lite-rpc/src/postgres_logger/postgres_session.rs:137-147; the task is the only
    user of its cache. *)
Definition get_session (session : Z) (closed : bool) (connects : option Z) : Z * option Z :=
  if closed then match connects with Some new => (new, Some new) | None => (session, None) end
  else (session, Some session).

(** The rest of a round of [start], once the batches are drained,
    lite-rpc/src/postgres_logger/mod.rs:275-319. *)
Definition write_batches (s : Logger) (r : Round) : outcome (Logger * list Statement) :=
  if match lg_tx_batch s with [] => true | _ => false end && match lg_update_batch s with [] => true | _ => false end
  then Done (s, [])
  else
    let '(session, got) := get_session (lg_session s) (rd_closed r) (rd_connects r) in
    match got with
    | None => Done (mkLogger (lg_queue s) (lg_tx_batch s) (lg_update_batch s) true session true (lg_table s), [])
    | Some _ =>
        insert ← send_txs (lg_tx_batch s);
        update ← update_txs (lg_update_batch s);
        let res_txs := match insert with Some _ => reported_ok (rd_insert r) | None => true end in
        let res_update := match update with Some _ => reported_ok (rd_update r) | None => true end in
        let table :=
          if rd_update_first r
          then try_statement (try_statement (lg_table s) (rd_update r) update) (rd_insert r) insert
          else try_statement (try_statement (lg_table s) (rd_insert r) insert) (rd_update r) update in
        Done (mkLogger (lg_queue s) (if res_txs then [] else lg_tx_batch s)
                (if res_update then [] else lg_update_batch s) false session true table,
              option_list insert ++ option_list update)
    end.

(** One turn of the outer loop of [start],
    lite-rpc/src/postgres_logger/mod.rs:232-320. *)
Definition logger_round (s : Logger) (r : Round) : outcome (Logger * list Statement) :=
  if lg_running s then
    let queue := lg_queue s ++ rd_arrived r in
    drained ← (if lg_session_error s then Done (Some (queue, lg_tx_batch s, lg_update_batch s))
               else drain queue (rd_disconnected r) (lg_tx_batch s) (lg_update_batch s));
    match drained with
    | None => Done (mkLogger [] [] [] (lg_session_error s) (lg_session s) false (lg_table s), [])
    | Some (queue, tx, upd) =>
        write_batches (mkLogger queue tx upd (lg_session_error s) (lg_session s) true (lg_table s)) r
    end
  else Done (mkLogger (lg_queue s ++ rd_arrived r) (lg_tx_batch s) (lg_update_batch s) (lg_session_error s)
               (lg_session s) false (lg_table s), []).

(** [PostgresLogger::start], lite-rpc/src/postgres_logger/mod.rs:217-230. *)
Definition logger_start (session : Z) (table : list TxRow) : Logger := mkLogger [] [] [] false session true table.

(** [start_postgres], lite-rpc/src/main.rs:79-100: no task without a configuration. *)
Definition start_postgres (connect : PostgresSessionConfig -> result string Z) (table : list TxRow)
    (config : option PostgresSessionConfig) : result string (option Logger) :=
  match config with
  | None => Ok None
  | Some config => session ← connect config; Ok (Some (logger_start session table))
  end.

(** ** What the table holds *)

Definition row_signature (r : TxRow) : string := pt_signature (tr_tx r).

(** The transactions the messages of a queue announce. *)
Definition msg_signatures (m : NotificationMsg) : list string :=
  match m with TxNotificationMsg l => map (fun n => sig_text (tn_signature n)) l | _ => [] end.
Definition queue_signatures (q : list NotificationMsg) : list string := concat (map msg_signatures q).

(** Every transaction the task has heard of: stored, in its batch or queued. *)
Definition known (s : Logger) : list string :=
  map row_signature (lg_table s) ++ map pt_signature (lg_tx_batch s) ++ queue_signatures (lg_queue s).

(** Messages of at most [m] rows, of the kinds the task handles. *)
Definition msg_ok (m : Z) (msg : NotificationMsg) : Prop :=
  match msg with
  | TxNotificationMsg l => Z.of_nat (length l) <= m
  | UpdateTransactionMsg l => Z.of_nat (length l) <= m
  | BlockNotificationMsg _ => True
  | AccountAddrMsg _ _ => False
  end.
Definition round_ok (m : Z) (r : Round) : Prop := Forall (msg_ok m) (rd_arrived r).
(** The server's answers of the round arrive. *)
Definition answered (r : Round) : Prop := rd_insert r <> EndUnknown.

Definition batches_ok (m : Z) (tx : list PostgresTx) (upd : list PostgresTxUpdate) : Prop :=
  Z.of_nat (length tx) < TX_MAX_CAPACITY + m /\ Z.of_nat (length upd) < UPDATE_MAX_CAPACITY + m.
Definition logger_ok (m : Z) (s : Logger) : Prop :=
  lg_running s = true /\ Forall (msg_ok m) (lg_queue s) /\ batches_ok m (lg_tx_batch s) (lg_update_batch s).

Definition statement_args (st : Statement) : list SqlValue :=
  match st with InsertTxs _ args => args | UpdateTxs _ args => args end.

Lemma capacities : TX_MAX_CAPACITY = 1754 /\ UPDATE_MAX_CAPACITY = 1666.
Proof. done. Qed.

Lemma read_inserts_args txs : read_inserts (concat (map tx_args txs)) = map (fun t => mkTxRow t None) txs.
Proof. induction txs as [|[? ? ? ? [] [] [] ?] txs IH]; [done|..]; cbn; f_equal; exact IH. Qed.

Lemma read_updates_args us : read_updates (concat (map update_args us)) = us.
Proof. induction us as [|[? ? [] [] []] us IH]; [done|..]; cbn; f_equal; exact IH. Qed.

Lemma queue_signatures_app q1 q2 : queue_signatures (q1 ++ q2) = queue_signatures q1 ++ queue_signatures q2.
Proof. unfold queue_signatures. by rewrite map_app, concat_app. Qed.

Lemma update_row_signature us r : row_signature (update_row us r) = row_signature r.
Proof. unfold update_row, row_signature. by destruct (pick _). Qed.

Lemma drain_conserves m queue tx upd :
  0 <= m -> Forall (msg_ok m) queue -> batches_ok m tx upd ->
  exists queue' tx' upd', drain queue false tx upd = Done (Some (queue', tx', upd')) /\
    map pt_signature tx' ++ queue_signatures queue' = map pt_signature tx ++ queue_signatures queue /\
    Forall (msg_ok m) queue' /\ batches_ok m tx' upd'.
Proof.
  intros Hm Hq. revert tx upd. induction Hq as [|msg queue Hmsg Hq IH]; intros tx upd Hb; cbn [drain].
  { destruct (at_capacity tx upd); by exists [], tx, upd. }
  destruct (at_capacity tx upd) eqn:Hc.
  { exists (msg :: queue), tx, upd. split_and!; [done..|by constructor|done]. }
  unfold at_capacity in Hc. apply orb_false_iff in Hc as [Ht%Z.leb_gt Hu%Z.leb_gt].
  unfold batches_ok in *. destruct msg as [l| |id addr|l]; cbn [msg_ok] in Hmsg; [| |done|].
  - destruct (IH (tx ++ map tx_of_notification l) upd) as (q' & tx' & upd' & -> & Hs & Hr).
    { rewrite length_app, length_map. lia. }
    exists q', tx', upd'. split_and!; [done| |apply Hr..]. rewrite Hs, map_app, map_map, <- app_assoc. done.
  - destruct (IH tx upd) as (q' & tx' & upd' & -> & Hs & Hr); [done|]. by exists q', tx', upd'.
  - destruct (IH tx (upd ++ map update_of_notification l)) as (q' & tx' & upd' & -> & Hs & Hr).
    { rewrite length_app, length_map. lia. }
    by exists q', tx', upd'.
Qed.

Definition small (m : Z) : Prop := 0 <= m < 4294967296.

(** The statement of a batch: its arguments, and that it never panics. *)
Lemma send_txs_spec m txs upd :
  small m -> batches_ok m txs upd ->
  exists st, send_txs txs = Done st /\
    Forall (fun st => Z.of_nat (length (statement_args st)) < 8 * (TX_MAX_CAPACITY + m)) (option_list st) /\
    forall table e, try_statement table e st =
      match st, e with Some _, EndFailed => table | _, _ => table ++ map (fun t => mkTxRow t None) txs end.
Proof.
  destruct capacities as [Hcap _]. unfold small, batches_ok. rewrite Hcap. intros Hm [Hb _].
  destruct txs as [|t txs]; unfold send_txs.
  { exists None. split_and!; [done|by constructor|]. intros table e. cbn. by rewrite app_nil_r. }
  unfold values_vecvec. rewrite multiline_query_spec; [|by left|unfold in_u64, u64_size; lia].
  eexists. cbn [mbind outcome_bind]. split_and!; [done| |].
  - apply Forall_singleton. cbn [statement_args]. clear - Hb. revert Hb. generalize (t :: txs). intros l Hb.
    assert (length (concat (map tx_args l)) = 8 * length l)%nat as ->; [|lia].
    clear. induction l as [|x l IH]; [done|]. cbn. lia.
  - intros table e. cbn [try_statement execute_statement]. rewrite read_inserts_args. by destruct e.
Qed.

Lemma update_txs_spec m txs upd :
  small m -> batches_ok m txs upd ->
  exists st, update_txs upd = Done st /\
    Forall (fun st => Z.of_nat (length (statement_args st)) < 8 * (TX_MAX_CAPACITY + m)) (option_list st) /\
    forall table e, exists us, try_statement table e st = map (update_row us) table \/ try_statement table e st = table.
Proof.
  destruct capacities as [Hcap Hcap']. unfold small, batches_ok. rewrite Hcap, Hcap'. intros Hm [_ Hb].
  destruct upd as [|u upd]; unfold update_txs.
  { exists None. split_and!; [done|by constructor|]. intros table e. exists []. by right. }
  unfold values_vecvec. rewrite multiline_query_spec; [|right; cbn; lia|unfold in_u64, u64_size; lia].
  eexists. cbn [mbind outcome_bind]. split_and!; [done| |].
  - apply Forall_singleton. cbn [statement_args]. clear - Hb. revert Hb. generalize (u :: upd). intros l Hb.
    assert (length (concat (map update_args l)) = 5 * length l)%nat as ->; [|lia].
    clear. induction l as [|x l IH]; [done|]. cbn. lia.
  - intros table e. cbn [try_statement execute_statement]. rewrite read_updates_args. exists (u :: upd). destruct e; [by left|by right|by left].
Qed.

Lemma try_update_signatures m txs upd st e table :
  small m -> batches_ok m txs upd -> update_txs upd = Done st ->
  map row_signature (try_statement table e st) = map row_signature table.
Proof.
  intros Hm Hb Hst. destruct (update_txs_spec m txs upd Hm Hb) as (st' & Hst' & _ & Hu). rewrite Hst in Hst'. injection Hst' as <-.
  destruct (Hu table e) as [us [-> | ->]]; [|done]. rewrite map_map. apply map_ext. intros r. apply update_row_signature.
Qed.

(** An insertion keeps the transactions of the batch, and doubles them only if
    its answer is lost. *)
Lemma try_insert_signatures m txs upd st e table :
  small m -> batches_ok m txs upd -> send_txs txs = Done st ->
  let after := map row_signature (try_statement table e st) ++
    map pt_signature (if match st with Some _ => reported_ok e | None => true end then [] else txs) in
  map row_signature table ++ map pt_signature txs ⊆+ after /\
  (e <> EndUnknown -> after = map row_signature table ++ map pt_signature txs).
Proof.
  intros Hm Hb Hst. destruct (send_txs_spec m txs upd Hm Hb) as (st' & Hst' & _ & Hu). rewrite Hst in Hst'. injection Hst' as <-. cbv zeta.
  rewrite Hu. destruct st as [st|], e; cbn [reported_ok]; rewrite ?map_app, ?map_map, ?app_nil_r; try done.
  split; [|done]. apply submseteq_inserts_r, submseteq_refl || (rewrite <- app_assoc; apply submseteq_app; [done|apply submseteq_inserts_r; done]).
Qed.

Lemma write_batches_conserves m s r :
  small m -> logger_ok m s ->
  exists s' sts, write_batches s r = Done (s', sts) /\ known s ⊆+ known s' /\ (answered r -> known s' = known s) /\ logger_ok m s' /\
    Forall (fun st => Z.of_nat (length (statement_args st)) < 8 * (TX_MAX_CAPACITY + m)) sts.
Proof.
  intros Hm (Hr & Hq & Hb). unfold write_batches.
  destruct (_ && _) eqn:He; [exists s, []; unfold logger_ok; by split_and!|].
  destruct (get_session _ _ _) as [session [got|]].
  2:{ eexists _, []. split_and!; [done|done|done| |done]. unfold logger_ok. by split_and!. }
  destruct (send_txs_spec m _ _ Hm Hb) as (ins & Hins & Hia & _).
  destruct (update_txs_spec m _ _ Hm Hb) as (up & Hup & Hua & _).
  assert (forall t e, map row_signature (try_statement t e up) = map row_signature t) as Hu by (intros; by eapply try_update_signatures).
  rewrite Hins, Hup. cbn [mbind outcome_bind]. set (table := if rd_update_first r then _ else _).
  assert (map row_signature table = map row_signature (try_statement (if rd_update_first r then try_statement (lg_table s) (rd_update r) up else lg_table s) (rd_insert r) ins)) as Ht.
  { subst table. destruct (rd_update_first r); [done|]. by rewrite Hu. }
  set (table0 := if rd_update_first r then try_statement (lg_table s) (rd_update r) up else lg_table s) in Ht.
  assert (map row_signature table0 = map row_signature (lg_table s)) as Ht0 by (subst table0; by destruct (rd_update_first r)).
  destruct (try_insert_signatures m _ _ ins (rd_insert r) table0 Hm Hb Hins) as [H1 H2]. cbv zeta in H1, H2. rewrite Ht0, <- Ht in H1, H2.
  eexists _, _. split_and!; [done| | | |by apply Forall_app].
  - unfold known. cbn [lg_table lg_tx_batch lg_queue]. rewrite !app_assoc. by apply submseteq_app.
  - intros Ha. unfold known. cbn [lg_table lg_tx_batch lg_queue]. rewrite !app_assoc. f_equal. by apply H2.
  - unfold logger_ok. split_and!; [done..|]. cbn [lg_tx_batch lg_update_batch]. destruct capacities as [Hc1 Hc2]. unfold small, batches_ok in *. rewrite Hc1, Hc2 in *.
    split; repeat case_match; cbn [length] in *; lia.
Qed.

(** Draining keeps the transactions, or finds the channel broken. *)
Lemma drain_conserves_all m queue disconnected tx upd :
  0 <= m -> Forall (msg_ok m) queue -> batches_ok m tx upd ->
  (disconnected = true /\ drain queue disconnected tx upd = Done None) \/
  exists queue' tx' upd', drain queue disconnected tx upd = Done (Some (queue', tx', upd')) /\
    map pt_signature tx' ++ queue_signatures queue' = map pt_signature tx ++ queue_signatures queue /\
    Forall (msg_ok m) queue' /\ batches_ok m tx' upd'.
Proof.
  intros Hm Hq Hb. destruct disconnected; [|right; by apply drain_conserves].
  assert (drain queue true tx upd = Done None \/ drain queue true tx upd = drain queue false tx upd) as [->|E].
  { clear - Hq. revert tx upd. induction Hq as [|msg queue Hmsg Hq IH]; intros tx upd; cbn [drain]; (destruct (at_capacity tx upd); [by right|]).
    - by left.
    - by destruct msg. }
  - by left.
  - right. rewrite E. by apply drain_conserves.
Qed.

Lemma logger_round_conserves m s r :
  small m -> round_ok m r -> logger_ok m s ->
  exists s' sts, logger_round s r = Done (s', sts) /\
    Forall (fun st => Z.of_nat (length (statement_args st)) < 8 * (TX_MAX_CAPACITY + m)) sts /\
    ((lg_running s' = false /\ rd_disconnected r = true) \/
     (logger_ok m s' /\ known s ++ queue_signatures (rd_arrived r) ⊆+ known s' /\
      (answered r -> known s' = known s ++ queue_signatures (rd_arrived r)))).
Proof.
  intros Hm Ha (Hr & Hq & Hb). unfold logger_round. rewrite Hr.
  assert (Forall (msg_ok m) (lg_queue s ++ rd_arrived r)) as Hq' by by apply Forall_app.
  assert ((rd_disconnected r = true /\
    (if lg_session_error s then Done (Some (lg_queue s ++ rd_arrived r, lg_tx_batch s, lg_update_batch s))
     else drain (lg_queue s ++ rd_arrived r) (rd_disconnected r) (lg_tx_batch s) (lg_update_batch s)) = Done None) \/ exists q tx upd,
    (if lg_session_error s then Done (Some (lg_queue s ++ rd_arrived r, lg_tx_batch s, lg_update_batch s))
     else drain (lg_queue s ++ rd_arrived r) (rd_disconnected r) (lg_tx_batch s) (lg_update_batch s)) =
    Done (Some (q, tx, upd)) /\
    map pt_signature tx ++ queue_signatures q =
    map pt_signature (lg_tx_batch s) ++ queue_signatures (lg_queue s ++ rd_arrived r) /\
    Forall (msg_ok m) q /\ batches_ok m tx upd) as [[Hd ->]|(q & tx & upd & -> & Hs & Hq2 & Hb2)].
  { destruct (lg_session_error s); [right; by eexists _, _, _|]. apply drain_conserves_all; [unfold small in Hm; lia|done..]. }
  { cbn [mbind outcome_bind]. eexists _, _. split; [done|]. split; [by constructor|]. by left. }
  cbn [mbind outcome_bind].
  destruct (write_batches_conserves m
    (mkLogger q tx upd (lg_session_error s) (lg_session s) true (lg_table s)) r Hm) as (s' & sts & -> & Hk & Hka & Hok & Hst);
    [unfold logger_ok; by split_and!|].
  assert (known (mkLogger q tx upd (lg_session_error s) (lg_session s) true (lg_table s)) = known s ++ queue_signatures (rd_arrived r)) as E.
  { unfold known. cbn [lg_table lg_tx_batch lg_queue]. by rewrite Hs, queue_signatures_app, <- !app_assoc. }
  rewrite E in Hk, Hka. exists s', sts. split; [done|]. split; [done|]. right. by split_and!.
Qed.

Lemma stopped_run rounds : forall s, lg_running s = false -> exists s', orun logger_round s rounds = Done (s', []) /\ lg_running s' = false.
Proof.
  induction rounds as [|r rounds IH]; intros s Hs; cbn [orun]; [by exists s|].
  assert (exists s1, logger_round s r = Done (s1, []) /\ lg_running s1 = false) as (s1 & -> & H1) by (unfold logger_round; rewrite Hs; by eexists).
  cbn [mbind outcome_bind]. destruct (IH s1 H1) as (s' & -> & H'). by exists s'.
Qed.

Lemma logger_run_conserves m rounds : forall s,
  small m -> Forall (round_ok m) rounds -> logger_ok m s ->
  exists s' sts, orun logger_round s rounds = Done (s', sts) /\
    Forall (fun st => Z.of_nat (length (statement_args st)) < 8 * (TX_MAX_CAPACITY + m)) sts /\
    ((lg_running s' = false /\ Exists (fun r => rd_disconnected r = true) rounds) \/
     (lg_running s' = true /\ known s ++ queue_signatures (concat (map rd_arrived rounds)) ⊆+ known s' /\
      (Forall answered rounds -> known s' = known s ++ queue_signatures (concat (map rd_arrived rounds))))).
Proof.
  induction rounds as [|r rounds IH]; intros s Hm Hr Hs; cbn [orun].
  { exists s, []. split; [done|]. split; [done|]. right. cbn. rewrite app_nil_r. split_and!; [apply Hs|done|done]. }
  apply Forall_cons in Hr as [Hr Hrs].
  destruct (logger_round_conserves m s r Hm Hr Hs) as (s1 & o1 & -> & Ho1 & [[Hst Hd]|(Hs1 & Hk1 & He1)]); cbn [mbind outcome_bind].
  - destruct (stopped_run rounds s1 Hst) as (s2 & -> & H2). cbn [mbind outcome_bind]. exists s2, (o1 ++ []). rewrite app_nil_r.
    split; [done|]. split; [done|]. left. split; [done|]. by left.
  - destruct (IH s1 Hm Hrs Hs1) as (s2 & o2 & -> & Ho2 & Hcase). cbn [mbind outcome_bind]. exists s2, (o1 ++ o2).
    split; [done|]. split; [by apply Forall_app|]. destruct Hcase as [[H1 H2]|(H1 & H2 & H3)]; [left; split; [done|by right]|right].
    cbn [map concat]. rewrite queue_signatures_app, app_assoc. split_and!; [done| |].
    + etransitivity; [|exact H2]. by apply submseteq_app.
    + intros [Ha Has]%Forall_cons. by rewrite H3, He1.
Qed.
End logger.

(** ** Properties *)

(** The messages of the sender on the channel of the task. *)
Definition log_messages (out : list sender_output) : list NotificationMsg :=
  omap (fun o => match o with SendNotifications l => Some (TxNotificationMsg l) | _ => None end) out.

Lemma log_messages_signatures sig_text out :
  queue_signatures sig_text (log_messages out) = sig_text <$> notified out.
Proof.
  induction out as [|o out IH]; [done|]. unfold notified in *. cbn [mbind list_bind]. rewrite fmap_app, <- IH.
  destruct o; [done| |done]. cbn. f_equal. rewrite <- list_fmap_compose. done.
Qed.

Lemma logger_start_ok m session table : small m -> logger_ok m (logger_start session table).
Proof.
  intros Hm. split_and!; [done|by constructor|]. destruct capacities as [Hc1 Hc2]. unfold batches_ok, small in *.
  rewrite Hc1, Hc2. cbn. lia.
Qed.

(** C27. The sender and the log together.  Whatever the server does in each round
    (sessions refused, statements failed or executed without an answer, in
    either order), the log never panics, and it stops only when the channel is
    found disconnected.  While it runs, every transaction the sender forwarded
    is stored, in the log's batch, queued for it, or still collected by the
    sender, at least as often as it was forwarded; and exactly once each, in
    the order of the sender, if no answer to an insertion is lost.  With messages of
    at most [m] rows no statement reaches 8 (1754 + m) arguments. *)
Theorem sent_transactions_logged sig_text pick d evs session m rounds :
  small m -> Forall (round_ok m) rounds ->
  concat (map rd_arrived rounds) = log_messages (run (sender_step true) (mkSenderState d []) evs).2 ->
  exists s sts, orun (logger_round sig_text pick) (logger_start session []) rounds = Done (s, sts) /\
    Forall (fun st => Z.of_nat (length (statement_args st)) < 8 * (1754 + m)) sts /\
    (lg_running s = false -> Exists (fun r => rd_disconnected r = true) rounds) /\
    let logged := known sig_text s ++
      (sig_text <$> (tn_signature <$> ss_notifications (run (sender_step true) (mkSenderState d []) evs).1)) in
    let sent := sig_text <$> (si_signature <$> forwarded (run (sender_step true) (mkSenderState d []) evs).2) in
    lg_running s = true -> sent ⊆+ logged /\ (Forall answered rounds -> logged = sent).
Proof.
  intros Hm Hr Ha.
  destruct (logger_run_conserves sig_text pick m rounds (logger_start session []) Hm Hr (logger_start_ok _ _ _ Hm))
    as (s & sts & -> & Hst & Hcase).
  exists s, sts. split; [done|]. split; [exact Hst|]. destruct (sender_run_notified (mkSenderState d []) evs) as [Hn Hf].
  destruct Hcase as [[H1 H2]|(H1 & H2 & H3)]; [split; [done|]; cbn zeta; by rewrite H1|]. split; [by rewrite H1|]. cbn zeta. intros _.
  assert (forall l, known sig_text (logger_start session []) ++ queue_signatures sig_text l = queue_signatures sig_text l) as E by done.
  rewrite E, Ha, log_messages_signatures in H2, H3. cbn [ss_notifications fmap list_fmap app] in Hn. rewrite Hf, <- Hn, fmap_app. split.
  - by apply submseteq_app.
  - intros Hall. by rewrite H3.
Qed.

Definition sample_sent (sig : Signature) : SentTransactionInfo := mkSentTransactionInfo sig 10 [sig; 77] 308 0.
Definition sample_sig_text (sig : Signature) : string := decimal sig.
Definition sample_sender_events : list sender_event :=
  [RecvTx (sample_sent 41) 1; RecvTx (sample_sent 42) 2; Tick; RecvTx (sample_sent 43) 3; Tick; RecvTx (sample_sent 44) 4].
Definition sample_messages : list NotificationMsg :=
  log_messages (run (sender_step true) (mkSenderState sample_cache []) sample_sender_events).2.
(** The first message comes when the server refuses a session, the second
    when the insertion fails. *)
Definition sample_rounds : list Round :=
  [mkRound (take 1 sample_messages) false true None EndOk EndOk false;
   mkRound (drop 1 sample_messages) false true (Some 2) EndOk EndOk false;
   mkRound [] false false None EndFailed EndOk false].

Lemma sent_transactions_logged_witness :
  exists s sts,
    orun (logger_round sample_sig_text head) (logger_start 1 []) sample_rounds = Done (s, sts) /\
    Forall (fun st => Z.of_nat (length (statement_args st)) < 8 * (1754 + 2)) sts /\
    (lg_running s = false -> Exists (fun r => rd_disconnected r = true) sample_rounds) /\
    let logged := known sample_sig_text s ++
      (sample_sig_text <$> (tn_signature <$>
        ss_notifications (run (sender_step true) (mkSenderState sample_cache []) sample_sender_events).1)) in
    let sent := sample_sig_text <$> (si_signature <$>
        forwarded (run (sender_step true) (mkSenderState sample_cache []) sample_sender_events).2) in
    lg_running s = true -> sent ⊆+ logged /\ (Forall answered sample_rounds -> logged = sent).
Proof.
  apply (sent_transactions_logged sample_sig_text head sample_cache sample_sender_events 1 2 sample_rounds).
  - split; lia.
  - repeat constructor; vm_compute; congruence.
  - vm_compute. reflexivity.
Defined.

(** An insertion that took effect without an answer is made again. *)
Lemma lost_answer_doubles_row sig_text pick t session :
  exists sts, orun (logger_round sig_text pick) (mkLogger [] [t] [] false session true [])
      [mkRound [] false false None EndUnknown EndOk false; mkRound [] false false None EndOk EndOk false] =
    Done (mkLogger [] [] [] false session true [mkTxRow t None; mkTxRow t None], sts).
Proof. destruct t as [? ? ? ? [] [] [] ?]; eexists; reflexivity. Qed.

Lemma insert_statement (pick : list PostgresTxUpdate -> option PostgresTxUpdate) m tx upd :
  small m -> batches_ok m tx upd -> tx <> [] ->
  exists v, send_txs tx = Done (Some (InsertTxs v (concat (map tx_args tx)))).
Proof.
  intros Hm Hb Ht. destruct (send_txs_spec pick m tx upd Hm Hb) as (st & Hst & _). revert Hst. unfold send_txs.
  destruct tx; [done|]. destruct (values_vecvec _ _ _); [|done]. intros _. by eexists.
Qed.

Lemma update_statement (pick : list PostgresTxUpdate -> option PostgresTxUpdate) m tx upd :
  small m -> batches_ok m tx upd -> upd <> [] ->
  exists v, update_txs upd = Done (Some (UpdateTxs v (concat (map update_args upd)))).
Proof.
  intros Hm Hb Ht. destruct (update_txs_spec pick m tx upd Hm Hb) as (st & Hst & _). revert Hst. unfold update_txs.
  destruct upd; [done|]. destruct (values_vecvec _ _ _); [|done]. intros _. by eexists.
Qed.

(** When the insertion of a batch fails and the update of the same round does
    not, the update changes the rows already stored and is dropped; the
    transactions inserted at the next round never get theirs, although the
    task held both. *)
Theorem update_lost_when_insert_fails sig_text pick m tx upd session table first1 first2 :
  small m -> batches_ok m tx upd -> tx <> [] -> upd <> [] ->
  exists sts, orun (logger_round sig_text pick) (mkLogger [] tx upd false session true table)
      [mkRound [] false false None EndFailed EndOk first1; mkRound [] false false None EndOk EndOk first2] =
    Done (mkLogger [] [] [] false session true
            (map (update_row pick upd) table ++ map (fun t => mkTxRow t None) tx), sts).
Proof.
  intros Hm Hb Ht Hu.
  destruct (insert_statement pick m tx upd) as [vi Hins]; [done..|].
  destruct (update_statement pick m tx upd) as [vu Hup]; [done..|].
  assert (forall upd, drain sig_text [] false tx upd = Done (Some ([], tx, upd))) as Hd
    by (intros; cbn [drain]; by destruct (at_capacity _ _)).
  destruct tx as [|t tx]; [done|]. unfold logger_round, write_batches.
  cbn [orun lg_running lg_session_error lg_queue rd_arrived rd_disconnected lg_tx_batch lg_update_batch app].
  rewrite Hd. cbn [mbind outcome_bind lg_tx_batch lg_update_batch get_session rd_closed lg_session lg_table lg_queue andb].
  rewrite Hins, Hup. cbn -[app map drain send_txs concat execute_statement]. rewrite Hd.
  cbn -[app map drain send_txs concat execute_statement]. rewrite Hins.
  cbn -[app map drain send_txs concat execute_statement].
  cbn [execute_statement]. rewrite read_inserts_args, read_updates_args. eexists. by destruct first1, first2.
Qed.

Lemma update_lost_when_insert_fails_witness :
  exists sts, orun (logger_round sample_sig_text head)
      (mkLogger [] [mkPostgresTx "41" 10 11 0 None None None 0] [mkPostgresTxUpdate "41" 12 (Some 450) None None] false 1 true [])
      [mkRound [] false false None EndFailed EndOk false; mkRound [] false false None EndOk EndOk false] =
    Done (mkLogger [] [] [] false 1 true [mkTxRow (mkPostgresTx "41" 10 11 0 None None None 0) None], sts).
Proof.
  apply (update_lost_when_insert_fails sample_sig_text head 1 [mkPostgresTx "41" 10 11 0 None None None 0]
    [mkPostgresTxUpdate "41" 12 (Some 450) None None] 1 [] false false); [split; lia|split; vm_compute; congruence|done|done].
Defined.
