(* ===== verification/Startup.v ===== *)
(** * The start of the server

    The configuration, read from a file and overridden by the environment
    (lite-rpc/src/cli.rs, postgres_logger/postgres_config.rs), the identity
    (core/src/keypair_loader.rs), the path to the TPUs and the first data
    cache (lite-rpc/src/main.rs, core/src/utils.rs), and the task that watches
    the cluster's RPC node (lite-rpc/src/rpc_tester.rs). *)

From S2P Require Import Prelude Types LeaderSchedule BlockInfoStore DataCache TxService PgSession.
From S2P Require Import AccountStore AccountService AddressLookup PrioFees BlockMapping Bridge.

Open Scope string_scope.
Open Scope list_scope.
Open Scope Z_scope.

(** ** Configuration *)

(** [QuicConnectionParameters], services/src/quic_connection_utils.rs:108-119;
    durations are in milliseconds. *)
Record QuicConnectionParameters := mkQuicParameters {
  qp_connection_timeout : Z;
  qp_unistream_timeout : Z;
  qp_write_timeout : Z;
  qp_finalize_timeout : Z;
  qp_connection_retry_count : Z;
  qp_max_number_of_connections : Z;
  qp_number_of_transactions_per_unistream : Z;
  qp_unistreams_to_create_new_connection_in_percentage : Z;
  qp_prioritization_heap_size : option Z;
}.

(** [QuicConnectionParameters::default], services/src/quic_connection_utils.rs:121-135. *)
Definition quic_parameters_default : QuicConnectionParameters :=
  mkQuicParameters 60000 10000 10000 20000 20 8 1 10 None.

(** [Config], lite-rpc/src/cli.rs:27-97. *)
Record Config := mkConfig {
  cf_rpc_addr : string;
  cf_ws_addr : string;
  cf_lite_rpc_http_addr : string;
  cf_lite_rpc_ws_addr : string;
  cf_fanout_size : Z;
  cf_identity_keypair : option string;
  cf_prometheus_addr : string;
  cf_maximum_retries_per_tx : Z;
  cf_transaction_retry_after_secs : Z;
  cf_quic_proxy_addr : option string;
  cf_use_grpc : bool;
  cf_calculate_leader_schedule_from_geyser : bool;
  cf_grpc_addr : string;
  cf_grpc_x_token : option string;
  cf_grpc_addr2 : option string;
  cf_grpc_x_token2 : option string;
  cf_grpc_addr3 : option string;
  cf_grpc_x_token3 : option string;
  cf_grpc_addr4 : option string;
  cf_grpc_x_token4 : option string;
  cf_enable_grpc_stream_inspection : bool;
  cf_postgres : option PostgresSessionConfig;
  cf_max_number_of_connection : option Z;
  cf_address_lookup_tables_binary : option string;
  cf_enable_address_lookup_tables : option bool;
  cf_account_filters : option string;
  cf_enable_accounts_on_demand_accounts_service : option bool;
  cf_quic_connection_parameters : option QuicConnectionParameters;
}.

(** The defaults of the fields, [Config::default_rpc_addr] to
    [Config::default_grpc_addr], lite-rpc/src/cli.rs:234-272. *)
Definition config_default : Config :=
  mkConfig "http://0.0.0.0:8899" "ws://0.0.0.0:8900" "[::]:8890" "[::]:8891" 18 None "[::]:9091" 40 3 None false false
    "http://localhost:10000" None None None None None None None false None None None None None None None.

(** [str::parse::<bool>] and [str::parse::<u8>]. *)
Definition parse_bool (s : string) : option bool :=
  if String.eqb s "true" then Some true else if String.eqb s "false" then Some false else None.
Definition parse_u8 (s : string) : option Z := n ← parse_u64 s; if n <? u8_size then Some n else None.

Section environment.
Context (env : gmap string string).

(** The ways a variable overrides a field: as it is; parsed, where a value
    that does not parse panics. *)
Definition env_string (name : string) (field : string) : string := default field (env !! name).
Definition env_option (name : string) (field : option string) : option string :=
  match env !! name with Some v => Some v | None => field end.
Definition env_parsed {A} (parse : string -> option A) (name : string) (field : A) : outcome A :=
  match env !! name with Some v => unwrap (parse v) | None => Done field end.
Definition env_parsed_option {A} (parse : string -> option A) (name : string) (field : option A) : outcome (option A) :=
  match env !! name with Some v => x ← unwrap (parse v); Done (Some x) | None => Done field end.

(** [quic_params_from_environment], lite-rpc/src/cli.rs:356-397. *)
Definition quic_params_from_environment : outcome (option QuicConnectionParameters) :=
  let p := quic_parameters_default in
  connection_timeout ← env_parsed parse_u64 "QUIC_CONNECTION_TIMEOUT_MILLIS" (qp_connection_timeout p);
  unistream_timeout ← env_parsed parse_u64 "QUIC_UNISTREAM_TIMEOUT_MILLIS" (qp_unistream_timeout p);
  write_timeout ← env_parsed parse_u64 "QUIC_WRITE_TIMEOUT_MILLIS" (qp_write_timeout p);
  finalize_timeout ← env_parsed parse_u64 "QUIC_FINALIZE_TIMEOUT_MILLIS" (qp_finalize_timeout p);
  connection_retry_count ← env_parsed parse_u64 "QUIC_CONNECTION_RETRY_COUNT" (qp_connection_retry_count p);
  max_number_of_connections ← env_parsed parse_u64 "QUIC_MAX_NUMBER_OF_CONNECTIONS" (qp_max_number_of_connections p);
  number_of_transactions ← env_parsed parse_u64 "QUIC_NUMBER_OF_TRANSACTIONS_PER_TASK"
                             (qp_number_of_transactions_per_unistream p);
  percentage ← env_parsed parse_u8 "QUIC_PERCENTAGE_TO_CREATE_NEW_CONNECTION"
                 (qp_unistreams_to_create_new_connection_in_percentage p);
  Done (Some (mkQuicParameters connection_timeout unistream_timeout write_timeout finalize_timeout
                connection_retry_count max_number_of_connections number_of_transactions percentage
                (qp_prioritization_heap_size p))).

(** Outside the sources: the file system, the JSON parser (which fills in the
    defaults), the parser of socket addresses and the database driver's. *)
Context (file_exists : string -> bool) (read_file : string -> option string) (parse_json : string -> result string Config).
Context (socket_addr_ok : string -> bool) (ssl_disabled : string -> result string bool).

(** The file to read: [Config::load], lite-rpc/src/cli.rs:103-124. *)
Definition config_text (args_config : option string) : result string string :=
  let config_path :=
    match args_config with
    | Some path => Some path
    | None => if file_exists "config.json" then Some "config.json" else None
    end in
  match config_path with
  | Some path => match read_file path with Some text => Ok text | None => Err "Error reading config file" end
  | None => Ok "{}"
  end.

(** The overrides: [Config::load], lite-rpc/src/cli.rs:126-232. *)
Definition config_override (c : Config) : outcome (result string Config) :=
  let http := env_string "LITE_RPC_HTTP_ADDR" (cf_lite_rpc_http_addr c) in
  let ws := env_string "LITE_RPC_WS_ADDR" (cf_lite_rpc_ws_addr c) in
  _ ← unwrap (if socket_addr_ok http then Some () else None);
  _ ← unwrap (if socket_addr_ok ws then Some () else None);
  fanout_size ← env_parsed parse_u64 "FANOUT_SIZE" (cf_fanout_size c);
  max_retries ← env_parsed parse_u64 "MAX_RETRIES" (cf_maximum_retries_per_tx c);
  retry_after ← env_parsed parse_u64 "RETRY_TIMEOUT" (cf_transaction_retry_after_secs c);
  use_grpc ← env_parsed parse_bool "USE_GRPC" (cf_use_grpc c);
  _ ← unwrap (match env !! "GRPC_ADDR1" with None => Some () | Some _ => None end);
  _ ← unwrap (match env !! "GRPC_X_TOKEN1" with None => Some () | Some _ => None end);
  inspection ← env_parsed parse_bool "ENABLE_GRPC_STREAM_INSPECTION" (cf_enable_grpc_stream_inspection c);
  lookup_tables ← env_parsed_option parse_bool "ENABLE_ADDRESS_LOOKUP_TABLES" (cf_enable_address_lookup_tables c);
  on_demand ← env_parsed_option parse_bool "ENABLE_ACCOUNT_ON_DEMAND" (cf_enable_accounts_on_demand_accounts_service c);
  match new_from_env ssl_disabled env with
  | Err e => Done (Err e)
  | Ok pg =>
      from_env ← quic_params_from_environment;
      Done (Ok (mkConfig (env_string "RPC_ADDR" (cf_rpc_addr c)) (env_string "WS_ADDR" (cf_ws_addr c)) http ws fanout_size
        (cf_identity_keypair c) (env_string "PROMETHEUS_ADDR" (cf_prometheus_addr c)) max_retries retry_after
        (env !! "QUIC_PROXY_ADDR") use_grpc (cf_calculate_leader_schedule_from_geyser c)
        (env_string "GRPC_ADDR" (cf_grpc_addr c)) (env_option "GRPC_X_TOKEN" (cf_grpc_x_token c))
        (env_option "GRPC_ADDR2" (cf_grpc_addr2 c)) (env_option "GRPC_X_TOKEN2" (cf_grpc_x_token2 c))
        (env_option "GRPC_ADDR3" (cf_grpc_addr3 c)) (env_option "GRPC_X_TOKEN3" (cf_grpc_x_token3 c))
        (env_option "GRPC_ADDR4" (cf_grpc_addr4 c)) (env_option "GRPC_X_TOKEN4" (cf_grpc_x_token4 c))
        inspection (match pg with Some _ => pg | None => cf_postgres c end)
        (match env !! "MAX_NB_OF_CONNECTIONS_WITH_LEADERS" with Some v => parse_u64 v | None => cf_max_number_of_connection c end)
        (env_option "ADDRESS_LOOKUP_TABLES_BINARY" (cf_address_lookup_tables_binary c)) lookup_tables
        (env_option "ACCOUNT_FILTERS" (cf_account_filters c)) on_demand
        (match cf_quic_connection_parameters c with Some p => Some p | None => from_env end)))
  end.

(** [Config::load], lite-rpc/src/cli.rs:100-232. *)
Definition config_load (args_config : option string) : outcome (result string Config) :=
  match config_text args_config with
  | Err e => Done (Err e)
  | Ok text =>
      match parse_json text with
      | Err _ => Done (Err "Error parsing config file")
      | Ok c => config_override c
      end
  end.

(** [load_identity_keypair], core/src/keypair_loader.rs:5-24. *)
Definition load_identity_keypair {Keypair} (parse_bytes : string -> option (list Z))
    (from_bytes : list Z -> option Keypair) (identity_keyfile_path : option string) :
    result string (option Keypair) :=
  let load text :=
    match parse_bytes text with
    | None => Err "Invalid identity format expected Vec<u8>"
    | Some bytes => match from_bytes bytes with Some key => Ok (Some key) | None => Err "Invalid identity" end
    end in
  match env !! "IDENTITY" with
  | Some identity => load identity
  | None =>
      match identity_keyfile_path with
      | Some path => match read_file path with Some text => load text | None => Err "Cannot find the identity file provided" end
      | None => Ok None
      end
  end.
End environment.

(** [GrpcSource], lite-rpc/src/cli.rs:307-311. *)
Record GrpcSource := mkGrpcSource { gs_addr : string; gs_x_token : option string }.

(** [Config::get_grpc_sources], lite-rpc/src/cli.rs:274-303. *)
Definition get_grpc_sources (c : Config) : list GrpcSource :=
  let sources := [mkGrpcSource (cf_grpc_addr c) (cf_grpc_x_token c)] in
  let sources := sources ++ match cf_grpc_addr2 c with Some a => [mkGrpcSource a (cf_grpc_x_token2 c)] | None => [] end in
  let sources := sources ++ match cf_grpc_addr3 c with Some a => [mkGrpcSource a (cf_grpc_x_token3 c)] | None => [] end in
  sources ++ match cf_grpc_addr4 c with Some a => [mkGrpcSource a (cf_grpc_x_token4 c)] | None => [] end.

(** ** The path to the TPUs *)

(** [TpuConnectionPath], services/src/tpu_utils/tpu_connection_path.rs:4-8. *)
Inductive TpuConnectionPath := QuicDirectPath | QuicForwardProxyPath (forward_proxy_address : string).

(** [parse_host_port], lite-rpc/src/main.rs:479-491; [to_socket_addrs] is the
    system's resolver. *)
Definition parse_host_port (to_socket_addrs : string -> result string (list string)) (host_port : string) :
    result string string :=
  match to_socket_addrs host_port with
  | Err err => Err ("Unable to resolve host " ++ host_port ++ ": " ++ err)%string
  | Ok [] => Err ("Unable to resolve host: " ++ host_port)%string
  | Ok [addr] => Ok addr
  | Ok _ => Err ("Multiple addresses resolved for host: " ++ host_port)%string
  end.

(** [configure_tpu_connection_path], lite-rpc/src/main.rs:466-477. *)
Definition configure_tpu_connection_path (to_socket_addrs : string -> result string (list string))
    (quic_proxy_addr : option string) : outcome TpuConnectionPath :=
  match quic_proxy_addr with
  | None => Done QuicDirectPath
  | Some a => addr ← expect_ok (parse_host_port to_socket_addrs a); Done (QuicForwardProxyPath addr)
  end.

(** ** The first block and the first data cache *)

Inductive BlockInfoRecv := RecvBlockInfo (b : BlockInfo) | RecvElapsed | RecvFailed.

(** [wait_till_block_of_commitment_is_recieved], core/src/utils.rs:9-33; [None]
    while it waits. *)
Fixpoint wait_till_block_of_commitment_is_recieved (stream : list BlockInfoRecv) (c : CommitmentConfig) :
    outcome (option BlockInfo) :=
  match stream with
  | [] => Done None
  | RecvBlockInfo b :: stream =>
      if bool_decide (bi_commitment_config b = c) then Done (Some b)
      else wait_till_block_of_commitment_is_recieved stream c
  | RecvElapsed :: stream => wait_till_block_of_commitment_is_recieved stream c
  | RecvFailed :: _ => Panic
  end.

(** The data cache [start_lite_rpc] builds, lite-rpc/src/main.rs:255-269. *)
Definition initial_data_cache (finalized_block_info : BlockInfo) (epoch_data : EpochSchedule) : DataCache :=
  mkDataCache (bis_new (from_block_info finalized_block_info)) ∅ ∅ (slot_cache_new (bi_slot finalized_block_info))
    identity_stakes_default ∅ epoch_data (mkCalculatedSchedule None None).

(** ** The watch on the RPC node *)

Record RpcTester := mkRpcTester { rt_error_counter : Z; rt_running : bool }.

(** One turn of [RpcTester::start], lite-rpc/src/rpc_tester.rs:23-47. *)
Definition rpc_tester_step (use_grpc : bool) (s : RpcTester) (responds : bool) : RpcTester :=
  if rt_running s then
    if responds then mkRpcTester 0 true
    else
      let error_counter := rt_error_counter s + 1 in
      if 10 <? error_counter then if use_grpc then mkRpcTester 0 true else mkRpcTester error_counter false
      else mkRpcTester error_counter true
  else s.

(** ** Lemmas *)

(** The store knows the hash of the block it announces as finalized. *)
Definition finalized_known (s : BlockInformationStore) : Prop :=
  is_Some (blocks s !! binf_blockhash (get_latest_block_information s cc_finalized)).

Section chain.
Context (slot_of : Hash -> Slot) (height_at : Slot -> Z).
Context (height_mono : forall s1 s2, s1 <= s2 -> height_at s1 <= height_at s2).
Context (height_range : forall s, 0 <= height_at s /\ height_at s + 1000 < u64_size).
Abbreviation on_chain := (on_chain slot_of height_at).
Abbreviation store_on_chain := (store_on_chain slot_of height_at).

Lemma add_block_known s b : finalized_known s -> finalized_known (add_block s b).2.
Proof.
  unfold finalized_known, add_block. rewrite update_entry_latest.
  set (s1 := if last_blockheight s <? _ then _ else _).
  assert (blocks s1 = blocks s /\ forall c, get_latest_block_information s1 c = get_latest_block_information s c) as [Hb1 Hl1]
    by (subst s1; by cases).
  intros [info Hinfo]. set (s2 := if binf_slot _ <? _ then _ else s1).
  assert (blocks s2 = blocks s) as Hb2 by (subst s2; unfold set_latest; by cases).
  assert (get_latest_block_information s2 cc_finalized = get_latest_block_information s cc_finalized \/
          get_latest_block_information s2 cc_finalized = b) as [-> | ->].
  { subst s2. unfold set_latest. rewrite Hl1. specialize (Hl1 cc_finalized). revert Hl1.
    unfold get_latest_block_information. cases; naive_solver. }
  - rewrite <- Hb2 in Hinfo. destruct (update_entry_le s2 b _ _ Hinfo) as (b2 & -> & _). by exists b2.
  - unfold update_entry. cases; [apply lookup_insert_is_Some; by left|by eexists|apply lookup_insert_is_Some; by left].
Qed.

Lemma clean_known s : store_on_chain s -> finalized_known s -> finalized_known (bis_clean s).
Proof.
  intros Hs [info Hinfo]. exists info. change (get_latest_block_information (bis_clean s) cc_finalized)
    with (get_latest_block_information s cc_finalized). apply map_lookup_filter_Some. split; [done|]. cbn [snd].
  destruct (soc_blocks _ _ _ Hs _ _ Hinfo) as (E & S & H & L), (soc_latest _ _ _ Hs cc_finalized) as (S' & H' & _).
  unfold MAX_RECENT_BLOCKHASHES in L. rewrite L. rewrite H, S, E, <- S', <- H'. lia.
Qed.

Lemma bis_new_on_chain b : on_chain b -> store_on_chain (bis_new b) /\ finalized_known (bis_new b).
Proof.
  intros Hb. split.
  - split; [by apply map_Forall_singleton|]. by intros [[]].
  - exists b. apply lookup_singleton_eq.
Qed.

(** The block the start waits for is one of those received. *)
Lemma wait_on_chain stream c first :
  wait_till_block_of_commitment_is_recieved stream c = Done (Some first) ->
  Forall (fun m => match m with RecvBlockInfo i => event_on_chain slot_of height_at (EvBlockInfo i) | _ => True end) stream ->
  event_on_chain slot_of height_at (EvBlockInfo first).
Proof.
  induction stream as [|[i| |] stream IH]; cbn [wait_till_block_of_commitment_is_recieved]; intros Hw Hs; try done;
    apply Forall_cons in Hs as [Hi Hs]; [|by apply IH].
  case_bool_decide; [by simplify_eq|by apply IH].
Qed.

Section caching.
Context (pubkey_from_str : string -> option Pubkey) (identity : string) (sink_closed : Z -> bool) (clean_duration : Z).
Abbreviation step := (caching_step pubkey_from_str identity sink_closed clean_duration).

Lemma caching_run_known evs : forall d,
  store_on_chain (block_information_store d) -> finalized_known (block_information_store d) ->
  Forall (event_on_chain slot_of height_at) evs ->
  store_on_chain (block_information_store (run step d evs).1) /\ finalized_known (block_information_store (run step d evs).1).
Proof.
  induction evs as [|e evs IH]; intros d Hd Hk Hevs; cbn [run]; [done|]. apply Forall_cons in Hevs as [He Hevs].
  pose proof (caching_step_follows slot_of height_at height_mono height_range pubkey_from_str identity sink_closed
    clean_duration d e Hd He) as Hf.
  assert (finalized_known (block_information_store (step d e).1)) as Hk'.
  { destruct e; simpl; try done; [rewrite cache_block_bis|..|by apply clean_known]; by apply add_block_known. }
  destruct (step d e) as [d1 o1]. specialize (IH d1 (fo_chain _ _ _ _ Hf) Hk' Hevs). by destruct (run step d1 evs).
Qed.
End caching.
End chain.

(** ** Properties *)

(** C24. From the start of the server on: once it has received its first finalized
    block, and after any blocks of the chain, slots and cleanings, the
    blockhash it answers to [getLatestBlockhash] at the default commitment is
    one it calls valid at that commitment, and goes on calling valid after
    any further events, until the finalized height has passed the last valid
    height answered with it. *)
Theorem served_blockhash_valid (sdk : BridgeSdk) {S : Type} (slot_of : Hash -> Slot) (height_at : Slot -> Z)
    pubkey_from_str identity sink_closed clean_duration stream first epoch evs evs' (b b' : LiteBridge (S := S)) r :
  (forall s1 s2, s1 <= s2 -> height_at s1 <= height_at s2) ->
  (forall s, 0 <= height_at s /\ height_at s + 1000 < u64_size) ->
  wait_till_block_of_commitment_is_recieved stream cc_finalized = Done (Some first) ->
  Forall (fun m => match m with RecvBlockInfo i => event_on_chain slot_of height_at (EvBlockInfo i) | _ => True end) stream ->
  Forall (event_on_chain slot_of height_at) (evs ++ evs') ->
  lb_data_cache b =
    (run (caching_step pubkey_from_str identity sink_closed clean_duration) (initial_data_cache first epoch) evs).1 ->
  lb_data_cache b' = (run (caching_step pubkey_from_str identity sink_closed clean_duration) (lb_data_cache b) evs').1 ->
  (forall h, is_Some (blocks (block_information_store (lb_data_cache b)) !! h) ->
     hash_from_str (sdk_base58 sdk) (sdk_hash_to_string sdk h) = Ok h) ->
  rpc_get_latest_blockhash sdk b None = Ok r ->
  finalized_height (block_information_store (lb_data_cache b')) <= (rs_value r).2 ->
  exists slot, rpc_is_blockhash_valid sdk b' (rs_value r).1 None = Done (Ok (mkResponse slot true)).
Proof.
  intros Hmono Hrange Hwait Hstream [Hevs Hevs']%Forall_app Hb Hb' Hsdk Hr Hfin.
  assert (event_on_chain slot_of height_at (EvBlockInfo first)) as Hfirst by by eapply wait_on_chain.
  destruct (bis_new_on_chain slot_of height_at (from_block_info first)) as [Hs Hk]; [by apply from_block_info_on_chain|].
  destruct (caching_run_known slot_of height_at Hmono Hrange pubkey_from_str identity sink_closed clean_duration evs
    (initial_data_cache first epoch) Hs Hk Hevs) as [Hs1 Hk1].
  rewrite <- Hb in Hs1, Hk1.
  by eapply (announced_blockhash_stays_valid sdk slot_of height_at pubkey_from_str identity sink_closed clean_duration b b' None
    evs' ClFinalized r).
Qed.

Definition sample_first : BlockInfo := mkBlockInfo 10 9 8 77 cc_finalized 0.
Definition sample_stream : list BlockInfoRecv :=
  [RecvBlockInfo (mkBlockInfo 12 11 10 79 cc_processed 0); RecvElapsed; RecvBlockInfo sample_first].
Definition sample_start : DataCache := initial_data_cache sample_first (fixed_epoch_schedule 1000).
Definition sample_later : DataCache :=
  (run (caching_step (fun _ => None) "id" (fun _ => false) 5000) sample_start sample_chain_events).1.

Lemma served_blockhash_valid_witness :
  exists slot, rpc_is_blockhash_valid sample_bridge_sdk (bridge_at sample_later) "M" None = Done (Ok (mkResponse slot true)).
Proof.
  apply (served_blockhash_valid sample_bridge_sdk sample_slot_of sample_height_at (fun _ => None) "id" (fun _ => false) 5000
    sample_stream sample_first (fixed_epoch_schedule 1000) [] sample_chain_events
    (bridge_at sample_start) (bridge_at sample_later) (mkResponse 10 ("M"%string, 158))).
  - intros s1 s2 Hle. unfold sample_height_at. lia.
  - intros s. unfold sample_height_at, u64_size. lia.
  - reflexivity.
  - repeat (constructor; try done).
  - repeat (constructor; try done).
  - reflexivity.
  - reflexivity.
  - intros h [b Hb]. simpl in Hb. apply lookup_singleton_Some in Hb as [<- _]. reflexivity.
  - reflexivity.
  - vm_compute. discriminate.
Defined.

Lemma tester_stopped use_grpc rs k : rt_running (foldl (rpc_tester_step use_grpc) (mkRpcTester k false) rs) = false.
Proof. induction rs; [done|]. exact IHrs. Qed.

Lemma tester_grpc rs : forall k, rt_running (foldl (rpc_tester_step true) (mkRpcTester k true) rs) = true.
Proof.
  induction rs as [|[] rs IH]; intros k; [done|apply IH|]. cbn [foldl rpc_tester_step rt_running rt_error_counter].
  destruct (10 <? k + 1); apply IH.
Qed.

(** From [k] failures on, the watch stops when enough more follow at once, or
    eleven in a row later. *)
Lemma tester_run rs : forall k : nat, (k <= 10)%nat ->
  rt_running (foldl (rpc_tester_step false) (mkRpcTester (Z.of_nat k) true) rs) = false <->
  (exists after, rs = replicate (11 - k) false ++ after) \/
  (exists before after, rs = before ++ replicate 11 false ++ after).
Proof.
  induction rs as [|[] rs IH]; intros k Hk; cbn [foldl].
  - split; [done|]. intros [[a H] | (b & a & H)]; [destruct (11 - k)%nat eqn:?; [lia|done]|by destruct b].
  - cbn [rpc_tester_step rt_running]. rewrite (IH 0%nat) by lia. split.
    + intros [[a ->] | (b & a & ->)]; right; [by exists [true], a|by exists (true :: b), a].
    + intros [[a H] | ([|x b] & a & H)]; [destruct (11 - k)%nat eqn:?; [lia|done]|done|]. simplify_eq/=. right. by exists b, a.
  - unfold rpc_tester_step at 2. cbn [rt_running rt_error_counter]. destruct (Z.ltb_spec 10 (Z.of_nat k + 1)) as [Hl|Hl].
    + assert (k = 10%nat) as -> by lia. rewrite tester_stopped. split; [|done]. intros _. left. by exists rs.
    + replace (Z.of_nat k + 1) with (Z.of_nat (Datatypes.S k)) by lia. rewrite IH by lia.
      replace (11 - k)%nat with (Datatypes.S (11 - Datatypes.S k)) by lia. split.
      * intros [[a ->] | (b & a & ->)]; [left; by exists a|right; by exists (false :: b), a].
      * intros [[a H] | ([|x b] & a & H)]; injection H as H; [left; by exists a| |right; by exists b, a].
        left. rewrite H. exists (replicate k false ++ a). rewrite app_assoc, <- replicate_add.
        by replace (11 - Datatypes.S k + k)%nat with 10%nat by lia.
Qed.

(** C39. The watch stops the server exactly when the node, used without a gRPC
    source, has not answered eleven times in a row; with a gRPC source it
    never does. *)
Theorem rpc_tester_stops_iff use_grpc responses :
  rt_running (foldl (rpc_tester_step use_grpc) (mkRpcTester 0 true) responses) = false <->
  use_grpc = false /\ exists before after, responses = before ++ replicate 11 false ++ after.
Proof.
  destruct use_grpc; [rewrite tester_grpc; naive_solver|]. rewrite (tester_run responses 0%nat) by lia. split.
  - intros [[a ->] | (b & a & ->)]; (split; [done|]); [by exists [], a|by exists b, a].
  - intros [_ H]. by right.
Qed.

Section precedence.
Context (env : gmap string string) (file_exists : string -> bool) (read_file : string -> option string).
Context (parse_json : string -> result string Config) (socket_addr_ok : string -> bool).
Context (ssl_disabled : string -> result string bool).

Lemma config_load_inv args c :
  config_load env file_exists read_file parse_json socket_addr_ok ssl_disabled args = Done (Ok c) ->
  exists text file, config_text file_exists read_file args = Ok text /\ parse_json text = Ok file /\
    config_override env socket_addr_ok ssl_disabled file = Done (Ok c).
Proof.
  unfold config_load. destruct (config_text _ _ _) as [text|] eqn:Ht; [|done].
  destruct (parse_json text) as [file|] eqn:Hf; [|done]. intros H. by exists text, file.
Qed.

(** Precedence of the environment over the file, for the fields where it is
    not the rule: the address of the proxy comes from the environment alone,
    so that the file's is ignored, and the QUIC parameters come from the file
    if it has any, so that the environment's are ignored.  The sources of the
    blocks follow the rule. *)
Theorem proxy_address_only_from_environment args c :
  config_load env file_exists read_file parse_json socket_addr_ok ssl_disabled args = Done (Ok c) ->
  exists text file, config_text file_exists read_file args = Ok text /\ parse_json text = Ok file /\
    cf_quic_proxy_addr c = env !! "QUIC_PROXY_ADDR" /\
    (forall p, cf_quic_connection_parameters file = Some p -> cf_quic_connection_parameters c = Some p) /\
    head (get_grpc_sources c) =
      Some (mkGrpcSource (default (cf_grpc_addr file) (env !! "GRPC_ADDR"))
              (match env !! "GRPC_X_TOKEN" with Some t => Some t | None => cf_grpc_x_token file end)).
Proof.
  intros (text & file & Ht & Hf & H)%config_load_inv. exists text, file. split; [done|]. split; [done|].
  unfold config_override in H.
  repeat match type of H with
  | mbind _ ?e = _ => destruct e eqn:?; cbn [mbind outcome_bind] in H; [|discriminate H]
  end.
  destruct (new_from_env _ _) as [pg|]; [|discriminate H].
  destruct (quic_params_from_environment _) eqn:?; cbn [mbind outcome_bind] in H; [|discriminate H].
  injection H as <-. split_and!; [done|by intros p Hp; cbn; rewrite Hp|done].
Qed.
End precedence.

(** A parser for the witness: the file names the proxy and the parameters. *)
Definition sample_parse_json (text : string) : result string Config :=
  if String.eqb text "{}" then Ok config_default else
  Ok (let c := config_default in
      mkConfig (cf_rpc_addr c) (cf_ws_addr c) (cf_lite_rpc_http_addr c) (cf_lite_rpc_ws_addr c) (cf_fanout_size c) None
        (cf_prometheus_addr c) 40 3 (Some text) false false (cf_grpc_addr c) None None None None None None None false None
        None None None None None (Some quic_parameters_default)).

Lemma proxy_address_only_from_environment_witness :
  exists text file, config_text (fun _ => true) (fun _ => Some "127.0.0.1:11111") None = Ok text /\
    sample_parse_json text = Ok file /\ cf_quic_proxy_addr file = Some "127.0.0.1:11111" /\
    match config_load ∅ (fun _ => true) (fun _ => Some "127.0.0.1:11111") sample_parse_json (fun _ => true) (fun _ => Ok true) None with
    | Done (Ok c) => cf_quic_proxy_addr c = None
    | _ => False
    end.
Proof.
  destruct (proxy_address_only_from_environment ∅ (fun _ => true) (fun _ => Some "127.0.0.1:11111") sample_parse_json
    (fun _ => true) (fun _ => Ok true) None
    (match config_load ∅ (fun _ => true) (fun _ => Some "127.0.0.1:11111") sample_parse_json (fun _ => true) (fun _ => Ok true) None with
     | Done (Ok c) => c | _ => config_default end)) as (text & file & Ht & Hf & Hp & _); [vm_compute; reflexivity|].
  exists text, file. split; [exact Ht|]. split; [exact Hf|]. split; [|vm_compute; reflexivity].
  vm_compute in Ht. injection Ht as <-. vm_compute in Hf. injection Hf as <-. reflexivity.
Defined.
