(* ===== verification/Support.v ===== *)
(** * Endpoints, secrets and metrics over HTTP

    The QUIC endpoints of server and proxy as they are configured
    (services/src/quic_connection_utils.rs, tpu_utils/quic_proxy_connection_manager.rs,
    quic-forward-proxy/src/inbound/proxy_listener.rs, outbound/tx_forward.rs) with
    the switch for segmentation offload (core/src/network_utils.rs, quic_util.rs);
    what logs show of addresses and tokens (util/src/secrets.rs, lite-rpc/src/cli.rs);
    and the page of the metrics (services/src/prometheus_sync.rs and its copy in
    benchrunner-service/).

    quinn's default configuration is a parameter. *)

From S2P Require Import Prelude Types BlockInfoStore DataCache PgSession Bridge Startup.

Open Scope string_scope.
Open Scope list_scope.
Open Scope Z_scope.

(** ** QUIC endpoints *)

(** What the program sets of quinn's [TransportConfig]; times are in
    milliseconds. *)
Record TransportConfig := mkTransport {
  tp_max_uni_streams : Z;
  tp_max_bidi_streams : Z;
  tp_idle_timeout : Z;
  tp_keep_alive : Z;
  tp_stream_receive_window : Z;
  tp_receive_window : Z;
  tp_datagram_receive_buffer : Z;
  tp_datagram_send_buffer : Z;
  tp_min_mtu : Z;
  tp_mtu_discovery : bool;
  tp_send_fairness : bool;
  tp_segmentation_offload : bool;
}.

(** An endpoint: its transport, its protocols, and whether it sends data before
    the handshake is over. *)
Record EndpointConfig := mkEndpointConfig { ep_transport : TransportConfig; ep_alpn : list string; ep_early_data : bool }.

Section endpoints.
(** [TransportConfig::default] of quinn, and the constants of the SDK. *)
Context (quinn_default : TransportConfig) (quic_send_fairness : bool) (quic_max_timeout quic_keep_alive : Z) (solana_alpn : string).
Context (env : gmap string string).

(** [disable_gso], core/src/network_utils.rs:31-37 (and quic-forward-proxy/src/quic_util.rs). *)
Definition disable_gso : outcome bool := unwrap (parse_bool (default "false" (env !! "DISABLE_GSO"))).

Definition set_offload (tc : TransportConfig) (on : bool) : TransportConfig :=
  mkTransport (tp_max_uni_streams tc) (tp_max_bidi_streams tc) (tp_idle_timeout tc) (tp_keep_alive tc) (tp_stream_receive_window tc)
    (tp_receive_window tc) (tp_datagram_receive_buffer tc) (tp_datagram_send_buffer tc) (tp_min_mtu tc) (tp_mtu_discovery tc)
    (tp_send_fairness tc) on.

(** [apply_gso_workaround], core/src/network_utils.rs:19-25. *)
Definition apply_gso_workaround (tc : TransportConfig) : outcome TransportConfig :=
  disabled ← disable_gso; Done (if disabled : bool then set_offload tc false else tc).

(** The copies: [disable_gso], quic-forward-proxy/src/quic_util.rs:30-36. *)
Definition proxy_disable_gso : outcome bool := disable_gso.
(** [apply_gso_workaround], quic-forward-proxy/src/quic_util.rs:21-27. *)
Definition proxy_apply_gso_workaround : TransportConfig -> outcome TransportConfig := apply_gso_workaround.

Definition ALPN_TPU_PROTOCOL_ID : string := "solana-tpu".
Definition ALPN_TPU_FORWARDPROXY_PROTOCOL_ID : string := "solana-tpu-forward-proxy".

(** The client of the TPUs, [QuicConnectionUtils::create_endpoint],
    services/src/quic_connection_utils.rs:140-187. *)
Definition create_endpoint : outcome EndpointConfig :=
  transport ← apply_gso_workaround
    (mkTransport 0 0 1000 500 (tp_stream_receive_window quinn_default) (tp_receive_window quinn_default)
       (64 * 1024 * 1024) (64 * 1024 * 1024) 1280 false quic_send_fairness (tp_segmentation_offload quinn_default));
  Done (mkEndpointConfig transport [ALPN_TPU_PROTOCOL_ID] true).

(** The client of the proxy, [QuicProxyConnectionManager::create_proxy_client_endpoint],
    services/src/tpu_utils/quic_proxy_connection_manager.rs:117-155. *)
Definition create_proxy_client_endpoint : outcome EndpointConfig :=
  transport ← apply_gso_workaround
    (mkTransport 0 0 10000 500 (tp_stream_receive_window quinn_default) (tp_receive_window quinn_default)
       (tp_datagram_receive_buffer quinn_default) (tp_datagram_send_buffer quinn_default) (tp_min_mtu quinn_default)
       (tp_mtu_discovery quinn_default) (tp_send_fairness quinn_default) (tp_segmentation_offload quinn_default));
  Done (mkEndpointConfig transport [ALPN_TPU_FORWARDPROXY_PROTOCOL_ID] true).

(** [MAX_CONCURRENT_UNI_STREAMS], quic-forward-proxy/src/inbound/proxy_listener.rs:17-19. *)
Definition MAX_CONCURRENT_UNI_STREAMS : Z := 24.
Definition PACKET_DATA_SIZE : Z := 1232.

(** The server of the proxy, [ProxyListener::new_proxy_listen_server_endpoint],
    quic-forward-proxy/src/inbound/proxy_listener.rs:68-88, with [create_quic_server_config]. *)
Definition new_proxy_listen_server_endpoint : outcome EndpointConfig :=
  transport ← proxy_apply_gso_workaround
    (mkTransport MAX_CONCURRENT_UNI_STREAMS 0 10000 500 PACKET_DATA_SIZE (PACKET_DATA_SIZE * MAX_CONCURRENT_UNI_STREAMS)
       (tp_datagram_receive_buffer quinn_default) (tp_datagram_send_buffer quinn_default) (tp_min_mtu quinn_default)
       (tp_mtu_discovery quinn_default) (tp_send_fairness quinn_default) (tp_segmentation_offload quinn_default));
  Done (mkEndpointConfig transport [ALPN_TPU_FORWARDPROXY_PROTOCOL_ID] false).

(** The proxy's client of the TPUs, [create_tpu_client_endpoint],
    quic-forward-proxy/src/outbound/tx_forward.rs:279-325. *)
Definition create_tpu_client_endpoint : outcome EndpointConfig :=
  transport ← proxy_apply_gso_workaround
    (mkTransport 0 0 quic_max_timeout quic_keep_alive (tp_stream_receive_window quinn_default) (tp_receive_window quinn_default)
       (64 * 1024 * 1024) (64 * 1024 * 1024) 1280 (tp_mtu_discovery quinn_default) quic_send_fairness
       (tp_segmentation_offload quinn_default));
  Done (mkEndpointConfig transport [solana_alpn] true).

(** A client can talk to a server: they share a protocol, the server lets it
    open streams in one direction, either side closes an idle connection after
    the same time, and both send something before that. *)
Definition aligned (client server : EndpointConfig) : Prop :=
  (exists p, p ∈ ep_alpn client /\ p ∈ ep_alpn server) /\
  0 < tp_max_uni_streams (ep_transport server) /\ tp_max_uni_streams (ep_transport client) = 0 /\
  tp_max_bidi_streams (ep_transport client) = 0 /\ tp_max_bidi_streams (ep_transport server) = 0 /\
  tp_idle_timeout (ep_transport client) = tp_idle_timeout (ep_transport server) /\
  tp_keep_alive (ep_transport client) < tp_idle_timeout (ep_transport client) /\
  tp_keep_alive (ep_transport server) < tp_idle_timeout (ep_transport server).

(** The configurations fit together.  When the switch is neither [true] nor
    [false] no endpoint can be made; otherwise all can, with segmentation
    offload as quinn has it unless the switch is [true], in which case it is
    off.  The client of the proxy and the proxy's server are aligned, the
    server gives every stream a packet of the connection's window, and no
    client accepts a stream. *)
Theorem endpoints_fit :
  match disable_gso with
  | Panic => create_endpoint = Panic /\ create_proxy_client_endpoint = Panic /\ new_proxy_listen_server_endpoint = Panic /\
      create_tpu_client_endpoint = Panic
  | Done disabled =>
      exists direct client server outbound,
        create_endpoint = Done direct /\ create_proxy_client_endpoint = Done client /\
        new_proxy_listen_server_endpoint = Done server /\ create_tpu_client_endpoint = Done outbound /\
        aligned client server /\
        tp_receive_window (ep_transport server) = tp_max_uni_streams (ep_transport server) * tp_stream_receive_window (ep_transport server) /\
        Forall (fun e => tp_max_uni_streams (ep_transport e) = 0 /\ tp_max_bidi_streams (ep_transport e) = 0) [direct; client; outbound] /\
        Forall (fun e => tp_segmentation_offload (ep_transport e) = negb disabled && tp_segmentation_offload quinn_default)
          [direct; client; server; outbound]
  end.
Proof.
  unfold create_endpoint, create_proxy_client_endpoint, new_proxy_listen_server_endpoint, create_tpu_client_endpoint,
    proxy_apply_gso_workaround, apply_gso_workaround.
  destruct disable_gso as [disabled|]; cbn [mbind outcome_bind]; [|done].
  eexists _, _, _, _. split; [reflexivity|]. split; [reflexivity|]. split; [reflexivity|]. split; [reflexivity|].
  unfold aligned, MAX_CONCURRENT_UNI_STREAMS. destruct disabled; cbn;
    (split; [split; [eexists; split; apply list_elem_of_singleton; reflexivity|lia]|]);
    (split; [reflexivity|]); (split; repeat constructor).
Qed.
End endpoints.

(** ** Secrets in logs

    Characters are bytes: the texts are addresses and tokens in ASCII. *)

Definition is_numeric (c : Ascii.ascii) : bool := match digit_of c with Some _ => true | None => false end.

(** [str::contains]. *)
Fixpoint contains (p s : string) : bool :=
  match strip_prefix p s with
  | Some _ => true
  | None => match s with EmptyString => false | String _ s => contains p s end
  end.

(** [str::replacen] of the characters a predicate finds. *)
Fixpoint replacen (f : Ascii.ascii -> bool) (by_ : string) (n : nat) (s : string) : string :=
  match s, n with
  | EmptyString, _ | _, O => s
  | String c s, S n' => if f c then (by_ ++ replacen f by_ n' s)%string else String c (replacen f by_ n s)
  end.

(** [obfuscate_rpcurl], util/src/secrets.rs:3-8. *)
Definition obfuscate_rpcurl (rpc_addr : string) : string :=
  if contains "rpcpool.com" rpc_addr then replacen is_numeric "X" 99 rpc_addr else rpc_addr.

(** [obfuscate_token], util/src/secrets.rs:10-20. *)
Definition obfuscate_token (token : option string) : string :=
  match token with None => "n/a" | Some token => (String.substring 0 5 token ++ "...")%string end.

(** [url_obfuscate_api_token], lite-rpc/src/cli.rs:331-342; [path] and [set_path] are those of
    the parsed address. *)
Definition url_obfuscate_api_token (path : string -> option string) (set_path : string -> string -> string) (url : string) : string :=
  match path url with
  | Some p => if String.eqb p "/" then url else set_path url "omitted-secret"
  | None => url
  end.

(** The text of a [GrpcSource], lite-rpc/src/cli.rs:313-328, with [obfuscate_token] of the same file. *)
Definition grpc_source_text (path : string -> option string) (set_path : string -> string -> string) (addr : string) (x_token : option string) : string :=
  ("GrpcSource " ++ url_obfuscate_api_token path set_path addr ++ " (x-token " ++ obfuscate_token x_token ++ ")")%string.

(** How many digits a text has. *)
Fixpoint digits (s : string) : nat :=
  match s with EmptyString => 0 | String c s => (if is_numeric c then 1 else 0) + digits s end.

Lemma replacen_digits s : forall n, digits (replacen is_numeric "X" n s) = (digits s - n)%nat.
Proof.
  induction s as [|c s IH]; intros [|n]; [done|done|by rewrite Nat.sub_0_r|]. cbn [replacen digits]. destruct (is_numeric c) eqn:Ec.
  - change (digits ("X" ++ replacen is_numeric "X" n s)%string) with (digits (replacen is_numeric "X" n s)). rewrite IH. lia.
  - cbn [digits]. rewrite Ec. apply IH.
Qed.

(** Of an address of the provider, the log shows no digit as long as it has at
    most 99, and every further one; of a token it shows the first five
    characters, which is all of a short one. *)
Lemma obfuscated s :
  (contains "rpcpool.com" s = true -> digits (obfuscate_rpcurl s) = (digits s - 99)%nat) /\
  (contains "rpcpool.com" s = false -> obfuscate_rpcurl s = s) /\
  ((String.length s <= 5)%nat -> obfuscate_token (Some s) = (s ++ "...")%string).
Proof.
  split; [intros H; unfold obfuscate_rpcurl; rewrite H; apply replacen_digits|].
  split; [intros H; unfold obfuscate_rpcurl; by rewrite H|].
  intros Hl. cbn [obfuscate_token]. f_equal.
  assert (forall n (s : string), (String.length s <= n)%nat -> String.substring 0 n s = s) as H.
  { clear. induction n as [|n IH]; intros [|c s] H; [done|cbn in H; lia|done|]. cbn [String.substring]. f_equal. apply IH. cbn in H. lia. }
  by apply H.
Qed.

(** ** Metrics over HTTP *)

Definition crlf : string := String (Ascii.ascii_of_nat 13) (String (Ascii.ascii_of_nat 10) EmptyString).

(** [PrometheusSync::create_response], services/src/prometheus_sync.rs:14-20. *)
Definition create_response (payload : string) : string :=
  ("HTTP/1.1 200 OK" ++ crlf ++ "Content-Length: " ++ decimal (Z.of_nat (String.length payload)) ++ crlf ++ crlf ++ payload)%string.

(** The copy, [PrometheusSync::create_response],
    benchrunner-service/src/prometheus/prometheus_sync.rs:13-19. *)
Definition bench_create_response : string -> string := create_response.

(** [PrometheusSync::handle_stream], services/src/prometheus_sync.rs:22-40: what is written; [page] are the
    metrics as text, and the stream may fail. *)
Definition prometheus_handle_stream (page : outcome string) (writable written flushed : bool) : outcome (result string string) :=
  page ← page;
  Done (if writable && written && flushed then Ok (create_response page) else Err "io error").

(** What the listener meets: a connection it cannot accept, or one with the
    page at that moment and how writing goes. *)
Inductive ScrapeEvent := AcceptFailed | Scrape (page : outcome string) (writable written flushed : bool).

(** [PrometheusSync::sync], services/src/prometheus_sync.rs:42-56: the pages it has written, as long as the task
    runs. *)
Fixpoint prometheus_loop (evs : list ScrapeEvent) : list string * bool :=
  match evs with
  | [] => ([], true)
  | AcceptFailed :: evs => prometheus_loop evs
  | Scrape page writable written flushed :: evs =>
      match prometheus_handle_stream page writable written flushed with
      | Panic => ([], false)
      | Done r => let '(l, running) := prometheus_loop evs in (match r with Ok text => text :: l | Err _ => l end, running)
      end
  end.
Definition prometheus_sync (bind : result string unit) (evs : list ScrapeEvent) : result string (list string * bool) :=
  _ ← bind; Ok (prometheus_loop evs).

(** [ServiceSpawner::spawn_support_services], lite-rpc/src/service_spawner.rs:25-40: the first of the
    two tasks that ends, and with what error. *)
Definition spawn_support_services (prometheus_first : bool) : result string unit :=
  Err (if prometheus_first then "Prometheus exited unexpectedly" else "Metrics capture exited unexpectedly").

(** ** What a scraper reads *)

(** The text up to a separator, and what follows it. *)
Fixpoint split_at (sep s : string) : option (string * string) :=
  match strip_prefix sep s with
  | Some rest => Some (EmptyString, rest)
  | None => match s with
            | EmptyString => None
            | String c s => '(head, rest) ← split_at sep s; Some (String c head, rest)
            end
  end.

(** A client of HTTP: the length from the head, and as much of the body. *)
Definition read_response (text : string) : option string :=
  '(head, body) ← split_at (crlf ++ crlf) text;
  '(_, field) ← split_at "Content-Length: " head;
  n ← parse_u64 field;
  if Z.of_nat (String.length body) <? n then None else Some (String.substring 0 (Z.to_nat n) body).

Lemma split_at_cons sep c s :
  strip_prefix sep (String c s) = None -> split_at sep (String c s) = ('(head, rest) ← split_at sep s; Some (String c head, rest)).
Proof. intros H. cbn [split_at]. by rewrite H. Qed.

Lemma split_digits d body :
  all_digits d -> split_at (crlf ++ crlf) (d ++ crlf ++ crlf ++ body)%string = Some (d, body).
Proof.
  induction d as [|c d IH]; [done|]. intros [(k & Hk & ->) Hd]. specialize (IH Hd).
  change ((String ?c d ++ ?r)%string) with (String c (d ++ r)%string).
  rewrite split_at_cons; [by rewrite IH|].
  destruct (digit_cases k Hk) as [->|[->|[->|[->|[->|[->|[->|[->|[->| ->]]]]]]]]]; reflexivity.
Qed.

Lemma substring_all (s : string) : String.substring 0 (String.length s) s = s.
Proof. induction s as [|c s IH]; [done|]. cbn. by rewrite IH. Qed.

(** What a scraper reads is the page: the head of the response gives the length
    of the body, which is the page, whatever the page contains; and the loop goes
    on after connections that fail, so the scraper of each later connection that
    works reads the page of its moment, until a page cannot be made. *)
Theorem scraper_reads_page (page : string) (evs : list ScrapeEvent) :
  Z.of_nat (String.length page) < u64_size ->
  read_response (create_response page) = Some page /\
  exists l, prometheus_loop (Scrape (Done page) true true true :: evs) = (create_response page :: l, (prometheus_loop evs).2).
Proof.
  intros Hl. split.
  - unfold read_response, create_response. set (d := decimal _).
    assert (all_digits d) as Hd by (apply decimal_fuel_digits; done).
    assert (split_at (crlf ++ crlf) ("HTTP/1.1 200 OK" ++ crlf ++ "Content-Length: " ++ d ++ crlf ++ crlf ++ page)%string =
      Some (("HTTP/1.1 200 OK" ++ crlf ++ "Content-Length: " ++ d)%string, page)) as ->.
    { pose proof (split_digits d page Hd) as E.
      cbv [String.append crlf] in E |- *.
      repeat (rewrite split_at_cons by reflexivity). by rewrite E. }
    cbn [mbind option_bind]. assert (split_at "Content-Length: " ("HTTP/1.1 200 OK" ++ crlf ++ "Content-Length: " ++ d)%string =
      Some (("HTTP/1.1 200 OK" ++ crlf)%string, d)) as -> by reflexivity.
    cbn [mbind option_bind]. subst d. rewrite parse_decimal by (unfold in_u64; lia). cbn [mbind option_bind].
    rewrite Z.ltb_irrefl, Nat2Z.id. by rewrite substring_all.
  - cbn. destruct (prometheus_loop evs) as [l running]. by eexists.
Qed.

Lemma scraper_reads_page_witness :
  read_response (create_response "literpc_txs_in_store 3") = Some "literpc_txs_in_store 3".
Proof. apply (scraper_reads_page "literpc_txs_in_store 3" []). reflexivity. Defined.

(** ** How many *)

(** [Uniqueness], core/src/iterutils.rs:1-5. *)
Inductive Uniqueness := ExactlyOne | Multiple (len : Z) | Empty.

(** [Uniqueness::inspect_len], core/src/iterutils.rs:8-16. *)
Definition inspect_len (len : Z) : Uniqueness :=
  if len =? 1 then ExactlyOne else if len =? 0 then Empty else Multiple len.
