(* ===== verification/Floats.v ===== *)
(** * Floating-point numbers

    [f64] and [f32] as IEEE 754 binary64 and binary32, computed by the
    standard library's executable [SpecFloat]; the conversions and comparisons
    the sources use; and the order of the numbers that are not NaN. *)

From Stdlib Require Import SpecFloat.
From S2P Require Import Prelude.

Open Scope Z_scope.

Notation f64 := spec_float (only parsing).
Notation f32 := spec_float (only parsing).

(** ** Arithmetic *)

Definition f64_add : f64 -> f64 -> f64 := SFadd 53 1024.
Definition f64_sub : f64 -> f64 -> f64 := SFsub 53 1024.
Definition f64_mul : f64 -> f64 -> f64 := SFmul 53 1024.
Definition f64_div : f64 -> f64 -> f64 := SFdiv 53 1024.
Definition f32_add : f32 -> f32 -> f32 := SFadd 24 128.
Definition f32_sub : f32 -> f32 -> f32 := SFsub 24 128.
Definition f32_mul : f32 -> f32 -> f32 := SFmul 24 128.
Definition f32_div : f32 -> f32 -> f32 := SFdiv 24 128.
Definition f32_sqrt : f32 -> f32 := SFsqrt 24 128.

(** [n as f64] and [n as f32]: to the nearest, ties to even. *)
Definition f64_of_Z (n : Z) : f64 := binary_normalize 53 1024 n 0 false.
Definition f32_of_Z (n : Z) : f32 := binary_normalize 24 128 n 0 false.

(** [x as f32]. *)
Definition f32_of_f64 (x : f64) : f32 :=
  match x with
  | S754_finite s m e => binary_normalize 24 128 (cond_Zopp s (Zpos m)) e s
  | x => x
  end.

(** [m / 10 ^ k] as the compiler reads a decimal literal whose digits and
    power of ten are exact. *)
Definition f64_dec (m k : Z) : f64 := f64_div (f64_of_Z m) (f64_of_Z (10 ^ k)).

(** [Iterator::sum], which starts from minus zero. *)
Definition f64_sum (l : list f64) : f64 := foldl f64_add (S754_zero true) l.
Definition f32_sum (l : list f32) : f32 := foldl f32_add (S754_zero true) l.

(** ** Comparison *)

Definition f_le (x y : spec_float) : bool := SFleb x y.
Definition f_lt (x y : spec_float) : bool := SFltb x y.
Definition f_eq (x y : spec_float) : bool := SFeqb x y.
Definition is_nan (x : spec_float) : bool := match x with S754_nan => true | _ => false end.

(** [f64::min] and [f64::max]: a NaN loses against a number. *)
Definition f_min (x y : spec_float) : spec_float := if is_nan x then y else if f_lt y x then y else x.
Definition f_max (x y : spec_float) : spec_float := if is_nan x then y else if f_lt x y then y else x.

(** [f64::MAX] and [f64::MIN]. *)
Definition f64_MAX : f64 := SFmax_float 53 1024.
Definition f64_MIN : f64 := SFopp f64_MAX.

(** [x.ceil() as usize]: the least integer not below [x], cut to the range of
    the type; a NaN gives zero. *)
Definition ceil_as_usize (x : f64) : Z :=
  match x with
  | S754_nan => 0
  | S754_zero _ => 0
  | S754_infinity s => if s then 0 else u64_max
  | S754_finite true _ _ => 0
  | S754_finite false m e =>
      Z.min u64_max (if 0 <=? e then Zpos m * 2 ^ e else (Zpos m + 2 ^ (- e) - 1) / 2 ^ (- e))
  end.

(** ** The order *)

Lemma f_compare_refl x : is_nan x = false -> SFcompare x x = Some Eq.
Proof.
  destruct x as [s|[]| |[] m e]; cbn; try done; intros _; rewrite Z.compare_refl;
    change (Pos.compare_cont Eq m m) with (m ?= m)%positive; by rewrite Pos.compare_refl.
Qed.

Lemma f_le_refl x : is_nan x = false -> f_le x x = true.
Proof. intros H. unfold f_le, SFleb. by rewrite f_compare_refl. Qed.

Lemma f_le_not_nan x y : f_le x y = true -> is_nan x = false /\ is_nan y = false.
Proof. by destruct x as [|[]| |[]], y as [|[]| |[]]. Qed.

(** Where a number stands: its sign, then the exponent, then the mantissa. *)
Definition f_rank (x : spec_float) : Z * (Z * Z) :=
  match x with
  | S754_nan => (3, (0, 0))
  | S754_infinity true => (-2, (0, 0))
  | S754_infinity false => (2, (0, 0))
  | S754_zero _ => (0, (0, 0))
  | S754_finite true m e => (-1, (- e, - Zpos m))
  | S754_finite false m e => (1, (e, Zpos m))
  end.

Definition rank_le (a b : Z * (Z * Z)) : Prop :=
  a.1 < b.1 \/ a.1 = b.1 /\ (a.2.1 < b.2.1 \/ a.2.1 = b.2.1 /\ a.2.2 <= b.2.2).

Lemma f_le_rank x y : is_nan x = false -> is_nan y = false -> f_le x y = true <-> rank_le (f_rank x) (f_rank y).
Proof.
  unfold f_le, SFleb, rank_le.
  destruct x as [?|[]| |[] m1 e1], y as [?|[]| |[] m2 e2]; cbn; try done; intros _ _;
    try (destruct (Z.compare_spec e1 e2); try (change (Pos.compare_cont Eq m1 m2) with (m1 ?= m2)%positive;
           destruct (Pos.compare_spec m1 m2)); cbn);
    split; intros; try done; lia.
Qed.

Lemma f_le_trans x y z : f_le x y = true -> f_le y z = true -> f_le x z = true.
Proof.
  intros Hxy Hyz. destruct (f_le_not_nan x y Hxy) as [Hx Hy], (f_le_not_nan y z Hyz) as [_ Hz].
  apply f_le_rank in Hxy, Hyz; try done. apply f_le_rank; [done..|]. unfold rank_le in *. lia.
Qed.

Lemma f_lt_le x y : is_nan x = false -> is_nan y = false -> f_lt x y = false <-> f_le y x = true.
Proof.
  intros Hx Hy. rewrite (f_le_rank y x) by done. unfold f_lt, SFltb, rank_le.
  destruct x as [?|[]| |[] m1 e1], y as [?|[]| |[] m2 e2]; cbn in *; try done;
    try (destruct (Z.compare_spec e1 e2); try (change (Pos.compare_cont Eq m1 m2) with (m1 ?= m2)%positive;
           destruct (Pos.compare_spec m1 m2)); cbn);
    split; intros; try done; lia.
Qed.

#[export] Hint Resolve f_le_refl f_le_trans : literpc.
