(* ===== verification/Histogram.v ===== *)
(** * Histograms

    util/src: the percentiles of a sorted array and of a weighted one
    (histogram_percentiles.rs), buckets (histogram_nbuckets.rs), mean and
    standard deviation (statistics.rs), all over floating-point numbers. *)

From Stdlib Require Import SpecFloat.
From S2P Require Import Prelude Floats.

Open Scope Z_scope.

(** ** Percentiles *)

(** [Point], util/src/histogram_percentiles.rs:6-9. *)
Record Point := mkPoint { pt_priority : f64; pt_value : f64 }.

(** [HistValue], util/src/histogram_percentiles.rs:21-24. *)
Record HistValue := mkHistValue { hv_percentile : f32; hv_value : f64 }.

(** [Percentiles], util/src/histogram_percentiles.rs:101-106. *)
Record Percentiles := mkPercentiles { pc_v : list f64; pc_p : list f32 }.

(** [PercentilesCummulative], util/src/histogram_percentiles.rs:126-129. *)
Record PercentilesCummulative := mkCummulative { pc_bucket_values : list f64; pc_percentiles : list f32 }.

(** [input.windows(2).all(|w| w[0] <= w[1])]. *)
Fixpoint is_monotonic (l : list f64) : bool :=
  match l with
  | x :: l' => match l' with y :: _ => f_le x y && is_monotonic l' | [] => true end
  | [] => true
  end.

(** [(0..=100).step_by(5)]. *)
Definition p_steps : list Z := (fun k => 5 * k) <$> seqZ 0 21.

(** The value at percentile [p], [calculate_percentiles],
    util/src/histogram_percentiles.rs:45-49. *)
Definition percentile_value (input : list f64) (p : Z) : outcome f64 :=
  let index := wrap_u64 (Z.of_nat (length input) * p) / 100 in
  let cap_index := Z.min index (Z.of_nat (length input) - 1) in
  unwrap (input !! Z.to_nat cap_index).

Definition percentile_of (p : Z) : f32 := f32_div (f32_of_Z p) (f32_of_Z 100).

Fixpoint omap_all {A B} (f : A -> outcome B) (l : list A) : outcome (list B) :=
  match l with
  | [] => Done []
  | x :: l => y ← f x; ys ← omap_all f l; Done (y :: ys)
  end.

(** [calculate_percentiles], util/src/histogram_percentiles.rs:27-59. *)
Definition calculate_percentiles (input : list f64) : outcome Percentiles :=
  match input with
  | [] => Done (mkPercentiles [] [])
  | _ =>
      if is_monotonic input
      then v ← omap_all (percentile_value input) p_steps; Done (mkPercentiles v (percentile_of <$> p_steps))
      else Panic
  end.

(** [while agg < target]: [calculate_cummulative],
    util/src/histogram_percentiles.rs:83-86; [cur] is the point at the index, [rest]
    those after it. *)
Fixpoint advance (target agg : f64) (cur : Point) (rest : list Point) : outcome (f64 * Point * list Point) :=
  if f_lt agg target then
    match rest with
    | [] => Panic
    | next :: rest => advance target (f64_add agg (pt_value next)) next rest
    end
  else Done (agg, cur, rest).

(** [(value_sum * percentile) / 100.0]. *)
Definition target_of (value_sum : f64) (p : Z) : f64 := f64_div (f64_mul value_sum (f64_of_Z p)) (f64_of_Z 100).

(** The iterator over the percentiles, [calculate_cummulative],
    util/src/histogram_percentiles.rs:80-93. *)
Fixpoint cummulative_from (value_sum agg : f64) (cur : Point) (rest : list Point) (ps : list Z) :
    outcome (list HistValue) :=
  match ps with
  | [] => Done []
  | p :: ps =>
      match advance (target_of value_sum p) agg cur rest with
      | Done (agg, cur, rest) =>
          l ← cummulative_from value_sum agg cur rest ps;
          Done (mkHistValue (f32_of_f64 (f64_of_Z p)) (pt_priority cur) :: l)
      | Panic => Panic
      end
  end.

(** [calculate_cummulative], util/src/histogram_percentiles.rs:61-99. *)
Definition calculate_cummulative (values : list Point) : outcome PercentilesCummulative :=
  match values with
  | [] => Done (mkCummulative [] [])
  | first :: rest =>
      if is_monotonic (pt_priority <$> values) then
        dist ← cummulative_from (f64_sum (pt_value <$> values)) (pt_value first) first rest p_steps;
        Done (mkCummulative (hv_value <$> dist) ((fun hv => f32_div (hv_percentile hv) (f32_of_Z 100)) <$> dist))
      else Panic
  end.

(** [Percentiles::get_bucket_value], util/src/histogram_percentiles.rs:119-123. *)
Definition get_bucket_value (r : Percentiles) (percentile : f32) : option f64 :=
  snd <$> (list_find (fun x => f_eq x.1 percentile = true) (zip (pc_p r) (pc_v r)) ≫= fun x => Some x.2).

(** ** Buckets *)

(** [bucket[i] += 1]. *)
Definition bump (bucket : list Z) (i : Z) : outcome (list Z) :=
  n ← unwrap (bucket !! Z.to_nat i); Done (<[Z.to_nat i := (n +64 1)%rpc]> bucket).

(** The loop over the values, [histogram], util/src/histogram_nbuckets.rs:13-17. *)
Fixpoint fill (min step : f64) (bins : Z) (bucket : list Z) (values : list f64) : outcome (list Z) :=
  match values with
  | [] => Done bucket
  | v :: values =>
      let i := Z.min (ceil_as_usize (f64_div (f64_sub v min) step)) (bins - 1) in
      bucket ← bump bucket i; fill min step bins bucket values
  end.

(** [histogram], util/src/histogram_nbuckets.rs:1-23. *)
Definition histogram (values : list f64) (bins : Z) : outcome (list (f64 * Z)) :=
  if bins <? 2 then Panic
  else
    let min := foldl f_min f64_MAX values in
    let max := foldl f_max f64_MIN values in
    let step := f64_div (f64_sub max min) (f64_of_Z (bins - 1)) in
    bucket ← fill min step bins (replicate (Z.to_nat bins) 0) values;
    Done (imap (fun i v => (f64_add min (f64_mul step (f64_of_Z (Z.of_nat i))), v)) bucket).

(** ** Mean and deviation *)

(** [mean], util/src/statistics.rs:1-9. *)
Definition mean (data : list f32) : option f32 :=
  match data with [] => None | _ => Some (f32_div (f32_sum data) (f32_of_Z (Z.of_nat (length data)))) end.

(** [std_deviation], util/src/statistics.rs:11-28. *)
Definition std_deviation (data : list f32) : option f32 :=
  match mean data with
  | Some data_mean =>
      if (0 <? length data)%nat then
        let variance :=
          f32_div (f32_sum ((fun value => let diff := f32_sub data_mean value in f32_mul diff diff) <$> data))
            (f32_of_Z (Z.of_nat (length data))) in
        Some (f32_sqrt variance)
      else None
  | None => None
  end.

(** ** Sorted arrays *)

Abbreviation sorted := (StronglySorted (fun x y => f_le x y = true)).

Lemma is_monotonic_sorted l : is_monotonic l = true -> sorted l.
Proof.
  induction l as [|x l IH]; [constructor|]. cbn [is_monotonic]. destruct l as [|y l]; [by repeat constructor|].
  intros [Hxy Hl]%andb_true_iff. specialize (IH Hl). constructor; [done|].
  apply StronglySorted_inv in IH as [_ Hy]. constructor; [done|].
  eapply Forall_impl; [exact Hy|]. intros z Hz. by eapply f_le_trans.
Qed.

Lemma sorted_lookup l i j x y :
  sorted l -> Forall (fun x => is_nan x = false) l -> (i <= j)%nat -> l !! i = Some x -> l !! j = Some y -> f_le x y = true.
Proof.
  intros Hs. revert i j. induction Hs as [|z l Hs IH Hz]; intros i j Hn Hij Hi Hj; [done|].
  apply Forall_cons in Hn as [Hnz Hn]. destruct i as [|i], j as [|j]; simplify_eq/=.
  - by apply f_le_refl.
  - rewrite Forall_lookup in Hz. by eapply Hz.
  - lia.
  - eapply (IH i j); [done|lia|done..].
Qed.

(** The elements of a list that satisfy a predicate include those of any of
    its sublists that all do. *)
Lemma count_sublist {A} (P : A -> Prop) `{!forall x, Decision (P x)} (l1 l2 l3 : list A) :
  Forall P l2 -> (length l2 <= length (filter P (l1 ++ l2 ++ l3)))%nat.
Proof.
  intros Hall. rewrite !filter_app, !length_app. assert (filter P l2 = l2) as ->; [|lia].
  induction Hall as [|x l Hx Hl IH]; [done|]. by rewrite filter_cons_True, IH.
Qed.

Lemma omap_all_done {A B} (f : A -> outcome B) (g : A -> B) l :
  (forall x, x ∈ l -> f x = Done (g x)) -> omap_all f l = Done (g <$> l).
Proof.
  induction l as [|x l IH]; intros H; cbn; [done|]. rewrite H by set_solver. cbn.
  rewrite IH by (intros; apply H; set_solver). done.
Qed.

(** The index of a percentile. *)
Definition rank_index (n p : Z) : Z := Z.min (n * p / 100) (n - 1).

Lemma rank_index_range n p : 0 < n -> 0 <= p -> 0 <= rank_index n p < n.
Proof. intros. unfold rank_index. assert (0 <= n * p / 100) by (apply Z.div_pos; nia). lia. Qed.

Lemma percentile_value_eq input p :
  input <> [] -> 0 <= p <= 100 -> Z.of_nat (length input) * 100 < u64_size ->
  exists x, input !! Z.to_nat (rank_index (Z.of_nat (length input)) p) = Some x /\ percentile_value input p = Done x.
Proof.
  intros Hne Hp Hlen. assert (0 < Z.of_nat (length input)) as Hpos by (destruct input; [done|cbn; lia]).
  destruct (lookup_lt_is_Some_2 input (Z.to_nat (rank_index (Z.of_nat (length input)) p))) as [x Hx].
  { pose proof (rank_index_range (Z.of_nat (length input)) p). lia. }
  exists x. split; [done|]. unfold percentile_value. rewrite wrap_u64_id by (unfold in_u64; nia).
  unfold rank_index in Hx. by rewrite Hx.
Qed.

(** At least [p] percent of a sorted array are at most the value at the index
    of [p], and at least [100 - p] percent are at least that. *)
Lemma quantile_at input p x :
  sorted input -> Forall (fun x => is_nan x = false) input -> 0 <= p <= 100 ->
  input !! Z.to_nat (rank_index (Z.of_nat (length input)) p) = Some x ->
  Z.of_nat (length input) * p <= 100 * Z.of_nat (length (filter (fun y => f_le y x = true) input)) /\
  Z.of_nat (length input) * (100 - p) <= 100 * Z.of_nat (length (filter (fun y => f_le x y = true) input)).
Proof.
  intros Hs Hn Hp Hx. set (n := Z.of_nat (length input)) in *. set (i := Z.to_nat (rank_index n p)) in *.
  assert (i < length input)%nat as Hi by (by eapply lookup_lt_Some).
  assert (0 < n) as Hpos by lia. pose proof (rank_index_range n p Hpos) as Hr.
  assert (forall j y, (j <= i)%nat -> input !! j = Some y -> f_le y x = true) as Hlo
    by (intros; by eapply (sorted_lookup input j i)).
  assert (forall j y, (i <= j)%nat -> input !! j = Some y -> f_le x y = true) as Hhi
    by (intros; by eapply (sorted_lookup input i j)).
  pose proof (count_sublist (fun y => f_le y x = true) [] (take (S i) input) (drop (S i) input)) as C1.
  pose proof (count_sublist (fun y => f_le x y = true) (take i input) (drop i input) []) as C2.
  rewrite app_nil_l, take_drop, length_take_le in C1 by lia. rewrite app_nil_r, take_drop, length_drop in C2.
  assert (n * p / 100 * 100 <= n * p < (n * p / 100 + 1) * 100) as Hd
    by (pose proof (Z.div_mod (n * p) 100); pose proof (Z.mod_pos_bound (n * p) 100); lia).
  split.
  - assert (S i <= length (filter (fun y => f_le y x = true) input))%nat as C.
    { apply C1, Forall_lookup. intros j y [Hy Hj]%lookup_take_Some. eapply Hlo; [|done]. lia. }
    unfold i, rank_index in *. destruct (Z.min_spec (n * p / 100) (n - 1)); nia.
  - assert (length input - i <= length (filter (fun y => f_le x y = true) input))%nat as C.
    { apply C2, Forall_lookup. intros j y Hy. rewrite lookup_drop in Hy. eapply Hhi; [|done]. lia. }
    unfold i, rank_index in *. destruct (Z.min_spec (n * p / 100) (n - 1)); nia.
Qed.

(** C37. [calculate_percentiles] of a nonempty sorted array without NaN returns one
    value for each of 0, 5, …, 100 percent; that for [p] is an element such
    that at least [p] percent of the array are at most it and at least
    [100 - p] percent are at least it, so the first is a minimum and the last a
    maximum of the array; an unsorted array panics. *)
Theorem float_percentiles_are_quantiles input :
  input <> [] -> Forall (fun x => is_nan x = false) input -> Z.of_nat (length input) * 100 < u64_size ->
  match calculate_percentiles input with
  | Done r =>
      is_monotonic input = true /\ pc_p r = (percentile_of <$> p_steps) /\
      Forall2 (fun p v => v ∈ input /\
        Z.of_nat (length input) * p <= 100 * Z.of_nat (length (filter (fun y => f_le y v = true) input)) /\
        Z.of_nat (length input) * (100 - p) <= 100 * Z.of_nat (length (filter (fun y => f_le v y = true) input)))
        p_steps (pc_v r)
  | Panic => is_monotonic input = false
  end.
Proof.
  intros Hne Hn Hlen. destruct input as [|x0 l]; [done|]. set (input := x0 :: l) in *.
  change (calculate_percentiles input) with
    (if is_monotonic input
     then v ← omap_all (percentile_value input) p_steps; Done (mkPercentiles v (percentile_of <$> p_steps))
     else Panic).
  destruct (is_monotonic input) eqn:Hm; [|done]. apply is_monotonic_sorted in Hm as Hs.
  set (g p := default x0 (input !! Z.to_nat (rank_index (Z.of_nat (length input)) p))).
  assert (forall p, p ∈ p_steps -> 0 <= p <= 100) as Hp.
  { intros p (k & -> & Hk)%list_elem_of_fmap. apply elem_of_seqZ in Hk. lia. }
  rewrite (omap_all_done _ g).
  2:{ intros p Hin. destruct (percentile_value_eq input p) as (x & Hx & ->); [done|by apply Hp|done|].
      unfold g. by rewrite Hx. }
  cbn [mbind outcome_bind pc_p pc_v]. split_and!; [done..|]. apply Forall2_fmap_r, Forall_Forall2_diag, Forall_forall.
  intros p Hin. specialize (Hp p Hin). unfold compose.
  destruct (percentile_value_eq input p) as (x & Hx & _); [done..|].
  assert (g p = x) as -> by (unfold g; by rewrite Hx).
  split; [by eapply list_elem_of_lookup_2|]. by apply quantile_at.
Qed.

Lemma float_percentiles_are_quantiles_witness :
  match calculate_percentiles (f64_of_Z <$> [1; 2; 2; 7]) with
  | Done r => length (pc_v r) = 21%nat
  | Panic => False
  end.
Proof.
  assert (f64_of_Z <$> [1; 2; 2; 7] <> []) as Hne by done.
  assert (Forall (fun x => is_nan x = false) (f64_of_Z <$> [1; 2; 2; 7])) as Hn by (repeat constructor).
  assert (Z.of_nat (length (f64_of_Z <$> [1; 2; 2; 7])) * 100 < u64_size) as Hl by done.
  pose proof (float_percentiles_are_quantiles _ Hne Hn Hl) as H.
  destruct (calculate_percentiles _) as [r|]; [|vm_compute in H; done].
  destruct H as (_ & _ & H). by apply Forall2_length in H.
Defined.

(** ** Weighted percentiles *)

(** The points from [cur] on, with their running sums when [agg] is the one at
    [cur]. *)
Fixpoint running (agg : f64) (cur : Point) (rest : list Point) : list (f64 * Point) :=
  (agg, cur) :: match rest with [] => [] | next :: rest => running (f64_add agg (pt_value next)) next rest end.

Definition total (agg : f64) (rest : list Point) : f64 := foldl f64_add agg (pt_value <$> rest).

Lemma running_total agg cur rest : exists pt, (total agg rest, pt) ∈ running agg cur rest.
Proof.
  revert agg cur. induction rest as [|next rest IH]; intros agg cur; cbn; [exists cur; set_solver|].
  destruct (IH (f64_add agg (pt_value next)) next) as [pt H]. exists pt. apply list_elem_of_further, H.
Qed.

Lemma running_head agg cur rest : exists tl, running agg cur rest = (agg, cur) :: tl.
Proof. destruct rest; cbn; eauto. Qed.

Lemma running_points agg cur rest : snd <$> running agg cur rest = cur :: rest.
Proof. revert agg cur. induction rest as [|next rest IH]; intros; cbn; [done|]. by rewrite IH. Qed.

(** The loop stops at the first point whose running sum is not below the
    target, and panics when there is none. *)
Lemma advance_spec target agg cur rest :
  match advance target agg cur rest with
  | Done (agg', cur', rest') => total agg' rest' = total agg rest /\
      exists below, running agg cur rest = below ++ running agg' cur' rest' /\
        Forall (fun s => f_lt s.1 target = true) below /\ f_lt agg' target = false
  | Panic => f_lt (total agg rest) target = true
  end.
Proof.
  revert agg cur. induction rest as [|next rest IH]; intros agg cur; cbn [advance running].
  - destruct (f_lt agg target) eqn:H; [done|]. split; [done|]. exists []. by rewrite H.
  - destruct (f_lt agg target) eqn:H; [|split; [done|exists []; by rewrite H]].
    specialize (IH (f64_add agg (pt_value next)) next). destruct (advance _ _ _ _) as [[[agg' cur'] rest']|]; [|done].
    destruct IH as (Ht & below & -> & Hb & Hn). split; [done|]. exists ((agg, cur) :: below). by repeat constructor.
Qed.

(** What the bucket of percentile [p] is: the priority of a point whose
    running sum is not below the target. *)
Definition bucket_of (value_sum : f64) (sums : list (f64 * Point)) (p : Z) (hv : HistValue) : Prop :=
  hv_percentile hv = f32_of_f64 (f64_of_Z p) /\
  exists s, s ∈ sums /\ hv_value hv = pt_priority s.2 /\ f_lt s.1 (target_of value_sum p) = false.

Lemma cummulative_from_buckets value_sum agg cur rest ps :
  match cummulative_from value_sum agg cur rest ps with
  | Done l => Forall2 (bucket_of value_sum (running agg cur rest)) ps l
  | Panic => exists p, p ∈ ps /\ f_lt (total agg rest) (target_of value_sum p) = true
  end.
Proof.
  revert agg cur rest. induction ps as [|p ps IH]; intros agg cur rest; cbn [cummulative_from]; [constructor|].
  pose proof (advance_spec (target_of value_sum p) agg cur rest) as Ha.
  destruct (advance _ _ _ _) as [[[agg' cur'] rest']|]; [|exists p; set_solver].
  destruct Ha as (Ht & below & Hr & _ & Hn). specialize (IH agg' cur' rest').
  destruct (cummulative_from _ _ _ _ _) as [l|]; cbn [mbind outcome_bind].
  - rewrite Hr. constructor.
    + split; [done|]. exists (agg', cur'). destruct (running_head agg' cur' rest') as [tl ->]. set_solver.
    + eapply Forall2_impl; [exact IH|]. intros q hv (? & s & ? & ?). split; [done|]. exists s. set_solver.
  - destruct IH as (q & ? & H). exists q. rewrite Ht in H. set_solver.
Qed.

Lemma cummulative_from_sorted value_sum agg cur rest ps l :
  sorted (pt_priority <$> cur :: rest) -> Forall (fun x => is_nan x = false) (pt_priority <$> cur :: rest) ->
  cummulative_from value_sum agg cur rest ps = Done l -> sorted (hv_value <$> l).
Proof.
  revert agg cur rest l. induction ps as [|p ps IH]; intros agg cur rest l Hs Hn; cbn [cummulative_from].
  { intros [= <-]. constructor. }
  pose proof (advance_spec (target_of value_sum p) agg cur rest) as Ha.
  destruct (advance _ _ _ _) as [[[agg' cur'] rest']|]; [|done]. destruct Ha as (_ & below & Hr & _ & _).
  apply (f_equal (fmap snd)) in Hr. rewrite fmap_app, !running_points in Hr.
  rewrite Hr, fmap_app in Hs, Hn. apply Forall_app in Hn as [_ Hn]. apply StronglySorted_app in Hs as (_ & _ & Hs).
  pose proof (cummulative_from_buckets value_sum agg' cur' rest' ps) as Hb.
  destruct (cummulative_from _ _ _ _ _) as [l'|] eqn:E; cbn [mbind outcome_bind]; [|done]. intros [= <-].
  cbn [fmap list_fmap hv_value]. constructor; [by eapply IH|]. apply Forall_fmap, Forall_forall. intros hv Hin.
  apply list_elem_of_lookup in Hin as [i Hi]. destruct (Forall2_lookup_r _ _ _ _ _ Hb Hi) as (q & _ & _ & s & Hsin & Hv & _).
  cbn. rewrite Hv. apply (list_elem_of_fmap_2 snd) in Hsin. rewrite running_points in Hsin.
  apply StronglySorted_inv in Hs as [_ Hle]. apply Forall_cons in Hn as [Hc _]. rewrite Forall_forall in Hle.
  apply elem_of_cons in Hsin as [->|Hsin]; [by apply f_le_refl|]. apply Hle. by apply (list_elem_of_fmap_2 pt_priority).
Qed.

Lemma sum_from_negative_zero x l : is_nan x = false -> f64_sum (x :: l) = foldl f64_add x l.
Proof. intros H. unfold f64_sum. cbn [foldl]. f_equal. destruct x as [[]|[]| |]; done. Qed.

(** [calculate_cummulative] of points sorted by priority, without NaN:
    every percentile [p] gets the priority of a point whose running sum of
    values is not below [p] percent of the sum of all values, and the
    priorities it gives never decrease; it panics only when the sum of all
    values is itself below [p] percent of it for some [p], which the rounding
    of [(value_sum * 100.0) / 100.0] makes possible. *)
Theorem cummulative_buckets first rest :
  is_monotonic (pt_priority <$> first :: rest) = true ->
  Forall (fun x => is_nan x = false) (pt_priority <$> first :: rest) -> is_nan (pt_value first) = false ->
  let value_sum := f64_sum (pt_value <$> first :: rest) in
  match calculate_cummulative (first :: rest) with
  | Done r =>
      sorted (pc_bucket_values r) /\
      Forall2 (fun p v => exists s, s ∈ running (pt_value first) first rest /\ v = pt_priority s.2 /\
                            f_lt s.1 (target_of value_sum p) = false) p_steps (pc_bucket_values r)
  | Panic => exists p, p ∈ p_steps /\ f_lt value_sum (target_of value_sum p) = true
  end.
Proof.
  intros Hm Hn Hv value_sum. unfold calculate_cummulative. rewrite Hm. fold value_sum.
  pose proof (cummulative_from_buckets value_sum (pt_value first) first rest p_steps) as Hb.
  destruct (cummulative_from _ _ _ _ _) as [l|] eqn:E; cbn [mbind outcome_bind pc_bucket_values].
  - split; [eapply cummulative_from_sorted; [|done..]; by apply is_monotonic_sorted|].
    apply Forall2_fmap_r. eapply Forall2_impl; [exact Hb|]. intros p hv [_ (s & Hs)]. by exists s.
  - unfold total in Hb. by rewrite <- sum_from_negative_zero in Hb.
Qed.

Lemma cummulative_buckets_witness :
  match calculate_cummulative [mkPoint (f64_of_Z 1) (f64_of_Z 10); mkPoint (f64_of_Z 2) (f64_of_Z 30)] with
  | Done r => sorted (pc_bucket_values r)
  | Panic => False
  end.
Proof.
  assert (Forall (fun x => is_nan x = false)
    (pt_priority <$> [mkPoint (f64_of_Z 1) (f64_of_Z 10); mkPoint (f64_of_Z 2) (f64_of_Z 30)])) as Hn
    by (repeat constructor).
  assert (is_monotonic
    (pt_priority <$> [mkPoint (f64_of_Z 1) (f64_of_Z 10); mkPoint (f64_of_Z 2) (f64_of_Z 30)]) = true) as Hm
    by (vm_compute; reflexivity).
  pose proof (cummulative_buckets _ _ Hm Hn eq_refl) as H.
  destruct (calculate_cummulative _) as [r|] eqn:E; [exact (proj1 H)|]. vm_compute in E. discriminate E.
Defined.

(** Such sums exist: [5/3], which is below [((5/3) * 100) / 100]. *)
Lemma cummulative_panics_on_rounding :
  calculate_cummulative [mkPoint (f64_of_Z 1) (f64_div (f64_of_Z 5) (f64_of_Z 3))] = Panic.
Proof. vm_compute. reflexivity. Qed.

(** ** Buckets hold every value *)

Lemma ceil_as_usize_range x : 0 <= ceil_as_usize x.
Proof.
  destruct x as [| [] | |[] m e]; cbn [ceil_as_usize]; unfold u64_max; try lia.
  apply Z.min_glb; [vm_compute; discriminate|]. destruct (0 <=? e) eqn:He; [apply Z.leb_le in He; nia|].
  apply Z.leb_gt in He. assert (0 < 2 ^ (- e)) by (apply Z.pow_pos_nonneg; lia). apply Z.div_pos; lia.
Qed.

Lemma fill_total min step bins bucket values :
  0 < bins -> length bucket = Z.to_nat bins -> Forall (fun n => 0 <= n) bucket ->
  list_sum bucket + Z.of_nat (length values) < u64_size ->
  exists bucket', fill min step bins bucket values = Done bucket' /\
    length bucket' = Z.to_nat bins /\ list_sum bucket' = list_sum bucket + Z.of_nat (length values).
Proof.
  intros Hb. revert bucket. induction values as [|v values IH]; intros bucket Hl Hnn Hs; cbn [fill].
  { exists bucket. cbn. split_and!; [done..|lia]. }
  set (i := Z.min _ _). assert (0 <= i < bins) as Hi.
  { unfold i. pose proof (ceil_as_usize_range (f64_div (f64_sub v min) step)). lia. }
  destruct (lookup_lt_is_Some_2 bucket (Z.to_nat i)) as [n Hn]; [lia|].
  assert (0 <= n <= list_sum bucket) as Hr.
  { rewrite Forall_forall in Hnn. apply list_elem_of_lookup_2 in Hn as Hin.
    split; [by apply Hnn|]. apply list_sum_ge; [by apply Forall_forall|done]. }
  unfold bump. rewrite Hn. cbn [unwrap mbind outcome_bind]. cbn [length] in Hs.
  assert ((n +64 1)%rpc = n + 1) as -> by (apply wrap_u64_id; unfold in_u64; lia).
  pose proof (list_sum_insert bucket _ n (n + 1) Hn) as Hsum.
  destruct (IH (<[Z.to_nat i := n + 1]> bucket)) as (b' & -> & Hl' & Hs').
  - by rewrite length_insert.
  - apply Forall_insert; [done|lia].
  - lia.
  - exists b'. split_and!; [done..|]. cbn [length]. lia.
Qed.

(** [histogram] into at least two buckets returns that many buckets, whose
    counts add up to the number of values: every value, also one the bucket
    index of which is rounded past the end or is NaN (all values equal), is
    counted once; with fewer buckets it panics. *)
Theorem histogram_counts_every_value values bins :
  Z.of_nat (length values) < u64_size ->
  match histogram values bins with
  | Done buckets => 2 <= bins /\ length buckets = Z.to_nat bins /\
      list_sum (snd <$> buckets) = Z.of_nat (length values)
  | Panic => bins < 2
  end.
Proof.
  intros Hl. unfold histogram. destruct (bins <? 2) eqn:Hb; [by apply Z.ltb_lt|]. apply Z.ltb_ge in Hb.
  edestruct (fill_total (foldl f_min f64_MAX values)) as (b & -> & Hlen & Hs); [| | | |cbn [mbind outcome_bind]].
  - lia.
  - apply length_replicate.
  - apply Forall_replicate. lia.
  - rewrite list_sum_replicate_0. lia.
  - rewrite length_imap, Hlen. split_and!; [done..|].
    replace (snd <$> imap _ b) with b; [rewrite Hs, list_sum_replicate_0; lia|].
    apply list_eq. intros i. rewrite list_lookup_fmap, list_lookup_imap. by destruct (b !! i).
Qed.

Lemma histogram_counts_every_value_witness :
  match histogram (f64_of_Z <$> [1; 2; 2; 7]) 3 with
  | Done buckets => list_sum (snd <$> buckets) = 4
  | Panic => False
  end.
Proof.
  assert (Z.of_nat (length (f64_of_Z <$> [1; 2; 2; 7])) < u64_size) as Hl by done.
  pose proof (histogram_counts_every_value (f64_of_Z <$> [1; 2; 2; 7]) 3 Hl) as H.
  destruct (histogram _ _) as [b|]; [by destruct H as (_ & _ & ->)|lia].
Defined.
