(* ===== verification/Inspect.v ===== *)
(** * Inspection of the block stream

    cluster-endpoints/src/grpc_inspect.rs: the debug task that checks that the
    commitments of every block arrive in order, and the pair of tasks that
    check that the blocks of one commitment form a chain and keep coming.  A
    warning of the log is an output of the step; the key of the maps, the text
    of the block hash, is the hash itself, and a time is a number of
    milliseconds. *)

From S2P Require Import Prelude Types.

Open Scope Z_scope.

(** What [block_notifier.recv()] returns, with the time at which it does. *)
Inductive Received :=
| RecvBlock (block : ProducedBlock) (now : Z)
| RecvLagged (missed_blocks : Z)
| RecvClosed.

(** ** The sequence of commitments *)

(** The warnings the task on the sequence of commitments writes. *)
Inductive Warning :=
| SameProcessedTwice (slot : Slot) (blockhash : Hash) (saw_at : Z)
| SameConfirmedTwice (blockhash : Hash) (saw_at : Z)
| SameFinalizedTwice (slot : Slot) (saw_at : Z)
| ConfirmedWithoutProcessed (blockhash : Hash)
| ConfirmedAfterFinalized (blockhash : Hash)
| ProcessedAfterConfirmed (blockhash : Hash)
| ProcessedAfterFinalized (blockhash : Hash)
| FinalizedWithoutProcessed (blockhash : Hash)
| FinalizedWithoutConfirmed (blockhash : Hash)
| MissedBlocks (missed_blocks : Z).

Abbreviation seen_map := (gmap Hash (Slot * Z)).

(** The variables of the task, cluster-endpoints/src/grpc_inspect.rs:20-26;
    [ins_running] is false after the loop is left. *)
Record Inspector := mkInspector {
  cleanup_before_slot : Slot;
  slots_since_last_cleanup : Z;
  saw_processed_at : seen_map;
  saw_confirmed_at : seen_map;
  saw_finalized_at : seen_map;
  ins_running : bool;
}.

Definition inspector_new : Inspector := mkInspector 0 0 ∅ ∅ ∅ true.

Definition contains_key (m : seen_map) (blockhash : Hash) : bool := bool_decide (is_Some (m !! blockhash)).

Definition warn_if (c : bool) (w : Warning) : list Warning := if c then [w] else [].

Definition warn_prev (prev : option (Slot * Z)) (w : Z -> Warning) : list Warning :=
  match prev with None => [] | Some (_, at_) => [w at_] end.

(** The insertions, [debugtask_blockstream_confirmation_sequence],
    cluster-endpoints/src/grpc_inspect.rs:43-94. *)
Definition record_block (s : Inspector) (c : CommitmentConfig) (slot : Slot) (blockhash : Hash) (now : Z) :
    Inspector * list Warning :=
  let '(mkInspector before since p f z r) := s in
  let w1 := if is_processed c then warn_prev (p !! blockhash) (SameProcessedTwice slot blockhash) else [] in
  let p := if is_processed c then <[blockhash := (slot, now)]> p else p in
  let w2 := if is_confirmed c then warn_prev (f !! blockhash) (SameConfirmedTwice blockhash) else [] in
  let f := if is_confirmed c then <[blockhash := (slot, now)]> f else f in
  let w3 := if is_finalized c then warn_prev (z !! blockhash) (SameFinalizedTwice slot) else [] in
  let z := if is_finalized c then <[blockhash := (slot, now)]> z else z in
  (mkInspector before since p f z r, w1 ++ w2 ++ w3).

(** The rules, [debugtask_blockstream_confirmation_sequence],
    cluster-endpoints/src/grpc_inspect.rs:96-159. *)
Definition check_rules (s : Inspector) (c : CommitmentConfig) (blockhash : Hash) : list Warning :=
  (if is_confirmed c then
     warn_if (negb (contains_key (saw_processed_at s) blockhash)) (ConfirmedWithoutProcessed blockhash) ++
     warn_if (contains_key (saw_finalized_at s) blockhash) (ConfirmedAfterFinalized blockhash)
   else []) ++
  (if is_processed c then
     warn_if (contains_key (saw_confirmed_at s) blockhash) (ProcessedAfterConfirmed blockhash) ++
     warn_if (contains_key (saw_finalized_at s) blockhash) (ProcessedAfterFinalized blockhash)
   else []) ++
  (if is_finalized c then
     warn_if (negb (contains_key (saw_processed_at s) blockhash)) (FinalizedWithoutProcessed blockhash) ++
     warn_if (negb (contains_key (saw_confirmed_at s) blockhash)) (FinalizedWithoutConfirmed blockhash)
   else []).

Definition retain_from (bound : Slot) (m : seen_map) : seen_map := filter (fun e => bound <= e.2.1) m.

(** The cleanup, [debugtask_blockstream_confirmation_sequence],
    cluster-endpoints/src/grpc_inspect.rs:161-180. *)
Definition cleanup (s : Inspector) (slot : Slot) : Inspector :=
  let '(mkInspector before since p f z r) := s in
  if since <? 500 then mkInspector before (since + 1) p f z r
  else mkInspector (wrap_u64 (slot - 200)) 0 (retain_from before p) (retain_from before f) (retain_from before z) r.

(** [debugtask_blockstream_confirmation_sequence], cluster-endpoints/src/grpc_inspect.rs:16-196. *)
Definition confirmation_sequence_step (s : Inspector) (e : Received) : Inspector * list Warning :=
  if negb (ins_running s) then (s, [])
  else
    match e with
    | RecvBlock block now =>
        let slot := pb_slot (pb_inner block) in
        let blockhash := pb_blockhash (pb_inner block) in
        if slot <? cleanup_before_slot s then (s, [])
        else
          let '(s, w) := record_block s (pb_commitment_config block) slot blockhash now in
          (cleanup s slot, w ++ check_rules s (pb_commitment_config block) blockhash)
    | RecvLagged missed_blocks => (s, [MissedBlocks missed_blocks])
    | RecvClosed =>
        let '(mkInspector before since p f z _) := s in (mkInspector before since p f z false, [])
    end.

(** ** The progression of the slots *)

(** The warnings the tasks on the progression of the slots write. *)
Inductive ProgressionWarning :=
| NoRecentBlocks (seconds : Z) (latest_slot : Slot)
| ParentNotCorrect (slot parent_slot last_highest_slot_number : Slot)
| OutOfOrder (slot last_highest_slot_number : Slot)
| ParentBlockhashNotCorrect (slot : Slot) (blockhash previous_blockhash last_blockhash : Hash)
| ProgressionMissed (missed_blocks : Z).

(** The receiving task; [last_slot_seen] is the number it shares with the
    other one. *)
Record Progression := mkProgression {
  last_highest_slot_number : Slot;
  last_blockhash : option Hash;
  last_slot_seen : Slot;
  pr_running : bool;
}.

Definition progression_new : Progression := mkProgression 0 None 0 true.

(** The receiving task, [debugtask_blockstream_slot_progression],
    cluster-endpoints/src/grpc_inspect.rs:237-310. *)
Definition slot_progression_step (commitment_config : CommitmentConfig) (s : Progression) (e : Received) :
    Progression * list ProgressionWarning :=
  let '(mkProgression highest last_hash seen running) := s in
  if negb running then (s, [])
  else
    match e with
    | RecvBlock block _ =>
        let b := pb_inner block in
        if bool_decide (pb_commitment_config block <> commitment_config) then (s, [])
        else
          let w1 := if negb (highest =? 0) && negb (pb_parent_slot b =? highest)
                    then [ParentNotCorrect (pb_slot b) (pb_parent_slot b) highest] else [] in
          let w2 := if highest <? pb_slot b then [] else [OutOfOrder (pb_slot b) highest] in
          let highest := if highest <? pb_slot b then pb_slot b else highest in
          let w3 := match last_hash with
                    | Some h => if pb_previous_blockhash b =? h then []
                                else [ParentBlockhashNotCorrect (pb_slot b) (pb_blockhash b) (pb_previous_blockhash b) h]
                    | None => []
                    end in
          (mkProgression highest (Some (pb_blockhash b)) (pb_slot b) true, w1 ++ w2 ++ w3)
    | RecvLagged missed_blocks => (s, [ProgressionMissed missed_blocks])
    | RecvClosed => (mkProgression highest last_hash seen false, [])
    end.

(** [WARNING_THRESHOLD]. *)
Definition WARNING_THRESHOLD : Z := 10000.

Record Watcher := mkWatcher { w_prev_slot : Slot; w_last_changed_at : Z }.

(** One iteration of the watching task at time [now], which reads
    [latest_slot], [debugtask_blockstream_slot_progression],
    cluster-endpoints/src/grpc_inspect.rs:202-235; it returns for how long it
    sleeps. *)
Definition watcher_step (s : Watcher) (latest_slot : Slot) (now : Z) : Watcher * list ProgressionWarning * Z :=
  let '(mkWatcher prev_slot last_changed_at) := s in
  if prev_slot =? 0 then (mkWatcher latest_slot last_changed_at, [], 1000)
  else if negb (latest_slot =? prev_slot) then (mkWatcher latest_slot now, [], 5000)
  else
    let elapsed := now - last_changed_at in
    (mkWatcher latest_slot last_changed_at,
     if WARNING_THRESHOLD <? elapsed then [NoRecentBlocks (elapsed / 1000) latest_slot] else [], 5000).

(** ** The inspection is exact *)

Definition block_hash (b : ProducedBlock) : Hash := pb_blockhash (pb_inner b).
Definition block_level (b : ProducedBlock) : CommitmentLevel := cc_commitment (pb_commitment_config b).
Definition inner_slot (b : ProducedBlock) : Slot := pb_slot (pb_inner b).

(** The blocks of a sequence of events. *)
Definition received (es : list Received) : list ProducedBlock :=
  omap (fun e => match e with RecvBlock b _ => Some b | _ => None end) es.

(** A block of the given hash and commitment is among those received. *)
Definition seen (bs : list ProducedBlock) (l : CommitmentLevel) (h : Hash) : bool :=
  existsb (fun b => bool_decide (block_level b = l) && (block_hash b =? h)) bs.

(** A block comes in order after [bs]: once at every commitment, processed
    first, then confirmed, then finalized. *)
Definition in_order (bs : list ProducedBlock) (b : ProducedBlock) : bool :=
  let saw l := seen bs l (block_hash b) in
  match block_level b with
  | ClProcessed => negb (saw ClProcessed) && negb (saw ClConfirmed) && negb (saw ClFinalized)
  | ClConfirmed => saw ClProcessed && negb (saw ClConfirmed) && negb (saw ClFinalized)
  | ClFinalized => saw ClProcessed && saw ClConfirmed && negb (saw ClFinalized)
  end.

(** The cleanup point never moves back in the run. *)
Fixpoint cleanup_grows (s : Inspector) (es : list Received) : bool :=
  match es with
  | [] => true
  | e :: es =>
      let s' := (confirmation_sequence_step s e).1 in
      (cleanup_before_slot s <=? cleanup_before_slot s') && cleanup_grows s' es
  end.

(** A block hash names one slot. *)
Definition hashes_name_slots (bs : list ProducedBlock) : Prop :=
  forall b b', b ∈ bs -> b' ∈ bs -> block_hash b = block_hash b' -> inner_slot b = inner_slot b'.

Definition not_closed (e : Received) : Prop := match e with RecvClosed => False | _ => True end.

Definition saw_at (s : Inspector) (l : CommitmentLevel) : seen_map :=
  match l with ClProcessed => saw_processed_at s | ClConfirmed => saw_confirmed_at s | ClFinalized => saw_finalized_at s end.

Lemma seen_spec bs l h : seen bs l h = true <-> exists b, b ∈ bs /\ block_level b = l /\ block_hash b = h.
Proof.
  unfold seen. rewrite existsb_exists. split; intros (b & Hin & Hb); exists b.
  - apply andb_true_iff in Hb as [?%bool_decide_eq_true ?%Z.eqb_eq]. split_and!; [by apply list_elem_of_In|done..].
  - split; [by apply list_elem_of_In|]. destruct Hb as [? ?]. apply andb_true_iff.
    split; [by apply bool_decide_eq_true|by apply Z.eqb_eq].
Qed.

(** The warnings of an accepted block, by what the maps hold for its hash. *)
Lemma accepted_silent s b now :
  ins_running s = true -> cleanup_before_slot s <= inner_slot b ->
  (confirmation_sequence_step s (RecvBlock b now)).2 = [] <->
  let saw l := contains_key (saw_at s l) (block_hash b) in
  match block_level b with
  | ClProcessed => negb (saw ClProcessed) && negb (saw ClConfirmed) && negb (saw ClFinalized)
  | ClConfirmed => saw ClProcessed && negb (saw ClConfirmed) && negb (saw ClFinalized)
  | ClFinalized => saw ClProcessed && saw ClConfirmed && negb (saw ClFinalized)
  end = true.
Proof.
  intros Hr Hs. destruct s as [before since p f z r]. cbn in Hr, Hs. subst r.
  destruct b as [i [l]]. unfold inner_slot in Hs. cbn in Hs.
  unfold confirmation_sequence_step. cbn [ins_running negb cleanup_before_slot pb_inner pb_commitment_config].
  rewrite (proj2 (Z.ltb_ge _ _) Hs). unfold block_level, block_hash, contains_key.
  destruct l; cbn; rewrite ?lookup_insert_eq; unfold contains_key; cbn;
    destruct (p !! _) as [[]|], (f !! _) as [[]|], (z !! _) as [[]|]; cbn; done.
Qed.

(** What a step does to the three maps. *)
Lemma saw_at_step s e l h x :
  saw_at (confirmation_sequence_step s e).1 l !! h = Some x ->
  saw_at s l !! h = Some x \/
  exists b now, e = RecvBlock b now /\ block_level b = l /\ block_hash b = h /\ x = (inner_slot b, now).
Proof.
  unfold confirmation_sequence_step. destruct (ins_running s); cbn [negb]; [|by left].
  destruct e as [b now| |]; [|by left|destruct s, l; by left].
  destruct (_ <? _); [by left|]. destruct s as [before since p f z r], b as [i [lb]].
  unfold record_block, cleanup, retain_from, block_level, block_hash, inner_slot.
  destruct lb, l; cbn; destruct (since <? 500); cbn; rewrite ?map_lookup_filter_Some;
    rewrite ?lookup_insert_Some; naive_solver.
Qed.

(** A step keeps the entries that are not before the cleanup point. *)
Lemma saw_at_kept s e l h x :
  saw_at s l !! h = Some x -> cleanup_before_slot s <= x.1 ->
  (forall b now, e = RecvBlock b now -> block_hash b = h -> inner_slot b = x.1) ->
  exists t, saw_at (confirmation_sequence_step s e).1 l !! h = Some (x.1, t).
Proof.
  intros Hx Hle He. destruct x as [sl t]. cbn in *.
  unfold confirmation_sequence_step. destruct (ins_running s); cbn [negb]; [|eauto].
  destruct e as [b now| |]; [|eauto|destruct s, l; eauto].
  destruct (_ <? _); [eauto|]. specialize (He b now eq_refl).
  destruct s as [before since p f z r], b as [i [lb]]. unfold block_hash, inner_slot in He. cbn in He, Hle.
  unfold record_block, cleanup, retain_from.
  destruct lb, l; cbn in *; destruct (since <? 500); cbn;
    destruct (decide (pb_blockhash i = h)) as [Hh|Hh]; try specialize (He Hh);
    [eexists; rewrite ?map_lookup_filter_Some, ?lookup_insert_Some; naive_solver..].
Qed.

Lemma saw_at_inserted s b now :
  ins_running s = true -> cleanup_before_slot s <= inner_slot b ->
  saw_at (confirmation_sequence_step s (RecvBlock b now)).1 (block_level b) !! block_hash b = Some (inner_slot b, now).
Proof.
  intros Hr Hs. destruct s as [before since p f z r]. cbn in Hr, Hs. subst r.
  destruct b as [i [l]]. unfold inner_slot, block_hash, block_level in *. cbn in *.
  unfold confirmation_sequence_step. cbn [ins_running negb cleanup_before_slot pb_inner pb_commitment_config].
  rewrite (proj2 (Z.ltb_ge _ _) Hs). unfold retain_from.
  destruct l; cbn; destruct (since <? 500); cbn;
    rewrite ?map_lookup_filter_Some, lookup_insert_eq; naive_solver.
Qed.

Lemma step_running s e :
  not_closed e -> ins_running s = true -> ins_running (confirmation_sequence_step s e).1 = true.
Proof.
  intros He Hr. unfold confirmation_sequence_step. rewrite Hr. destruct e as [b now| |]; [|done..].
  cbn [negb]. destruct (_ <? _); [done|]. destruct s. cbn in *. by destruct (_ <? 500).
Qed.

(** The maps hold blocks that were received, and every received block that is
    not before the cleanup point. *)
Definition inspected (bs : list ProducedBlock) (s : Inspector) : Prop :=
  ins_running s = true /\
  (forall l h x, saw_at s l !! h = Some x ->
     exists b, b ∈ bs /\ block_level b = l /\ block_hash b = h /\ inner_slot b = x.1) /\
  (forall b, b ∈ bs -> cleanup_before_slot s <= inner_slot b -> is_Some (saw_at s (block_level b) !! block_hash b)).

Lemma received_snoc es e : received (es ++ [e]) = received es ++ received [e].
Proof. apply omap_app. Qed.

Lemma inspected_step bs s e :
  inspected bs s -> not_closed e -> hashes_name_slots (bs ++ received [e]) ->
  cleanup_before_slot s <= cleanup_before_slot (confirmation_sequence_step s e).1 ->
  inspected (bs ++ received [e]) (confirmation_sequence_step s e).1.
Proof.
  intros (Hr & Hfrom & Hall) He Hslots Hgrow. split_and!.
  - by apply step_running.
  - intros l h x [Hx|(b & now & -> & Hb)]%saw_at_step.
    + destruct (Hfrom l h x Hx) as (b & Hin & Hb). exists b. set_solver.
    + exists b. destruct Hb as (? & ? & ->). set_solver.
  - intros b [Hin|Hin]%elem_of_app Hle.
    + destruct (Hall b Hin) as [x Hx]; [lia|]. destruct (Hfrom _ _ _ Hx) as (b1 & Hin1 & _ & Hh & Hsl).
      assert (inner_slot b = x.1) as Hbx by (rewrite <- Hsl; apply Hslots; set_solver).
      destruct (saw_at_kept s e (block_level b) (block_hash b) x) as [t Ht]; [done|lia| |by eexists].
      intros b2 now -> Hh2. rewrite <- Hbx. apply Hslots; cbn; [set_solver..|done].
    + destruct e as [b' now| |]; cbn in Hin; [|set_solver..]. apply list_elem_of_singleton in Hin as ->.
      rewrite saw_at_inserted; [by eexists|done|lia].
Qed.

Lemma hashes_name_slots_app bs1 bs2 : hashes_name_slots (bs1 ++ bs2) -> hashes_name_slots bs1.
Proof. intros H b b' ? ?. apply H; set_solver. Qed.

Lemma inspected_run es s bs :
  inspected bs s -> Forall not_closed es -> hashes_name_slots (bs ++ received es) -> cleanup_grows s es = true ->
  inspected (bs ++ received es) (run confirmation_sequence_step s es).1.
Proof.
  revert s bs. induction es as [|e es IH]; intros s bs Hi Hc Hslots Hg; [by rewrite app_nil_r|].
  apply Forall_cons in Hc as [He Hc]. cbn [cleanup_grows] in Hg. apply andb_true_iff in Hg as [Hle%Z.leb_le Hg].
  assert (received (e :: es) = received [e] ++ received es) as Heq by apply (omap_app _ [e] es).
  rewrite Heq, app_assoc in Hslots |- *. apply hashes_name_slots_app in Hslots as Hslots1.
  apply (inspected_step bs s e) in Hi; [|done..]. cbn [run].
  destruct (confirmation_sequence_step s e) as [s1 o1]. specialize (IH s1 _ Hi Hc Hslots Hg).
  by destruct (run _ s1 es).
Qed.

Lemma inspected_seen bs s b l :
  inspected bs s -> hashes_name_slots (bs ++ [b]) -> cleanup_before_slot s <= inner_slot b ->
  contains_key (saw_at s l) (block_hash b) = seen bs l (block_hash b).
Proof.
  intros (_ & Hfrom & Hall) Hslots Hle. apply eq_true_iff_eq. rewrite seen_spec. unfold contains_key.
  rewrite bool_decide_eq_true. split.
  - intros [x Hx]. destruct (Hfrom _ _ _ Hx) as (b1 & ? & ? & ? & ?). eauto.
  - intros (b1 & Hin & <- & Hh). rewrite <- Hh. apply Hall; [done|].
    assert (inner_slot b1 = inner_slot b) by (apply Hslots; set_solver). lia.
Qed.

(** The task that checks the sequence of commitments is exact: as long as
    its cleanup point does not move back and a block hash names one slot, it
    logs nothing for a block exactly when the block is older than the cleanup
    point or comes in order, that is for the first time at its commitment,
    after the lower commitments and before the higher ones, with respect to
    everything the task received. *)
Theorem confirmation_sequence_exact (es : list Received) (b : ProducedBlock) (now : Z) :
  Forall not_closed es -> hashes_name_slots (received es ++ [b]) -> cleanup_grows inspector_new es = true ->
  let s := (run confirmation_sequence_step inspector_new es).1 in
  (confirmation_sequence_step s (RecvBlock b now)).2 = [] <->
  inner_slot b < cleanup_before_slot s \/ in_order (received es) b = true.
Proof.
  intros Hc Hslots Hg s. assert (inspected (received es) s) as Hi.
  { apply (inspected_run es inspector_new []); [|done|by eapply hashes_name_slots_app|done].
    split_and!; [done| |set_solver]. intros l h x. destruct l; cbn; by rewrite lookup_empty. }
  destruct (decide (inner_slot b < cleanup_before_slot s)) as [Hlt|Hge].
  - split; [by left|intros _]. unfold confirmation_sequence_step. rewrite (proj1 Hi). cbn [negb].
    unfold inner_slot in Hlt. by rewrite (proj2 (Z.ltb_lt _ _) Hlt).
  - rewrite accepted_silent by (first [apply Hi|lia]). cbv zeta. unfold in_order.
    rewrite !(inspected_seen (received es)) by (done || lia). split; [by right|by intros [?|?]].
Qed.

(** A block with the given slot, hash, parent and commitment. *)
Definition inspect_block (slot hash parent_slot previous_hash : Z) (c : CommitmentConfig) : ProducedBlock :=
  mkProducedBlock (mkProducedBlockInner [] None hash slot slot parent_slot 0 previous_hash None) c.

Lemma confirmation_sequence_exact_witness :
  let es := [RecvBlock (inspect_block 7 70 6 60 cc_processed) 1; RecvLagged 2;
             RecvBlock (inspect_block 7 70 6 60 cc_confirmed) 3] in
  let s := (run confirmation_sequence_step inspector_new es).1 in
  (confirmation_sequence_step s (RecvBlock (inspect_block 7 70 6 60 cc_finalized) 4)).2 = [].
Proof.
  cbv zeta. apply confirmation_sequence_exact.
  - repeat constructor.
  - intros b b'. cbn. intros Hb Hb' _.
    repeat (apply elem_of_cons in Hb as [->|Hb]; [|]); [..|by apply not_elem_of_nil in Hb];
    repeat (apply elem_of_cons in Hb' as [->|Hb']; [reflexivity|]); by apply not_elem_of_nil in Hb'.
  - vm_compute. reflexivity.
  - right. vm_compute. reflexivity.
Defined.

(** The cleanup point may move back, and then a block in order is reported:
    its processed version came before the point, its confirmed one after. *)
Lemma cleanup_back_false_warning :
  let p slot := RecvBlock (inspect_block slot slot (slot - 1) (slot - 1) cc_processed) 0 in
  let es := replicate 500 (RecvBlock (inspect_block 1000 1000 999 999 cc_processed) 0) ++ [p 1200] ++ [p 990] ++
            replicate 500 (RecvBlock (inspect_block 1001 1001 1000 1000 cc_processed) 0) ++ [p 1002] in
  let s := (run confirmation_sequence_step inspector_new es).1 in
  let b := inspect_block 990 990 989 989 cc_confirmed in
  in_order (received es) b = true /\
  (confirmation_sequence_step s (RecvBlock b 0)).2 = [ConfirmedWithoutProcessed 990].
Proof. split; vm_compute; reflexivity. Qed.

Lemma cleanup_wraps s b now :
  ins_running s = true -> cleanup_before_slot s <= inner_slot b -> slots_since_last_cleanup s = 500 ->
  cleanup_before_slot (confirmation_sequence_step s (RecvBlock b now)).1 = wrap_u64 (inner_slot b - 200).
Proof.
  intros Hr Hs Hn. destruct s as [before since p f z r]. cbn in Hr, Hs, Hn. subst r since.
  unfold confirmation_sequence_step, inner_slot in *. cbn [ins_running negb cleanup_before_slot].
  by rewrite (proj2 (Z.ltb_ge _ _) Hs).
Qed.

Lemma since_counts es s :
  ins_running s = true -> cleanup_before_slot s = 0 -> 0 <= slots_since_last_cleanup s ->
  slots_since_last_cleanup s + Z.of_nat (length es) <= 500 ->
  Forall (fun e => match e with RecvBlock b _ => 0 <= inner_slot b | _ => False end) es ->
  let s' := (run confirmation_sequence_step s es).1 in
  ins_running s' = true /\ cleanup_before_slot s' = 0 /\
  slots_since_last_cleanup s' = slots_since_last_cleanup s + Z.of_nat (length es).
Proof.
  revert s. induction es as [|e es IH]; intros s Hr Hb Hn Hl He; [cbn; split_and!; [done..|lia]|].
  apply Forall_cons in He as [He Hes]. destruct e as [b now| |]; [|done..]. cbn [length run] in *.
  assert (exists s1 o, confirmation_sequence_step s (RecvBlock b now) = (s1, o) /\ ins_running s1 = true /\
    cleanup_before_slot s1 = 0 /\ slots_since_last_cleanup s1 = slots_since_last_cleanup s + 1) as (s1 & o & -> & Hr1 & Hb1 & Hn1).
  { destruct s as [before since p f z r]. cbn in Hr, Hb, Hn, Hl. subst r before.
    unfold confirmation_sequence_step, inner_slot in *. cbn [ins_running negb cleanup_before_slot].
    rewrite (proj2 (Z.ltb_ge _ _) He). cbn. assert (since <? 500 = true) as -> by (apply Z.ltb_lt; lia).
    do 2 eexists. done. }
  specialize (IH s1 Hr1 Hb1). destruct IH as (? & ? & IH); [lia|lia|done|].
  destruct (run _ s1 es). cbn in *. split_and!; [done..|lia].
Qed.

Lemma ignored_run s es :
  Forall (fun e => match e with RecvBlock b _ => inner_slot b < cleanup_before_slot s | _ => False end) es ->
  run confirmation_sequence_step s es = (s, []).
Proof.
  induction 1 as [|e es He Hes IH]; [done|]. destruct e as [b now| |]; [|done..]. cbn [run].
  assert (confirmation_sequence_step s (RecvBlock b now) = (s, [])) as ->; [|by rewrite IH].
  unfold confirmation_sequence_step. destruct (ins_running s); [|done]. cbn [negb].
  unfold inner_slot in He. by rewrite (proj2 (Z.ltb_lt _ _) He).
Qed.

(** On a young cluster the task goes blind: when its 501st block has a slot
    below 200, [slot - 200] wraps around, and from then on it ignores every
    block (whose slot is below [2^64 - 200]) and logs nothing, whatever comes. *)
Theorem inspector_blind_on_young_cluster (es es' : list Received) (b : ProducedBlock) (now : Z) :
  length es = 500%nat -> 0 <= inner_slot b < 200 ->
  Forall (fun e => match e with RecvBlock b _ => 0 <= inner_slot b | _ => False end) es ->
  Forall (fun e => match e with RecvBlock b _ => inner_slot b < u64_size - 200 | _ => False end) es' ->
  (run confirmation_sequence_step (run confirmation_sequence_step inspector_new (es ++ [RecvBlock b now])).1 es').2 = [].
Proof.
  intros Hl Hb Hes Hes'. rewrite run_app.
  destruct (since_counts es inspector_new) as (Hr & Hc & Hn); [done..|cbn; lia|cbn; lia|done|].
  set (s := (run confirmation_sequence_step inspector_new es).1) in *. cbn [run fst].
  assert (cleanup_before_slot (confirmation_sequence_step s (RecvBlock b now)).1 = wrap_u64 (inner_slot b - 200)) as Hw
    by (apply cleanup_wraps; [done|lia|rewrite Hn; cbn; lia]).
  destruct (confirmation_sequence_step s (RecvBlock b now)) as [s1 o1]. cbn in Hw |- *.
  rewrite ignored_run; [done|]. eapply Forall_impl; [exact Hes'|]. intros [] H; [|done..]. cbn in H. rewrite Hw.
  assert (wrap_u64 (inner_slot b - 200) = inner_slot b - 200 + u64_size) as ->; [|lia].
  unfold wrap_u64. symmetry. apply (Z.mod_unique _ _ (-1)); [left; unfold u64_size; lia|lia].
Qed.

Lemma inspector_blind_on_young_cluster_witness :
  (run confirmation_sequence_step
     (run confirmation_sequence_step inspector_new
        (replicate 500 (RecvBlock (inspect_block 3 30 2 20 cc_processed) 0) ++
         [RecvBlock (inspect_block 167 1670 166 1660 cc_processed) 1])).1
     [RecvBlock (inspect_block 300 9 299 8 cc_finalized) 2]).2 = [].
Proof.
  apply inspector_blind_on_young_cluster; [reflexivity|cbn; lia| |].
  - apply Forall_replicate. cbn. lia.
  - repeat constructor.
Defined.

(** ** The blocks of one commitment form a chain *)

Definition follows (prev b : ProducedBlock) : bool :=
  (pb_parent_slot (pb_inner b) =? inner_slot prev) && (inner_slot prev <? inner_slot b) &&
  (pb_previous_blockhash (pb_inner b) =? block_hash prev).

Fixpoint chain_from (prev : ProducedBlock) (bs : list ProducedBlock) : bool :=
  match bs with [] => true | b :: bs => follows prev b && chain_from b bs end.

Definition chained (bs : list ProducedBlock) : bool :=
  match bs with [] => true | b :: bs => (0 <? inner_slot b) && chain_from b bs end.

(** The blocks of one commitment that were received. *)
Definition received_at (c : CommitmentConfig) (es : list Received) : list ProducedBlock :=
  filter (fun b => pb_commitment_config b = c) (received es).

Definition is_block (e : Received) : Prop := match e with RecvBlock _ _ => True | _ => False end.

(** The state after a chain that ends with [b]. *)
Definition after_block (b : ProducedBlock) : Progression :=
  mkProgression (inner_slot b) (Some (block_hash b)) (inner_slot b) true.

Lemma progression_other c s b now :
  pb_commitment_config b <> c -> slot_progression_step c s (RecvBlock b now) = (s, []).
Proof. intros H. destruct s as [? ? ? []]; cbn; [|done]. by rewrite bool_decide_true. Qed.

Lemma progression_follows c prev b now :
  pb_commitment_config b = c -> 0 < inner_slot prev ->
  if follows prev b then slot_progression_step c (after_block prev) (RecvBlock b now) = (after_block b, [])
  else (slot_progression_step c (after_block prev) (RecvBlock b now)).2 <> [].
Proof.
  intros <- Hp. unfold follows, after_block, slot_progression_step, inner_slot, block_hash in *. cbn [negb].
  rewrite bool_decide_false by naive_solver.
  assert (pb_slot (pb_inner prev) =? 0 = false) as -> by (apply Z.eqb_neq; lia).
  destruct (_ =? _) eqn:E1, (_ <? _) eqn:E2, (_ =? pb_blockhash _) eqn:E3; cbn; done.
Qed.

Lemma progression_first c b now :
  pb_commitment_config b = c ->
  if 0 <? inner_slot b then slot_progression_step c progression_new (RecvBlock b now) = (after_block b, [])
  else (slot_progression_step c progression_new (RecvBlock b now)).2 <> [].
Proof.
  intros <-. unfold progression_new, after_block, slot_progression_step, inner_slot, block_hash in *. cbn [negb].
  rewrite bool_decide_false by naive_solver. by destruct (0 <? _) eqn:E2.
Qed.

Lemma received_at_cons c b now es :
  received_at c (RecvBlock b now :: es) =
  if decide (pb_commitment_config b = c) then b :: received_at c es else received_at c es.
Proof. unfold received_at. change (received (RecvBlock b now :: es)) with (b :: received es). by rewrite filter_cons. Qed.

Lemma run_silent_cons {S E O} (step : S -> E -> S * list O) s e es :
  (run step s (e :: es)).2 = [] <-> (step s e).2 = [] /\ (run step (step s e).1 es).2 = [].
Proof.
  cbn. destruct (step s e) as [s1 o1]. cbn. destruct (run step s1 es) as [s2 o2]. cbn. apply app_nil.
Qed.

Lemma progression_from c prev es :
  0 < inner_slot prev -> Forall is_block es ->
  (run (slot_progression_step c) (after_block prev) es).2 = [] <-> chain_from prev (received_at c es) = true.
Proof.
  intros Hp Hes. revert prev Hp. induction Hes as [|e es He Hes IH]; intros prev Hp; [done|].
  destruct e as [b now| |]; [|done..]. rewrite run_silent_cons, received_at_cons. case_decide as Hc.
  - pose proof (progression_follows c prev b now Hc Hp) as Hf. cbn [chain_from].
    destruct (follows prev b) eqn:E; cbn [andb].
    + rewrite Hf. cbn [fst snd]. rewrite IH; [naive_solver|].
      unfold follows in E. apply andb_true_iff in E as [[_ E%Z.ltb_lt]%andb_true_iff _]. lia.
    + naive_solver.
  - rewrite progression_other by done. cbn. rewrite IH; naive_solver.
Qed.

(** The task that checks the progression of a commitment logs nothing
    exactly when the blocks of that commitment form a chain: every block's
    parent slot and previous hash are the slot and hash of the block before it,
    and the slots grow, starting above zero. *)
Theorem slot_progression_exact (c : CommitmentConfig) (es : list Received) :
  Forall is_block es ->
  (run (slot_progression_step c) progression_new es).2 = [] <-> chained (received_at c es) = true.
Proof.
  induction 1 as [|e es He Hes IH]; [done|]. destruct e as [b now| |]; [|done..].
  rewrite run_silent_cons, received_at_cons. case_decide as Hc.
  - pose proof (progression_first c b now Hc) as Hf. cbn [chained].
    destruct (0 <? inner_slot b) eqn:E; cbn [andb]; [|naive_solver].
    rewrite Hf. cbn [fst snd]. apply Z.ltb_lt in E. rewrite progression_from by done. naive_solver.
  - rewrite progression_other by done. cbn [fst snd]. naive_solver.
Qed.

Lemma slot_progression_exact_witness :
  (run (slot_progression_step cc_confirmed) progression_new
     [RecvBlock (inspect_block 7 70 6 60 cc_confirmed) 0; RecvBlock (inspect_block 9 9 8 8 cc_processed) 0;
      RecvBlock (inspect_block 9 90 7 70 cc_confirmed) 0]).2 = [].
Proof. apply slot_progression_exact; [by repeat constructor|]. vm_compute. reflexivity. Defined.

(** ** The watching task *)

(** The iterations that read the given slots at the given times. *)
Fixpoint watch (s : Watcher) (obs : list (Slot * Z)) : list ProgressionWarning :=
  match obs with
  | [] => []
  | (latest_slot, now) :: obs => let '(s, w, _) := watcher_step s latest_slot now in w ++ watch s obs
  end.

(** The alarm is raised at every iteration that finds the same slot more than
    ten seconds after the last change, until the slot changes. *)
Lemma watch_stale slot changed obs :
  slot <> 0 -> Forall (fun o => o.1 = slot) obs ->
  watch (mkWatcher slot changed) obs =
  omap (fun o => if WARNING_THRESHOLD <? o.2 - changed then Some (NoRecentBlocks ((o.2 - changed) / 1000) slot) else None) obs.
Proof.
  intros Hs. induction 1 as [|[sl now] obs Hsl Hobs IH]; [done|]. cbn in Hsl. subst sl. cbn [watch watcher_step].
  rewrite (proj2 (Z.eqb_neq _ _) Hs), Z.eqb_refl. cbn [negb]. rewrite IH. cbn. by destruct (_ <? _).
Qed.

(** The time of the last change is not set when the first slot is read: a
    stream whose first block comes late raises a false alarm one second after
    that block. *)
Lemma watch_false_alarm slot started first :
  slot <> 0 -> WARNING_THRESHOLD < first + 1000 - started ->
  watch (mkWatcher 0 started) [(0, started); (slot, first); (slot, first + 1000)] =
  [NoRecentBlocks ((first + 1000 - started) / 1000) slot].
Proof.
  intros Hs Ht. cbn. rewrite (proj2 (Z.eqb_neq _ _) Hs). cbn. rewrite Z.eqb_refl. cbn.
  by rewrite (proj2 (Z.ltb_lt _ _) Ht).
Qed.
