(* ===== verification/Metrics.v ===== *)
(** * Metrics of the benchmarks

    bench/src/metrics.rs, the counting of bench/src/benches/confirmation_rate.rs
    and the sizes of bench/src/tx_size.rs.  A duration is a number of
    nanoseconds. *)

From Stdlib Require Import SpecFloat.
From S2P Require Import Prelude Types Floats.

Open Scope string_scope.
Open Scope list_scope.
Open Scope Z_scope.

(** ** Durations *)

Definition as_millis (d : Z) : Z := d / 1000000.
Definition as_micros (d : Z) : Z := d / 1000.
Definition from_secs (s : Z) : Z := s * 1000000000.
Definition from_millis (ms : Z) : Z := ms * 1000000.
Definition from_micros (us : Z) : Z := us * 1000.

(** [Duration::as_secs_f32] of the standard library: whole seconds plus the
    fraction, each rounded. *)
Definition as_secs_f32 (d : Z) : f32 :=
  f32_add (f32_of_Z (d / 1000000000)) (f32_div (f32_of_Z (d mod 1000000000)) (f32_of_Z 1000000000)).

Definition f_zero : spec_float := S754_zero false.

(** ** Metric of a run *)

(** [Metric], bench/src/metrics.rs:12-30. *)
Record Metric := mkMetric {
  txs_sent : Z;
  txs_confirmed : Z;
  txs_un_confirmed : Z;
  average_confirmation_time_ms : f64;
  average_time_to_send_txs : f64;
  average_transaction_bytes : f64;
  send_tps : f64;
  total_sent_time : Z;
  total_transaction_bytes : Z;
  total_confirmation_time : Z;
  total_gross_send_time_ms : f64;
}.

Definition metric_default : Metric := mkMetric 0 0 0 f_zero f_zero f_zero f_zero 0 0 0 f_zero.

(** [Metric::add_successful_transaction], bench/src/metrics.rs:33-45. *)
Definition add_successful_transaction (m : Metric) (time_to_send time_to_confirm transaction_bytes : Z) : Metric :=
  mkMetric (txs_sent m +64 1)%rpc (txs_confirmed m +64 1)%rpc (txs_un_confirmed m)
    (average_confirmation_time_ms m) (average_time_to_send_txs m) (average_transaction_bytes m) (send_tps m)
    (total_sent_time m + time_to_send) (total_transaction_bytes m +64 transaction_bytes)%rpc
    (total_confirmation_time m + time_to_confirm) (total_gross_send_time_ms m).

(** [Metric::add_unsuccessful_transaction], bench/src/metrics.rs:47-52. *)
Definition add_unsuccessful_transaction (m : Metric) (time_to_send transaction_bytes : Z) : Metric :=
  mkMetric (txs_sent m +64 1)%rpc (txs_confirmed m) (txs_un_confirmed m +64 1)%rpc
    (average_confirmation_time_ms m) (average_time_to_send_txs m) (average_transaction_bytes m) (send_tps m)
    (total_sent_time m + time_to_send) (total_transaction_bytes m +64 transaction_bytes)%rpc
    (total_confirmation_time m) (total_gross_send_time_ms m).

(** [Metric::finalize], bench/src/metrics.rs:54-71. *)
Definition finalize (m : Metric) : Metric :=
  let sent := f64_of_Z (txs_sent m) in
  mkMetric (txs_sent m) (txs_confirmed m) (txs_un_confirmed m)
    (if 0 <? txs_confirmed m
     then f64_div (f64_of_Z (as_millis (total_confirmation_time m))) (f64_of_Z (txs_confirmed m))
     else average_confirmation_time_ms m)
    (if 0 <? txs_sent m then f64_div (f64_of_Z (as_millis (total_sent_time m))) sent else average_time_to_send_txs m)
    (if 0 <? txs_sent m then f64_div (f64_of_Z (total_transaction_bytes m)) sent else average_transaction_bytes m)
    (if f_lt (f64_dec 1 2) (total_gross_send_time_ms m)
     then f64_div sent (f64_div (total_gross_send_time_ms m) (f64_of_Z 1000))
     else send_tps m)
    (total_sent_time m) (total_transaction_bytes m) (total_confirmation_time m) (total_gross_send_time_ms m).

(** [Metric::set_total_gross_send_time], bench/src/metrics.rs:73-75. *)
Definition set_total_gross_send_time (m : Metric) (ms : f64) : Metric :=
  mkMetric (txs_sent m) (txs_confirmed m) (txs_un_confirmed m)
    (average_confirmation_time_ms m) (average_time_to_send_txs m) (average_transaction_bytes m) (send_tps m)
    (total_sent_time m) (total_transaction_bytes m) (total_confirmation_time m) ms.

(** [Metric::calc_tps], bench/src/metrics.rs:85-87. *)
Definition calc_tps (m : Metric) : f64 := f64_of_Z (txs_confirmed m).

(** [Metric::add_assign], bench/src/metrics.rs:90-104. *)
Definition metric_add (m rhs : Metric) : Metric :=
  finalize (mkMetric (txs_sent m +64 txs_sent rhs)%rpc (txs_confirmed m +64 txs_confirmed rhs)%rpc
    (txs_un_confirmed m +64 txs_un_confirmed rhs)%rpc
    (average_confirmation_time_ms m) (average_time_to_send_txs m) (average_transaction_bytes m)
    (f64_add (send_tps m) (send_tps rhs))
    (total_sent_time m + total_sent_time rhs) (total_transaction_bytes m +64 total_transaction_bytes rhs)%rpc
    (total_confirmation_time m + total_confirmation_time rhs)
    (f64_add (total_gross_send_time_ms m) (total_gross_send_time_ms rhs))).

(** [Metric::div_assign], bench/src/metrics.rs:106-126. *)
Definition metric_div (m : Metric) (rhs : Z) : Metric :=
  if rhs =? 0 then m
  else
    finalize (mkMetric (txs_sent m / rhs) (txs_confirmed m / rhs) (txs_un_confirmed m / rhs)
      (average_confirmation_time_ms m) (average_time_to_send_txs m) (average_transaction_bytes m)
      (f64_div (send_tps m) (f64_of_Z rhs))
      (from_micros (wrap_u64 (as_micros (total_sent_time m) / rhs)))
      (total_transaction_bytes m / rhs)
      (from_micros (wrap_u64 (as_micros (total_confirmation_time m) / rhs)))
      (f64_div (total_gross_send_time_ms m) (f64_of_Z rhs))).

(** [AvgMetric], bench/src/metrics.rs:78-82. *)
Record AvgMetric := mkAvgMetric { num_of_runs : Z; total_metric : Metric }.

Definition avg_metric_default : AvgMetric := mkAvgMetric 0 metric_default.

(** [AvgMetric::add_assign], bench/src/metrics.rs:128-133. *)
Definition avg_metric_add (a : AvgMetric) (rhs : Metric) : AvgMetric :=
  mkAvgMetric (num_of_runs a +64 1)%rpc (metric_add (total_metric a) rhs).

(** [Metric::from(AvgMetric)], bench/src/metrics.rs:135-140. *)
Definition metric_of_avg (a : AvgMetric) : Metric := metric_div (total_metric a) (num_of_runs a).

(** [TxMetricData], bench/src/metrics.rs:142-149. *)
Record TxMetricData := mkTxMetricData {
  td_signature : Signature;
  td_sent_slot : Slot;
  td_confirmed_slot : Slot;
  td_time_to_send_in_millis : Z;
  td_time_to_confirm_in_millis : Z;
}.

(** ** The ping thing *)

(** [PingThingCluster], bench/src/metrics.rs:151-156. *)
Inductive PingThingCluster := Mainnet | Testnet | Devnet.

(** [PingThingCluster::from_arg], bench/src/metrics.rs:158-167; [lower] is
    [str::to_lowercase]. *)
Definition from_arg (lower : string -> string) (cluster : string) : outcome PingThingCluster :=
  let c := lower cluster in
  if String.eqb c "mainnet" then Done Mainnet
  else if String.eqb c "testnet" then Done Testnet
  else if String.eqb c "devnet" then Done Devnet
  else Panic.

(** [PingThingCluster::to_url_part], bench/src/metrics.rs:169-178. *)
Definition to_url_part (c : PingThingCluster) : string :=
  match c with Mainnet => "mainnet" | Testnet => "testnet" | Devnet => "devnet" end.

(** [PingThingTxType] and its text, bench/src/metrics.rs:180-193. *)
Inductive PingThingTxType := PtTransfer | PtMemo.

Definition tx_type_to_string (t : PingThingTxType) : string :=
  match t with PtTransfer => "transfer" | PtMemo => "memo" end.

(** [PingThingData], bench/src/metrics.rs:201-212. *)
Record PingThingData := mkPingThingData {
  pt_time : Z;
  pt_signature : Signature;
  pt_transaction_type : string;
  pt_success : bool;
  pt_application : string;
  pt_commitment_level : string;
  pt_slot_sent : Slot;
  pt_slot_landed : Slot;
}.

(** [submit_stats_to_ping_thing], bench/src/metrics.rs:238-280: [post] is the
    HTTP client, which returns the status of the response or an error, also
    for a status of 400 and above. *)
Definition submit_stats_to_ping_thing {E} (post : string -> string -> PingThingData -> result E Z)
    (cluster : PingThingCluster) (va_api_key : string) (tx_elapsed : Z) (tx_sig : Signature)
    (tx_type : PingThingTxType) (tx_success : bool) (slot_sent slot_landed : Slot) : outcome (result E unit) :=
  let data := mkPingThingData (as_millis tx_elapsed) tx_sig (tx_type_to_string tx_type) tx_success
    "LiteRPC.bench" "confirmed" slot_sent slot_landed in
  match post ("https://www.validators.app/api/v1/ping-thing/" ++ to_url_part cluster)%string va_api_key data with
  | Ok status => if status =? 201 then Done (Ok ()) else Panic
  | Err e => Done (Err e)
  end.

(** ** Transaction sizes *)

(** [TxSize], bench/src/tx_size.rs:4-13. *)
Inductive TxSize := Small | Large.

(** [TxSize::fmt], bench/src/tx_size.rs:15-22. *)
Definition tx_size_to_string (t : TxSize) : string := match t with Small => "small" | Large => "large" end.

(** [TxSize::size], bench/src/tx_size.rs:25-30. *)
Definition size_of (t : TxSize) : Z := match t with Small => 179 | Large => 1186 end.

(** [TxSize::memo_size], bench/src/tx_size.rs:32-37. *)
Definition memo_size (t : TxSize) : Z := match t with Small => 32 | Large => 1024 end.

(** ** Confirmation rate *)

(** [ConfirmationResponseFromRpc], bench/src/benches/rpc_interface.rs:29-37;
    the confirmation status is always [Confirmed], which is left out. *)
Inductive ConfirmationResponseFromRpc {E : Type} :=
| SendError (e : E)
| Success (slot_sent slot_confirmed : Slot) (confirmation_time : Z)
| Timeout (elapsed : Z).
Arguments ConfirmationResponseFromRpc : clear implicits.

(** [Metric], bench/src/benches/confirmation_rate.rs:16-26. *)
Record RateMetric := mkRateMetric {
  rm_txs_sent : Z;
  rm_txs_confirmed : Z;
  rm_average_confirmation_time : f32;
  rm_average_slot_confirmation_time : f32;
  rm_txs_send_errors : Z;
  rm_txs_un_confirmed : Z;
}.

Definition rate_metric_default : RateMetric := mkRateMetric 0 0 f_zero f_zero 0 0.

(** The local variables of [send_bulk_txs_and_wait],
    bench/src/benches/confirmation_rate.rs:120-125. *)
Record Tally := mkTally {
  tx_sent : Z;
  tx_send_errors : Z;
  tx_confirmed : Z;
  tx_unconfirmed : Z;
  sum_confirmation_time : Z;
  sum_slot_confirmation_time : Z;
}.

Definition tally_zero : Tally := mkTally 0 0 0 0 0 0.

(** The loop, [send_bulk_txs_and_wait],
    bench/src/benches/confirmation_rate.rs:126-163. *)
Definition tally_one {E} (t : Tally) (r : ConfirmationResponseFromRpc E) : Tally :=
  match r with
  | Success slot_sent slot_confirmed confirmation_time =>
      mkTally (tx_sent t +64 1)%rpc (tx_send_errors t) (tx_confirmed t +64 1)%rpc (tx_unconfirmed t)
        (sum_confirmation_time t + confirmation_time)
        (sum_slot_confirmation_time t +64 (slot_confirmed -64 slot_sent))%rpc
  | SendError _ =>
      mkTally (tx_sent t) (tx_send_errors t +64 1)%rpc (tx_confirmed t) (tx_unconfirmed t)
        (sum_confirmation_time t) (sum_slot_confirmation_time t)
  | Timeout _ =>
      mkTally (tx_sent t +64 1)%rpc (tx_send_errors t) (tx_confirmed t) (tx_unconfirmed t +64 1)%rpc
        (sum_confirmation_time t) (sum_slot_confirmation_time t)
  end.

(** The averages, [send_bulk_txs_and_wait],
    bench/src/benches/confirmation_rate.rs:165-183. *)
Definition rate_metric_of (t : Tally) : RateMetric :=
  let confirmed := f32_of_Z (tx_confirmed t) in
  mkRateMetric (tx_sent t) (tx_confirmed t)
    (if 0 <? tx_confirmed t
     then f32_div (f32_mul (as_secs_f32 (sum_confirmation_time t)) (f32_of_Z 1000)) confirmed else f_zero)
    (if 0 <? tx_confirmed t then f32_div (f32_of_Z (sum_slot_confirmation_time t)) confirmed else f_zero)
    (tx_send_errors t) (tx_unconfirmed t).

(** The metric of the responses of a run. *)
Definition rate_metric {E} (rs : list (ConfirmationResponseFromRpc E)) : RateMetric :=
  rate_metric_of (foldl tally_one tally_zero rs).

(** One step of the loop of [calc_stats_avg], bench/src/benches/confirmation_rate.rs:198-205. *)
Definition rate_metric_add (avg stat : RateMetric) : RateMetric :=
  mkRateMetric (rm_txs_sent avg +64 rm_txs_sent stat)%rpc (rm_txs_confirmed avg +64 rm_txs_confirmed stat)%rpc
    (f32_add (rm_average_confirmation_time avg) (rm_average_confirmation_time stat))
    (f32_add (rm_average_slot_confirmation_time avg) (rm_average_slot_confirmation_time stat))
    (rm_txs_send_errors avg +64 rm_txs_send_errors stat)%rpc
    (rm_txs_un_confirmed avg +64 rm_txs_un_confirmed stat)%rpc.

(** [calc_stats_avg], bench/src/benches/confirmation_rate.rs:186-215; the
    division of an integer by zero panics. *)
Definition calc_stats_avg (stats : list RateMetric) : outcome RateMetric :=
  let len := Z.of_nat (length stats) in
  let avg := foldl rate_metric_add rate_metric_default stats in
  if len =? 0 then Panic
  else
    Done (mkRateMetric (rm_txs_sent avg / len) (rm_txs_confirmed avg / len)
      (f32_div (rm_average_confirmation_time avg) (f32_of_Z len))
      (f32_div (rm_average_slot_confirmation_time avg) (f32_of_Z len))
      (rm_txs_send_errors avg / len) (rm_txs_un_confirmed avg / len)).

(** ** Counts of a run *)

Definition is_success {E} (r : ConfirmationResponseFromRpc E) : bool :=
  match r with Success _ _ _ => true | _ => false end.
Definition is_timeout {E} (r : ConfirmationResponseFromRpc E) : bool :=
  match r with Timeout _ => true | _ => false end.
Definition is_send_error {E} (r : ConfirmationResponseFromRpc E) : bool :=
  match r with SendError _ => true | _ => false end.

Definition count {A} (p : A -> bool) (l : list A) : Z := list_sum ((fun x => if p x then 1 else 0) <$> l).

Lemma count_cons {A} (p : A -> bool) x l : count p (x :: l) = (if p x then 1 else 0) + count p l.
Proof. done. Qed.

Lemma count_bounds {A} (p : A -> bool) l : 0 <= count p l <= Z.of_nat (length l).
Proof. induction l as [|x l IH]; [done|]. rewrite count_cons. cbn [length]. destruct (p x); lia. Qed.

Lemma count_partition {E} (rs : list (ConfirmationResponseFromRpc E)) :
  count is_success rs + count is_timeout rs + count is_send_error rs = Z.of_nat (length rs).
Proof.
  induction rs as [|r rs IH]; [done|]. rewrite !count_cons. cbn [length]. destruct r; cbn [is_success is_timeout is_send_error]; lia.
Qed.

(** There is room for [n] more in a counter. *)
Definition room (n : nat) (a : Z) : Prop := 0 <= a /\ a + Z.of_nat n < u64_size.

Lemma room_step n a : room (S n) a -> wrap_u64 (a + 1) = a + 1 /\ room n (a + 1) /\ room n a.
Proof. unfold room. intros. split_and!; [apply wrap_u64_id; unfold in_u64|..]; lia. Qed.

Lemma tally_counts {E} (rs : list (ConfirmationResponseFromRpc E)) t :
  room (length rs) (tx_sent t) -> room (length rs) (tx_send_errors t) ->
  room (length rs) (tx_confirmed t) -> room (length rs) (tx_unconfirmed t) ->
  let t' := foldl tally_one t rs in
  tx_sent t' = tx_sent t + count is_success rs + count is_timeout rs /\
  tx_send_errors t' = tx_send_errors t + count is_send_error rs /\
  tx_confirmed t' = tx_confirmed t + count is_success rs /\
  tx_unconfirmed t' = tx_unconfirmed t + count is_timeout rs.
Proof.
  cbv zeta. revert t. induction rs as [|r rs IH]; intros t H1 H2 H3 H4; [cbn; lia|]. cbn [foldl length] in *.
  rewrite !count_cons.
  apply room_step in H1 as (E1 & ? & ?), H2 as (E2 & ? & ?), H3 as (E3 & ? & ?), H4 as (E4 & ? & ?).
  destruct (IH (tally_one t r)) as (-> & -> & -> & ->); destruct r;
    cbn [tally_one tx_sent tx_send_errors tx_confirmed tx_unconfirmed is_success is_timeout is_send_error];
    rewrite ?E1, ?E2, ?E3, ?E4; first [done|lia].
Qed.

(** Every response of a run is counted in one of three classes. *)
Lemma rate_metric_counts {E} (rs : list (ConfirmationResponseFromRpc E)) :
  Z.of_nat (length rs) < u64_size ->
  let m := rate_metric rs in
  rm_txs_confirmed m = count is_success rs /\ rm_txs_un_confirmed m = count is_timeout rs /\
  rm_txs_send_errors m = count is_send_error rs /\ rm_txs_sent m = rm_txs_confirmed m + rm_txs_un_confirmed m.
Proof.
  intros Hl. assert (room (length rs) 0) as Hr by (unfold room; lia).
  destruct (tally_counts rs tally_zero) as (H1 & H2 & H3 & H4); [done..|].
  unfold rate_metric, rate_metric_of. cbn. rewrite H1, H2, H3, H4. cbn. lia.
Qed.

(** ** Counts over runs *)

(** A metric whose counts add up. *)
Definition counts_ok (m : Metric) : Prop :=
  0 <= txs_confirmed m /\ 0 <= txs_un_confirmed m /\ txs_sent m = txs_confirmed m + txs_un_confirmed m.

Lemma successful_counts m a b c :
  counts_ok m -> txs_sent m + 1 < u64_size -> counts_ok (add_successful_transaction m a b c).
Proof. intros (? & ? & ?) Hl. unfold counts_ok. cbn. rewrite !wrap_u64_id by (unfold in_u64; lia). lia. Qed.

Lemma unsuccessful_counts m a b :
  counts_ok m -> txs_sent m + 1 < u64_size -> counts_ok (add_unsuccessful_transaction m a b).
Proof. intros (? & ? & ?) Hl. unfold counts_ok. cbn. rewrite !wrap_u64_id by (unfold in_u64; lia). lia. Qed.

Lemma metric_add_counts m rhs :
  counts_ok m -> counts_ok rhs -> txs_sent m + txs_sent rhs < u64_size ->
  counts_ok (metric_add m rhs) /\ txs_sent (metric_add m rhs) = txs_sent m + txs_sent rhs /\
  txs_confirmed (metric_add m rhs) = txs_confirmed m + txs_confirmed rhs /\
  txs_un_confirmed (metric_add m rhs) = txs_un_confirmed m + txs_un_confirmed rhs.
Proof. intros (? & ? & ?) (? & ? & ?) Hl. unfold counts_ok. cbn. rewrite !wrap_u64_id by (unfold in_u64; lia). lia. Qed.

Lemma avg_metric_totals (ms : list Metric) a :
  Forall counts_ok ms -> counts_ok (total_metric a) -> room (length ms) (num_of_runs a) ->
  txs_sent (total_metric a) + list_sum (txs_sent <$> ms) < u64_size ->
  let a' := foldl avg_metric_add a ms in
  num_of_runs a' = num_of_runs a + Z.of_nat (length ms) /\ counts_ok (total_metric a') /\
  txs_sent (total_metric a') = txs_sent (total_metric a) + list_sum (txs_sent <$> ms) /\
  txs_confirmed (total_metric a') = txs_confirmed (total_metric a) + list_sum (txs_confirmed <$> ms).
Proof.
  intros Hms. cbv zeta. revert a. induction Hms as [|m ms Hm Hms IH]; intros a Ha Hr Hl; [cbn; split_and!; [lia|done|lia..]|].
  cbn [foldl length] in *. rewrite fmap_cons, list_sum_cons in Hl. rewrite !fmap_cons, !list_sum_cons. apply room_step in Hr as (E1 & Hr & _).
  assert (0 <= list_sum (txs_sent <$> ms)) as Hnn.
  { apply list_sum_nonneg, Forall_fmap. eapply Forall_impl; [exact Hms|]. intros x (? & ? & ?). cbn. lia. }
  destruct (metric_add_counts (total_metric a) m) as (Hc & Hs & Hcf & _); [done|done|lia|].
  destruct (IH (avg_metric_add a m)) as (-> & H1 & -> & ->); cbn [avg_metric_add total_metric num_of_runs];
    rewrite ?Hs, ?Hcf, ?E1; [done|done|lia|]. split_and!; [lia|done|lia..].
Qed.

(** The average of the runs of the benchmark is the sums of their counts,
    each divided by the number of runs and rounded down; because each is
    rounded for itself, the average number of transactions sent may be one more
    than the sum of those confirmed and unconfirmed, but never less; the average
    of no runs is the empty metric. *)
Theorem average_metric_counts (ms : list Metric) :
  Forall counts_ok ms -> Z.of_nat (length ms) < u64_size -> list_sum (txs_sent <$> ms) < u64_size ->
  let m := metric_of_avg (foldl avg_metric_add avg_metric_default ms) in
  let n := Z.of_nat (length ms) in
  (ms = [] -> m = metric_default) /\
  (ms <> [] -> txs_sent m = list_sum (txs_sent <$> ms) / n /\
               txs_confirmed m = list_sum (txs_confirmed <$> ms) / n) /\
  txs_confirmed m + txs_un_confirmed m <= txs_sent m <= txs_confirmed m + txs_un_confirmed m + 1.
Proof.
  intros Hms Hn Hl m n. destruct (avg_metric_totals ms avg_metric_default) as (Hr & (H1 & H2 & H3) & Hs & Hc);
    [done| |unfold room; cbn; lia|done|]. { unfold counts_ok. cbn. lia. }
  unfold m, metric_of_avg. rewrite Hr. cbn [num_of_runs avg_metric_default] in *. cbn [total_metric txs_sent txs_confirmed metric_default] in Hs, Hc.
  rewrite Z.add_0_l in *. fold n. set (t := total_metric _) in *. unfold metric_div.
  destruct (decide (ms = [])) as [->|Hne].
  - change (n =? 0) with true. cbv iota. split_and!; [done..|cbn; lia|cbn; lia].
  - assert (0 < n) as Hpos by (unfold n; destruct ms; [done|cbn; lia]).
    rewrite (proj2 (Z.eqb_neq n 0)) by lia. split; [done|]. cbn [finalize txs_sent txs_confirmed txs_un_confirmed].
    rewrite H3 in *. rewrite <- Hs, <- Hc. split; [done|].
    pose proof (Z.div_mod (txs_confirmed t) n). pose proof (Z.div_mod (txs_un_confirmed t) n).
    pose proof (Z.div_mod (txs_confirmed t + txs_un_confirmed t) n).
    pose proof (Z.mod_pos_bound (txs_confirmed t) n). pose proof (Z.mod_pos_bound (txs_un_confirmed t) n).
    pose proof (Z.mod_pos_bound (txs_confirmed t + txs_un_confirmed t) n). nia.
Qed.

(** Two runs that confirmed one transaction of one, and none of one. *)
Lemma average_metric_counts_witness :
  let ms := [mkMetric 1 1 0 f_zero f_zero f_zero f_zero 0 0 0 f_zero;
             mkMetric 1 0 1 f_zero f_zero f_zero f_zero 0 0 0 f_zero] in
  let m := metric_of_avg (foldl avg_metric_add avg_metric_default ms) in
  txs_sent m = 1 /\ txs_confirmed m + txs_un_confirmed m = 0 /\
  txs_confirmed m + txs_un_confirmed m <= txs_sent m.
Proof.
  cbv zeta. split; [vm_compute; reflexivity|]. split; [vm_compute; reflexivity|].
  apply average_metric_counts; [repeat constructor; cbn; lia|done|done].
Defined.

(** ** The time to confirmation says nothing *)

(** The confirmation time that is stored for every confirmed transaction. *)
Definition placeholder_time : Z := from_secs 9999.

Definition placeholder {E} (r : ConfirmationResponseFromRpc E) : Prop :=
  match r with Success _ _ t => t = placeholder_time | _ => True end.

Lemma tally_time {E} (rs : list (ConfirmationResponseFromRpc E)) t :
  Forall placeholder rs ->
  sum_confirmation_time (foldl tally_one t rs) = sum_confirmation_time t + placeholder_time * count is_success rs.
Proof.
  intros H. revert t. induction H as [|r rs Hr Hrs IH]; intros t; [cbn; lia|]. cbn [foldl]. rewrite IH, count_cons.
  destruct r; cbn in *; subst; lia.
Qed.

(** With that placeholder, the average confirmation time that the benchmark
    reports is a function of the number of confirmed transactions alone: for one
    confirmed transaction it is 9,999,000 milliseconds. *)
Lemma average_confirmation_time_is_placeholder {E} (rs : list (ConfirmationResponseFromRpc E)) :
  Forall placeholder rs -> Z.of_nat (length rs) < u64_size ->
  rm_average_confirmation_time (rate_metric rs) =
  let n := rm_txs_confirmed (rate_metric rs) in
  if 0 <? n then f32_div (f32_mul (as_secs_f32 (placeholder_time * n)) (f32_of_Z 1000)) (f32_of_Z n) else f_zero.
Proof.
  intros Hp Hl. destruct (rate_metric_counts rs Hl) as (Hc & _). cbv zeta. rewrite Hc.
  unfold rate_metric, rate_metric_of in *. cbn in *. rewrite Hc, tally_time by done. by rewrite Z.add_0_l.
Qed.

Lemma one_confirmed_average sent confirmed :
  rm_average_confirmation_time (rate_metric (E := unit) [Success sent confirmed placeholder_time]) = f32_of_Z 9999000.
Proof. vm_compute. reflexivity. Qed.

(** ** The ping thing's clusters *)

(** The name a cluster is read from is the one it is written with. *)
Lemma cluster_roundtrip lower c : lower (to_url_part c) = to_url_part c -> from_arg lower (to_url_part c) = Done c.
Proof. unfold from_arg. intros ->. by destruct c. Qed.

Lemma cluster_named lower name c : from_arg lower name = Done c -> lower name = to_url_part c.
Proof.
  unfold from_arg. repeat case_match; intros; simplify_eq; by apply String.eqb_eq.
Qed.
