(* ===== verification/Bench.v ===== *)
(** * The benchmarks

    bench/src: sending transactions in bulk and asking for their statuses
    (benches/rpc_interface.rs and lib.rs), the confirmation-rate,
    confirmation-slot and API-load benchmarks, and the concurrent benchmark of
    bench1.rs with its adapters.  The RPC client and the clock are parameters:
    an answer of the RPC server is a [result], a time a number of nanoseconds.
    The SDK's functions that build and sign a message are the fields of
    [MemoSdk]. *)

From Stdlib Require Import SpecFloat.
From S2P Require Import Prelude Types Floats Metrics.

Open Scope string_scope.
Open Scope list_scope.
Open Scope Z_scope.

(** The errors the benchmarks return; a foreign error is kept as its text. *)
Inductive BenchError :=
| RpcFailed (e : string)
| FailedToSendAll
| TimeoutWaitingForSlot
| TimedoutWaiting
| TransactionFailed (e : string).

(** ** Generated transactions *)

(** [BenchmarkTransactionParams], bench/src/lib.rs:60-63. *)
Record BenchmarkTransactionParams := mkTxParams { tp_tx_size : TxSize; tp_cu_price_micro_lamports : Z }.

(** The instructions the benchmarks put in a transaction. *)
Inductive Instruction :=
| SetComputeUnitPrice (micro_lamports : Z)
| SetComputeUnitLimit (units : Z)
| Memo (msg : list Z) (readonly_signers : list Pubkey).

(** The SDK: random characters, fresh key pairs, and the compiled and signed
    message, which fails when the message cannot be compiled or the keys do not
    match its signers. *)
Record MemoSdk {Rng Tx : Type} := mkMemoSdk {
  seed_from_u64 : Z -> Rng;
  sample : Rng -> Z * Rng;
  new_keypair : Rng -> nat -> Pubkey;
  compile_and_sign : Pubkey -> list Instruction -> Hash -> list Pubkey -> option Tx;
}.
Arguments MemoSdk : clear implicits.

Section generate.
Context {Rng Tx : Type} (sdk : MemoSdk Rng Tx).

(** [create_rng], bench/src/lib.rs:184-188. *)
Definition create_rng (seed : option Z) : Rng := seed_from_u64 sdk (default 0 seed).

Fixpoint sample_iter (rng : Rng) (n : nat) : list Z * Rng :=
  match n with
  | O => ([], rng)
  | S n => let '(c, rng) := sample sdk rng in let '(cs, rng) := sample_iter rng n in (c :: cs, rng)
  end.

(** [generate_random_string], bench/src/lib.rs:190-193. *)
Definition generate_random_string (rng : Rng) (n_chars : nat) : list Z * Rng := sample_iter rng n_chars.

Fixpoint random_strings (rng : Rng) (num_of_txs n_chars : nat) : list (list Z) * Rng :=
  match num_of_txs with
  | O => ([], rng)
  | S n => let '(s, rng) := generate_random_string rng n_chars in
           let '(l, rng) := random_strings rng n n_chars in (s :: l, rng)
  end.

(** [generate_random_strings], bench/src/lib.rs:195-206. *)
Definition generate_random_strings (num_of_txs : nat) (random_seed : option Z) (n_chars : nat) : list (list Z) :=
  (random_strings (seed_from_u64 sdk (default 0 random_seed)) num_of_txs n_chars).1.

(** [create_memo_tx_small], bench/src/lib.rs:245-266. *)
Definition create_memo_tx_small (msg : list Z) (payer : Pubkey) (blockhash : Hash) (cu_price : Z) : outcome Tx :=
  unwrap (compile_and_sign sdk payer [SetComputeUnitPrice cu_price; SetComputeUnitLimit 14000; Memo msg []]
            blockhash [payer]).

(** [create_memo_tx_large], bench/src/lib.rs:268-301; [rng] is the source of
    the fresh keys. *)
Definition create_memo_tx_large (rng : Rng) (msg : list Z) (payer : Pubkey) (blockhash : Hash) (cu_price : Z) : outcome Tx :=
  let accounts := new_keypair sdk rng <$> seq 0 8 in
  unwrap (compile_and_sign sdk payer [SetComputeUnitPrice cu_price; SetComputeUnitLimit 14000; Memo msg accounts]
            blockhash (payer :: accounts)).

(** [create_memo_tx], bench/src/lib.rs:221-243. *)
Definition create_memo_tx (payer : Pubkey) (blockhash : Hash) (rng : Rng) (p : BenchmarkTransactionParams) :
    outcome (Tx * Rng) :=
  let '(rand_str, rng) := generate_random_string rng (Z.to_nat (memo_size (tp_tx_size p))) in
  tx ← match tp_tx_size p with
       | Small => create_memo_tx_small rand_str payer blockhash (tp_cu_price_micro_lamports p)
       | Large => create_memo_tx_large rng rand_str payer blockhash (tp_cu_price_micro_lamports p)
       end;
  Done (tx, rng).

(** [generate_txs], bench/src/lib.rs:208-219. *)
Fixpoint generate_txs (num_of_txs : nat) (payer : Pubkey) (blockhash : Hash) (rng : Rng) (p : BenchmarkTransactionParams) :
    outcome (list Tx * Rng) :=
  match num_of_txs with
  | O => Done ([], rng)
  | S n =>
      match create_memo_tx payer blockhash rng p with
      | Done (tx, rng) =>
          match generate_txs n payer blockhash rng p with
          | Done (txs, rng) => Done (tx :: txs, rng)
          | Panic => Panic
          end
      | Panic => Panic
      end
  end.
End generate.

(** ** Waiting for one signature *)

Definition WAIT_LIMIT_IN_SECONDS : Z := 60.

(** [wait_till_signature_status], bench/src/lib.rs:70-88 (and
    bench/src/helpers.rs:44-62): the iterations of the loop, each with the time
    since the start and the answer of the RPC server; [None] when it is still
    in the loop. *)
Fixpoint wait_till_signature_status (iterations : list (Z * result string (option (result string unit)))) :
    option (result BenchError unit) :=
  match iterations with
  | [] => None
  | (elapsed, answer) :: iterations =>
      if from_secs WAIT_LIMIT_IN_SECONDS <? elapsed then Some (Err TimedoutWaiting)
      else
        match answer with
        | Err e => Some (Err (RpcFailed e))
        | Ok (Some (Err e)) => Some (Err (TransactionFailed e))
        | Ok (Some (Ok _)) => Some (Ok ())
        | Ok None => wait_till_signature_status iterations
        end
  end.

(** The wait ends with the first status the server reports within a minute,
    with the server's first error, or, once a minute has passed, with a
    timeout; and a round after a minute ends it whatever it brings. *)
Theorem wait_till_signature_status_spec (rounds : list (Z * result string (option (result string unit)))) :
  let silent := fun r : Z * result string (option (result string unit)) => r.1 <= from_secs 60 /\ r.2 = Ok None in
  (match wait_till_signature_status rounds with
   | None => Forall silent rounds
   | Some res => exists pre elapsed answer post, rounds = pre ++ (elapsed, answer) :: post /\ Forall silent pre /\
       if from_secs 60 <? elapsed then res = Err TimedoutWaiting
       else match answer with
            | Err e => res = Err (RpcFailed e)
            | Ok (Some (Err e)) => res = Err (TransactionFailed e)
            | Ok (Some (Ok _)) => res = Ok ()
            | Ok None => False
            end
   end) /\
  (forall elapsed answer, (elapsed, answer) ∈ rounds -> from_secs 60 < elapsed -> is_Some (wait_till_signature_status rounds)).
Proof.
  intros silent. induction rounds as [|[elapsed answer] rounds [IH1 IH2]]; cbn [wait_till_signature_status].
  { split; [constructor|]. intros ? ? H. by apply elem_of_nil in H. }
  unfold WAIT_LIMIT_IN_SECONDS. destruct (Z.ltb_spec (from_secs 60) elapsed) as [Hlt|Hge].
  { split; [|by eexists]. exists [], elapsed, answer, rounds. split_and!; [done|constructor|]. by rewrite (proj2 (Z.ltb_lt _ _) Hlt). }
  destruct answer as [[[[]|e]|]|e].
  3: { split.
    - destruct (wait_till_signature_status rounds) as [res|]; [|by constructor].
      destruct IH1 as (pre & el & an & post & -> & Hpre & Hres). exists ((elapsed, Ok None) :: pre), el, an, post.
      split_and!; [done|by constructor|done].
    - intros el an [[= -> ->]|Hin]%elem_of_cons Hlt; [lia|eauto]. }
  all: split; [|by eexists]; eexists [], elapsed, _, rounds; (split_and!; [reflexivity|constructor|]);
    by rewrite (proj2 (Z.ltb_ge _ _) Hge).
Qed.

(** ** Sending and confirming, with retries *)

Section send_and_confirm.
Context {Tx Status : Type}.
Variable satisfies_commitment : Status -> bool.
(** The answers of the RPC server: to the transaction at an index, and to the
    request for statuses of the given try. *)
Variable send_transaction : nat -> Tx -> result string Signature.
Variable get_signature_statuses : nat -> list Signature -> result string (list (option Status)).

(** [results.iter_mut().for_each(…)]: every missing result takes the next
    status. *)
Fixpoint take_statuses (results statuses : list (option Status)) : outcome (list (option Status)) :=
  match results with
  | [] => Done []
  | Some st :: results => l ← take_statuses results statuses; Done (Some st :: l)
  | None :: results =>
      match statuses with
      | [] => Panic
      | st :: statuses => l ← take_statuses results statuses; Done (st :: l)
      end
  end.

(** The signatures that have no status yet. *)
Definition unanswered (sigs : list Signature) (results : list (option Status)) : list Signature :=
  omap (fun '(sig, r) => match r with None => Some sig | Some _ => None end) (zip sigs results).

Definition all_satisfied (results : list (option Status)) : bool :=
  forallb (fun r => match r with Some st => satisfies_commitment st | None => false end) results.

(** The loop over the tries, [send_and_confirm_transactions],
    bench/src/lib.rs:137-174. *)
Fixpoint confirm_tries (fuel try : nat) (sigs : list Signature) (results : list (option Status)) :
    outcome (result BenchError (list (option Status))) :=
  match fuel with
  | O => Done (Ok results)
  | S fuel =>
      match get_signature_statuses try (unanswered sigs results) with
      | Err e => Done (Err (RpcFailed e))
      | Ok statuses =>
          results ← take_statuses results statuses;
          if all_satisfied results then Done (Ok results) else confirm_tries fuel (S try) sigs results
      end
  end.

(** [send_and_confirm_transactions], bench/src/lib.rs:90-175; once every
    transaction is sent, a result that is an error does not occur. *)
Definition send_and_confirm_transactions (txs : list Tx) (tries : option nat) :
    outcome (result BenchError (list (option Status))) :=
  let sigs_or_fails := imap send_transaction txs in
  let num_sent_failed := length (filter (fun r => is_ok r = false) sigs_or_fails) in
  if (0 <? num_sent_failed)%nat then Done (Err FailedToSendAll)
  else
    let sigs := omap (fun r => match r with Ok s => Some s | Err _ => None end) sigs_or_fails in
    confirm_tries (default 5%nat tries) 0 sigs ((fun _ => None) <$> sigs_or_fails).
End send_and_confirm.

(** ** Sending in bulk *)

Section bulk.
Variable get_slot : nat -> result string Slot.

(** The loop of [poll_next_slot_start], bench/src/benches/rpc_interface.rs:226-244:
    [get_slot i] is the answer to the request of iteration [i]. *)
Fixpoint poll_from (fuel i : nat) (last_slot : option Slot) : result BenchError Slot :=
  match fuel with
  | O => Err TimeoutWaitingForSlot
  | S fuel =>
      match get_slot i with
      | Err e => Err (RpcFailed e)
      | Ok slot =>
          if match last_slot with Some last => (last +64 1)%rpc =? slot | None => false end then Ok slot
          else poll_from fuel (S i) (Some slot)
      end
  end.

(** [poll_next_slot_start], bench/src/benches/rpc_interface.rs:221-246. *)
Definition poll_next_slot_start : result BenchError Slot := poll_from 500 1 None.
End bulk.

(** The state of the loop over the statuses. *)
Record BulkState := mkBulkState {
  pending_status_set : gset Signature;
  result_status_map : gmap Signature (ConfirmationResponseFromRpc string);
}.

(** [for (tx_sig, tx_status) in …], [send_and_confirm_bulk_transactions],
    bench/src/benches/rpc_interface.rs:155-184; of a status only the slot is
    used. *)
Fixpoint take_bulk_statuses (send_slot : Slot) (l : list (Signature * option Slot)) (s : BulkState) : outcome BulkState :=
  match l with
  | [] => Done s
  | (tx_sig, None) :: l => take_bulk_statuses send_slot l s
  | (tx_sig, Some landed_slot) :: l =>
      let '(mkBulkState pending results) := s in
      if bool_decide (tx_sig ∈ pending) then
        match results !! tx_sig with
        | Some _ => Panic
        | None =>
            take_bulk_statuses send_slot l
              (mkBulkState (pending ∖ {[tx_sig]}) (<[tx_sig := Success send_slot landed_slot placeholder_time]> results))
        end
      else take_bulk_statuses send_slot l s
  end.

(** The remaining signatures are timed out,
    bench/src/benches/rpc_interface.rs:189-196. *)
Definition time_out_pending (elapsed : Z) (s : BulkState) : gmap Signature (ConfirmationResponseFromRpc string) :=
  foldl (fun results sig => <[sig := Timeout elapsed]> results) (result_status_map s) (elements (pending_status_set s)).

(** The entry of a transaction, [send_and_confirm_bulk_transactions],
    bench/src/benches/rpc_interface.rs:198-216. *)
Definition bulk_result (results : gmap Signature (ConfirmationResponseFromRpc string)) (tx_sig : Signature)
    (sig_or_fail : result string Signature) : outcome (Signature * ConfirmationResponseFromRpc string) :=
  match sig_or_fail with
  | Ok sig => confirmation ← unwrap (results !! sig); Done (sig, confirmation)
  | Err e => Done (tx_sig, SendError e)
  end.

Fixpoint bulk_results (results : gmap Signature (ConfirmationResponseFromRpc string)) (tx_sigs : list Signature)
    (sigs_or_fails : list (result string Signature)) : outcome (list (Signature * ConfirmationResponseFromRpc string)) :=
  match tx_sigs, sigs_or_fails with
  | tx_sig :: tx_sigs, r :: rs =>
      x ← bulk_result results tx_sig r; l ← bulk_results results tx_sigs rs; Done (x :: l)
  | _, _ => Done []
  end.

(** [send_and_confirm_bulk_transactions], bench/src/benches/rpc_interface.rs:39-219:
    [send] answers the transaction at an index with the given signature,
    [after_send_slot] is the answer after sending (its comparison with the send
    slot is only logged), [statuses] that of the statuses, and [elapsed] the
    time at the end. *)
Definition send_and_confirm_bulk_transactions (get_slot : nat -> result string Slot)
    (send : nat -> Signature -> result string Signature) (after_send_slot : result string Slot)
    (statuses : list Signature -> result string (list (option Slot))) (elapsed : Z) (sigs : list Signature) :
    outcome (result BenchError (list (Signature * ConfirmationResponseFromRpc string))) :=
  match poll_next_slot_start get_slot with
  | Err e => Done (Err e)
  | Ok send_slot =>
      let batch_sigs_or_fails := imap send sigs in
      match after_send_slot with
      | Err e => Done (Err (RpcFailed e))
      | Ok _ =>
          let num_sent_ok := length (filter (fun r => is_ok r = true) batch_sigs_or_fails) in
          let num_sent_failed := length (filter (fun r => is_ok r = false) batch_sigs_or_fails) in
          if (0 <? num_sent_failed)%nat then Done (Err FailedToSendAll)
          else
            let pending := list_to_set (omap (fun r => match r with Ok s => Some s | Err _ => None end) batch_sigs_or_fails) in
            if bool_decide (size pending <> num_sent_ok) then Panic
            else
              match statuses sigs with
              | Err e => Done (Err (RpcFailed e))
              | Ok tx_statuses =>
                  if bool_decide (length tx_statuses <> length sigs) then Panic
                  else
                    s ← take_bulk_statuses send_slot (zip sigs tx_statuses) (mkBulkState pending ∅);
                    l ← bulk_results (time_out_pending elapsed s) sigs batch_sigs_or_fails;
                    Done (Ok l)
              end
      end
  end.

(** ** Bulk results are complete *)

Lemma size_list_to_set_cons (x : Signature) l :
  size (list_to_set (x :: l) : gset Signature) =
  ((if decide (x ∈ l) then 0 else 1) + size (list_to_set l : gset Signature))%nat.
Proof.
  cbn. case_decide as Hx.
  - assert ({[x]} ∪ list_to_set l = (list_to_set l : gset Signature)) as -> by set_solver. lia.
  - rewrite size_union by set_solver. by rewrite size_singleton.
Qed.

Lemma size_list_to_set_le (l : list Signature) : (size (list_to_set l : gset Signature) <= length l)%nat.
Proof. induction l as [|x l IH]; [done|]. rewrite size_list_to_set_cons. cbn [length]. case_decide; lia. Qed.

Lemma size_list_to_set_NoDup (l : list Signature) : size (list_to_set l : gset Signature) = length l <-> NoDup l.
Proof.
  split; [|apply size_list_to_set]. induction l as [|x l IH]; [constructor|].
  rewrite size_list_to_set_cons. cbn [length]. pose proof (size_list_to_set_le l).
  case_decide; intros; [lia|]. constructor; [done|]. apply IH. lia.
Qed.

(** The first status that is known for a signature. *)
Fixpoint landed (l : list (Signature * option Slot)) (sig : Signature) : option Slot :=
  match l with
  | [] => None
  | (s, st) :: l => match st with Some slot => if s =? sig then Some slot else landed l sig | None => landed l sig end
  end.

(** What becomes of a signature. *)
Definition confirmation (send_slot elapsed : Z) (l : list (Signature * option Slot)) (sig : Signature) :
    ConfirmationResponseFromRpc string :=
  match landed l sig with Some slot => Success send_slot slot placeholder_time | None => Timeout elapsed end.

Lemma take_bulk_statuses_spec send_slot l pending results :
  (forall sig, sig ∈ pending -> results !! sig = None) ->
  exists pending' results',
    take_bulk_statuses send_slot l (mkBulkState pending results) = Done (mkBulkState pending' results') /\
    (forall sig, sig ∈ pending' <-> sig ∈ pending /\ landed l sig = None) /\
    (forall sig slot, sig ∈ pending -> landed l sig = Some slot ->
       results' !! sig = Some (Success send_slot slot placeholder_time)) /\
    (forall sig, sig ∉ pending -> results' !! sig = results !! sig).
Proof.
  revert pending results. induction l as [|[s [slot|]] l IH]; intros pending results Hd; cbn [take_bulk_statuses landed].
  - exists pending, results. naive_solver.
  - case_bool_decide as Hs.
    + rewrite (Hd s Hs). destruct (IH (pending ∖ {[s]}) (<[s := Success send_slot slot placeholder_time]> results))
        as (p' & r' & -> & H1 & H2 & H3).
      { intros sig Hsig. rewrite lookup_insert_ne by set_solver. apply Hd. set_solver. }
      exists p', r'. split_and!; [done| | |].
      * intros sig. rewrite H1. destruct (Z.eqb_spec s sig); set_solver.
      * intros sig slot' Hin. destruct (Z.eqb_spec s sig) as [->|Hne].
        -- intros [= <-]. rewrite H3 by set_solver. by rewrite lookup_insert_eq.
        -- intros Hl. apply H2; [set_solver|done].
      * intros sig Hin. rewrite H3 by set_solver. rewrite lookup_insert_ne; [done|]. set_solver.
    + destruct (IH pending results Hd) as (p' & r' & -> & H1 & H2 & H3). exists p', r'. split_and!; [done| | |done].
      * intros sig. rewrite H1. destruct (Z.eqb_spec s sig); naive_solver.
      * intros sig slot' Hin. destruct (Z.eqb_spec s sig); [naive_solver|]. by apply H2.
  - apply IH, Hd.
Qed.

Lemma foldl_insert_lookup {V} (v : V) l (m : gmap Signature V) sig :
  foldl (fun m s => <[s := v]> m) m l !! sig = if decide (sig ∈ l) then Some v else m !! sig.
Proof.
  revert m. induction l as [|x l IH]; intros m; [done|]. cbn [foldl]. rewrite IH.
  destruct (decide (sig = x)) as [->|Hne].
  - rewrite lookup_insert_eq. rewrite (decide_True (P := x ∈ x :: l)) by set_solver. by case_decide.
  - rewrite lookup_insert_ne by done. do 2 case_decide; set_solver.
Qed.

Lemma bulk_results_spec results sigs sent (c : Signature -> ConfirmationResponseFromRpc string) :
  length sigs = length sent -> (forall s, s ∈ sent -> results !! s = Some (c s)) ->
  bulk_results results sigs (Ok <$> sent) = Done ((fun s => (s, c s)) <$> sent).
Proof.
  revert sigs. induction sent as [|s sent IH]; intros [|x sigs] Hl Hc; try done. cbn.
  rewrite Hc by set_solver. cbn. rewrite IH; [done|cbn in Hl; lia|]. set_solver.
Qed.

Lemma filter_ok_all {A} (l : list A) :
  filter (fun r : result string A => is_ok r = true) (Ok <$> l) = Ok <$> l /\
  filter (fun r : result string A => is_ok r = false) (Ok <$> l) = [] /\
  omap (fun r : result string A => match r with Ok s => Some s | Err _ => None end) (Ok <$> l) = l.
Proof.
  induction l as [|x l (IH1 & IH2 & IH3)]; [done|]. rewrite fmap_cons, filter_cons_True, filter_cons_False by done.
  rewrite IH1, IH2. cbn. by rewrite IH3.
Qed.

Lemma bulk_exact get_slot send after statuses elapsed sigs send_slot after_slot sent tx_statuses :
  poll_next_slot_start get_slot = Ok send_slot -> after = Ok after_slot -> imap send sigs = Ok <$> sent ->
  statuses sigs = Ok tx_statuses -> length tx_statuses = length sigs ->
  send_and_confirm_bulk_transactions get_slot send after statuses elapsed sigs =
  if decide (NoDup sent) then Done (Ok ((fun s => (s, confirmation send_slot elapsed (zip sigs tx_statuses) s)) <$> sent))
  else Panic.
Proof.
  intros Hp -> Hsend Hst Hlen. unfold send_and_confirm_bulk_transactions. rewrite Hp, Hsend, Hst. cbv zeta.
  destruct (filter_ok_all sent) as (-> & -> & ->). rewrite length_fmap. cbn [length Nat.ltb Nat.leb].
  assert (length sigs = length sent) as Hls by (rewrite <- (length_imap send), Hsend; apply length_fmap).
  rewrite (bool_decide_false (length tx_statuses <> length sigs)) by naive_solver.
  case_bool_decide as Hsize; destruct (decide (NoDup sent)) as [Hnd|Hnd];
    [by apply size_list_to_set_NoDup in Hnd|done| |by rewrite size_list_to_set_NoDup in Hsize; naive_solver].
  destruct (take_bulk_statuses_spec send_slot (zip sigs tx_statuses) (list_to_set sent) ∅) as (p' & r' & -> & H1 & H2 & _);
    [intros; apply lookup_empty|].
  cbn [mbind outcome_bind]. rewrite (bulk_results_spec _ _ _ (confirmation send_slot elapsed (zip sigs tx_statuses))); [done|done|].
  intros s Hs. unfold time_out_pending, confirmation. cbn [result_status_map pending_status_set]. rewrite foldl_insert_lookup.
  destruct (landed (zip sigs tx_statuses) s) as [slot|] eqn:El.
  - rewrite decide_False; [apply H2; set_solver|]. rewrite elem_of_elements, H1. naive_solver.
  - rewrite decide_True; [done|]. rewrite elem_of_elements, H1. set_solver.
Qed.

(** When every transaction could be sent and the server answers one status
    per signature, [send_and_confirm_bulk_transactions] returns one entry for
    each sent signature, in the order of the transactions: a success with the
    slot of the first status reported for the signature, or a timeout when none
    was; it panics exactly when the server returned a signature twice. *)
Theorem bulk_confirmation_exact get_slot send after statuses elapsed sigs send_slot after_slot sent tx_statuses :
  poll_next_slot_start get_slot = Ok send_slot -> after = Ok after_slot -> imap send sigs = Ok <$> sent ->
  statuses sigs = Ok tx_statuses -> length tx_statuses = length sigs ->
  send_and_confirm_bulk_transactions get_slot send after statuses elapsed sigs =
  if decide (NoDup sent) then Done (Ok ((fun s => (s, confirmation send_slot elapsed (zip sigs tx_statuses) s)) <$> sent))
  else Panic.
Proof. apply bulk_exact. Qed.

Lemma bulk_confirmation_exact_witness :
  send_and_confirm_bulk_transactions (fun i => Ok (Z.of_nat i)) (fun _ s => Ok s) (Ok 3)
    (fun sigs => Ok ((fun s => if s =? 11 then Some 5 else None) <$> sigs)) 77 [11; 12] =
  Done (Ok [(11, Success 2 5 placeholder_time); (12, Timeout 77)]).
Proof.
  rewrite (bulk_confirmation_exact _ _ _ _ 77 [11; 12] 2 3 [11; 12] [Some 5; None]) by (vm_compute; reflexivity).
  vm_compute. reflexivity.
Defined.

(** A transaction that could not be sent aborts the batch, so that a
    [SendError] is never returned. *)
Lemma bulk_send_failure get_slot send after statuses elapsed sigs send_slot after_slot :
  poll_next_slot_start get_slot = Ok send_slot -> after = Ok after_slot ->
  (exists r, r ∈ imap send sigs /\ is_ok r = false) ->
  send_and_confirm_bulk_transactions get_slot send after statuses elapsed sigs = Done (Err FailedToSendAll).
Proof.
  intros Hp -> (r & Hin & Hr). unfold send_and_confirm_bulk_transactions. rewrite Hp. cbv zeta.
  assert (filter (fun r => is_ok r = false) (imap send sigs) <> []) as Hne.
  { intros He. apply (not_elem_of_nil r). rewrite <- He. by apply list_elem_of_filter. }
  by destruct (filter _ (imap send sigs)).
Qed.

(** ** Polling for the start of a slot *)

(** The answer [i] is the slot after that of the answer before it. *)
Definition slot_starts (get_slot : nat -> result string Slot) (i : nat) : Prop :=
  exists last, get_slot (i - 1)%nat = Ok last /\ get_slot i = Ok (last +64 1)%rpc.

Lemma poll_from_spec get_slot fuel i last :
  get_slot (i - 1)%nat = Ok last -> (1 <= i)%nat ->
  match poll_from get_slot fuel i (Some last) with
  | Ok slot => exists j, (i <= j < i + fuel)%nat /\ slot_starts get_slot j /\ get_slot j = Ok slot /\
      forall k, (i <= k < j)%nat -> ~ slot_starts get_slot k
  | Err (RpcFailed e) => exists j, (i <= j < i + fuel)%nat /\ get_slot j = Err e
  | Err TimeoutWaitingForSlot => forall k, (i <= k < i + fuel)%nat -> ~ slot_starts get_slot k
  | Err _ => False
  end.
Proof.
  revert i last. induction fuel as [|fuel IH]; intros i last Hlast Hi; cbn [poll_from]; [lia|].
  destruct (get_slot i) as [slot|e] eqn:E; [|exists i; split; [lia|done]].
  assert (slot_starts get_slot i <-> (last +64 1)%rpc = slot) as Hst.
  { unfold slot_starts. rewrite Hlast, E. split; [by intros (? & [= ->] & [= ->])|intros <-; eauto]. }
  destruct (Z.eqb_spec (last +64 1)%rpc slot) as [He|He].
  - exists i. split; [lia|]. split; [by apply Hst|]. split; [done|lia].
  - assert (~ slot_starts get_slot i) as Hn by (by rewrite Hst). specialize (IH (S i) slot).
    replace (S i - 1)%nat with i in IH by lia. specialize (IH E ltac:(lia)).
    destruct (poll_from _ _ _ _) as [slot'|[]]; try done.
    + destruct IH as (j & Hj & Hs & Hg & Hk). exists j. split_and!; [lia..|done|done|].
      intros k Hik. destruct (decide (k = i)) as [->|]; [done|]. apply Hk. lia.
    + destruct IH as (j & Hj & He'). exists j. split; [lia|done].
    + intros k Hk. destruct (decide (k = i)) as [->|]; [done|]. apply IH. lia.
Qed.

Lemma poll_from_first get_slot fuel :
  poll_from get_slot (S fuel) 1 None =
  match get_slot 1%nat with Err e => Err (RpcFailed e) | Ok slot => poll_from get_slot fuel 2 (Some slot) end.
Proof. done. Qed.

(** [poll_next_slot_start] returns after at most 500 requests: the first
    slot that is the successor of the slot of the request before it, an error
    of the server, or a timeout when none of the 500 answers is such a
    successor (a skipped slot does not count as a start). *)
Theorem poll_next_slot_start_spec get_slot :
  match poll_next_slot_start get_slot with
  | Ok slot => exists j, (2 <= j <= 500)%nat /\ slot_starts get_slot j /\ get_slot j = Ok slot /\
      forall k, (2 <= k < j)%nat -> ~ slot_starts get_slot k
  | Err (RpcFailed e) => exists j, (1 <= j <= 500)%nat /\ get_slot j = Err e
  | Err TimeoutWaitingForSlot => forall k, (2 <= k <= 500)%nat -> ~ slot_starts get_slot k
  | Err _ => False
  end.
Proof.
  unfold poll_next_slot_start. rewrite (poll_from_first get_slot 499).
  destruct (get_slot 1%nat) as [slot|e] eqn:E; [|exists 1%nat; split; [lia|done]].
  pose proof (poll_from_spec get_slot 499 2 slot E ltac:(lia)) as H.
  destruct (poll_from _ _ _ _) as [slot'|[]]; try done.
  - destruct H as (j & Hj & H). exists j. split; [lia|done].
  - destruct H as (j & Hj & H). exists j. split; [lia|done].
  - intros k Hk. apply H. lia.
Qed.

(** ** The first status stays *)

Section first_status.
Context {Tx Status : Type} (satisfies : Status -> bool) (send : nat -> Tx -> result string Signature).
(** What the server knows of a signature at every try. *)
Variable ans : nat -> Signature -> option Status.

(** The first status the server reported in the first [n] tries. *)
Fixpoint first_status (n : nat) (sig : Signature) : option Status :=
  match n with
  | O => None
  | S n => match first_status n sig with Some st => Some st | None => ans n sig end
  end.

Lemma first_status_stays n m sig st : (n <= m)%nat -> first_status n sig = Some st -> first_status m sig = Some st.
Proof. induction 1; [done|]. intros H'. cbn. by rewrite IHle. Qed.

Lemma take_statuses_first n sigs :
  take_statuses (first_status n <$> sigs) (ans n <$> unanswered sigs (first_status n <$> sigs)) =
  Done (first_status (S n) <$> sigs).
Proof.
  induction sigs as [|sig sigs IH]; [done|]. unfold unanswered in *.
  cbn [fmap list_fmap zip zip_with take_statuses omap list_omap first_status] in *.
  destruct (first_status n sig) as [st|]; cbn [take_statuses fmap list_fmap]; by rewrite IH.
Qed.

Lemma confirm_tries_first gss fuel n sigs :
  (forall k l, gss k l = Ok (ans k <$> l)) ->
  exists m, (n <= m <= n + fuel)%nat /\
    confirm_tries satisfies gss fuel n sigs (first_status n <$> sigs) = Done (Ok (first_status m <$> sigs)) /\
    ((m < n + fuel)%nat -> all_satisfied satisfies (first_status m <$> sigs) = true) /\
    (forall k, (n < k < m)%nat -> all_satisfied satisfies (first_status k <$> sigs) = false).
Proof.
  intros Hans. revert n. induction fuel as [|fuel IH]; intros n; cbn [confirm_tries].
  - exists n. split_and!; [lia..|done|lia|lia].
  - rewrite Hans, take_statuses_first. cbn [mbind outcome_bind].
    destruct (all_satisfied satisfies (first_status (S n) <$> sigs)) eqn:E.
    + exists (S n). split_and!; [lia..|done|done|lia].
    + destruct (IH (S n)) as (m & Hm & Hr & Hs & Hk). exists m. split_and!; [lia..|done|intros; apply Hs; lia|].
      intros k Hnk. destruct (decide (k = S n)) as [->|]; [done|]. apply Hk. lia.
Qed.

End first_status.

(** [send_and_confirm_transactions], when every transaction could be sent
    and the server answers one status per signature: it asks at most [tries]
    times (five by default), stops early exactly when every transaction has a
    status that satisfies the commitment, and returns for every transaction the
    first status that was reported.  A status once reported is not asked for
    again: a transaction first seen at a lower commitment is returned with that,
    however far it is confirmed by then. *)
Theorem send_and_confirm_first_status {Tx Status} (satisfies : Status -> bool) (send : nat -> Tx -> result string Signature)
    (gss : nat -> list Signature -> result string (list (option Status))) (ans : nat -> Signature -> option Status)
    (txs : list Tx) (sigs : list Signature) (tries : option nat) :
  (forall k l, gss k l = Ok (ans k <$> l)) -> imap send txs = Ok <$> sigs ->
  exists m, (m <= default 5 tries)%nat /\
    send_and_confirm_transactions satisfies send gss txs tries = Done (Ok (first_status ans m <$> sigs)) /\
    ((m < default 5 tries)%nat -> all_satisfied satisfies (first_status ans m <$> sigs) = true) /\
    (forall k, (0 < k < m)%nat -> all_satisfied satisfies (first_status ans k <$> sigs) = false).
Proof.
  intros Hans Hsend. unfold send_and_confirm_transactions. rewrite Hsend. cbv zeta.
  destruct (filter_ok_all sigs) as (_ & -> & ->). cbn [length Nat.ltb Nat.leb].
  destruct (confirm_tries_first satisfies ans gss (default 5%nat tries) 0 sigs Hans) as (m & Hm & Hr & Hs & Hk).
  exists m. split; [lia|]. split; [|done]. rewrite <- Hr. f_equal. rewrite <- list_fmap_compose. done.
Qed.

(** A transaction that is processed at the first try and confirmed at the
    second is returned as processed, after all tries. *)
Lemma send_and_confirm_first_status_witness :
  exists m, (m <= 5)%nat /\
    send_and_confirm_transactions (fun st => st =? 2) (fun _ tx => Ok tx)
      (fun k (l : list Signature) => Ok ((fun _ => Some (if (k =? 0)%nat then 1 else 2)) <$> l)) [11] None =
    Done (Ok (first_status (fun k _ => Some (if (k =? 0)%nat then 1 else 2)) m <$> [11])).
Proof.
  destruct (send_and_confirm_first_status (fun st => st =? 2) (fun _ tx => Ok tx)
    (fun k (l : list Signature) => Ok ((fun _ => Some (if (k =? 0)%nat then 1 else 2)) <$> l))
    (fun k _ => Some (if (k =? 0)%nat then 1 else 2)) [11] [11] None) as (m & Hm & Hr & _); [done|done|].
  exists m. split; [exact Hm|exact Hr].
Defined.

Lemma lower_commitment_sticks :
  send_and_confirm_transactions (fun st => st =? 2) (fun _ tx => Ok tx)
    (fun k (l : list Signature) => Ok ((fun _ => Some (if (k =? 0)%nat then 1 else 2)) <$> l)) [11] None =
  Done (Ok [Some 1]).
Proof. vm_compute. reflexivity. Qed.

(** ** Confirmation rate *)

Section rate.
Context {Rng Tx : Type} (sdk : MemoSdk Rng Tx) (get_signature : Tx -> Signature).

(** The answers of the server in one run. *)
Record BulkEnv := mkBulkEnv {
  be_blockhash : result string Hash;
  be_slots : nat -> result string Slot;
  be_send : nat -> Signature -> result string Signature;
  be_after : result string Slot;
  be_statuses : list Signature -> result string (list (option Slot));
  be_elapsed : Z;
}.

(** [send_bulk_txs_and_wait], bench/src/benches/confirmation_rate.rs:97-184. *)
Definition send_bulk_txs_and_wait (env : BulkEnv) (payer : Pubkey) (num_txs : nat) (p : BenchmarkTransactionParams) :
    outcome (result BenchError RateMetric) :=
  match be_blockhash env with
  | Err e => Done (Err (RpcFailed e))
  | Ok hash =>
      match generate_txs sdk num_txs payer hash (create_rng sdk None) p with
      | Panic => Panic
      | Done (txs, _) =>
          r ← send_and_confirm_bulk_transactions (be_slots env) (be_send env) (be_after env) (be_statuses env)
                (be_elapsed env) (get_signature <$> txs);
          Done (match r with Ok l => Ok (rate_metric l.*2) | Err e => Err e end)
      end
  end.

(** The loop of [confirmation_rate], bench/src/benches/confirmation_rate.rs:56-87. *)
Fixpoint rate_runs (envs : list BulkEnv) (payer : Pubkey) (num_txs : nat) (p : BenchmarkTransactionParams) :
    outcome (list RateMetric) :=
  match envs with
  | [] => Done []
  | env :: envs =>
      r ← send_bulk_txs_and_wait env payer num_txs p;
      l ← rate_runs envs payer num_txs p;
      Done (match r with Ok stat => stat :: l | Err _ => l end)
  end.

(** [confirmation_rate], bench/src/benches/confirmation_rate.rs:28-95: the
    average that is logged. *)
Definition confirmation_rate (envs : list BulkEnv) (payer : Pubkey) (txs_per_run : nat) (p : BenchmarkTransactionParams) :
    outcome (option RateMetric) :=
  match envs with
  | [] => Panic
  | _ =>
      rpc_results ← rate_runs envs payer txs_per_run p;
      match rpc_results with
      | [] => Done None
      | _ => avg ← calc_stats_avg rpc_results; Done (Some avg)
      end
  end.

(** [benchnew_confirmation_rate_servicerunner], bench/src/service_adapter_new.rs:11-37. *)
Definition benchnew_confirmation_rate_servicerunner (env : BulkEnv) (payer : Pubkey) (tx_count : nat) (size : TxSize)
    (cu_price : Z) : outcome RateMetric :=
  r ← send_bulk_txs_and_wait env payer tx_count (mkTxParams size cu_price);
  Done (match r with Ok m => m | Err _ => rate_metric_default end).

Lemma generate_txs_length n payer hash rng p txs rng' :
  generate_txs sdk n payer hash rng p = Done (txs, rng') -> length txs = n.
Proof.
  revert rng txs rng'. induction n as [|n IH]; intros rng txs rng'; cbn [generate_txs]; [by intros [= <- _]|].
  destruct (create_memo_tx _ _ _ _ _) as [[tx rng1]|]; [|done].
  destruct (generate_txs _ _ _ _ _ _) as [[l rng2]|] eqn:E; [|done]. intros [= <- _]. cbn. f_equal. by eapply IH.
Qed.
End rate.

Lemma no_failure_all_ok {A} (rs : list (result string A)) :
  filter (fun r => is_ok r = false) rs = [] -> exists l, rs = Ok <$> l.
Proof.
  induction rs as [|[a|e] rs IH]; [by exists []| |by rewrite filter_cons_True].
  rewrite filter_cons_False by done. intros (l & ->)%IH. by exists (a :: l).
Qed.

Lemma bulk_ok_inv get_slot send after statuses elapsed sigs l :
  send_and_confirm_bulk_transactions get_slot send after statuses elapsed sigs = Done (Ok l) ->
  exists send_slot sent tx_statuses, NoDup sent /\ length sent = length sigs /\
    l = (fun s => (s, confirmation send_slot elapsed (zip sigs tx_statuses) s)) <$> sent.
Proof.
  intros H. pose proof H as H'. unfold send_and_confirm_bulk_transactions in H'.
  destruct (poll_next_slot_start get_slot) as [send_slot|] eqn:Hp; [|done].
  destruct after as [after_slot|]; [|done]. cbv zeta in H'.
  destruct (filter (fun r => is_ok r = false) (imap send sigs)) eqn:Hf; [|done].
  apply no_failure_all_ok in Hf as [sent Hsent]. cbn [length Nat.ltb Nat.leb] in H'.
  case_bool_decide; [done|]. destruct (statuses sigs) as [tx_statuses|] eqn:Hst; [|done].
  case_bool_decide as Hl; [done|]. clear H'.
  rewrite (bulk_exact _ _ _ _ _ _ _ _ _ _ Hp eq_refl Hsent Hst Hl) in H.
  case_decide; [|done]. injection H as <-. exists send_slot, sent, tx_statuses. split_and!; [done| |done].
  by rewrite <- (length_imap send sigs), Hsent, length_fmap.
Qed.

Lemma confirmation_is_placeholder send_slot elapsed l sig :
  placeholder (confirmation send_slot elapsed l sig) /\ is_send_error (confirmation send_slot elapsed l sig) = false.
Proof. unfold confirmation. by destruct (landed l sig). Qed.

Lemma count_none {A} (p : A -> bool) l : Forall (fun x => p x = false) l -> count p l = 0.
Proof. induction 1 as [|x l Hx Hl IH]; [done|]. by rewrite count_cons, Hx, IH. Qed.

(** A run of the confirmation-rate benchmark that returns a metric has sent
    every one of its transactions, counts each as confirmed or unconfirmed, and
    never counts a send error, because one failed send makes the whole run fail;
    and the average confirmation time it reports is that of the placeholder of
    9999 seconds, whatever the transactions took. *)
Theorem rate_run_counts {Rng Tx} (sdk : MemoSdk Rng Tx) (get_signature : Tx -> Signature) (env : BulkEnv)
    (payer : Pubkey) (num_txs : nat) (p : BenchmarkTransactionParams) (m : RateMetric) :
  send_bulk_txs_and_wait sdk get_signature env payer num_txs p = Done (Ok m) -> Z.of_nat num_txs < u64_size ->
  rm_txs_sent m = Z.of_nat num_txs /\ rm_txs_confirmed m + rm_txs_un_confirmed m = Z.of_nat num_txs /\
  rm_txs_send_errors m = 0 /\
  rm_average_confirmation_time m =
  if 0 <? rm_txs_confirmed m
  then f32_div (f32_mul (as_secs_f32 (placeholder_time * rm_txs_confirmed m)) (f32_of_Z 1000)) (f32_of_Z (rm_txs_confirmed m))
  else f_zero.
Proof.
  unfold send_bulk_txs_and_wait. destruct (be_blockhash env) as [hash|]; [|done].
  destruct (generate_txs _ _ _ _ _ _) as [[txs rng]|] eqn:Hg; [|done]. apply generate_txs_length in Hg.
  destruct (send_and_confirm_bulk_transactions _ _ _ _ _ _) as [[l|]|] eqn:Hb; cbn [mbind outcome_bind]; [|done..].
  intros [= <-] Hn. apply bulk_ok_inv in Hb as (send_slot & sent & sts & _ & Hlen & ->).
  rewrite length_fmap, Hg in Hlen. rewrite <- list_fmap_compose. unfold compose. cbn [snd].
  set (rs := (fun s => confirmation _ _ _ s) <$> sent).
  assert (Z.of_nat (length rs) = Z.of_nat num_txs) as Hrs by (unfold rs; rewrite length_fmap; lia).
  destruct (rate_metric_counts rs) as (H1 & H2 & H3 & H4); [lia|].
  pose proof (count_partition rs). assert (count is_send_error rs = 0) as Hne.
  { apply count_none, Forall_fmap, Forall_forall. intros s _. apply confirmation_is_placeholder. }
  split_and!; [lia..|]. apply average_confirmation_time_is_placeholder; [|lia].
  apply Forall_fmap, Forall_forall. intros s _. apply confirmation_is_placeholder.
Qed.

(** A source of characters and an SDK that sign everything: the transaction is
    its memo. *)
Definition sample_memo_sdk : MemoSdk Z Z :=
  mkMemoSdk Z Z (fun seed => seed) (fun rng => (rng, rng + 1)) (fun rng i => rng + Z.of_nat i)
    (fun _ ixs _ _ => match ixs with [_; _; Memo msg _] => head msg | _ => None end).

Definition sample_bulk_env : BulkEnv :=
  mkBulkEnv (Ok 5) (fun i => Ok (Z.of_nat i)) (fun _ s => Ok s) (Ok 3)
    (fun sigs => Ok ((fun s => if s =? 0 then Some 5 else None) <$> sigs)) 77.

Lemma rate_run_counts_witness :
  exists m, send_bulk_txs_and_wait sample_memo_sdk id sample_bulk_env 1 2 (mkTxParams Small 300) = Done (Ok m) /\
    rm_txs_confirmed m = 1 /\ rm_txs_sent m = 2.
Proof.
  eexists. split; [vm_compute; reflexivity|]. split; [reflexivity|].
  refine (proj1 (rate_run_counts sample_memo_sdk id sample_bulk_env 1 2 (mkTxParams Small 300) _ _ _));
    [vm_compute; reflexivity|done].
Defined.

(** ** Confirmation slot *)

(** The delays of the two senders, [confirmation_slot],
    bench/src/benches/confirmation_slot.rs:96-101. *)
Definition delays (time_a time_b : f64) : f64 * f64 :=
  let one_way_delay := f64_div (SFabs (f64_sub time_a time_b)) (f64_of_Z 2) in
  if f_lt time_b time_a then (f_zero, one_way_delay) else (one_way_delay, f_zero).

(** [send_and_confirm_transaction], bench/src/benches/confirmation_slot.rs:167-187. *)
Definition send_and_confirm_transaction (get_slot : nat -> result string Slot)
    (send : nat -> Signature -> result string Signature) (after : result string Slot)
    (statuses : list Signature -> result string (list (option Slot))) (elapsed : Z) (sig : Signature) :
    outcome (result BenchError (ConfirmationResponseFromRpc string)) :=
  r ← send_and_confirm_bulk_transactions get_slot send after statuses elapsed [sig];
  match r with
  | Err e => Done (Err e)
  | Ok result_vec => match result_vec with [(_, c)] => Done (Ok c) | _ => Panic end
  end.

(** What a run logs: after how many slots either transaction landed,
    [confirmation_slot], bench/src/benches/confirmation_slot.rs:117-135; an error of either
    ends the benchmark. *)
Definition compare_slots (a b : result BenchError (ConfirmationResponseFromRpc string)) :
    result BenchError (option (Z * Z)) :=
  a_result ← a;
  b_result ← b;
  match a_result, b_result with
  | Success a_sent a_confirmed _, Success b_sent b_confirmed _ =>
      Ok (Some ((a_confirmed -64 a_sent)%rpc, (b_confirmed -64 b_sent)%rpc))
  | _, _ => Ok None
  end.

(** The assertion that there is one result holds: the only way to panic is an
    answer of the server that has not one status. *)
Lemma single_transaction_result get_slot send after statuses elapsed sig :
  match send_and_confirm_transaction get_slot send after statuses elapsed sig with
  | Panic => exists l, statuses [sig] = Ok l /\ length l <> 1%nat
  | Done (Ok c) => is_send_error c = false
  | Done (Err _) => True
  end.
Proof.
  unfold send_and_confirm_transaction.
  destruct (send_and_confirm_bulk_transactions _ _ _ _ _ _) as [[l|e]|] eqn:Hb; cbn [mbind outcome_bind]; [|done|].
  - apply bulk_ok_inv in Hb as (send_slot & sent & sts & _ & Hlen & ->).
    destruct sent as [|s [|]]; [done| |done]. cbn. apply confirmation_is_placeholder.
  - pose proof Hb as H. unfold send_and_confirm_bulk_transactions in H.
    destruct (poll_next_slot_start get_slot) as [send_slot|] eqn:Hp; [|done].
    destruct after as [after_slot|]; [|done]. cbv zeta in H.
    destruct (filter (fun r => is_ok r = false) (imap send [sig])) eqn:Hf; [|done].
    apply no_failure_all_ok in Hf as [sent Hsent].
    assert (length sent = 1%nat) as Hl1 by (rewrite <- (length_fmap (Ok (E := string))), <- Hsent; done).
    assert (NoDup sent) as Hnd by (destruct sent as [|s [|]]; [done|apply NoDup_singleton|done]).
    rewrite Hsent in H. destruct (filter_ok_all sent) as (E1 & E2 & E3). rewrite E1, E3, length_fmap in H.
    cbn [length Nat.ltb Nat.leb] in H. rewrite bool_decide_false in H by (rewrite (proj2 (size_list_to_set_NoDup sent) Hnd); naive_solver).
    destruct (statuses [sig]) as [tx_statuses|] eqn:Hst; [|done].
    exists tx_statuses. split; [done|]. intros Hl.
    rewrite (bulk_exact _ _ _ _ _ [sig] _ _ _ _ Hp eq_refl Hsent Hst Hl) in Hb. by rewrite decide_True in Hb.
Qed.

(** ** API load *)

(** The loop of [api_load], bench/src/benches/api_load.rs:37-56: [elapsed] are
    the milliseconds at the heads of the loop; it returns how many transactions
    were started. *)
Fixpoint api_load_txs (test_duration_ms : Z) (elapsed : list Z) : Z :=
  match elapsed with
  | [] => 0
  | e :: elapsed => if e <? test_duration_ms then 1 + api_load_txs test_duration_ms elapsed else 0
  end.

(** [calls_per_second], [api_load], bench/src/benches/api_load.rs:58-58. *)
Definition calls_per_second (txs test_duration_ms : Z) : f64 :=
  f64_div (f64_of_Z txs) (f64_mul (f64_of_Z test_duration_ms) (f64_of_Z 1000)).

(** The rate that is logged is a millionth of the rate: 5000 calls in ten
    seconds are 500 per second, and logged as 0.0005. *)
Lemma calls_per_second_off :
  calls_per_second 5000 10000 = f64_dec 5 4 /\ f64_div (f64_of_Z 5000) (f64_of_Z 10) = f64_of_Z 500.
Proof. split; vm_compute; reflexivity. Qed.
