(* ===== verification/Bench1.v ===== *)
(** * The concurrent benchmark

    bench/src/bench1.rs with bench/src/service_adapter1.rs and bench/src/main.rs:
    a task sends the transactions and puts them in a shared map, the caller
    polls the statuses of what is in the map and takes the confirmed ones out of
    it, and another task keeps the current slot.  The system is a sequence of
    atomic actions of the three, in any order. *)

From Stdlib Require Import SpecFloat.
From S2P Require Import Prelude Types Floats Metrics Bench.

Open Scope Z_scope.

(** [TransactionSize], bench/src/bench1.rs:161-167. *)
Inductive TransactionSize := TsSmall | TsLarge.

(** [n_chars], [bench], bench/src/bench1.rs:53-56. *)
Definition n_chars (s : TransactionSize) : nat := match s with TsSmall => 10%nat | TsLarge => 232%nat end.

(** [TxSendData], bench/src/bench1.rs:19-25. *)
Record TxSendData := mkTxSendData {
  sd_sent_duration : Z;
  sd_sent_instant : Z;
  sd_sent_slot : Slot;
  sd_transaction_bytes : Z;
}.

(** Where the polling loop is: at its head, waiting for the statuses of the
    signatures it collected, going through them, or past the loop. *)
Inductive Poller :=
| AtHead
| Awaiting (signatures : list Signature)
| Taking (signatures : list Signature) (statuses : list bool)
| Finished.

#[export] Instance Poller_eq_dec : EqDecision Poller.
Proof. solve_decision. Defined.

Record BenchSys := mkBenchSys {
  map_of_txs : gmap Signature TxSendData;
  metric : Metric;
  confirmed_count : Z;
  current_slot : Slot;
  tx_log : list TxMetricData;
  poller : Poller;
}.

Definition bench_init (slot : Slot) : BenchSys := mkBenchSys ∅ metric_default 0 slot [] AtHead.

(** The atomic actions: the sender's request returned, the slot was updated,
    the loop's head was reached [elapsed] nanoseconds after the start, the
    statuses arrived ([true] for a status that is present), and the next
    signature is looked at, at the instant [now]. *)
Inductive BenchAction :=
| Sent (signature : Signature) (start_time now transaction_bytes : Z)
| SendFailed
| SlotUpdated (slot : Slot)
| HeadReached (elapsed : Z)
| StatusesArrived (r : result string (list bool))
| NextSignature (now : Z).

(** The sender, [bench], bench/src/bench1.rs:78-93. *)
Definition do_sent (s : BenchSys) (signature : Signature) (start_time now bytes : Z) : BenchSys :=
  mkBenchSys (<[signature := mkTxSendData (now - start_time) now (current_slot s) bytes]> (map_of_txs s))
    (metric s) (confirmed_count s) (current_slot s) (tx_log s) (poller s).

Definition with_poller (s : BenchSys) (p : Poller) : BenchSys :=
  mkBenchSys (map_of_txs s) (metric s) (confirmed_count s) (current_slot s) (tx_log s) p.

(** The transactions that are left when the loop is over, [bench],
    bench/src/bench1.rs:143-145. *)
Definition add_unconfirmed (m : Metric) (txs : gmap Signature TxSendData) : Metric :=
  foldl (fun m e => add_unsuccessful_transaction m (sd_sent_duration e.2) (sd_transaction_bytes e.2)) m (map_to_list txs).

(** The head of the loop, [bench], bench/src/bench1.rs:104-111. *)
Definition do_head (tx_count : Z) (s : BenchSys) (elapsed : Z) : BenchSys :=
  if (elapsed <? from_secs 60) && negb (bool_decide (map_of_txs s = ∅) && (confirmed_count s =? tx_count)) then
    match map_to_list (map_of_txs s) with
    | [] => s
    | l => with_poller s (Awaiting l.*1)
    end
  else
    mkBenchSys (map_of_txs s) (add_unconfirmed (metric s) (map_of_txs s)) (confirmed_count s) (current_slot s) (tx_log s) Finished.

(** A confirmed transaction, [bench], bench/src/bench1.rs:114-139. *)
Definition do_next (log_txs : bool) (s : BenchSys) (now : Z) (signature : Signature) (status : bool) (p : Poller) : outcome BenchSys :=
  if status then
    tx_data ← unwrap (map_of_txs s !! signature);
    let time_to_confirm := now - sd_sent_instant tx_data in
    Done (mkBenchSys (delete signature (map_of_txs s))
      (add_successful_transaction (metric s) (sd_sent_duration tx_data) time_to_confirm (sd_transaction_bytes tx_data))
      (confirmed_count s +64 1)%rpc (current_slot s)
      (tx_log s ++ if log_txs then [mkTxMetricData signature (sd_sent_slot tx_data) (current_slot s)
                                      (wrap_u64 (as_millis (sd_sent_duration tx_data))) (wrap_u64 (as_millis time_to_confirm))]
                   else [])
      p)
  else Done (with_poller s p).

(** [bench], bench/src/bench1.rs:31-156: one action; an action that the loop
    does not wait for has no effect. *)
Definition bench_step (tx_count : Z) (log_txs : bool) (s : BenchSys) (a : BenchAction) : outcome BenchSys :=
  match a, poller s with
  | Sent signature start_time now bytes, _ => Done (do_sent s signature start_time now bytes)
  | SendFailed, _ => Done s
  | SlotUpdated slot, _ => Done (mkBenchSys (map_of_txs s) (metric s) (confirmed_count s) slot (tx_log s) (poller s))
  | HeadReached elapsed, AtHead => Done (do_head tx_count s elapsed)
  | StatusesArrived (Ok statuses), Awaiting signatures => Done (with_poller s (Taking signatures statuses))
  | StatusesArrived (Err _), Awaiting _ => Done (with_poller s AtHead)
  | NextSignature _, Taking [] _ => Done (with_poller s AtHead)
  | NextSignature now, Taking (_ :: _) [] => Panic
  | NextSignature now, Taking (signature :: signatures) (status :: statuses) =>
      do_next log_txs s now signature status (Taking signatures statuses)
  | _, _ => Done s
  end.

Fixpoint bench_run (tx_count : Z) (log_txs : bool) (s : BenchSys) (acts : list BenchAction) : outcome BenchSys :=
  match acts with
  | [] => Done s
  | a :: acts => s ← bench_step tx_count log_txs s a; bench_run tx_count log_txs s acts
  end.

(** The end of the function, [bench], bench/src/bench1.rs:147-155, when the
    sending took [gross_send_time]. *)
Definition finish_bench (m : Metric) (gross_send_time : Z) : Metric :=
  finalize (set_total_gross_send_time m (f64_div (f64_of_Z (as_micros gross_send_time)) (f64_of_Z 1000))).

(** One iteration of the updating task, [bench_servicerunner],
    bench/src/service_adapter1.rs:61-79 (and bench/src/main.rs:67-85). *)
Definition updater_step (s : Hash * Slot) (bh : result string Hash) (slot : result string Slot) : Hash * Slot :=
  (match bh with Ok bh => bh | Err _ => s.1 end, match slot with Ok slot => slot | Err _ => s.2 end).

(** [BenchConfig], bench/src/service_adapter1.rs:20-25. *)
Record BenchConfig := mkBenchConfig { bc_tx_count : Z; bc_tx_size : TxSize; bc_cu_price_micro_lamports : Z }.

(** [transaction_size], [bench_servicerunner], bench/src/service_adapter1.rs:40-43. *)
Definition transaction_size (t : TxSize) : TransactionSize := match t with Small => TsSmall | Large => TsLarge end.

(** [bench_servicerunner], bench/src/service_adapter1.rs:33-102: the benchmark
    and the updating tasks it leaves behind, which loop for ever. *)
Definition bench_servicerunner (bench : Hash -> Slot -> Metric) (bh : result string Hash) (slot : result string Slot)
    (running_updaters : nat) : outcome (Metric * nat) :=
  bh ← expect_ok bh;
  slot ← expect_ok slot;
  Done (bench bh slot, S running_updaters).

(** The results of the runs, [main], bench/src/main.rs:119-145: the rows of the
    metrics file; [None] is a task that panicked. *)
Definition metric_rows (join_res : list (option Metric)) : list Metric :=
  let ok := omap id join_res in
  ok ++ [metric_of_avg (foldl avg_metric_add avg_metric_default ok)].

(** ** Every send is counted once *)

(** The signatures that were sent. *)
Definition sends (acts : list BenchAction) : list Signature :=
  omap (fun a => match a with Sent signature _ _ _ => Some signature | _ => None end) acts.

Definition answer_complete (s : BenchSys) (a : BenchAction) : bool :=
  match a, poller s with
  | StatusesArrived (Ok statuses), Awaiting signatures => (length statuses =? length signatures)%nat
  | _, _ => true
  end.

(** The server answers one status per signature. *)
Fixpoint answers_complete (tx_count : Z) (log_txs : bool) (s : BenchSys) (acts : list BenchAction) : bool :=
  match acts with
  | [] => true
  | a :: acts => answer_complete s a &&
      match bench_step tx_count log_txs s a with Done s => answers_complete tx_count log_txs s acts | Panic => true end
  end.

(** The signatures the loop still goes through are in the map. *)
Definition poller_ok (s : BenchSys) : Prop :=
  match poller s with
  | Awaiting sigs => NoDup sigs /\ Forall (fun sig => is_Some (map_of_txs s !! sig)) sigs
  | Taking sigs sts => NoDup sigs /\ Forall (fun sig => is_Some (map_of_txs s !! sig)) sigs /\ length sts = length sigs
  | _ => True
  end.

(** What the metric says: before the end, what was confirmed; after it, every
    send before it. *)
Definition metric_ok (tx_count : Z) (h : list BenchAction) (s : BenchSys) : Prop :=
  if decide (poller s = Finished) then
    exists h1 e h2, h = h1 ++ HeadReached e :: h2 /\ txs_sent (metric s) = Z.of_nat (length (sends h1)) /\
      (from_secs 60 <= e \/ confirmed_count s = tx_count /\ confirmed_count s = Z.of_nat (length (sends h1)))
  else
    txs_un_confirmed (metric s) = 0 /\ txs_confirmed (metric s) = confirmed_count s /\
    confirmed_count s + Z.of_nat (size (map_of_txs s)) = Z.of_nat (length (sends h)).

Definition bench_inv (tx_count : Z) (h : list BenchAction) (s : BenchSys) : Prop :=
  (forall sig, is_Some (map_of_txs s !! sig) -> sig ∈ sends h) /\ poller_ok s /\ counts_ok (metric s) /\
  metric_ok tx_count h s.

Lemma sends_snoc h a :
  sends (h ++ [a]) = sends h ++ match a with Sent sig _ _ _ => [sig] | _ => [] end.
Proof. unfold sends. rewrite omap_app. by destruct a. Qed.

Lemma sends_length h : (length (sends h) <= length h)%nat.
Proof. unfold sends. induction h as [|[] h IH]; cbn; lia. Qed.

Lemma add_unconfirmed_counts m txs :
  counts_ok m -> txs_sent m + Z.of_nat (size txs) < u64_size ->
  counts_ok (add_unconfirmed m txs) /\ txs_sent (add_unconfirmed m txs) = txs_sent m + Z.of_nat (size txs).
Proof.
  unfold add_unconfirmed. rewrite <- length_map_to_list. generalize (map_to_list txs). intros l.
  revert m. induction l as [|e l IH]; intros m Hm Hl; [cbn; split; [done|lia]|]. cbn [foldl length] in *.
  destruct (IH (add_unsuccessful_transaction m (sd_sent_duration e.2) (sd_transaction_bytes e.2))) as [Hc Hs].
  - apply unsuccessful_counts; [done|lia].
  - destruct Hm as (? & ? & ?). cbn. rewrite wrap_u64_id by (unfold in_u64; lia). lia.
  - split; [done|]. rewrite Hs. destruct Hm as (? & ? & ?). cbn. rewrite wrap_u64_id by (unfold in_u64; lia). lia.
Qed.

Lemma metric_ok_finished_snoc tx_count h a s s' :
  poller s = Finished -> poller s' = Finished -> metric s' = metric s -> confirmed_count s' = confirmed_count s ->
  metric_ok tx_count h s -> metric_ok tx_count (h ++ [a]) s'.
Proof.
  unfold metric_ok. intros H1 H2 -> ->. rewrite !decide_True by done. intros (h1 & e & h2 & -> & ?).
  exists h1, e, (h2 ++ [a]). by rewrite <- app_assoc.
Qed.

Lemma sent_inv tx_count h s sig st now bytes :
  bench_inv tx_count h s -> sig ∉ sends h -> bench_inv tx_count (h ++ [Sent sig st now bytes]) (do_sent s sig st now bytes).
Proof.
  intros (Hdom & Hp & Hc & Hm) Hnew. assert (map_of_txs s !! sig = None) as Hn.
  { destruct (map_of_txs s !! sig) eqn:E; [|done]. destruct Hnew. by apply Hdom. }
  split_and!; [| |done|].
  - intros x. rewrite sends_snoc. cbn. destruct (decide (x = sig)) as [->|]; [set_solver|].
    rewrite lookup_insert_ne by done. intros Hx%Hdom. set_solver.
  - unfold poller_ok, do_sent in *. cbn. destruct (poller s) as [|sigs|sigs sts|]; [done| | |done].
    all: destruct Hp as [Hnd Hp]; split; [done|]; try (destruct Hp as [Hp Hl]; split; [|done]).
    all: eapply Forall_impl; [exact Hp|]; intros x Hx; cbn; rewrite lookup_insert_is_Some'; by right.
  - destruct (decide (poller s = Finished)) as [Hf|Hf]; [by eapply (metric_ok_finished_snoc _ h _ s)|].
    unfold metric_ok in *. cbn [do_sent poller metric confirmed_count map_of_txs]. rewrite decide_False in Hm |- * by done.
    rewrite sends_snoc, length_app, map_size_insert_None by done. destruct Hm as (? & ? & ?). cbn [length].
    split_and!; [done..|lia].
Qed.

(** A change of the loop's position that keeps everything else. *)
Lemma with_poller_inv tx_count h a s p :
  bench_inv tx_count h s -> poller s <> Finished -> p <> Finished -> poller_ok (with_poller s p) ->
  sends (h ++ [a]) = sends h -> bench_inv tx_count (h ++ [a]) (with_poller s p).
Proof.
  intros (Hdom & _ & Hc & Hm) Hf Hp Hok Hs. split_and!; [by rewrite Hs|done|done|].
  unfold metric_ok in *. cbn [with_poller poller metric confirmed_count map_of_txs].
  rewrite decide_False in Hm by done. rewrite decide_False by done. by rewrite Hs.
Qed.

Lemma head_inv tx_count h s elapsed :
  bench_inv tx_count h s -> poller s = AtHead -> Z.of_nat (length h) < u64_size ->
  bench_inv tx_count (h ++ [HeadReached elapsed]) (do_head tx_count s elapsed).
Proof.
  intros Hi Hp Hl. pose proof Hi as (Hdom & _ & Hc & Hm).
  assert (poller s <> Finished) as Hnf by (by rewrite Hp).
  assert (sends (h ++ [HeadReached elapsed]) = sends h) as Hs by (rewrite sends_snoc; apply app_nil_r).
  unfold do_head. destruct (_ && _) eqn:Hcond.
  - destruct (map_to_list (map_of_txs s)) as [|x l] eqn:Hml.
    + destruct s. cbn in Hp. subst. by apply (with_poller_inv _ _ _ _ AtHead Hi).
    + rewrite <- Hml. apply with_poller_inv; [done..| |done]. unfold poller_ok. cbn [with_poller poller map_of_txs].
      split; [apply NoDup_fst_map_to_list|]. apply Forall_forall. intros sig ([? d] & -> & Hin)%list_elem_of_fmap.
      apply elem_of_map_to_list in Hin. by eexists.
  - unfold metric_ok in Hm. rewrite decide_False in Hm by done. destruct Hm as (Hu & Hcf & Hsz).
    pose proof (sends_length h). pose proof Hc as (_ & _ & Hsum).
    destruct (add_unconfirmed_counts (metric s) (map_of_txs s)) as [Hc' Hs']; [done|lia|].
    split_and!; [by rewrite Hs|done|done|]. unfold metric_ok. cbn [poller metric confirmed_count].
    rewrite decide_True by done. exists h, elapsed, []. split_and!; [done|lia|].
    apply andb_false_iff in Hcond as [Ht%Z.ltb_ge|Hn]; [by left|right].
    apply negb_false_iff, andb_true_iff in Hn as [He%bool_decide_eq_true Ht%Z.eqb_eq]. split; [done|].
    rewrite He, map_size_empty in Hsz. lia.
Qed.

Lemma next_inv tx_count log_txs h s now sig status sigs sts :
  bench_inv tx_count h s -> poller s = Taking (sig :: sigs) (status :: sts) -> Z.of_nat (length h) < u64_size ->
  exists s', do_next log_txs s now sig status (Taking sigs sts) = Done s' /\
    bench_inv tx_count (h ++ [NextSignature now]) s'.
Proof.
  intros Hi Hp Hl. pose proof Hi as (Hdom & Hok & Hc & Hm). unfold poller_ok in Hok. rewrite Hp in Hok.
  destruct Hok as (Hnd & Hin & Hlen). apply NoDup_cons in Hnd as [Hnew Hnd]. apply Forall_cons in Hin as [[d Hd] Hin].
  assert (poller s <> Finished) as Hnf by (by rewrite Hp).
  assert (sends (h ++ [NextSignature now]) = sends h) as Hs by (rewrite sends_snoc; apply app_nil_r).
  unfold do_next. destruct status.
  2:{ eexists. split; [done|]. apply with_poller_inv; [done..| |done]. unfold poller_ok. cbn.
      split_and!; [done..|]. cbn in Hlen. lia. }
  rewrite Hd. cbn [unwrap mbind outcome_bind]. eexists. split; [done|].
  unfold metric_ok in Hm. rewrite decide_False in Hm by done. destruct Hm as (Hu & Hcf & Hsz).
  pose proof (sends_length h). pose proof Hc as (? & _ & Hsum).
  assert (size (map_of_txs s) = S (size (delete sig (map_of_txs s)))) as Hsize.
  { rewrite map_size_delete_Some by (by eexists). assert (size (map_of_txs s) <> 0%nat); [|lia].
    intros Hz%map_size_empty_iff. by rewrite Hz, lookup_empty in Hd. }
  split_and!.
  - cbn. intros x. rewrite Hs, lookup_delete_is_Some. naive_solver.
  - unfold poller_ok. cbn. split_and!; [done| |cbn in Hlen; lia]. rewrite Forall_forall in Hin |- *.
    intros x Hx. rewrite lookup_delete_ne; [by apply Hin|]. by intros ->.
  - apply successful_counts; [done|lia].
  - unfold metric_ok. cbn [poller metric confirmed_count map_of_txs]. rewrite decide_False by done.
    cbn [add_successful_transaction txs_un_confirmed txs_confirmed]. rewrite Hs, Hcf.
    rewrite wrap_u64_id by (unfold in_u64; lia). split_and!; [done..|lia].
Qed.

Lemma bench_step_inv tx_count log_txs h s a :
  bench_inv tx_count h s -> NoDup (sends (h ++ [a])) -> Z.of_nat (length h) < u64_size -> answer_complete s a = true ->
  exists s', bench_step tx_count log_txs s a = Done s' /\ bench_inv tx_count (h ++ [a]) s'.
Proof.
  intros Hi Hnd Hl Ha.
  assert (Hstay : (match a with Sent _ _ _ _ => False | _ => True end) -> bench_inv tx_count (h ++ [a]) s).
  { intros Hns. assert (sends (h ++ [a]) = sends h) as Hs by (rewrite sends_snoc; destruct a; [done|apply app_nil_r..]).
    destruct (decide (poller s = Finished)) as [Hf|Hf].
    - destruct Hi as (Hdom & Hok & Hc & Hm). split_and!; [by rewrite Hs|done|done|]. by eapply (metric_ok_finished_snoc _ h _ s).
    - assert (with_poller s (poller s) = s) as <- by (by destruct s). apply with_poller_inv; [done..| |done].
      assert (with_poller s (poller s) = s) as -> by (by destruct s). apply Hi. }
  destruct a as [sig st now bytes| |slot|elapsed|[statuses|e]|now]; cbn [bench_step].
  - eexists. split; [done|]. apply sent_inv; [done|]. rewrite sends_snoc in Hnd.
    apply NoDup_app in Hnd as (_ & Hn & _). intros Hin. apply (Hn sig); set_solver.
  - eauto.
  - eexists. split; [done|]. exact (Hstay I).
  - destruct (poller s) eqn:Hp; eauto. eexists. split; [done|]. by apply head_inv.
  - destruct (poller s) as [|sigs| |] eqn:Hp; eauto. eexists. split; [done|]. unfold answer_complete in Ha. rewrite Hp in Ha.
    apply Nat.eqb_eq in Ha. apply with_poller_inv; [done|by rewrite Hp|done| |rewrite sends_snoc; apply app_nil_r].
    destruct Hi as (_ & Hok & _). unfold poller_ok in *. rewrite Hp in Hok. cbn. by split_and!; try apply Hok.
  - destruct (poller s) as [|sigs| |] eqn:Hp; eauto. eexists. split; [done|].
    apply with_poller_inv; [done|by rewrite Hp|done|done|rewrite sends_snoc; apply app_nil_r].
  - destruct (poller s) as [|sigs|[|sig sigs] [|st sts]|] eqn:Hp; eauto.
    1,2: eexists; split; [done|]; apply with_poller_inv; [done|by rewrite Hp|done|done|rewrite sends_snoc; apply app_nil_r].
    + destruct Hi as (_ & Hok & _). unfold poller_ok in Hok. rewrite Hp in Hok. by destruct Hok as (_ & _ & ?).
    + by apply next_inv.
Qed.

Lemma bench_run_inv tx_count log_txs h s acts :
  bench_inv tx_count h s -> NoDup (sends (h ++ acts)) -> Z.of_nat (length (h ++ acts)) < u64_size ->
  answers_complete tx_count log_txs s acts = true ->
  exists s', bench_run tx_count log_txs s acts = Done s' /\ bench_inv tx_count (h ++ acts) s'.
Proof.
  revert h s. induction acts as [|a acts IH]; intros h s Hi Hnd Hl Ha; cbn [bench_run].
  { exists s. by rewrite app_nil_r. }
  cbn [answers_complete] in Ha. apply andb_true_iff in Ha as [Ha1 Ha2].
  assert (h ++ a :: acts = (h ++ [a]) ++ acts) as Heq by (by rewrite <- app_assoc).
  rewrite Heq in Hnd, Hl |- *.
  assert (NoDup (sends (h ++ [a]))) as Hnd1.
  { unfold sends in *. rewrite omap_app in Hnd. by apply NoDup_app in Hnd as [? _]. }
  destruct (bench_step_inv tx_count log_txs h s a) as (s1 & E1 & Hi1); [done|done| |done|].
  { rewrite !length_app in Hl. lia. }
  rewrite E1 in Ha2 |- *. cbn [mbind outcome_bind]. by apply IH.
Qed.

Lemma bench_inv_init tx_count slot : bench_inv tx_count [] (bench_init slot).
Proof.
  split_and!; [|done|by unfold counts_ok|].
  - cbn. intros sig. rewrite lookup_empty. by intros [].
  - unfold metric_ok. rewrite decide_False by done. cbn. by rewrite map_size_empty.
Qed.

(** C25. In every interleaving of the sender, the updater and the polling loop,
    as long as a signature is sent once and the server answers one status per
    signature, the benchmark does not panic, and its metric is consistent:
    while the loop runs, every send is either confirmed or in the map; once it
    has ended, the metric counts exactly the sends that returned before the
    end, each as confirmed or unconfirmed (later ones are not counted), and the
    loop ended because a minute was over or because all [tx_count] transactions
    were confirmed. *)
Theorem bench_counts_sends (tx_count : Z) (log_txs : bool) (slot : Slot) (acts : list BenchAction) :
  NoDup (sends acts) -> Z.of_nat (length acts) < u64_size ->
  answers_complete tx_count log_txs (bench_init slot) acts = true ->
  exists s, bench_run tx_count log_txs (bench_init slot) acts = Done s /\
    txs_sent (metric s) = txs_confirmed (metric s) + txs_un_confirmed (metric s) /\
    (poller s <> Finished ->
       txs_sent (metric s) = confirmed_count s /\
       confirmed_count s + Z.of_nat (size (map_of_txs s)) = Z.of_nat (length (sends acts))) /\
    (poller s = Finished ->
       exists acts1 elapsed acts2, acts = acts1 ++ HeadReached elapsed :: acts2 /\
         txs_sent (metric s) = Z.of_nat (length (sends acts1)) /\
         (from_secs 60 <= elapsed \/ confirmed_count s = tx_count /\ confirmed_count s = Z.of_nat (length (sends acts1)))).
Proof.
  intros Hnd Hl Ha. destruct (bench_run_inv tx_count log_txs [] (bench_init slot) acts) as (s & Hr & _ & _ & Hc & Hm);
    [apply bench_inv_init|done..|]. exists s. destruct Hc as (? & ? & Hsum). unfold metric_ok in Hm. split_and!; [done|done| |].
  - intros Hf. rewrite decide_False in Hm by done. destruct Hm as (? & ? & ?). split; [lia|done].
  - intros Hf. by rewrite decide_True in Hm.
Qed.

Lemma bench_counts_sends_witness :
  exists s, bench_run 2 true (bench_init 7)
    [Sent 11 0 3 100; HeadReached 5; Sent 12 3 4 100; StatusesArrived (Ok [true]); NextSignature 9; NextSignature 9;
     HeadReached 60000000000; Sent 13 4 5 100] = Done s /\
    txs_sent (metric s) = txs_confirmed (metric s) + txs_un_confirmed (metric s).
Proof.
  edestruct (bench_counts_sends 2 true 7
    [Sent 11 0 3 100; HeadReached 5; Sent 12 3 4 100; StatusesArrived (Ok [true]); NextSignature 9; NextSignature 9;
     HeadReached 60000000000; Sent 13 4 5 100]) as (s & Hr & Hs & _).
  - apply (bool_decide_unpack _). vm_compute. exact I.
  - done.
  - vm_compute. reflexivity.
  - exists s. split; [exact Hr|exact Hs].
Defined.

(** The requests of the sender. *)
Definition requests (acts : list BenchAction) : Z :=
  count (fun a => match a with Sent _ _ _ _ | SendFailed => true | _ => false end) acts.

Lemma requests_sends acts :
  requests acts = Z.of_nat (length (sends acts)) + count (fun a => match a with SendFailed => true | _ => false end) acts.
Proof. unfold requests, sends. induction acts as [|[] acts IH]; [done|..]; rewrite !count_cons; cbn [omap list_omap length]; lia. Qed.

Lemma count_pos {A} (p : A -> bool) l x : x ∈ l -> p x = true -> 0 < count p l.
Proof.
  intros Hx Hp. induction l as [|y l IH]; [by apply not_elem_of_nil in Hx|]. rewrite count_cons.
  pose proof (count_bounds p l). apply elem_of_cons in Hx as [->|Hx]; [rewrite Hp; lia|]. specialize (IH Hx).
  destruct (p y); lia.
Qed.

(** One failed send makes the benchmark wait its full minute: the sender
    makes at most [tx_count] requests, and when one of them failed the loop has
    ended only if it found a minute to be over, even when all that was sent was
    confirmed at once. *)
Theorem bench_waits_after_failed_send (tx_count : Z) (log_txs : bool) (slot : Slot) (acts : list BenchAction) s :
  NoDup (sends acts) -> Z.of_nat (length acts) < u64_size ->
  answers_complete tx_count log_txs (bench_init slot) acts = true ->
  requests acts <= tx_count -> SendFailed ∈ acts ->
  bench_run tx_count log_txs (bench_init slot) acts = Done s -> poller s = Finished ->
  exists elapsed, HeadReached elapsed ∈ acts /\ from_secs 60 <= elapsed.
Proof.
  intros Hnd Hl Ha Hreq Hfail Hr Hf.
  destruct (bench_run_inv tx_count log_txs [] (bench_init slot) acts) as (s' & Hr' & _ & _ & _ & Hm);
    [apply bench_inv_init|done..|]. rewrite Hr in Hr'. injection Hr' as <-. unfold metric_ok in Hm.
  rewrite decide_True in Hm by done. destruct Hm as (h1 & e & h2 & Heq & _ & [He|[Hc1 Hc2]]).
  - exists e. split; [|done]. cbn in Heq. rewrite Heq. set_solver.
  - exfalso. rewrite requests_sends in Hreq. cbn in Heq.
    pose proof (count_pos (fun a => match a with SendFailed => true | _ => false end) acts SendFailed Hfail eq_refl).
    assert (length (sends h1) <= length (sends acts))%nat; [|lia].
    rewrite Heq. unfold sends. rewrite omap_app, length_app. lia.
Qed.

Lemma bench_waits_after_failed_send_witness :
  exists elapsed, HeadReached elapsed ∈
    [Sent 11 0 3 100; SendFailed; HeadReached 5; StatusesArrived (Ok [true]); NextSignature 9; NextSignature 9;
     HeadReached 10; HeadReached 60000000000] /\ from_secs 60 <= elapsed.
Proof.
  eapply (bench_waits_after_failed_send 2 false 7 _ _).
  - apply (bool_decide_unpack _). vm_compute. exact I.
  - done.
  - vm_compute. reflexivity.
  - vm_compute. discriminate.
  - set_solver.
  - vm_compute. reflexivity.
  - reflexivity.
Defined.

(** ** The command line of the other benchmarks *)

(** [SubCommand], bench/src/benchnew.rs:22-87; the optional arguments that
    have a default value have it. *)
Inductive SubCommand :=
| ApiLoad (payer_path rpc_url : string) (test_duration_ms cu_price : Z)
| ConfirmationRate (payer_path rpc_url : string) (rpc_supportive : option string) (size_tx : TxSize) (max_timeout_ms : Z)
    (txs_per_run num_of_runs : nat) (cu_price : Z)
| ConfirmationSlot (payer_path rpc_a rpc_b : string) (rpc_supportive : option string) (size_tx : TxSize) (max_timeout_ms : Z)
    (num_of_runs : nat) (cu_price : Z) (ping_thing_token : option string).

(** The calls of the benchmarks. *)
Inductive BenchCall :=
| CallApiLoad (payer_path rpc_url : string) (test_duration_ms cu_price : Z)
| CallConfirmationRate (payer_path rpc_url supportive : string) (p : BenchmarkTransactionParams) (max_timeout : Z)
    (txs_per_run num_of_runs : nat)
| CallConfirmationSlot (payer_path rpc_a rpc_b supportive : string) (p : BenchmarkTransactionParams) (max_timeout : Z)
    (num_of_runs : nat) (ping_thing : option (PingThingCluster * string)).

(** [main], bench/src/benchnew.rs:97-165: the call a command leads to; an error
    of the benchmark panics. *)
Definition benchnew_call (s : SubCommand) : BenchCall :=
  match s with
  | ApiLoad payer_path rpc_url test_duration_ms cu_price => CallApiLoad payer_path rpc_url test_duration_ms cu_price
  | ConfirmationRate payer_path rpc_url rpc_supportive size_tx max_timeout_ms txs_per_run num_of_runs cu_price =>
      CallConfirmationRate payer_path rpc_url (default rpc_url rpc_supportive) (mkTxParams size_tx cu_price)
        (from_millis max_timeout_ms) txs_per_run num_of_runs
  | ConfirmationSlot payer_path rpc_a rpc_b rpc_supportive size_tx max_timeout_ms num_of_runs cu_price ping_thing_token =>
      CallConfirmationSlot payer_path rpc_a rpc_b (default rpc_b rpc_supportive) (mkTxParams size_tx cu_price)
        (from_millis max_timeout_ms) num_of_runs ((fun t => (Mainnet, t)) <$> ping_thing_token)
  end.

Definition benchnew_main (bench : BenchCall -> result string unit) (s : SubCommand) : outcome unit :=
  match bench (benchnew_call s) with Ok _ => Done () | Err _ => Panic end.
