(* ===== verification/BenchRunner.v ===== *)
(** * The benchmark service

    benchrunner-service/src: the configuration of the tenants from the
    environment (args.rs), the task of a tenant that runs one benchmark after
    another with changing parameters (main.rs), and what it writes to the
    database (postgres/metrics_dbstore.rs, postgres/postgres_session.rs).  The benchmarks are those of
    Bench and Bench1, here by their outcome; a panic ends the tenant's task. *)

From Stdlib Require Import SpecFloat.
From S2P Require Import Prelude Types Floats Metrics Bench Bench1 PgSession.

Open Scope string_scope.
Open Scope list_scope.
Open Scope Z_scope.

(** ** Tenants *)

(** [TenantConfig], benchrunner-service/src/args.rs:4-9. *)
Record TenantConfig := mkTenantConfig { tenant_id : string; rpc_addr : string }.

Definition underscore : Ascii.ascii := Ascii.ascii_of_nat 95.

(** [k.split('_').next()]: up to the first underscore. *)
Fixpoint until_underscore (s : string) : string :=
  match s with
  | EmptyString => EmptyString
  | String c s => if Ascii.eqb c underscore then EmptyString else String c (until_underscore s)
  end.

(** [s.replace(p, "")] for a pattern that is not empty. *)
Fixpoint remove_fuel (fuel : nat) (p s : string) : string :=
  match fuel with
  | O => s
  | S fuel =>
      match strip_prefix p s with
      | Some s' => remove_fuel fuel p s'
      | None => match s with EmptyString => EmptyString | String c s => String c (remove_fuel fuel p s) end
      end
  end.
Definition remove (p s : string) : string := remove_fuel (S (String.length s)) p s.

Definition u32_size : Z := 4294967296.

(** [str::parse::<u32>]. *)
Definition parse_u32 (s : string) : option Z := n ← parse_u64 s; if n <? u32_size then Some n else None.

Definition TENANT : string := "TENANT".

(** The number in the name of a variable, [read_tenant_configs],
    benchrunner-service/src/args.rs:22-31. *)
Definition tenant_counter (k : string) : outcome Z := unwrap (parse_u32 (remove TENANT (until_underscore k))).

(** The variables of the tenants, with their numbers. *)
Fixpoint tenant_vars (env_vars : list (string * string)) : outcome (list (Z * (string * string))) :=
  match env_vars with
  | [] => Done []
  | (k, v) :: env_vars =>
      match strip_prefix TENANT k with
      | Some _ => tc ← tenant_counter k; l ← tenant_vars env_vars; Done ((tc, (k, v)) :: l)
      | None => tenant_vars env_vars
      end
  end.

(** The groups in the order of their numbers. *)
Definition tenant_counters (vars : list (Z * (string * string))) : list Z :=
  merge_sort Z.le (remove_dups vars.*1).

Definition find_var (name : string) (vars : list (string * string)) : outcome string :=
  unwrap (snd <$> (list_find (fun e => e.1 = name) vars ≫= fun x => Some x.2)).

Definition id_name (tc : Z) : string := (TENANT ++ decimal tc ++ "_ID")%string.
Definition addr_name (tc : Z) : string := (TENANT ++ decimal tc ++ "_RPC_ADDR")%string.

(** The configuration of one group, [read_tenant_configs],
    benchrunner-service/src/args.rs:36-53. *)
Definition tenant_config (vars : list (Z * (string * string))) (tc : Z) : outcome TenantConfig :=
  let v := (filter (fun e => e.1 = tc) vars).*2 in
  tenant_id ← find_var (id_name tc) v;
  rpc_addr ← find_var (addr_name tc) v;
  Done (mkTenantConfig tenant_id rpc_addr).

Fixpoint tenant_configs (vars : list (Z * (string * string))) (tcs : list Z) : outcome (list TenantConfig) :=
  match tcs with
  | [] => Done []
  | tc :: tcs => c ← tenant_config vars tc; l ← tenant_configs vars tcs; Done (c :: l)
  end.

(** [read_tenant_configs], benchrunner-service/src/args.rs:18-57. *)
Definition read_tenant_configs (env_vars : list (string * string)) : outcome (list TenantConfig) :=
  vars ← tenant_vars env_vars;
  tenant_configs vars (tenant_counters vars).

(** ** The choice of a run's parameters *)

(** [factorize], benchrunner-service/src/main.rs:174-183; a remainder by zero
    panics. *)
Fixpoint factorize (i : Z) (dimensions : list Z) : outcome (list Z) :=
  match dimensions with
  | [] => Done []
  | dim :: dimensions => if dim =? 0 then Panic else l ← factorize (i / dim) dimensions; Done (i mod dim :: l)
  end.

Definition NUM_BENCH_IMPLS : Z := 2.

(** The two implementations of [BenchTrait]. *)
Inductive BenchImpl := ConfirmationRateImpl | Bench1Impl.

(** The choice of a run, [main], benchrunner-service/src/main.rs:98-118. *)
Definition choose_run (run_count : Z) (bench_configs : list BenchConfig) : outcome (BenchImpl * BenchConfig) :=
  permutation ← factorize run_count [NUM_BENCH_IMPLS; Z.of_nat (length bench_configs)];
  c ← unwrap (permutation !! 1%nat);
  bench_config ← unwrap (bench_configs !! Z.to_nat c);
  impl ← unwrap (permutation !! 0%nat);
  if impl =? 0 then Done (ConfirmationRateImpl, bench_config)
  else if impl =? 1 then Done (Bench1Impl, bench_config)
  else Panic.

(** ** The database *)

(** [BenchRunStatus], benchrunner-service/src/postgres/metrics_dbstore.rs:10-14. *)
Inductive BenchRunStatus := STARTED | FINISHED.

(** [BenchRunStatus::to_db_string], benchrunner-service/src/postgres/metrics_dbstore.rs:16-23. *)
Definition to_db_string (s : BenchRunStatus) : string := match s with STARTED => "STARTED" | FINISHED => "FINISHED" end.

(** [x as i64]. *)
Definition as_i64 (x : Z) : Z := if x <=? i64_max then x else x - u64_size.

(** A row of [bench_metrics_bench1] and of [bench_metrics_confirmation_rate]. *)
Record Bench1Row := mkBench1Row {
  b1_tenant : string; b1_ts : Z; b1_prio_fees : Z; b1_txs_sent : Z; b1_txs_confirmed : Z; b1_txs_un_confirmed : Z;
  b1_average_confirmation_time_ms : f32; b1_metric : Metric;
}.
Record RateRow := mkRateRow {
  rr_tenant : string; rr_ts : Z; rr_prio_fees : Z; rr_txs_sent : Z; rr_txs_confirmed : Z; rr_txs_un_confirmed : Z;
  rr_average_confirmation_time_ms : f32; rr_average_slot_confirmation_time : f32; rr_metric : RateMetric;
}.

Record BenchDb := mkBenchDb {
  bench_runs : gmap (string * Z) string;
  bench_metrics_bench1 : list Bench1Row;
  bench_metrics_confirmation_rate : list RateRow;
}.

(** What the database does with a call: no session, a statement that fails,
    or one that is executed. *)
Inductive DbAnswer := NoSession | ExecuteFailed | Executed.

(** [upsert_benchrun_status], benchrunner-service/src/postgres/metrics_dbstore.rs:25-59. *)
Definition upsert_benchrun_status (a : DbAnswer) (db : BenchDb) (t : TenantConfig) (benchrun_at : Z) (status : BenchRunStatus) :
    BenchDb * result string unit :=
  match a with
  | NoSession => (db, Err "session")
  | ExecuteFailed => (db, Ok ())
  | Executed =>
      (mkBenchDb (<[(tenant_id t, benchrun_at) := to_db_string status]> (bench_runs db)) (bench_metrics_bench1 db)
         (bench_metrics_confirmation_rate db), Ok ())
  end.

(** [BenchRunnerBench1Impl::try_save_results_postgres],
    benchrunner-service/src/postgres/metrics_dbstore.rs:61-102. *)
Definition save_bench1 (a : DbAnswer) (db : BenchDb) (t : TenantConfig) (benchrun_at : Z) (c : BenchConfig) (m : Metric) :
    BenchDb * result string unit :=
  match a with
  | NoSession => (db, Err "session")
  | ExecuteFailed => (db, Err "execute")
  | Executed =>
      (mkBenchDb (bench_runs db)
         (bench_metrics_bench1 db ++
            [mkBench1Row (tenant_id t) benchrun_at (as_i64 (bc_cu_price_micro_lamports c)) (as_i64 (txs_sent m))
               (as_i64 (txs_confirmed m)) (as_i64 (txs_un_confirmed m)) (f32_of_f64 (average_confirmation_time_ms m)) m])
         (bench_metrics_confirmation_rate db), Ok ())
  end.

(** [BenchRunnerConfirmationRateImpl::try_save_results_postgres],
    benchrunner-service/src/postgres/metrics_dbstore.rs:104-148. *)
Definition save_rate (a : DbAnswer) (db : BenchDb) (t : TenantConfig) (benchrun_at : Z) (c : BenchConfig) (m : RateMetric) :
    BenchDb * result string unit :=
  match a with
  | NoSession => (db, Err "session")
  | ExecuteFailed => (db, Err "execute")
  | Executed =>
      (mkBenchDb (bench_runs db) (bench_metrics_bench1 db)
         (bench_metrics_confirmation_rate db ++
            [mkRateRow (tenant_id t) benchrun_at (as_i64 (bc_cu_price_micro_lamports c)) (as_i64 (rm_txs_sent m))
               (as_i64 (rm_txs_confirmed m)) (as_i64 (rm_txs_un_confirmed m)) (rm_average_confirmation_time m)
               (rm_average_slot_confirmation_time m) m]), Ok ())
  end.

(** [PostgresSession::execute_prepared_batch],
    benchrunner-service/src/postgres/postgres_session.rs:160-172: [prepare] and
    [execute] are the driver's. *)
Fixpoint execute_rows {Row} (execute : Row -> result string Z) (params : list Row) (total : Z) : result string Z :=
  match params with
  | [] => Ok total
  | row :: params => n ← execute row; execute_rows execute params (total +64 n)%rpc
  end.
Definition execute_prepared_batch {Row} (prepare : result string unit) (execute : Row -> result string Z) (params : list Row) :
    result string Z :=
  _ ← prepare; execute_rows execute params 0.

(** ** The task of a tenant *)

(** What a run meets: the time, the answers of the database when there is one,
    and the outcome of the benchmark it chooses. *)
Record RunEnv := mkRunEnv {
  re_benchrun_at : Z;
  re_started : DbAnswer;
  re_saved : DbAnswer;
  re_finished : DbAnswer;
  re_bench1 : BenchConfig -> outcome Metric;
  re_rate : BenchConfig -> outcome RateMetric;
}.

(** One iteration, [main], benchrunner-service/src/main.rs:93-166: the database after
    it, and whether the task goes on. *)
Definition tenant_run (t : TenantConfig) (bench_configs : list BenchConfig) (postgres : bool) (run_count : Z) (env : RunEnv)
    (db : BenchDb) : BenchDb * bool :=
  match choose_run run_count bench_configs with
  | Panic => (db, false)
  | Done (impl, c) =>
      let at_ := re_benchrun_at env in
      let db := if postgres then (upsert_benchrun_status (re_started env) db t at_ STARTED).1 else db in
      let save :=
        match impl with
        | ConfirmationRateImpl => m ← re_rate env c; Done (save_rate (re_saved env) db t at_ c m)
        | Bench1Impl => m ← re_bench1 env c; Done (save_bench1 (re_saved env) db t at_ c m)
        end in
      match save with
      | Panic => (db, false)
      | Done (saved, _) =>
          let db := if postgres then saved else db in
          (if postgres then (upsert_benchrun_status (re_finished env) db t at_ FINISHED).1 else db, true)
      end
  end.

(** The loop over the runs, [main], benchrunner-service/src/main.rs:91-167. *)
Fixpoint tenant_task (t : TenantConfig) (bench_configs : list BenchConfig) (postgres : bool) (run_count : Z)
    (envs : list RunEnv) (db : BenchDb) : BenchDb * bool :=
  match envs with
  | [] => (db, true)
  | env :: envs =>
      let '(db, alive) := tenant_run t bench_configs postgres run_count env db in
      if alive then tenant_task t bench_configs postgres (run_count +64 1)%rpc envs db else (db, false)
  end.

(** The configurations of the runs, [main], benchrunner-service/src/main.rs:74-81. *)
Definition bench_configs_of (prio_fees : list Z) (tx_count : Z) (size_tx : TxSize) : list BenchConfig :=
  (fun fee => mkBenchConfig tx_count size_tx fee) <$> prio_fees.

(** ** Every combination of parameters is run equally often *)

Definition product (dimensions : list Z) : Z := foldr Z.mul 1 dimensions.

(** The number whose digits, least significant first, are [xs]. *)
Fixpoint weigh (dimensions xs : list Z) : Z :=
  match dimensions, xs with
  | d :: ds, x :: xs => x + d * weigh ds xs
  | _, _ => 0
  end.

Abbreviation digits_of := (Forall2 (fun d x => 0 <= x < d)).

Lemma product_pos ds : Forall (fun d => 0 < d) ds -> 0 < product ds.
Proof. induction 1; cbn; [lia|]. unfold product in *. nia. Qed.

Lemma factorize_digits ds i :
  Forall (fun d => 0 < d) ds -> 0 <= i ->
  exists l, factorize i ds = Done l /\ digits_of ds l /\ weigh ds l = i mod product ds.
Proof.
  intros H. revert i. induction H as [|d ds Hd Hds IH]; intros i Hi; cbn [factorize].
  { exists []. cbn. rewrite Z.mod_1_r. by repeat constructor. }
  destruct (IH (i / d)) as (l & -> & Hl & Hw); [by apply Z.div_pos|]. rewrite (proj2 (Z.eqb_neq d 0)) by lia.
  exists (i mod d :: l). cbn. split; [done|]. split; [constructor; [by apply Z.mod_pos_bound|done]|].
  rewrite Hw. fold (product ds). pose proof (product_pos ds Hds). by rewrite Z.rem_mul_r by lia.
Qed.

Lemma weigh_range ds xs : digits_of ds xs -> 0 <= weigh ds xs < product ds.
Proof. induction 1 as [|d x ds xs Hx Hxs IH]; cbn; [lia|]. fold (product ds). nia. Qed.

Lemma weigh_inj ds xs ys : digits_of ds xs -> digits_of ds ys -> weigh ds xs = weigh ds ys -> xs = ys.
Proof.
  intros Hx. revert ys. induction Hx as [|d x ds xs Hx Hxs IH]; intros ys Hy; inversion Hy as [|? y ? ys' Hy1 Hy2]; subst; [done|].
  cbn. intros Heq. destruct (Z.div_mod_unique d (weigh ds xs) (weigh ds ys') x y) as [Hw ->]; [lia..|].
  f_equal. by apply IH.
Qed.

(** The runs of a tenant go through the combinations of their parameters
    evenly: whatever run one starts from, among as many consecutive runs as
    there are combinations every combination is chosen exactly once; with an
    empty dimension, such as an empty list of fees, the choice panics. *)
Theorem factorize_covers (dimensions digits : list Z) (run : Z) :
  Forall (fun d => 0 <= d) dimensions -> 0 <= run ->
  if decide (0 ∈ dimensions) then factorize run dimensions = Panic
  else digits_of dimensions digits ->
    exists j, (0 <= j < product dimensions /\ factorize (run + j) dimensions = Done digits) /\
      forall j', 0 <= j' < product dimensions /\ factorize (run + j') dimensions = Done digits -> j' = j.
Proof.
  intros Hnn Hrun. case_decide as H0.
  { revert run Hrun. induction dimensions as [|d ds IH]; intros run Hrun; [by apply not_elem_of_nil in H0|].
    cbn. destruct (Z.eqb_spec d 0) as [->|Hd]; [done|]. apply Forall_cons in Hnn as [? Hnn].
    rewrite IH; [done|done|set_solver|]. apply Z.div_pos; lia. }
  intros Hdig. assert (Forall (fun d => 0 < d) dimensions) as Hpos.
  { rewrite Forall_forall in Hnn |- *. intros d Hd. assert (d <> 0) by (by intros ->). specialize (Hnn d Hd). lia. }
  pose proof (product_pos _ Hpos) as HP. set (P := product dimensions) in *.
  pose proof (weigh_range _ _ Hdig) as Hw. exists ((weigh dimensions digits - run) mod P).
  pose proof (Z.mod_pos_bound (weigh dimensions digits - run) P HP) as Hb. split.
  - split; [done|]. destruct (factorize_digits dimensions (run + (weigh dimensions digits - run) mod P)) as (l & -> & Hl & Hwl);
      [done|lia|]. f_equal. apply (weigh_inj dimensions); [done..|]. rewrite Hwl. fold P.
    rewrite Z.add_mod_idemp_r by lia. replace (run + _) with (weigh dimensions digits) by lia. by apply Z.mod_small.
  - intros j' [Hj' Hf]. destruct (factorize_digits dimensions (run + j')) as (l & Hl & _ & Hwl); [done|lia|].
    rewrite Hf in Hl. injection Hl as <-. fold P in Hwl. rewrite Hwl, Zminus_mod_idemp_l.
    replace (run + j' - run) with j' by lia. by rewrite Z.mod_small.
Qed.

Lemma factorize_covers_witness :
  exists j, (0 <= j < 6 /\ factorize (1 + j) [2; 3] = Done [0; 2]) /\
    forall j', 0 <= j' < 6 /\ factorize (1 + j') [2; 3] = Done [0; 2] -> j' = j.
Proof.
  pose proof (factorize_covers [2; 3] [0; 2] 1) as H. rewrite decide_False in H by (by vm_compute; set_solver).
  apply H; [repeat constructor; lia|lia|repeat constructor; lia].
Defined.

(** The implementation and the configuration of a run. *)
Lemma choose_run_spec run_count bench_configs :
  0 <= run_count -> bench_configs <> [] ->
  exists c, bench_configs !! Z.to_nat (run_count / 2 mod Z.of_nat (length bench_configs)) = Some c /\
    choose_run run_count bench_configs = Done (if run_count mod 2 =? 0 then ConfirmationRateImpl else Bench1Impl, c).
Proof.
  intros Hr Hne. set (n := Z.of_nat (length bench_configs)).
  assert (0 < n) as Hn by (unfold n; destruct bench_configs; [done|cbn; lia]).
  pose proof (Z.mod_pos_bound (run_count / 2) n Hn) as Hb.
  destruct (lookup_lt_is_Some_2 bench_configs (Z.to_nat (run_count / 2 mod n))) as [c Hc]; [unfold n in *; lia|].
  exists c. split; [done|]. unfold choose_run, NUM_BENCH_IMPLS. cbn [factorize]. fold n.
  rewrite (proj2 (Z.eqb_neq n 0)) by lia. cbn -[Z.modulo Z.div]. rewrite Hc. cbn -[Z.modulo Z.div].
  pose proof (Z.mod_pos_bound run_count 2 ltac:(lia)).
  destruct (Z.eqb_spec (run_count mod 2) 0); [done|]. by rewrite (proj2 (Z.eqb_eq (run_count mod 2) 1)) by lia.
Qed.

(** ** What a run leaves in the database *)

(** A run whose statements are executed and whose benchmark returns leaves
    its status as finished and adds exactly one row, with the metric, the time
    and the fee of the run, to the table of the benchmark it chose; the task
    goes on.  When the benchmark panics (an RPC server that does not answer the
    first requests is enough), the status stays at started for ever, nothing is
    saved and the tenant's task is over: none of the later runs takes place. *)
Theorem tenant_run_recorded (t : TenantConfig) (bench_configs : list BenchConfig) (run_count : Z) (env : RunEnv)
    (envs : list RunEnv) (db : BenchDb) :
  0 <= run_count -> bench_configs <> [] ->
  re_started env = Executed -> re_saved env = Executed -> re_finished env = Executed ->
  exists c, c ∈ bench_configs /\
    let key := (tenant_id t, re_benchrun_at env) in
    let '(db', alive) := tenant_run t bench_configs true run_count env db in
    match (if run_count mod 2 =? 0 then m ← re_rate env c; Done (inl m) else m ← re_bench1 env c; Done (inr m)) with
    | Done m =>
        alive = true /\ bench_runs db' = <[key := "FINISHED"]> (<[key := "STARTED"]> (bench_runs db)) /\
        match m with
        | inl m => bench_metrics_bench1 db' = bench_metrics_bench1 db /\
            exists row, bench_metrics_confirmation_rate db' = bench_metrics_confirmation_rate db ++ [row] /\
              rr_tenant row = tenant_id t /\ rr_ts row = re_benchrun_at env /\ rr_metric row = m /\
              rr_prio_fees row = as_i64 (bc_cu_price_micro_lamports c)
        | inr m => bench_metrics_confirmation_rate db' = bench_metrics_confirmation_rate db /\
            exists row, bench_metrics_bench1 db' = bench_metrics_bench1 db ++ [row] /\
              b1_tenant row = tenant_id t /\ b1_ts row = re_benchrun_at env /\ b1_metric row = m /\
              b1_prio_fees row = as_i64 (bc_cu_price_micro_lamports c)
        end
    | Panic =>
        alive = false /\ db' = mkBenchDb (<[key := "STARTED"]> (bench_runs db)) (bench_metrics_bench1 db)
                                 (bench_metrics_confirmation_rate db) /\
        tenant_task t bench_configs true run_count (env :: envs) db = (db', false)
    end.
Proof.
  intros Hr Hne Hs Hv Hf. destruct (choose_run_spec run_count bench_configs Hr Hne) as (c & Hc & Hch).
  exists c. split; [by eapply list_elem_of_lookup_2|]. cbn [tenant_task]. unfold tenant_run. rewrite Hch, Hs, Hv, Hf. cbv zeta.
  destruct (run_count mod 2 =? 0).
  - destruct (re_rate env c) as [m|]; cbn; [|done]. split_and!; [done..|]. by eexists.
  - destruct (re_bench1 env c) as [m|]; cbn; [|done]. split_and!; [done..|]. by eexists.
Qed.

Definition sample_run_env : RunEnv :=
  mkRunEnv 1000 Executed Executed Executed (fun _ => Panic) (fun _ => Done rate_metric_default).

Lemma tenant_run_recorded_witness :
  exists c, c ∈ [mkBenchConfig 10 Small 0] /\
    let '(db', alive) := tenant_run (mkTenantConfig "solana-rpc" "http://localhost:8899") [mkBenchConfig 10 Small 0] true 1
                           sample_run_env (mkBenchDb ∅ [] []) in
    alive = false /\ bench_runs db' !! ("solana-rpc", 1000) = Some "STARTED".
Proof.
  destruct (tenant_run_recorded (mkTenantConfig "solana-rpc" "http://localhost:8899") [mkBenchConfig 10 Small 0] 1
    sample_run_env [] (mkBenchDb ∅ [] []) ltac:(lia) ltac:(done) eq_refl eq_refl eq_refl) as (c & Hc & H).
  exists c. split; [exact Hc|]. destruct (tenant_run _ _ _ _ _ _) as [db' alive]. cbn in H.
  destruct H as (-> & -> & _). split; [reflexivity|]. vm_compute. reflexivity.
Defined.

(** ** The tenants are read back *)

Fixpoint all_digits (s : string) : Prop :=
  match s with EmptyString => True | String c s => is_Some (digit_of c) /\ all_digits s end.

Lemma decimal_digits n : 0 <= n -> all_digits (decimal n).
Proof.
  intros Hn. unfold decimal. assert (H : all_digits EmptyString) by done. revert H. generalize EmptyString. revert n Hn.
  generalize 20%nat. intros fuel. induction fuel as [|fuel IH]; intros n Hn acc Hacc; cbn [decimal_fuel]; [done|].
  assert (all_digits (String (Ascii.ascii_of_nat (48 + Z.to_nat (n mod 10))) acc)) as Hc.
  { split; [|done]. rewrite digit_of_digit by (apply Z.mod_pos_bound; lia). by eexists. }
  destruct (n <? 10); [done|]. apply IH; [by apply Z.div_pos|done].
Qed.

Fixpoint no_underscore (s : string) : bool :=
  match s with EmptyString => true | String c s => negb (Ascii.eqb c underscore) && no_underscore s end.

Lemma digits_no_underscore s : all_digits s -> no_underscore s = true.
Proof.
  induction s as [|c s IH]; [done|]. intros [Hc Hs]. cbn [no_underscore]. rewrite IH by done.
  destruct (Ascii.eqb_spec c underscore) as [->|]; [by destruct Hc|done].
Qed.

Lemma string_app_cons c s t : (String c s ++ t)%string = String c (s ++ t).
Proof. done. Qed.

Lemma until_underscore_app s t : no_underscore s = true -> until_underscore (s ++ t) = (s ++ until_underscore t)%string.
Proof.
  induction s as [|c s IH]; [done|]. cbn [no_underscore]. intros [Hc Hs]%andb_true_iff. rewrite !string_app_cons.
  cbn [until_underscore]. apply negb_true_iff in Hc. rewrite Hc. by rewrite IH.
Qed.

Lemma strip_prefix_app p s : strip_prefix p (p ++ s) = Some s.
Proof. induction p as [|c p IH]; [by destruct s|]. rewrite string_app_cons. cbn [strip_prefix]. by rewrite Ascii.eqb_refl. Qed.

Lemma remove_digits fuel s : all_digits s -> remove_fuel fuel TENANT s = s.
Proof.
  revert s. induction fuel as [|fuel IH]; intros s Hs; [done|]. destruct s as [|c s]; [done|]. destruct Hs as [Hc Hs].
  cbn [remove_fuel]. assert (strip_prefix TENANT (String c s) = None) as ->; [|by rewrite IH].
  cbn [TENANT strip_prefix]. destruct (Ascii.eqb_spec (Ascii.Ascii false false true false true false true false) c) as [<-|]; [|done].
  by destruct Hc.
Qed.

Lemma counter_of_name n rest : 0 <= n < u32_size -> tenant_counter (TENANT ++ decimal n ++ String underscore rest)%string = Done n.
Proof.
  intros Hn. unfold tenant_counter.
  assert (until_underscore (TENANT ++ decimal n ++ String underscore rest)%string = (TENANT ++ decimal n)%string) as ->.
  { rewrite !until_underscore_app by (done || (apply digits_no_underscore, decimal_digits; lia)).
    cbn [until_underscore]. rewrite Ascii.eqb_refl. by rewrite string_app_nil. }
  assert (remove TENANT (TENANT ++ decimal n)%string = decimal n) as ->.
  { unfold remove. cbn [remove_fuel]. rewrite strip_prefix_app. apply remove_digits, decimal_digits. lia. }
  unfold parse_u32. rewrite parse_decimal by (unfold in_u64, u64_size, u32_size in *; lia). cbn.
  by rewrite (proj2 (Z.ltb_lt _ _)) by lia.
Qed.

Lemma find_var_unique name v l : NoDup l.*1 -> (name, v) ∈ l -> find_var name l = Done v.
Proof.
  unfold find_var. induction l as [|[k w] l IH]; [by intros _ ?%not_elem_of_nil|]. cbn [fmap list_fmap fst].
  intros [Hk Hnd]%NoDup_cons Hin. cbn [list_find]. destruct (decide (k = name)) as [->|Hne].
  - rewrite decide_True by done. apply elem_of_cons in Hin as [[= ->]|Hin]; [done|].
    destruct Hk. apply list_elem_of_fmap. by exists (name, v).
  - rewrite decide_False by done. apply elem_of_cons in Hin as [[= -> ->]|Hin]; [done|]. specialize (IH Hnd Hin).
    destruct (list_find _ l) as [[i x]|]; [done|done].
Qed.

(** The variables of the given tenants. *)
Definition tenant_env (ts : list (Z * TenantConfig)) : list (string * string) :=
  ts ≫= fun '(tc, c) => [(id_name tc, tenant_id c); (addr_name tc, rpc_addr c)].

Lemma elem_of_tenant_env kv ts :
  kv ∈ tenant_env ts <->
  exists tc c, (tc, c) ∈ ts /\ (kv = (id_name tc, tenant_id c) \/ kv = (addr_name tc, rpc_addr c)).
Proof.
  unfold tenant_env. rewrite list_elem_of_bind. split.
  - intros ([tc c] & Hkv & Hin). exists tc, c. split; [done|]. set_solver.
  - intros (tc & c & Hin & Hkv). exists (tc, c). split; [set_solver|done].
Qed.

Section roundtrip.
Variable ts : list (Z * TenantConfig).
Hypothesis ts_counters : Forall (fun e => 0 <= e.1 < u32_size) ts.

Lemma counter_of_tenant tc c :
  (tc, c) ∈ ts -> tenant_counter (id_name tc) = Done tc /\ tenant_counter (addr_name tc) = Done tc.
Proof.
  intros Hin. rewrite Forall_forall in ts_counters. specialize (ts_counters _ Hin). cbn in ts_counters.
  split; [apply (counter_of_name tc "ID")|apply (counter_of_name tc "RPC_ADDR")]; done.
Qed.

Lemma tenant_vars_done env :
  (forall kv, kv ∈ env -> is_Some (strip_prefix TENANT kv.1) -> kv ∈ tenant_env ts) -> NoDup env.*1 ->
  exists vars, tenant_vars env = Done vars /\ vars.*2.*1 `sublist_of` env.*1 /\
    forall tc kv, (tc, kv) ∈ vars <-> kv ∈ env /\ is_Some (strip_prefix TENANT kv.1) /\ tenant_counter kv.1 = Done tc.
Proof.
  induction env as [|[k v] env IH]; intros Henv Hnd; cbn [tenant_vars].
  { exists []. split_and!; [done|constructor|]. intros tc kv. split; [by intros ?%not_elem_of_nil|]. by intros [?%not_elem_of_nil _]. }
  cbn [fmap list_fmap fst] in Hnd. apply NoDup_cons in Hnd as [_ Hnd].
  destruct IH as (vars & -> & Hsub & Hvars); [intros kv Hkv; apply Henv; by right|done|].
  destruct (strip_prefix TENANT k) as [r|] eqn:Hp.
  - assert (exists tc, tenant_counter k = Done tc) as [tc Htc].
    { assert ((k, v) ∈ tenant_env ts) as (tc & c & Hin & Hkv)%elem_of_tenant_env by (apply Henv; [left|cbn [fst]; rewrite Hp; by eexists]).
      destruct (counter_of_tenant tc c Hin) as [H1 H2]. exists tc. by destruct Hkv as [[= -> _]|[= -> _]]. }
    rewrite Htc. cbn [mbind outcome_bind]. exists ((tc, (k, v)) :: vars). split_and!; [done|by constructor|].
    intros tc' kv. rewrite !elem_of_cons, Hvars. split.
    + intros [[= -> ->]|?]; [|naive_solver]. cbn [fst]. rewrite Hp. split_and!; [by left|by eexists|done].
    + intros ([->|Hin] & H1 & H2); [|by right]. left. cbn [fst] in H2. rewrite Htc in H2. by injection H2 as ->.
  - exists vars. split_and!; [done|by constructor|]. intros tc' kv. rewrite Hvars, elem_of_cons. split; [naive_solver|].
    intros ([->|Hin] & H1 & H2); [|done]. cbn [fst] in H1. rewrite Hp in H1. by destruct H1.
Qed.

Lemma tenant_config_done vars tc c :
  NoDup vars.*2.*1 -> (tc, (id_name tc, tenant_id c)) ∈ vars -> (tc, (addr_name tc, rpc_addr c)) ∈ vars ->
  tenant_config vars tc = Done c.
Proof.
  intros Hnd H1 H2. unfold tenant_config. set (v := (filter _ vars).*2).
  assert (NoDup v.*1) as Hv.
  { eapply sublist_NoDup; [exact Hnd|]. apply fmap_sublist, fmap_sublist, sublist_filter. }
  assert (Hin : forall kv, (tc, kv) ∈ vars -> kv ∈ v).
  { intros kv Hkv. apply list_elem_of_fmap. exists (tc, kv). split; [done|]. by apply list_elem_of_filter. }
  rewrite (find_var_unique (id_name tc) (tenant_id c)) by (done || by apply Hin). cbn [mbind outcome_bind].
  rewrite (find_var_unique (addr_name tc) (rpc_addr c)) by (done || by apply Hin). by destruct c.
Qed.
End roundtrip.

(** The tenants are read back: when the environment has, besides variables
    whose names do not begin with [TENANT], exactly the identifier and the
    address of every tenant, in any order, the configurations are returned in
    the order of the tenants' numbers. *)
Theorem tenants_roundtrip (ts : list (Z * TenantConfig)) (env : list (string * string)) :
  StronglySorted Z.lt ts.*1 -> Forall (fun e => 0 <= e.1 < u32_size) ts -> NoDup env.*1 ->
  (forall kv, kv ∈ env -> is_Some (strip_prefix TENANT kv.1) -> kv ∈ tenant_env ts) ->
  (forall kv, kv ∈ tenant_env ts -> kv ∈ env) ->
  read_tenant_configs env = Done ts.*2.
Proof.
  intros Hs Hc Hnd Hin Hall. destruct (tenant_vars_done ts Hc env Hin Hnd) as (vars & Hv & Hsub & Hvars).
  unfold read_tenant_configs. rewrite Hv. cbn [mbind outcome_bind].
  assert (NoDup vars.*2.*1) as Hndv by (by eapply sublist_NoDup).
  assert (Hmem : forall tc c, (tc, c) ∈ ts -> (tc, (id_name tc, tenant_id c)) ∈ vars /\ (tc, (addr_name tc, rpc_addr c)) ∈ vars).
  { intros tc c Htc. destruct (counter_of_tenant ts Hc tc c Htc). rewrite !Hvars. cbn [fst].
    unfold id_name, addr_name in *. rewrite !strip_prefix_app. split; (split; [|split; [by eexists|done]]); apply Hall, elem_of_tenant_env; eauto. }
  assert (tenant_counters vars = ts.*1) as ->.
  { unfold tenant_counters. eapply (StronglySorted_unique Z.le).
    - apply StronglySorted_merge_sort; apply _.
    - clear -Hs. induction Hs as [|x l Hs IH Hx]; constructor; [done|]. eapply Forall_impl; [exact Hx|]. intros; cbn in *; lia.
    - rewrite merge_sort_Permutation. apply NoDup_Permutation.
      + apply NoDup_remove_dups.
      + clear -Hs. induction Hs as [|x l Hs IH Hx]; constructor; [|done]. intros Hin. rewrite Forall_forall in Hx. specialize (Hx _ Hin). lia.
      + intros tc. rewrite elem_of_remove_dups, !list_elem_of_fmap. split.
        * intros ([tc' kv] & -> & Htc). apply Hvars in Htc as (H1 & H2 & H3). apply Hin in H2; [|done].
          apply elem_of_tenant_env in H2 as (tc & c & Htc & Hkv). destruct (counter_of_tenant ts Hc tc c Htc) as [E1 E2].
          exists (tc, c). split; [|done]. cbn. destruct Hkv as [->| ->]; cbn [fst] in H3; congruence.
        * intros ([tc' c] & -> & Htc). exists (tc', (id_name tc', tenant_id c)). split; [done|]. by apply Hmem. }
  assert (H : forall l, (forall x, x ∈ l -> x ∈ ts) -> tenant_configs vars l.*1 = Done l.*2); [|by apply H].
  induction l as [|[tc c] l IH]; intros Hl; [done|]. cbn [fmap list_fmap fst snd tenant_configs].
  destruct (Hmem tc c) as [H1 H2]; [apply Hl; left|]. rewrite (tenant_config_done vars tc c) by done. cbn [mbind outcome_bind].
  rewrite IH; [done|]. intros x Hx. apply Hl. by right.
Qed.

Lemma tenants_roundtrip_witness :
  read_tenant_configs
    [("TENANT2_ID", "lite-rpc"); ("PATH", "/bin"); ("TENANT1_RPC_ADDR", "http://localhost:8899");
     ("TENANT1_ID", "solana-rpc"); ("TENANT2_RPC_ADDR", "http://localhost:8890")] =
  Done [mkTenantConfig "solana-rpc" "http://localhost:8899"; mkTenantConfig "lite-rpc" "http://localhost:8890"].
Proof.
  apply (tenants_roundtrip [(1, mkTenantConfig "solana-rpc" "http://localhost:8899");
                            (2, mkTenantConfig "lite-rpc" "http://localhost:8890")]).
  - repeat constructor.
  - repeat constructor; cbn; lia.
  - apply (bool_decide_unpack _). vm_compute. exact I.
  - intros kv Hkv Hp. change (tenant_env _) with [("TENANT1_ID", "solana-rpc"); ("TENANT1_RPC_ADDR", "http://localhost:8899");
      ("TENANT2_ID", "lite-rpc"); ("TENANT2_RPC_ADDR", "http://localhost:8890")].
    repeat (apply elem_of_cons in Hkv as [->|Hkv]; [first [by destruct Hp|set_solver]|]). by apply not_elem_of_nil in Hkv.
  - intros kv. change (tenant_env _) with [("TENANT1_ID", "solana-rpc"); ("TENANT1_RPC_ADDR", "http://localhost:8899");
      ("TENANT2_ID", "lite-rpc"); ("TENANT2_RPC_ADDR", "http://localhost:8890")]. set_solver.
Defined.
