(* ===== verification/UnitTests.v ===== *)
(** * The unit tests of the repository, run on the model

    The tests that live beside the code under src/ are translated line by line:
    a test is a script of calls and assertions, and passes when no call panics
    and every assertion holds.  Where a test draws random accounts or fees the
    script takes the draws as an argument, and is shown to pass for all of
    them. *)

From stdpp Require Import strings.
From S2P Require Import Prelude BTreeMap Types LeaderSchedule PrioHeap AccountStore PrioFees Stakes BlockStore PgSession Proxy Floats Histogram BenchRunner.

(** ** The account store *)

(** A line of a test of the store. *)
Inductive store_line :=
| Call (op : store_op)
| AssertAccount (pk : Pubkey) (c : Commitment) (expected : option AccountData)
| AssertProcessedLen (pk : Pubkey) (expected : nat)
| AssertProgram (program : Pubkey) (c : Commitment) (expected : option (list AccountData))
| AssertProgramLen (program : Pubkey) (c : Commitment) (expected : option nat).

Fixpoint store_test_passes (s : InmemoryAccountStore) (script : list store_line) : Prop :=
  match script with
  | [] => True
  | Call op :: script => match store_apply s op with Done (s', _) => store_test_passes s' script | Panic => False end
  | AssertAccount pk c expected :: script => store_get_account s pk c = Ok expected /\ store_test_passes s script
  | AssertProcessedLen pk expected :: script =>
      match account_store s !! pk with
      | Some a => length (abc_processed_accounts a) = expected /\ store_test_passes s script
      | None => False
      end
  | AssertProgram program c expected :: script =>
      store_get_program_accounts (fun _ _ => true) s program None c = expected /\ store_test_passes s script
  | AssertProgramLen program c expected :: script =>
      length <$> store_get_program_accounts (fun _ _ => true) s program None c = expected /\ store_test_passes s script
  end.

(** The three assertions of a test on the views of an account. *)
Definition assert_views (pk : Pubkey) (processed confirmed finalized : AccountData) : list store_line :=
  [AssertAccount pk Processed (Some processed); AssertAccount pk Confirmed (Some confirmed);
   AssertAccount pk Finalized (Some finalized)].

(** The random generator of a test: lamports and data of the n-th account. *)
Definition Rng : Type := nat -> Z * list Z.

(** [tests::create_random_account], accounts/src/inmemory_account_store.rs:452-470. *)
Definition create_random_account (rng : Rng) (n : nat) (updated_slot : Slot) (pubkey program : Pubkey) : AccountData :=
  mkAccountData pubkey (mkAccount (rng n).1 (rng n).2 program false 0) updated_slot.

(** [tests::test_account_store], accounts/src/inmemory_account_store.rs:472-591. *)
Definition test_account_store (rng : Rng) : list store_line :=
  let program := 1 in
  let pk1 := 2 in
  let pk2 := 3 in
  let account_data_0 := create_random_account rng 0 0 pk1 program in
  let account_data_1 := create_random_account rng 1 0 pk2 program in
  let account_data_2 := create_random_account rng 2 1 pk1 program in
  let account_data_3 := create_random_account rng 3 2 pk1 program in
  let account_data_4 := create_random_account rng 4 3 pk1 program in
  let account_data_5 := create_random_account rng 5 4 pk1 program in
  [Call (OpInitialize account_data_0); Call (OpInitialize account_data_1)] ++
  assert_views pk1 account_data_0 account_data_0 account_data_0 ++
  assert_views pk2 account_data_1 account_data_1 account_data_1 ++
  [Call (OpUpdate account_data_2 Processed); Call (OpUpdate account_data_3 Processed);
   Call (OpUpdate account_data_4 Processed); Call (OpUpdate account_data_5 Processed)] ++
  assert_views pk1 account_data_5 account_data_0 account_data_0 ++
  [Call (OpSlot 1 Confirmed)] ++ assert_views pk1 account_data_5 account_data_2 account_data_0 ++
  [Call (OpSlot 2 Confirmed)] ++ assert_views pk1 account_data_5 account_data_3 account_data_0 ++
  [Call (OpSlot 1 Finalized)] ++ assert_views pk1 account_data_5 account_data_3 account_data_2.

(** [tests::test_account_store_if_finalized_clears_old_processed_slots],
    accounts/src/inmemory_account_store.rs:593-709. *)
Definition test_account_store_if_finalized_clears_old_processed_slots (rng : Rng) : list store_line :=
  let program := 1 in
  let pk1 := 2 in
  let update n slot := Call (OpUpdate (create_random_account rng n slot pk1 program) Processed) in
  let last_account := create_random_account rng 12 11 pk1 program in
  [Call (OpInitialize (create_random_account rng 0 0 pk1 program));
   update 1%nat 1; update 2%nat 1; update 3%nat 2; update 4%nat 3; update 5%nat 4; update 6%nat 5; update 7%nat 6; update 8%nat 7;
   update 9%nat 8; update 10%nat 9; update 11%nat 10; Call (OpUpdate last_account Processed);
   AssertProcessedLen pk1 12; Call (OpSlot 11 Finalized); AssertProcessedLen pk1 1;
   AssertAccount pk1 Finalized (Some last_account);
   Call (OpSlot 8 Finalized); AssertAccount pk1 Finalized (Some last_account)].

(** [tests::test_get_program_account], accounts/src/inmemory_account_store.rs:711-882. *)
Definition test_get_program_account (rng : Rng) : list store_line :=
  let prog_1 := 1 in
  let prog_2 := 2 in
  let prog_3 := 3 in
  let prog_4 := 4 in
  let pk := 20 in
  let confirm n pubkey program := Call (OpUpdate (create_random_account rng n 1 pubkey program) Confirmed) in
  let account_finalized := create_random_account rng 5 2 pk prog_3 in
  let account_confirmed := create_random_account rng 6 3 pk prog_3 in
  let account_processed := create_random_account rng 7 4 pk prog_4 in
  [confirm 0%nat 10 prog_1; confirm 1%nat 11 prog_1; confirm 2%nat 12 prog_1; confirm 3%nat 13 prog_1; confirm 4%nat 14 prog_2;
   AssertProgramLen prog_1 Processed (Some 4%nat); AssertProgramLen prog_1 Confirmed (Some 4%nat);
   AssertProgramLen prog_1 Finalized (Some 0%nat);
   AssertProgramLen prog_2 Processed (Some 1%nat); AssertProgramLen prog_2 Confirmed (Some 1%nat);
   AssertProgramLen prog_2 Finalized (Some 0%nat);
   AssertProgramLen 30 Processed None; AssertProgramLen 31 Confirmed None; AssertProgramLen 32 Finalized None;
   Call (OpSlot 1 Finalized);
   AssertProgramLen prog_1 Finalized (Some 4%nat); AssertProgramLen prog_2 Finalized (Some 1%nat);
   Call (OpUpdate account_finalized Finalized); Call (OpSlot 2 Finalized);
   Call (OpUpdate account_confirmed Confirmed); Call (OpUpdate account_processed Processed);
   AssertProgram prog_3 Confirmed (Some [account_confirmed]); AssertProgram prog_3 Processed (Some []);
   AssertProgram prog_4 Processed (Some [account_processed]); AssertProgram prog_3 Finalized (Some [account_finalized]);
   Call (OpSlot 3 Finalized); Call (OpSlot 4 Confirmed);
   AssertProgram prog_3 Finalized (Some [account_confirmed]); AssertProgram prog_3 Confirmed (Some []);
   AssertProgram prog_4 Confirmed (Some [account_processed]);
   Call (OpSlot 4 Finalized);
   AssertProgram prog_3 Finalized (Some []); AssertProgram prog_4 Finalized (Some [account_processed])].

(** The tests of the store pass, whatever the accounts drawn hold. *)
Theorem account_store_tests_pass (rng : Rng) :
  store_test_passes account_store_new (test_account_store rng) /\
  store_test_passes account_store_new (test_account_store_if_finalized_clears_old_processed_slots rng) /\
  store_test_passes account_store_new (test_get_program_account rng).
Proof. split_and!; vm_compute; split_and!; reflexivity. Qed.

(** ** The prioritization heap *)

(** The closure [tx_creator] of the test. *)
Definition tx_creator (signature prioritization_fee : Z) : SentTransactionInfo :=
  mkSentTransactionInfo signature 0 [] 0 prioritization_fee.

(** [tests::test_prioritization_heap], core/src/structures/prioritization_fee_heap.rs:135-188:
    the calls, and what the calls of [pop] are expected to return. *)
Definition test_prioritization_heap : list heap_op * list (option SentTransactionInfo) :=
  let tx_0 := tx_creator 1 0 in let tx_1 := tx_creator 2 10 in let tx_2 := tx_creator 3 100 in let tx_3 := tx_creator 4 0 in
  let ux_0 := tx_creator 5 0 in let ux_1 := tx_creator 6 10 in let ux_2 := tx_creator 7 100 in let ux_3 := tx_creator 8 0 in
  let ux_4 := tx_creator 9 0 in let ux_5 := tx_creator 10 1000 in let ux_6 := tx_creator 11 10 in
  ((OpInsert <$> [tx_0; tx_0; tx_0; tx_0; tx_0; tx_1; tx_2; tx_2; tx_2; tx_2; tx_3]) ++ replicate 5 OpPop ++
   (OpInsert <$> [ux_0; ux_1; ux_2; ux_3; ux_4; ux_5; ux_6]) ++ replicate 5 OpPop,
   [Some tx_2; Some tx_1; Some tx_0; Some tx_3; None; Some ux_5; Some ux_2; Some ux_1; Some ux_6; None]).

Definition popped (rets : list heap_ret) : list (option SentTransactionInfo) :=
  omap (fun r => match r with RetTx tx => Some tx | _ => None end) rets.

Lemma prioritization_heap_test_passes :
  exists rets h, heap_calls (heap_new 4) test_prioritization_heap.1 = Done (rets, h) /\ popped rets = test_prioritization_heap.2.
Proof. eexists _, _. split; vm_compute; reflexivity. Qed.

(** One turn of the loop of [tests::test_prioritization_bench],
    core/src/structures/prioritization_fee_heap.rs:190-229: a burst of transactions with
    the fees drawn and fresh signatures from [next], and the removal of the
    expired ones; the other task pops [pops] times in between. *)
Definition bench_turn (height next : Z) (fees : list Z) (pops : nat) : list heap_op :=
  imap (fun i fee => OpInsert (mkSentTransactionInfo (next + Z.of_nat i) (height + 1) [] (height + 10) (fee mod 100000))) fees ++
  replicate pops OpPop ++ [OpRemoveExpired height].
Fixpoint test_prioritization_bench (height next : Z) (draws : list (list Z * nat)) : list heap_op :=
  match draws with
  | [] => []
  | (fees, pops) :: draws =>
      bench_turn height next fees pops ++ test_prioritization_bench (height + 1) (next + Z.of_nat (length fees)) draws
  end.

(** The benchmark runs to its end, whatever is drawn: no call panics. *)
Lemma prioritization_bench_runs draws :
  exists rets h, heap_calls (heap_new 4096) (test_prioritization_bench 0 0 draws) = Done (rets, h).
Proof.
  destruct (heap_calls_inv (heap_new 4096) (test_prioritization_bench 0 0 draws)) as (rets & h & Hr & _);
    [by apply heap_new_inv|done|eauto].
Qed.

(** ** Percentiles *)

(** [percentiles[i]] of a result; an index out of range panics. *)
Definition at_ {A} (l : list A) (i : nat) : outcome A := unwrap (l !! i).

(** Numbers of the tests: [n.0] and [n.0] in 32 bits, and hundredths. *)
Definition n0 (n : Z) : f64 := f64_of_Z n.
Definition hundredths (n : Z) : f32 := f32_div (f32_of_Z n) (f32_of_Z 100).

(** [tests::test_calculate_percentiles], util/src/histogram_percentiles.rs:144-154. *)
Definition test_calculate_percentiles : Prop :=
  let values := f64_of_Z <$> sort_by id [2; 4; 5; 3; 1] in
  exists r, calculate_percentiles values = Done r /\
    at_ (pc_v r) 0 = Done (n0 1) /\ at_ (pc_v r) 10 = Done (n0 3) /\ at_ (pc_v r) 15 = Done (n0 4) /\
    at_ (pc_v r) 18 = Done (n0 5) /\ at_ (pc_v r) 20 = Done (n0 5).

Definition point (x y : Z) : Point := mkPoint (n0 x) (n0 y).

(** [tests::test_calculate_percentiles_by_cu], util/src/histogram_percentiles.rs:156-169. *)
Definition test_calculate_percentiles_by_cu : Prop :=
  exists r, calculate_cummulative [point 100 10000; point 200 10000] = Done r /\
    at_ (pc_percentiles r) 10 = Done (hundredths 50) /\ at_ (pc_bucket_values r) 10 = Done (n0 100) /\
    at_ (pc_bucket_values r) 11 = Done (n0 200) /\ at_ (pc_bucket_values r) 20 = Done (n0 200).

(** [tests::test_empty_array] and [tests::test_zeros], util/src/histogram_percentiles.rs:171-183. *)
Definition test_empty_and_zeros : Prop :=
  calculate_percentiles [] = Done (mkPercentiles [] []) /\
  exists r, calculate_cummulative [point 0 0; point 0 0] = Done r /\ at_ (pc_bucket_values r) 0 = Done (n0 0).

(** [tests::test_statisticshowto], util/src/histogram_percentiles.rs:185-206. *)
Definition test_statisticshowto : Prop :=
  (exists r, calculate_percentiles (f64_of_Z <$> [30; 33; 43; 53; 56; 67; 68; 72]) = Done r /\
    at_ (pc_v r) 5 = Done (n0 43) /\ at_ (pc_p r) 5 = Done (hundredths 25) /\ get_bucket_value r (hundredths 25) = Some (n0 43)) /\
  exists r, calculate_cummulative [point 30 1; point 33 2; point 43 3; point 53 4; point 56 5; point 67 6; point 68 7; point 72 8] = Done r /\
    at_ (pc_percentiles r) 20 = Done (f32_of_Z 1) /\ at_ (pc_bucket_values r) 20 = Done (n0 72).

(** [tests::test_simple_non_integer_index], util/src/histogram_percentiles.rs:208-234. *)
Definition test_simple_non_integer_index : Prop :=
  (exists r, calculate_percentiles (f64_of_Z <$> [3; 5; 5; 6; 7; 7; 8; 10; 10]) = Done r /\
    at_ (pc_p r) 4 = Done (hundredths 20) /\ at_ (pc_v r) 5 = Done (n0 5)) /\
  exists r, calculate_cummulative [point 3 1; point 5 2; point 5 3; point 6 4; point 7 5; point 7 6; point 8 7; point 10 8; point 10 9] = Done r /\
    at_ (pc_percentiles r) 19 = Done (hundredths 95) /\ at_ (pc_percentiles r) 20 = Done (f32_of_Z 1) /\
    at_ (pc_bucket_values r) 19 = Done (n0 10) /\ at_ (pc_bucket_values r) 20 = Done (n0 10).

(** [tests::test_large_list], util/src/histogram_percentiles.rs:236-243. *)
Definition test_large_list : Prop :=
  exists r, calculate_percentiles (f64_of_Z <$> seqZ 0 1000) = Done r /\
    at_ (pc_v r) 19 = Done (n0 950) /\ at_ (pc_p r) 19 = Done (hundredths 95).

(** [test_mean] and [test_std_deviation], util/src/statistics.rs:30-40; the literal
    1.6329932 is the nearest 32 bit number. *)
Definition test_statistics : Prop :=
  mean (f32_of_Z <$> [1; 2; 3; 4; 5]) = Some (f32_of_Z 3) /\
  std_deviation (f32_of_Z <$> [1; 3; 5]) = Some (f32_of_f64 (f64_dec 16329932 7)).

Lemma histogram_tests_pass :
  test_calculate_percentiles /\ test_calculate_percentiles_by_cu /\ test_empty_and_zeros /\ test_statisticshowto /\
  test_simple_non_integer_index /\ test_large_list /\ test_statistics.
Proof.
  split_and!.
  - eexists. split; [vm_compute; reflexivity|]. by vm_compute.
  - eexists. split; [vm_compute; reflexivity|]. by vm_compute.
  - split; [reflexivity|]. eexists. split; [vm_compute; reflexivity|]. by vm_compute.
  - split; eexists; (split; [vm_compute; reflexivity|]); by vm_compute.
  - split; eexists; (split; [vm_compute; reflexivity|]); by vm_compute.
  - eexists. split; [vm_compute; reflexivity|]. by vm_compute.
  - by vm_compute.
Qed.

(** ** Prioritization fees *)

(** [PrioFeesData::from] of the pairs of a test. *)
Definition fees (l : list (Z * Z)) : list PrioFeesData := (fun '(p, cu) => mkPrioFeesData p cu) <$> l.

(** [tests::test_calculate_supp_info], prioritization_fees/src/stats_calculation.rs:106-121. *)
Definition test_calculate_supp_info : Prop :=
  exists by_tx by_cu, calculate_supp_percentiles (fees [(2, 2); (4, 4); (5, 5); (3, 3); (1, 1)]) = Done (by_tx, by_cu) /\
    at_ by_tx 0 = Done 1 /\ at_ by_tx 10 = Done 3 /\ at_ by_tx 15 = Done 4 /\ at_ by_tx 18 = Done 5 /\ at_ by_tx 20 = Done 5.

(** [tests::test_calculate_supp_info_by_cu], prioritization_fees/src/stats_calculation.rs:123-139. *)
Definition test_calculate_supp_info_by_cu : Prop :=
  exists by_tx by_cu, calculate_supp_percentiles (fees [(100, 10000); (200, 10000)]) = Done (by_tx, by_cu) /\
    at_ PrioFees.percentiles 10 = Done 50 /\ at_ by_cu 10 = Done 100 /\ at_ by_cu 11 = Done 200 /\ at_ by_cu 20 = Done 200.

(** [tests::test_empty_array] and [tests::test_zeros], prioritization_fees/src/stats_calculation.rs:141-152. *)
Definition test_no_fees : Prop :=
  (exists by_tx by_cu, calculate_supp_percentiles [] = Done (by_tx, by_cu) /\ at_ by_tx 0 = Done 0) /\
  exists by_tx by_cu, calculate_supp_percentiles (fees [(0, 0); (0, 0)]) = Done (by_tx, by_cu) /\ at_ by_cu 0 = Done 0.

(** [tests::test_statisticshowto], prioritization_fees/src/stats_calculation.rs:154-171. *)
Definition test_fees_statisticshowto : Prop :=
  exists by_tx by_cu,
    calculate_supp_percentiles (fees [(30, 1); (33, 2); (43, 3); (53, 4); (56, 5); (67, 6); (68, 7); (72, 8)]) = Done (by_tx, by_cu) /\
    at_ by_tx 5 = Done 43 /\ at_ PrioFees.percentiles 5 = Done 25 /\ at_ PrioFees.percentiles 20 = Done 100 /\ at_ by_cu 20 = Done 72.

(** [tests::test_simple_non_integer_index], prioritization_fees/src/stats_calculation.rs:173-198. *)
Definition test_fees_non_integer_index : Prop :=
  exists by_tx by_cu,
    calculate_supp_percentiles (fees [(3, 1); (5, 2); (5, 3); (6, 4); (7, 5); (7, 6); (8, 7); (10, 8); (10, 9)]) = Done (by_tx, by_cu) /\
    at_ PrioFees.percentiles 4 = Done 20 /\ at_ by_tx 5 = Done 5 /\ at_ PrioFees.percentiles 19 = Done 95 /\
    at_ PrioFees.percentiles 20 = Done 100 /\ at_ by_cu 19 = Done 10 /\ at_ by_cu 20 = Done 10.

(** [tests::test_large_list], prioritization_fees/src/stats_calculation.rs:200-206. *)
Definition test_fees_large_list : Prop :=
  exists by_tx by_cu, calculate_supp_percentiles (fees ((fun x => (x, x)) <$> seqZ 0 1000)) = Done (by_tx, by_cu) /\
    at_ by_tx 19 = Done 950 /\ at_ PrioFees.percentiles 19 = Done 95.

Lemma fee_statistics_tests_pass :
  test_calculate_supp_info /\ test_calculate_supp_info_by_cu /\ test_no_fees /\ test_fees_statisticshowto /\
  test_fees_non_integer_index /\ test_fees_large_list.
Proof.
  split_and!.
  - eexists _, _. split; [vm_compute; reflexivity|]. by vm_compute.
  - eexists _, _. split; [vm_compute; reflexivity|]. by vm_compute.
  - split; eexists _, _; (split; [vm_compute; reflexivity|]); by vm_compute.
  - eexists _, _. split; [vm_compute; reflexivity|]. by vm_compute.
  - eexists _, _. split; [vm_compute; reflexivity|]. by vm_compute.
  - eexists _, _. split; [vm_compute; reflexivity|]. by vm_compute.
Qed.

(** ** Takable content *)

(** The vector of the test as the content of a map. *)
#[local] Instance vec_takable : TakableContent Z (list Z) :=
  fun v val => match val with Notify _ account => v ++ [account] | Remove _ _ => v end.

(** [tests::test_takable_struct], stake_vote/src/utils.rs:236-289: the state after each
    group of calls, and that the task that waits is notified. *)
Definition test_takable_struct : Prop :=
  let m1 := takable_add_value (takable_new 7 []) (Notify 0 23) false in
  let m2 := takable_add_value m1 (Notify 0 24) true in
  let '(taken, m3) := take_map m2 in
  let '(taken_again, m4) := take_map m3 in
  let m5 := takable_add_value m4 (Notify 0 25) false in
  (length <$> content m1 = Some 1%nat /\ length <$> content m2 = Some 1%nat /\ length (updates m2) = 1%nat) /\
  exists c, taken = Map c /\ length c = 1%nat /\ length (updates m3) = 1%nat /\
  exists notifiers, taken_again = Taken notifiers /\ length notifiers = 1%nat /\
    content m4 = None /\ length (updates m4) = 1%nat /\ length (updates m5) = 2%nat /\
  exists m6, merge m5 c = Ok m6 /\ length <$> content m6 = Some 3%nat /\ length (updates m6) = 0%nat /\
    notifiers = [notifier m6] /\ notified m6 = S (notified m5).

Lemma takable_test_passes : test_takable_struct.
Proof.
  unfold test_takable_struct. cbn. split; [done|]. eexists. split; [done|]. split; [done|]. split; [done|].
  eexists. split; [done|]. do 4 (split; [done|]). eexists. split; [done|]. done.
Qed.

(** ** Queries of the database *)

(** [multiline_query_test], [value_query_test], [multiline_query_test_types], [value_vecvec_test_types] and
    [value_vec_test_types], blockstore/src/block_stores/postgres/postgres_session.rs:301-333. *)
Definition test_queries : Prop :=
  multiline_query EmptyString 3 2 [] = Done "($1,$2,$3),($4,$5,$6)"%string /\
  values_vecvec 3 2 [] = Done "($1,$2,$3),($4,$5,$6)"%string /\
  multiline_query EmptyString 3 2 ["text"; "int"; "int"]%string = Done "(($1)::text,($2)::int,($3)::int),($4,$5,$6)"%string /\
  values_vecvec 3 2 ["text"; "int"; "int"]%string = Done "(($1)::text,($2)::int,($3)::int),($4,$5,$6)"%string /\
  values_vec 3 ["text"; "int"; "int"]%string = Done "(($1)::text,($2)::int,($3)::int)"%string.

(** [tests::test_build_schema_name] and [tests::test_parse_epoch_from_schema_name],
    blockstore/src/block_stores/postgres/postgres_epoch.rs:44-57. *)
Definition test_schema_names : Prop :=
  build_schema_name (mkEpochRef 644) = "rpc2a_epoch_644"%string /\
  er_epoch <$> parse_epoch_from_schema_name "rpc2a_epoch_644" = Done 644.

(** [tests::test_epoch_calculus], core/src/structures/epoch.rs:137-184. *)
Definition test_epoch_calculus : Prop :=
  let at_slot := get_epoch_at_slot (fixed_epoch_schedule 1000) in
  at_slot 1 = mkEpoch 0 1 1000 1 /\ at_slot 999 = mkEpoch 0 999 1000 999 /\ at_slot 1001 = mkEpoch 1 1 1000 1001 /\
  at_slot 14031 = mkEpoch 14 31 1000 14031.

Lemma database_name_tests_pass : test_queries /\ test_schema_names /\ test_epoch_calculus.
Proof. split_and!; by vm_compute. Qed.

(** ** The block store *)

(** [tests::create_tx_info] and [tests::create_test_message],
    blockstore/src/block_stores/postgres/postgres_block.rs:220-245, with the message encoded. *)
Definition create_tx_info (signature recent_blockhash : Z) (message : string) : TransactionInfo :=
  mkTransactionInfo signature false None None None None recent_blockhash message [] [] [].

(** [tests::map_postgresblock_to_produced_block],
    blockstore/src/block_stores/postgres/postgres_block.rs:198-218. *)
Definition map_postgresblock_to_produced_block (cd : Codec) (blockhash previous_blockhash : Hash) (txs : list TransactionInfo) : Prop :=
  let block := mkPostgresBlock 5050505 (cd_hash_to_string cd blockhash) 4040404 5050500 12121212
    (cd_hash_to_string cd previous_blockhash) None None in
  exists b, to_produced_block cd block txs cc_confirmed = Done b /\
    pb_slot (pb_inner b) = 5050505 /\ length (pb_transactions (pb_inner b)) = length txs.

Lemma map_postgresblock_test_passes (cd : Codec) `{!CodecLaws cd} blockhash previous_blockhash txs :
  is_hash blockhash -> is_hash previous_blockhash -> map_postgresblock_to_produced_block cd blockhash previous_blockhash txs.
Proof.
  intros H1 H2. unfold map_postgresblock_to_produced_block, to_produced_block. cbn [pgb_blockhash pgb_previous_blockhash].
  rewrite !cd_hash_law by done. eexists. split; [reflexivity|]. by split.
Qed.

(** [create_test_block], blockstore/tests/multiple_strategy_block_store_tests.rs:13-33; a
    reward is its text. *)
Definition create_test_block (slot blockhash previous_blockhash : Z) (reward : string) (c : CommitmentConfig) : ProducedBlock :=
  mkProducedBlock (mkProducedBlockInner [] None blockhash slot slot (slot - 1) 0 previous_blockhash (Some [reward])) c.

(** Whether a query gives a block, an error, or panics. *)
Definition found (r : outcome (result string (ProducedBlock * BlockSource))) : option bool :=
  match r with Done (Ok _) => Some true | Done (Err _) => Some false | Panic => None end.

(** [test_in_multiple_stategy_block_store], blockstore/tests/multiple_strategy_block_store_tests.rs:35-84,
    with the sample encoding of the columns. *)
Definition test_in_multiple_stategy_block_store (reward : string) : Prop :=
  let es := fixed_epoch_schedule 1000 in
  let '(db1, _) := prepare_epoch_schema es ∅ 1200 in
  let '(db2, saved1) := save_block sample_codec es all_sessions db1 (create_test_block 1200 1 2 reward cc_confirmed) in
  let '(db3, saved2) := save_block sample_codec es all_sessions db2 (create_test_block 1289 3 4 reward cc_confirmed) in
  let query := query_block sample_codec es id None db3 in
  saved1 = Done (Ok ()) /\ saved2 = Done (Ok ()) /\
  found (query 1200) = Some true /\ found (query 1289) = Some true /\ found (query 1000) = Some false /\
  found (query 1250) = Some false /\ found (query 9999) = Some false /\
  exists b source, query 1200 = Done (Ok (b, source)) /\ pb_rewards (pb_inner b) = Some [reward].

Lemma multiple_strategy_test_passes : test_in_multiple_stategy_block_store "5000".
Proof.
  vm_compute. do 7 (split; [reflexivity|]). eexists _, _. split; reflexivity.
Qed.

(** ** The tools *)

(** [test_env_vars], benchrunner-service/src/args.rs:59-80. *)
Definition test_env_vars : Prop :=
  read_tenant_configs
    [("TENANT1_ID", "solana-rpc"); ("TENANT1_RPC_ADDR", "http://localhost:8899");
     ("TENANT2_ID", "lite-rpc"); ("TENANT2_RPC_ADDR", "http://localhost:8890")]%string =
  Done [mkTenantConfig "solana-rpc" "http://localhost:8899"; mkTenantConfig "lite-rpc" "http://localhost:8890"]%string.

(** [test_factorize], benchrunner-service/src/main.rs:185-193. *)
Definition test_factorize : Prop :=
  (fun i => factorize i [2; 3]) <$> seqZ 0 6 = Done <$> [[0; 0]; [1; 0]; [0; 1]; [1; 1]; [0; 2]; [1; 2]].

Lemma benchrunner_tests_pass : test_env_vars /\ test_factorize.
Proof. split; by vm_compute. Qed.

(** ** The forward proxy *)

(** [tests::fire], quic-forward-proxy/src/outbound/debouncer.rs:46-56, at the time
    [now] and for sleeps that take [d1] and [d2] longer than asked for. *)
Definition test_fire (now d1 d2 : Z) : Prop :=
  let '(b1, f1) := can_fire (debouncer_new 500) now in
  let '(b2, f2) := can_fire b1 now in
  let '(b3, f3) := can_fire b2 (now + 200 + d1) in
  let '(b4, f4) := can_fire b3 (now + 200 + d1 + 400 + d2) in
  f1 = true /\ f2 = false /\ f3 = false /\ f4 = true.

(** The test passes on a machine whose first sleep is at most 300 milliseconds
    late, when the clock is past the cooldown. *)
Lemma debouncer_test_passes now d1 d2 : 500 <= now -> 0 <= d1 <= 300 -> 0 <= d2 -> test_fire now d1 d2.
Proof.
  intros Hn H1 H2. unfold test_fire, can_fire, debouncer_new. cbn [cooldown_ms db_last].
  rewrite (proj2 (Z.ltb_lt 500 (now - -1))) by lia. cbn [cooldown_ms db_last].
  rewrite (proj2 (Z.ltb_ge 500 (now - now))) by lia. cbn [cooldown_ms db_last].
  rewrite (proj2 (Z.ltb_ge 500 (now + 200 + d1 - now))) by lia. cbn [cooldown_ms db_last].
  by rewrite (proj2 (Z.ltb_lt 500 (now + 200 + d1 + 400 + d2 - now))) by lia.
Qed.

(** [tests::threading] and [tests::shared], quic-forward-proxy/src/outbound/debouncer.rs:58-80: calls from
    two threads in either order; one of them fires. *)
Definition test_shared (now1 now2 : Z) : Prop :=
  let '(b1, f1) := can_fire (debouncer_new 500) now1 in
  let '(_, f2) := can_fire b1 now2 in f1 = true /\ (now2 - now1 <= 500 -> f2 = false).

Lemma shared_debouncer_test_passes now1 now2 : 500 <= now1 -> test_shared now1 now2.
Proof.
  intros H1. unfold test_shared, can_fire, debouncer_new. cbn [cooldown_ms db_last].
  rewrite (proj2 (Z.ltb_lt 500 (now1 - -1))) by lia. cbn [cooldown_ms db_last].
  destruct (500 <? now2 - now1) eqn:E; bool_lia; (split; [done|intros; first [done|lia]]).
Qed.

(** [tests::shard], quic-forward-proxy/src/outbound/sharder.rs:24-32. *)
Definition test_shard : Prop :=
  exists s, sharder_new 3 10 = Done s /\ matching s 13 = true /\ matching s 23 = true /\ matching s 33 = true /\ matching s 31 = false.

(** [roundtrip], quic-forward-proxy/tests/proxy_request_format.rs:10-40, for any
    transaction and address. *)
Definition test_request_roundtrip (wc : WireCodec) (addr : Z) (identity : Pubkey) (tx : TxData) : Prop :=
  let wire_data := wc_serialize wc (forwarding_request_new [(addr, identity)] [tx]) in
  exists request, try_deserialize_from_wire_format wc wire_data = Done (Some request) /\
    length (tpu_nodes request) = 1%nat /\ (tpu_socket_addr <$> tpu_nodes request) = [addr] /\
    length (get_transaction_bytes request) = 1%nat.

(** [deserialize_error], quic-forward-proxy/tests/proxy_request_format.rs:42-46: bytes the
    decoder rejects give an error, no panic. *)
Definition test_deserialize_error (wc : WireCodec) : Prop :=
  wc_deserialize wc [1; 2; 3; 4] = None -> try_deserialize_from_wire_format wc [1; 2; 3; 4] = Done None.

Lemma proxy_tests_pass (wc : WireCodec) `{!WireCodecLaws wc} addr identity tx :
  test_shard /\ test_request_roundtrip wc addr identity tx /\ test_deserialize_error wc.
Proof.
  split_and!.
  - eexists. split; [reflexivity|]. by vm_compute.
  - unfold test_request_roundtrip, try_deserialize_from_wire_format. rewrite wc_law. eexists. by split.
  - unfold test_deserialize_error, try_deserialize_from_wire_format. by intros ->.
Qed.
