(* ===== verification/TpuExample.v ===== *)
(** * The example that sends through the TPU service

    examples/custom-tpu-send-transactions/src/main.rs: funding the signers,
    choosing their transactions, counting the transactions in the blocks, the
    effective rate and the return of the funds.  The services the example
    starts are those of the other files.  The RPC client and the SDK's
    messages are parameters. *)

From Stdlib Require Import SpecFloat.
From S2P Require Import Prelude Types Floats BlockInfoStore LeaderSchedule DataCache.

Open Scope Z_scope.

(** ** Funding the signers *)

(** What a task that sends and confirms a transfer ends with. *)
Inductive SendResult := TransferConfirmed | TransferFailed | TaskPanicked.

#[export] Instance SendResult_eq_dec : EqDecision SendResult.
Proof. solve_decision. Defined.

(** A pass of the loop: [None] when there is no block hash, else what becomes
    of a transfer of each signer. *)
Abbreviation Round := (option (Pubkey -> SendResult)).

(** The results of a pass are taken out of the set,
    examples/custom-tpu-send-transactions/src/main.rs:131-144 (and 202-215). *)
Definition take_results (results : list (Pubkey * SendResult)) (to : gset Pubkey) : gset Pubkey :=
  foldl (fun to r => if decide (r.2 = TransferConfirmed) then to ∖ {[r.1]} else to) to results.

(** The loop of [create_signers_from_payer],
    examples/custom-tpu-send-transactions/src/main.rs:96-145: a transfer to
    every signer that has none yet.  The transfers sent, with their results;
    [None] while signers are left after the given passes. *)
Fixpoint fund_signers (rounds : list Round) (to : gset Pubkey) : option (list (Pubkey * SendResult)) :=
  if decide (to = ∅) then Some []
  else
    match rounds with
    | [] => None
    | None :: rounds => fund_signers rounds to
    | Some f :: rounds =>
        let results := (fun s => (s, f s)) <$> elements to in
        l ← fund_signers rounds (take_results results to); Some (results ++ l)
    end.

(** [create_signers_from_payer], examples/custom-tpu-send-transactions/src/main.rs:86-147. *)
Definition create_signers_from_payer (rounds : list Round) (signers : list Pubkey) : option (list (Pubkey * SendResult)) :=
  fund_signers rounds (list_to_set signers).

(** [transfer_back_to_payer], examples/custom-tpu-send-transactions/src/main.rs:149-217:
    a transfer from every signer, also from those that are done. *)
Fixpoint return_funds (rounds : list Round) (signers : list Pubkey) (to : gset Pubkey) : option (list (Pubkey * SendResult)) :=
  if decide (to = ∅) then Some []
  else
    match rounds with
    | [] => None
    | None :: rounds => return_funds rounds signers to
    | Some f :: rounds =>
        let results := (fun s => (s, f s)) <$> signers in
        l ← return_funds rounds signers (take_results results to); Some (results ++ l)
    end.
Definition transfer_back_to_payer (rounds : list Round) (signers : list Pubkey) : option (list (Pubkey * SendResult)) :=
  return_funds rounds signers (list_to_set signers).

(** [balance_to_transfer], [transfer_back_to_payer],
    examples/custom-tpu-send-transactions/src/main.rs:176-178. *)
Definition balance_to_transfer (balance prio_fees : Z) : Z :=
  saturating_sub_u64 (saturating_sub_u64 balance 5000) (wrap_u64 (5000 * prio_fees)).

(** ** Sending *)

(** The signer of a transaction, [main],
    examples/custom-tpu-send-transactions/src/main.rs:438-444: the [k]th
    transaction, counted from zero. *)
Definition signer_of (signers : list Pubkey) (nb_signers k : Z) : outcome Pubkey :=
  if nb_signers =? 0 then Panic else unwrap (signers !! Z.to_nat ((k + 1) mod nb_signers)).

Fixpoint sign_memos {Tx} (create_memo_tx : list Z -> Pubkey -> Tx) (signers : list Pubkey) (nb_signers k : Z)
    (chunk : list (list Z)) : outcome (list Tx) :=
  match chunk with
  | [] => Done []
  | x :: chunk =>
      s ← signer_of signers nb_signers k;
      l ← sign_memos create_memo_tx signers nb_signers (k + 1) chunk;
      Done (create_memo_tx x s :: l)
  end.

(** The transactions of every second, [main],
    examples/custom-tpu-send-transactions/src/main.rs:427-444. *)
Fixpoint sign_chunks {Tx} (create_memo_tx : list Z -> Pubkey -> Tx) (signers : list Pubkey) (nb_signers k : Z)
    (ls : list (list (list Z))) : outcome (list (list Tx)) :=
  match ls with
  | [] => Done []
  | chunk :: ls =>
      txs ← sign_memos create_memo_tx signers nb_signers k chunk;
      rest ← sign_chunks create_memo_tx signers nb_signers (k + Z.of_nat (length chunk)) ls;
      Done (txs :: rest)
  end.
Definition sign_all {Tx} (create_memo_tx : list Z -> Pubkey -> Tx) (signers : list Pubkey) (nb_signers : Z) (count : nat)
    (memo_msgs : list (list Z)) : outcome (list (list Tx)) :=
  ls ← chunks count memo_msgs;
  sign_chunks create_memo_tx signers nb_signers 0 ls.

(** The sleep after a second's transactions,
    examples/custom-tpu-send-transactions/src/main.rs:468-473. *)
Definition sleep_millis (millis : Z) : option Z := if millis <? 1000 then Some (1000 - millis) else None.

(** ** Counting in the blocks *)

Record Tracker := mkTracker {
  map_of_signature : gset Signature;
  start_tracking : bool;
  transactions_in_blocks : list Z;
}.

Definition tracker_new : Tracker := mkTracker ∅ false [].

(** The transactions of a block, [main],
    examples/custom-tpu-send-transactions/src/main.rs:410-415. *)
Definition count_block (m : gset Signature) (sigs : list Signature) : gset Signature * Z :=
  foldl (fun '(m, count) sig => if decide (sig ∈ m) then (m ∖ {[sig]}, (count +64 1)%rpc) else (m, count)) (m, 0) sigs.

(** A transaction was sent, or a block was received. *)
Inductive TrackEvent := TrackSent (signature : Signature) | TrackBlock (sigs : list Signature).

(** The counting task, [main], examples/custom-tpu-send-transactions/src/main.rs:403-425,
    and the insertion before a transaction is sent, 450. *)
Definition track_step (s : Tracker) (e : TrackEvent) : Tracker :=
  match e with
  | TrackSent sig => mkTracker ({[sig]} ∪ map_of_signature s) (start_tracking s) (transactions_in_blocks s)
  | TrackBlock sigs =>
      let '(m, count) := count_block (map_of_signature s) sigs in
      if start_tracking s || (0 <? count) then mkTracker m true (transactions_in_blocks s ++ [count])
      else mkTracker m false (transactions_in_blocks s)
  end.

(** ** The effective rate *)

Fixpoint skip_zeros (l : list Z) : list Z :=
  match l with x :: l' => if x =? 0 then skip_zeros l' else l | [] => [] end.

(** [transaction_blocks], [main], examples/custom-tpu-send-transactions/src/main.rs:501-506. *)
Definition transaction_blocks (l : list Z) : list Z := rev (skip_zeros (rev l)).

(** [tps], [main], examples/custom-tpu-send-transactions/src/main.rs:511-513. *)
Definition effective_tps (l : list Z) : outcome Z :=
  let blocks := transaction_blocks l in
  let sum := wrap_u64 (list_sum blocks) in
  let seconds := Z.of_nat (length blocks) * 400 / 1000 in
  if seconds =? 0 then Panic else Done (sum / seconds).

(** The end of [main], examples/custom-tpu-send-transactions/src/main.rs:499-518:
    the rate is computed before the funds are returned. *)
Definition finish_main (l : list Z) (rounds : list Round) (signers : list Pubkey) :
    outcome (Z * option (list (Pubkey * SendResult))) :=
  tps ← effective_tps l;
  Done (tps, transfer_back_to_payer rounds signers).

(** ** Every signer is funded once *)

Lemma take_results_spec results to s :
  s ∈ take_results results to <-> s ∈ to /\ (s, TransferConfirmed) ∉ results.
Proof.
  unfold take_results. revert to. induction results as [|[x r] results IH]; intros to; cbn [foldl]; [set_solver|].
  rewrite IH. cbn [fst snd]. case_decide; subst; set_solver.
Qed.

Definition confirmed_transfers (l : list (Pubkey * SendResult)) : list Pubkey :=
  (filter (fun r => r.2 = TransferConfirmed) l).*1.

Lemma elem_of_confirmed s l : s ∈ confirmed_transfers l <-> (s, TransferConfirmed) ∈ l.
Proof.
  unfold confirmed_transfers. rewrite list_elem_of_fmap. split.
  - intros ([x r] & -> & [Hr Hin]%list_elem_of_filter). cbn in *. by subst.
  - intros Hin. exists (s, TransferConfirmed). split; [done|]. by apply list_elem_of_filter.
Qed.

Lemma confirmed_app l1 l2 : confirmed_transfers (l1 ++ l2) = confirmed_transfers l1 ++ confirmed_transfers l2.
Proof. unfold confirmed_transfers. by rewrite filter_app, fmap_app. Qed.

Lemma confirmed_round_NoDup (f : Pubkey -> SendResult) l : NoDup l -> NoDup (confirmed_transfers ((fun s => (s, f s)) <$> l)).
Proof.
  unfold confirmed_transfers. induction 1 as [|x l Hx Hl IH]; [constructor|]. rewrite fmap_cons, filter_cons. cbn [snd].
  case_decide; [|done]. cbn. constructor; [|done]. intros ([y r] & -> & [_ Hin]%list_elem_of_filter)%list_elem_of_fmap.
  apply list_elem_of_fmap in Hin as (z & [= -> ->] & Hz). done.
Qed.

(** When [create_signers_from_payer] returns, every signer has exactly one
    confirmed transfer, however many passes failed; and the transfers it sent
    are only to signers. *)
Theorem signers_funded_once (rounds : list Round) (signers : list Pubkey) (l : list (Pubkey * SendResult)) :
  NoDup signers -> create_signers_from_payer rounds signers = Some l ->
  confirmed_transfers l ≡ₚ signers /\ forall s, s ∈ l.*1 -> s ∈ signers.
Proof.
  unfold create_signers_from_payer. intros Hnd. assert (H : forall to l, fund_signers rounds to = Some l ->
    NoDup (confirmed_transfers l) /\ (forall s, s ∈ confirmed_transfers l <-> s ∈ to) /\ (forall s, s ∈ l.*1 -> s ∈ to)).
  { clear. induction rounds as [|[f|] rounds IH]; intros to l; cbn [fund_signers]; case_decide as Hto; try done.
    1,2,4: intros [= <-]; subst; cbn; split_and!; [constructor|set_solver..].
    - destruct (fund_signers _ _) as [l'|] eqn:E; [|done]. intros [= <-]. destruct (IH _ _ E) as (H1 & H2 & H3).
      set (res := (fun s => (s, f s)) <$> elements to) in *.
      assert (Hres : forall s, (s, TransferConfirmed) ∈ res -> s ∈ to).
      { intros s (x & [= -> _] & Hx)%list_elem_of_fmap. by apply elem_of_elements. }
      split_and!.
      + rewrite confirmed_app. apply NoDup_app. split_and!; [apply confirmed_round_NoDup, NoDup_elements| |done].
        intros s Hs%elem_of_confirmed. rewrite H2, take_results_spec. naive_solver.
      + intros s. rewrite confirmed_app, elem_of_app, H2, take_results_spec, elem_of_confirmed. split; [naive_solver|].
        intros Hs. destruct (decide ((s, TransferConfirmed) ∈ res)); naive_solver.
      + intros s. rewrite fmap_app, elem_of_app. intros [Hs|Hs].
        * apply list_elem_of_fmap in Hs as ([x r] & -> & Hx). apply list_elem_of_fmap in Hx as (y & [= -> _] & Hy). by apply elem_of_elements.
        * apply H3, take_results_spec in Hs. naive_solver.
    - apply IH. }
  intros (H1 & H2 & H3)%H. split; [|set_solver]. apply NoDup_Permutation; [done..|]. set_solver.
Qed.

Lemma signers_funded_once_witness :
  exists l, create_signers_from_payer
    [None; Some (fun s => if s =? 1 then TransferConfirmed else TransferFailed); Some (fun _ => TransferConfirmed)] [1; 2] = Some l /\
    confirmed_transfers l ≡ₚ [1; 2].
Proof.
  eexists. split; [vm_compute; reflexivity|].
  refine (proj1 (signers_funded_once
    [None; Some (fun s => if s =? 1 then TransferConfirmed else TransferFailed); Some (fun _ => TransferConfirmed)] [1; 2] _ _ _)).
  - apply (bool_decide_unpack _). vm_compute. exact I.
  - vm_compute. reflexivity.
Defined.

(** ** Every transaction is counted once *)

Lemma count_block_from (m : gset Signature) c sigs :
  0 <= c -> c + Z.of_nat (size m) < u64_size ->
  let '(m', c') := foldl (fun '(m, count) sig => if decide (sig ∈ m) then (m ∖ {[sig]}, (count +64 1)%rpc) else (m, count)) (m, c) sigs in
  m' ⊆ m /\ c <= c' /\ c' + Z.of_nat (size m') = c + Z.of_nat (size m).
Proof.
  revert m c. induction sigs as [|sig sigs IH]; intros m c Hc Hl; cbn [foldl]; [split_and!; [done|lia|lia]|].
  case_decide as Hs; [|by apply IH].
  assert (size m = S (size (m ∖ {[sig]}))) as Hsz.
  { rewrite size_difference by set_solver. rewrite size_singleton. assert (size m <> 0%nat); [|lia]. intros Hz%size_empty_iff. set_solver. }
  rewrite wrap_u64_id by (unfold in_u64; lia). specialize (IH (m ∖ {[sig]}) (c + 1)).
  destruct (foldl _ _ sigs) as [m' c']. destruct IH as (? & ? & ?); [lia|lia|]. split_and!; [set_solver|lia|lia].
Qed.

(** The transactions sent. *)
Definition tracked_sends (es : list TrackEvent) : list Signature :=
  omap (fun e => match e with TrackSent sig => Some sig | TrackBlock _ => None end) es.

Definition tracker_inv (h : list TrackEvent) (s : Tracker) : Prop :=
  (forall sig, sig ∈ map_of_signature s -> sig ∈ tracked_sends h) /\
  Forall (fun c => 0 <= c) (transactions_in_blocks s) /\
  list_sum (transactions_in_blocks s) + Z.of_nat (size (map_of_signature s)) = Z.of_nat (length (tracked_sends h)).

Lemma tracked_sends_snoc h e :
  tracked_sends (h ++ [e]) = tracked_sends h ++ match e with TrackSent sig => [sig] | TrackBlock _ => [] end.
Proof. unfold tracked_sends. rewrite omap_app. by destruct e. Qed.

Lemma track_step_inv h s e :
  tracker_inv h s -> NoDup (tracked_sends (h ++ [e])) -> Z.of_nat (length (tracked_sends h)) < u64_size ->
  tracker_inv (h ++ [e]) (track_step s e).
Proof.
  intros (H1 & H2 & H3) Hnd Hl. pose proof (list_sum_nonneg _ H2). rewrite tracked_sends_snoc in Hnd.
  unfold tracker_inv. rewrite tracked_sends_snoc. destruct e as [sig|sigs].
  - apply NoDup_app in Hnd as (_ & Hn & _). assert (sig ∉ map_of_signature s) as Hnew.
    { intros Hin. apply (Hn sig); [by apply H1|set_solver]. }
    cbn [track_step map_of_signature transactions_in_blocks]. split_and!; [set_solver|done|].
    rewrite size_union by set_solver. rewrite size_singleton, length_app. cbn [length]. lia.
  - rewrite app_nil_r. cbn [track_step]. unfold count_block.
    pose proof (count_block_from (map_of_signature s) 0 sigs ltac:(lia) ltac:(lia)) as Hc.
    destruct (foldl _ _ sigs) as [m c]. destruct Hc as (Hsub & Hc & Hsum).
    destruct (start_tracking s || (0 <? c)) eqn:E; cbn [map_of_signature transactions_in_blocks].
    + split_and!; [set_solver| |].
      * apply Forall_app. split; [done|]. by repeat constructor.
      * rewrite list_sum_app, list_sum_cons. change (list_sum []) with 0. lia.
    + apply orb_false_iff in E as [_ E%Z.ltb_ge]. split_and!; [set_solver|done|lia].
Qed.

(** Whatever blocks arrive in between, at whatever commitments and how
    often: the counts of the blocks together count every sent transaction at
    most once, and what is not counted is still in the set. *)
Theorem tracked_transactions_counted_once (es : list TrackEvent) :
  NoDup (tracked_sends es) -> Z.of_nat (length (tracked_sends es)) < u64_size ->
  let s := foldl track_step tracker_new es in
  list_sum (transactions_in_blocks s) + Z.of_nat (size (map_of_signature s)) = Z.of_nat (length (tracked_sends es)).
Proof.
  intros Hnd Hl. cbv zeta. assert (tracker_inv es (foldl track_step tracker_new es)) as (_ & _ & H); [|done].
  revert Hnd Hl. induction es as [|e es IH] using rev_ind; intros Hnd Hl.
  { cbn. split_and!; [set_solver|constructor|done]. }
  rewrite foldl_app. cbn [foldl]. pose proof Hnd as Hnd'. rewrite tracked_sends_snoc in Hnd', Hl. rewrite length_app in Hl.
  apply NoDup_app in Hnd' as (Hnd' & _ & _). apply track_step_inv; [apply IH; [done|lia]|done|lia].
Qed.

Lemma tracked_transactions_counted_once_witness :
  let s := foldl track_step tracker_new [TrackSent 1; TrackSent 2; TrackBlock [5; 1]; TrackBlock [1]; TrackSent 3; TrackBlock [3]] in
  list_sum (transactions_in_blocks s) + Z.of_nat (size (map_of_signature s)) = 3.
Proof.
  apply (tracked_transactions_counted_once [TrackSent 1; TrackSent 2; TrackBlock [5; 1]; TrackBlock [1]; TrackSent 3; TrackBlock [3]]).
  - apply (bool_decide_unpack _). vm_compute. exact I.
  - done.
Defined.

(** ** The effective rate *)

Lemma skip_zeros_spec l : exists k, l = replicate k 0 ++ skip_zeros l /\ match skip_zeros l with x :: _ => x <> 0 | [] => True end.
Proof.
  induction l as [|x l (k & Hk & Hh)]; [by exists 0%nat|]. cbn [skip_zeros]. destruct (Z.eqb_spec x 0) as [->|Hx].
  - exists (S k). cbn. by rewrite <- Hk.
  - by exists 0%nat.
Qed.

Lemma rev_replicate {A} k (x : A) : rev (replicate k x) = replicate k x.
Proof. induction k as [|k IH]; [done|]. cbn. rewrite IH. by rewrite replicate_cons_app. Qed.

(** Only zeros at the end are removed. *)
Lemma transaction_blocks_spec l : exists k, l = transaction_blocks l ++ replicate k 0 /\ last (transaction_blocks l) <> Some 0.
Proof.
  destruct (skip_zeros_spec (rev l)) as (k & Hk & Hh). exists k. unfold transaction_blocks. split.
  - apply (f_equal (@rev Z)) in Hk. rewrite rev_involutive, rev_app_distr in Hk. rewrite Hk at 1. f_equal.
    apply rev_replicate.
  - destruct (skip_zeros (rev l)) as [|x r]; [done|]. cbn. rewrite last_snoc. naive_solver.
Qed.

(** When the transactions of the example landed within two tracked blocks
    (or none did), the division by the number of seconds panics, and with it
    the program, before the lamports of the signers, whose keys exist only in
    its memory, are returned to the payer; with more blocks, the rate is that of
    the transactions in blocks of 400 milliseconds, and the funds are returned. *)
Theorem funds_returned_iff (l : list Z) (rounds : list Round) (signers : list Pubkey) :
  finish_main l rounds signers =
  if decide (length (transaction_blocks l) <= 2)%nat then Panic
  else Done (wrap_u64 (list_sum l) / (Z.of_nat (length (transaction_blocks l)) * 400 / 1000), transfer_back_to_payer rounds signers).
Proof.
  unfold finish_main, effective_tps. set (n := length (transaction_blocks l)).
  assert (list_sum (transaction_blocks l) = list_sum l) as ->.
  { destruct (transaction_blocks_spec l) as (k & Hk & _). rewrite Hk at 2. rewrite list_sum_app, list_sum_replicate_0. lia. }
  case_decide as Hn.
  - assert (Z.of_nat n * 400 / 1000 = 0) as ->; [|done]. apply Z.div_small. lia.
  - assert (1 <= Z.of_nat n * 400 / 1000) by (apply Z.div_le_lower_bound; lia).
    by rewrite (proj2 (Z.eqb_neq _ _)) by lia.
Qed.

(** ** The run *)

(** [Args], examples/custom-tpu-send-transactions/src/cli.rs:3-39. *)
Record ExampleArgs := mkExampleArgs {
  ea_rpc_url : string; ea_grpc_url : option string; ea_x_token : option string; ea_transaction_count : option Z;
  ea_number_of_seconds : Z; ea_fee_payer : string; ea_staked_identity : option string; ea_priority_fees : option Z;
  ea_additional_signers : Z; ea_signers_transfer_balance : f64; ea_fanout_slots : option Z;
}.

(** [create_memo_tx], examples/custom-tpu-send-transactions/src/main.rs:64-72: the instructions; the
    signed transaction is the SDK's. *)
Inductive ExampleInstruction := ExLimit (units : Z) | ExPrice (fee : Z) | ExMemo (msg : list Z).
Definition example_memo_tx {Tx} (sign : list ExampleInstruction -> Pubkey -> Hash -> Tx) (msg : list Z) (payer : Pubkey)
    (blockhash : Hash) (prio_fees : Z) : Tx :=
  sign [ExLimit 7000; ExPrice prio_fees; ExMemo msg] payer blockhash.

(** The first block of the cache, [main], examples/custom-tpu-send-transactions/src/main.rs:308-316; the
    height is what the RPC node answers. *)
Definition example_block_information (slot height : Z) (blockhash : Hash) (rpc_height : Z) : BlockInformation :=
  mkBlockInformation slot rpc_height (height +64 300)%rpc (slot +64 1000000)%rpc blockhash cc_finalized 0.

(** How many transactions and memos there are, [main],
    examples/custom-tpu-send-transactions/src/main.rs:347-348 (and 394). *)
Definition example_count (args : ExampleArgs) : Z * Z :=
  let count := default 10 (ea_transaction_count args) in (count, wrap_u64 (count * ea_number_of_seconds args)).

(** The transactions of a second, [main], examples/custom-tpu-send-transactions/src/main.rs:446-466: what goes
    to the transaction service, and the signatures that are remembered. *)
Definition send_second (d : DataCache) (last_valid_block_height priority_fee : Z) (transactions : list (Signature * list Z))
    (s : Tracker) : list SentTransactionInfo * list Signature * Tracker :=
  (((fun t => mkSentTransactionInfo t.1 (current_slot (slot_cache d)) t.2 last_valid_block_height priority_fee) <$> transactions),
   transactions.*1, foldl (fun s t => track_step s (TrackSent t.1)) s transactions).

(** The report, [main], examples/custom-tpu-send-transactions/src/main.rs:483-497: for each second, how many of
    its transactions are confirmed. *)
Definition confirmed_of (store : gmap Signature TxProps) (sigs : list Signature) : Z :=
  foldl (fun n sig => if is_transaction_confirmed store sig then n + 1 else n) 0 sigs.
Definition report (d : DataCache) (tx_to_confirm : list (list Signature)) : list Z := confirmed_of (txs d) <$> tx_to_confirm.

Lemma confirmed_of_filter store sigs :
  confirmed_of store sigs = Z.of_nat (length (filter (fun sig => is_transaction_confirmed store sig = true) sigs)).
Proof.
  unfold confirmed_of. assert (forall n, foldl (fun n sig => if is_transaction_confirmed store sig then n + 1 else n) n sigs =
    n + Z.of_nat (length (filter (fun sig => is_transaction_confirmed store sig = true) sigs))) as H; [|by rewrite H].
  induction sigs as [|sig sigs IH]; intros n; [cbn; lia|]. cbn [foldl]. rewrite IH, filter_cons.
  destruct (is_transaction_confirmed store sig); [rewrite decide_True by done; cbn [length]; lia|by rewrite decide_False by done].
Qed.

(** Whether a transaction may still be put into a block. *)
Definition unexpired (store : gmap Signature TxProps) (height : Z) (sig : Signature) : bool :=
  match store !! sig with Some props => height <=? txp_last_valid_blockheight props | None => false end.

Lemma confirmed_after_clean store height sig :
  is_transaction_confirmed (txs_clean store height) sig = is_transaction_confirmed store sig && unexpired store height sig.
Proof.
  unfold is_transaction_confirmed, unexpired, txs_clean. rewrite map_lookup_filter.
  destruct (store !! sig) as [props|]; cbn [mbind option_bind]; [|done]. destruct (Z.leb_spec height (txp_last_valid_blockheight props)).
  - rewrite option_guard_True by done. by rewrite andb_true_r.
  - rewrite option_guard_False by (cbn; lia). by rewrite andb_false_r.
Qed.

(** The report after a cleaning of the cache counts of each second the
    transactions that are confirmed and still valid: what was confirmed and has
    outlived its last valid height is reported as unconfirmed. *)
Theorem report_counts_unexpired (sink_closed : Z -> bool) (d : DataCache) (now ttl : Z) (tx_to_confirm : list (list Signature)) :
  let height := binf_block_height (get_latest_block_information (block_information_store d) cc_finalized) in
  report (data_cache_clean sink_closed d now ttl) tx_to_confirm =
  (fun sigs => Z.of_nat (length (filter (fun sig => is_transaction_confirmed (txs d) sig && unexpired (txs d) height sig = true) sigs)))
    <$> tx_to_confirm.
Proof.
  cbv zeta. unfold report. apply list_fmap_ext. intros i sigs _. rewrite confirmed_of_filter. do 2 f_equal.
  apply list_filter_iff. intros sig. unfold data_cache_clean. cbn [set_subs set_txs set_bis txs]. by rewrite confirmed_after_clean.
Qed.
