(* ===== verification/StakeNotify.v ===== *)
(** * Waiting for the stores

    stake_vote/src: a computation that finds a store taken waits, in a task of
    its own, for the notifier of the store, and tries again ([Takable::take]
    and [wait_for_merge_or_get_content] of utils.rs, the events of
    leader_schedule.rs and rpcrequest.rs).  StakeLoop lets such a task end at
    any time; here the notifiers are modelled, and the theorem is that no
    notification is lost: every request is served.

    tokio's [Notify] is the class [NotifyLike] with the laws it documents. *)

From stdpp Require Import functions.
From S2P Require Import Prelude BTreeMap Types LeaderSchedule DataCache Stakes.

Open Scope Z_scope.

(** ** The notifier *)

(** A [Notify]: whether it stores a permit, the tasks that wait, the first
    poll of [notified] by a task (is it ready?), and [notify_one] (the task it
    wakes). *)
Class NotifyLike (N : Type) := {
  ny_new : N;
  ny_permit : N -> bool;
  ny_waiters : N -> list nat;
  ny_poll : N -> nat -> N * bool;
  ny_notify_one : N -> N * option nat;
}.

(** What tokio documents: a stored permit is consumed by the next [notified],
    which waits otherwise; [notify_one] wakes a waiting task, and stores the
    permit, of which there is at most one, if there is none. *)
Class NotifyLaws (N : Type) `{NotifyLike N} : Prop := {
  ny_new_permit : ny_permit ny_new = false;
  ny_new_waiters : ny_waiters ny_new = [];
  ny_poll_ready n i : ny_permit n = true ->
    (ny_poll n i).2 = true /\ ny_permit (ny_poll n i).1 = false /\ ny_waiters (ny_poll n i).1 = ny_waiters n;
  ny_poll_waits n i : ny_permit n = false ->
    (ny_poll n i).2 = false /\ ny_permit (ny_poll n i).1 = false /\ ny_waiters (ny_poll n i).1 ≡ₚ i :: ny_waiters n;
  ny_notify_stores n : ny_waiters n = [] ->
    (ny_notify_one n).2 = None /\ ny_permit (ny_notify_one n).1 = true /\ ny_waiters (ny_notify_one n).1 = [];
  ny_notify_wakes n : ny_waiters n <> [] ->
    exists j, (ny_notify_one n).2 = Some j /\ ny_permit (ny_notify_one n).1 = ny_permit n /\
      ny_waiters n ≡ₚ j :: ny_waiters (ny_notify_one n).1;
}.

(** A notifier that wakes in the order of waiting. *)
Record FifoNotify := mkFifoNotify { fn_permit : bool; fn_waiters : list nat }.

#[export] Instance fifo_notify : NotifyLike FifoNotify := {|
  ny_new := mkFifoNotify false [];
  ny_permit := fn_permit;
  ny_waiters := fn_waiters;
  ny_poll n i := if fn_permit n then (mkFifoNotify false (fn_waiters n), true) else (mkFifoNotify false (fn_waiters n ++ [i]), false);
  ny_notify_one n :=
    match fn_waiters n with
    | [] => (mkFifoNotify true [], None)
    | j :: l => (mkFifoNotify (fn_permit n) l, Some j)
    end;
|}.

#[export] Instance fifo_notify_laws : NotifyLaws FifoNotify.
Proof.
  split; try done.
  - intros [p l] i Hp. cbn in *. by rewrite Hp.
  - intros [p l] i Hp. cbn in *. rewrite Hp. cbn. split_and!; try done. by rewrite (comm (++)).
  - intros [p l] Hl. cbn in *. by rewrite Hl.
  - intros [p [|j l]] Hl; cbn in *; [done|]. by exists j.
Qed.

(** ** The requests *)

(** A request for the vote accounts takes one store, a leader schedule both. *)
Inductive ClientKind := VotesClient | BothClient.

(** Where a request is: not made, its waiting task spawned but not polled, the
    notifiers the task still waits for, the task done and the request about to
    be made again, the content taken, the content merged. *)
Inductive ClientPc :=
| ClIdle
| ClSpawned (ns : list Z)
| ClWaits (ns : list Z)
| ClWoken
| ClHolding
| ClServed.

#[export] Instance ClientKind_eq_dec : EqDecision ClientKind.
Proof. solve_decision. Defined.
#[export] Instance ClientPc_eq_dec : EqDecision ClientPc.
Proof. solve_decision. Defined.

Section waits.
Context {N T1 C1 T2 C2 : Type} `{NotifyLike N} `{TakableContent T1 C1} `{TakableContent T2 C2}.

Record WaitState := mkWaitState {
  ws_stakes : TakableMap T1 C1;
  ws_votes : TakableMap T2 C2;
  ws_notify : Z -> N;
  ws_clients : list (ClientKind * ClientPc);
}.

Inductive WaitEvent :=
| EvTake (i : nat)
| EvPoll (i : nat)
| EvMerge (i : nat) (stakes : C1) (votes : C2).

(** The [join_all] of [wait_for_merge_or_get_content],
    stake_vote/src/utils.rs:180-188, at its first poll: the notifiers that are not ready. *)
Fixpoint poll_all (i : nat) (ns : list Z) (f : Z -> N) : (Z -> N) * list Z :=
  match ns with
  | [] => (f, [])
  | z :: ns =>
      let '(n, ready) := ny_poll (f z) i in
      let '(f, rest) := poll_all i ns (<[z := n]> f) in
      (f, if ready then rest else z :: rest)
  end.

Definition waits_for (ns : list Z) : ClientPc := match ns with [] => ClWoken | _ => ClWaits ns end.

(** A task is woken: it is done when it waits for nothing else. *)
Definition wake (z : Z) (cls : list (ClientKind * ClientPc)) (j : nat) : list (ClientKind * ClientPc) :=
  match cls !! j with
  | Some (k, ClWaits ns) => <[j := (k, waits_for (filter (fun y => y <> z) ns))]> cls
  | _ => cls
  end.

(** [notify_one] on a notifier. *)
Definition notify (z : Z) (p : (Z -> N) * list (ClientKind * ClientPc)) : (Z -> N) * list (ClientKind * ClientPc) :=
  let '(n, w) := ny_notify_one (p.1 z) in
  (<[z := n]> p.1, match w with Some j => wake z p.2 j | None => p.2 end).

(** [Takable::merge] of a map, stake_vote/src/utils.rs:118-130, with its notification if it
    succeeds. *)
Definition merge_notify {T C} `{TakableContent T C} (m : TakableMap T C) (c : C) (p : (Z -> N) * list (ClientKind * ClientPc)) :
    TakableMap T C * ((Z -> N) * list (ClientKind * ClientPc)) :=
  match merge m c with Ok m' => (m', notify (notifier m) p) | Err _ => (m, p) end.

(** What a take leads to: [wait_for_merge_or_get_content],
    stake_vote/src/utils.rs:172-194. *)
Definition wait_for_merge_or_get_content {C} (r : TakeResult C) : ClientPc :=
  match r with Map _ => ClHolding | Taken ns => ClSpawned ns end.

Definition may_take (pc : ClientPc) : bool := match pc with ClIdle | ClWoken => true | _ => false end.

(** The take of a request, by its kind:
    [RpcRequestData::take_vote_accounts_and_process], stake_vote/src/rpcrequest.rs:83-90, and
    the start of [process_leadershedule_event], stake_vote/src/leader_schedule.rs:120-216. *)
Definition take_for (s : WaitState) (i : nat) (k : ClientKind) : option WaitState :=
  match k with
  | VotesClient =>
      let '(r, votes) := take_map (ws_votes s) in
      Some (mkWaitState (ws_stakes s) votes (ws_notify s) (<[i := (k, wait_for_merge_or_get_content r)]> (ws_clients s)))
  | BothClient =>
      match take_both (ws_stakes s) (ws_votes s) with
      | Done (r, (stakes, votes)) =>
          Some (mkWaitState stakes votes (ws_notify s) (<[i := (k, wait_for_merge_or_get_content r)]> (ws_clients s)))
      | Panic => None
      end
  end.

(** One step of a request, [None] where it is not at that step: the take, the
    first poll of the waiting task, and the merges (of both stores:
    [process_leadershedule_event], stake_vote/src/leader_schedule.rs:218-243). *)
Definition wait_step (s : WaitState) (e : WaitEvent) : option WaitState :=
  match e with
  | EvTake i =>
      match ws_clients s !! i with
      | Some (k, pc) => if may_take pc then take_for s i k else None
      | None => None
      end
  | EvPoll i =>
      match ws_clients s !! i with
      | Some (k, ClSpawned ns) =>
          let '(f, rest) := poll_all i ns (ws_notify s) in
          Some (mkWaitState (ws_stakes s) (ws_votes s) f (<[i := (k, waits_for rest)]> (ws_clients s)))
      | _ => None
      end
  | EvMerge i c1 c2 =>
      match ws_clients s !! i with
      | Some (k, ClHolding) =>
          let p := (ws_notify s, <[i := (k, ClServed)]> (ws_clients s)) in
          let '(stakes, p) := match k with BothClient => merge_notify (ws_stakes s) c1 p | VotesClient => (ws_stakes s, p) end in
          let '(votes, p) := merge_notify (ws_votes s) c2 p in
          Some (mkWaitState stakes votes p.1 p.2)
      | _ => None
      end
  end.

Fixpoint wait_run (s : WaitState) (es : list WaitEvent) : option WaitState :=
  match es with [] => Some s | e :: es => s' ← wait_step s e; wait_run s' es end.

(** Two stores with their content, and requests not yet made. *)
Definition wait_new (c1 : C1) (c2 : C2) (kinds : list ClientKind) : WaitState :=
  mkWaitState (takable_new 0 c1) (takable_new 1 c2) (fun _ => ny_new) ((fun k => (k, ClIdle)) <$> kinds).

End waits.
Arguments WaitState : clear implicits.
Arguments WaitEvent : clear implicits.

(** ** No notification is lost *)

(** What holds between the steps, in terms of whether the stores have their
    content, of the permit and the waiting tasks of the notifier of the votes,
    and of the requests: when no leader schedule waits for another one, all
    wait for the votes. *)
Record wait_ok (stakes_free votes_free permit : bool) (waiters : list nat) (cls : list (ClientKind * ClientPc)) : Prop := mkWaitOk {
  wo_one_both : forall i j p q, cls !! i = Some (BothClient, p) -> cls !! j = Some (BothClient, q) -> i = j;
  wo_spawned : forall i k ns, cls !! i = Some (k, ClSpawned ns) -> ns = [1];
  wo_waits : forall i k ns, cls !! i = Some (k, ClWaits ns) -> ns = [1] /\ i ∈ waiters;
  wo_waiters : forall i, i ∈ waiters -> exists k, cls !! i = Some (k, ClWaits [1]);
  wo_nodup : NoDup waiters;
  wo_holder : forall i j k l, cls !! i = Some (k, ClHolding) -> cls !! j = Some (l, ClHolding) -> i = j;
  wo_votes : votes_free = false <-> exists i k, cls !! i = Some (k, ClHolding);
  wo_stakes : stakes_free = false <-> exists i, cls !! i = Some (BothClient, ClHolding);
  wo_permit : permit = true -> waiters = [];
  wo_no_loss : votes_free = true ->
    (exists i k, cls !! i = Some (k, ClSpawned [1]) \/ cls !! i = Some (k, ClWaits [1])) ->
    permit = true \/ exists i k, cls !! i = Some (k, ClWoken);
}.

Lemma cls_insert (cls : list (ClientKind * ClientPc)) i k pc pc' j x :
  cls !! i = Some (k, pc) -> <[i := (k, pc')]> cls !! j = Some x <-> (i = j /\ x = (k, pc')) \/ (i <> j /\ cls !! j = Some x).
Proof.
  intros Hi. rewrite list_lookup_insert_Some. pose proof (lookup_lt_Some _ _ _ Hi). naive_solver.
Qed.


(** A request moves on: rewrite what is known of the changed list. *)
Ltac moves Hi pc' :=
  let Hins := fresh "Hins" in
  pose proof (fun j x => cls_insert _ _ _ _ pc' j x Hi) as Hins;
  split; try done; try setoid_rewrite Hins; clear Hins.

(** The request neither held the content nor holds it now. *)
Ltac same_holders :=
  split; intros ?; repeat match goal with H : exists _, _ |- _ => destruct H end; repeat eexists;
  lazymatch goal with
  | H : _ \/ _ |- _ => destruct H as [[? ?]|[? ?]]; [discriminate|eassumption]
  | |- _ => right; split; cycle 1; [eassumption|congruence]
  end.

Lemma ok_take sf p w cls i k pc :
  wait_ok sf true p w cls -> cls !! i = Some (k, pc) -> may_take pc = true ->
  wait_ok (match k with BothClient => false | VotesClient => sf end) false p w (<[i := (k, ClHolding)]> cls).
Proof.
  intros [Hone Hsp Hw Hwt Hnd Hh Hv Hs Hp Hl] Hi Hpc.
  assert (forall j l, cls !! j <> Some (l, ClHolding)) as Hno.
  { intros j l Hj. assert (true = false) by (apply Hv; eauto). done. }
  moves Hi ClHolding.
  - clear Hv Hs Hp Hl. naive_solver.
  - clear Hv Hs Hp Hl. naive_solver.
  - clear Hv Hs Hp Hl. naive_solver.
  - intros j Hj. destruct (Hwt j Hj) as [l Hl']. exists l. right. destruct pc; naive_solver.
  - clear Hv Hs Hp Hl. naive_solver.
  - split; [eauto|done].
  - destruct k; naive_solver.
Qed.

Lemma ok_wait sf p w cls i k pc :
  wait_ok sf false p w cls -> cls !! i = Some (k, pc) -> may_take pc = true ->
  wait_ok sf false p w (<[i := (k, ClSpawned [1])]> cls).
Proof.
  intros [Hone Hsp Hw Hwt Hnd Hh Hv Hs Hp Hl] Hi Hpc. moves Hi (ClSpawned [1]).
  - clear Hv Hs Hp Hl. naive_solver.
  - clear Hv Hs Hp Hl. naive_solver.
  - clear Hv Hs Hp Hl. naive_solver.
  - intros j Hj. destruct (Hwt j Hj) as [l Hl']. exists l. right. destruct pc; naive_solver.
  - clear Hv Hs Hp Hl. naive_solver.
  - destruct Hv as [Hv _]. destruct (Hv eq_refl) as (j & l & Hj). split; [|done].
    intros _. exists j, l. right. destruct pc; naive_solver.
  - rewrite Hs. destruct pc; [|done..| |done|done]; same_holders.
Qed.

Lemma ok_poll_ready sf vf w cls i k ns :
  wait_ok sf vf true w cls -> cls !! i = Some (k, ClSpawned ns) ->
  wait_ok sf vf false w (<[i := (k, ClWoken)]> cls).
Proof.
  intros [Hone Hsp Hw Hwt Hnd Hh Hv Hs Hp Hl] Hi. moves Hi ClWoken.
  - clear Hv Hs Hp Hl. naive_solver.
  - clear Hv Hs Hp Hl. naive_solver.
  - clear Hv Hs Hp Hl. naive_solver.
  - rewrite (Hp eq_refl). intros j Hj. by apply elem_of_nil in Hj.
  - clear Hv Hs Hp Hl. naive_solver.
  - rewrite Hv. same_holders.
  - rewrite Hs. same_holders.
  - intros _ _. right. exists i, k. by left.
Qed.

Lemma ok_poll_waits sf vf w w' cls i k ns :
  wait_ok sf vf false w cls -> cls !! i = Some (k, ClSpawned ns) -> w' ≡ₚ i :: w ->
  wait_ok sf vf false w' (<[i := (k, ClWaits [1])]> cls).
Proof.
  intros [Hone Hsp Hw Hwt Hnd Hh Hv Hs Hp Hl] Hi Hw'. moves Hi (ClWaits [1]).
  - clear Hv Hs Hp Hl. naive_solver.
  - clear Hv Hs Hp Hl. naive_solver.
  - clear Hv Hs Hp Hl Hh Hone. setoid_rewrite Hw'. setoid_rewrite elem_of_cons. naive_solver.
  - clear Hv Hs Hp Hl Hh Hone. setoid_rewrite Hw'. setoid_rewrite elem_of_cons. intros j [->|Hj]; [eauto|].
    destruct (Hwt j Hj) as [l Hl']. exists l. naive_solver.
  - rewrite Hw'. constructor; [|done]. intros [l Hl']%Hwt. congruence.
  - clear Hv Hs Hp Hl. naive_solver.
  - rewrite Hv. same_holders.
  - rewrite Hs. same_holders.
  - intros Hvf _. specialize (Hsp _ _ _ Hi) as ->. destruct (Hl Hvf) as [?|(j & l & Hj)]; [eauto|done|].
    right. exists j, l. right. split; [congruence|done].
Qed.

(** What the merge leaves: no request holds the content. *)
Lemma ok_merge_stores sf p cls i k :
  wait_ok sf false p [] cls -> cls !! i = Some (k, ClHolding) -> wait_ok true true true [] (<[i := (k, ClServed)]> cls).
Proof.
  intros [Hone Hsp Hw Hwt Hnd Hh Hv Hs Hp Hl] Hi. moves Hi ClServed.
  - clear Hv Hs Hp Hl. naive_solver.
  - clear Hv Hs Hp Hl. naive_solver.
  - clear Hv Hs Hp Hl. naive_solver.
  - intros j Hj. by apply elem_of_nil in Hj.
  - clear Hv Hs Hp Hl. naive_solver.
  - split; [done|]. naive_solver.
  - split; [done|]. naive_solver.
  - intros _ _. by left.
Qed.

Lemma ok_merge_wakes sf p w w' cls i k j :
  wait_ok sf false p w cls -> cls !! i = Some (k, ClHolding) -> w ≡ₚ j :: w' ->
  exists l, cls !! j = Some (l, ClWaits [1]) /\
    wait_ok true true p w' (<[j := (l, ClWoken)]> (<[i := (k, ClServed)]> cls)).
Proof.
  intros [Hone Hsp Hw Hwt Hnd Hh Hv Hs Hp Hl] Hi Hw'.
  destruct (Hwt j) as [l Hj]; [rewrite Hw'; by left|]. exists l. split; [done|].
  assert (i <> j) as Hij by naive_solver. rewrite Hw' in Hnd. apply NoDup_cons in Hnd as [Hjw Hnd].
  assert (<[i := (k, ClServed)]> cls !! j = Some (l, ClWaits [1])) as Hj' by (by rewrite list_lookup_insert_ne).
  pose proof (fun n x => cls_insert _ _ _ _ ClServed n x Hi) as Hins.
  moves Hj' ClWoken; try setoid_rewrite Hins.
  - clear Hv Hs Hp Hl. naive_solver.
  - clear Hv Hs Hp Hl. naive_solver.
  - intros n l' ns [?|[Hn [?|[Hn' Hl']]]]; [naive_solver..|]. destruct (Hw _ _ _ Hl') as [-> Hin]. split; [done|].
    rewrite Hw' in Hin. apply elem_of_cons in Hin as [->|?]; done.
  - intros n Hn. destruct (Hwt n) as [l' Hl']; [rewrite Hw'; by right|]. exists l'. right. split; [naive_solver|]. right. naive_solver.
  - clear Hv Hs Hp Hl. naive_solver.
  - split; [done|]. naive_solver.
  - split; [done|]. naive_solver.
  - intros Hpp. specialize (Hp Hpp). subst w. by apply Permutation_nil_cons in Hw'.
  - right. naive_solver.
Qed.

Section served.
Context {N T1 C1 T2 C2 : Type} `{NotifyLaws N} `{TakableContent T1 C1} `{TakableContent T2 C2}.
Implicit Types s : WaitState N T1 C1 T2 C2.

Definition wait_good s : Prop :=
  notifier (ws_stakes s) = 0 /\ notifier (ws_votes s) = 1 /\ ny_waiters (ws_notify s 0) = [] /\
  wait_ok (negb (is_taken (ws_stakes s))) (negb (is_taken (ws_votes s))) (ny_permit (ws_notify s 1))
    (ny_waiters (ws_notify s 1)) (ws_clients s).

(** What is left to do: a notification is worth two steps. *)
Definition pc_weight (pc : ClientPc) : Z :=
  match pc with ClIdle => 6 | ClWoken => 5 | ClSpawned _ | ClHolding => 4 | ClWaits _ => 3 | ClServed => 0 end.
Definition cls_weight (cls : list (ClientKind * ClientPc)) : Z := list_sum ((fun c => pc_weight c.2) <$> cls).
Definition wait_measure s : Z := 2 * Z.b2z (ny_permit (ws_notify s 1)) + cls_weight (ws_clients s).

Lemma cls_weight_insert cls i k pc pc' :
  cls !! i = Some (k, pc) -> cls_weight (<[i := (k, pc')]> cls) = cls_weight cls - pc_weight pc + pc_weight pc'.
Proof.
  intros Hi. unfold cls_weight. rewrite list_fmap_insert. apply list_sum_insert. by rewrite list_lookup_fmap, Hi.
Qed.

Lemma cls_weight_nonneg cls : 0 <= cls_weight cls.
Proof. apply list_sum_nonneg, Forall_fmap, Forall_true. intros [k []]; cbn; lia. Qed.

(** A request that takes the votes, or has to wait for them. *)
Lemma taken_good (s : WaitState N T1 C1 T2 C2) stakes votes i k pc (got : bool) :
  wait_good s -> ws_clients s !! i = Some (k, pc) -> may_take pc = true -> is_taken (ws_votes s) = negb got ->
  notifier stakes = 0 -> notifier votes = 1 -> is_taken votes = true ->
  is_taken stakes = (if got then match k with BothClient => true | VotesClient => is_taken (ws_stakes s) end else is_taken (ws_stakes s)) ->
  let s' := mkWaitState stakes votes (ws_notify s) (<[i := (k, if got then ClHolding else ClSpawned [1])]> (ws_clients s)) in
  wait_good s' /\ wait_measure s' < wait_measure s.
Proof.
  intros (_ & _ & Hw0 & Hok) Hi Hpc Hv Hs0 Hv1 Hv' Hs'. unfold wait_good, wait_measure.
  cbn [ws_stakes ws_votes ws_notify ws_clients]. rewrite (cls_weight_insert _ _ _ _ _ Hi), Hv', Hs'. rewrite Hv in Hok.
  split; [|destruct pc, got; cbn; try done; lia]. split_and!; [done..|].
  destruct got; [|by apply (ok_wait _ _ _ _ _ _ pc)].
  pose proof (ok_take _ _ _ _ _ _ _ Hok Hi Hpc) as Ht. by destruct k.
Qed.

Lemma take_good s i s' : wait_good s -> wait_step s (EvTake i) = Some s' -> wait_good s' /\ wait_measure s' < wait_measure s.
Proof.
  intros Hg. pose proof Hg as (Hn0 & Hn1 & Hw0 & Hok). cbn [wait_step].
  destruct (ws_clients s !! i) as [[k pc]|] eqn:Hi; [|done]. destruct (may_take pc) eqn:Hpc; [|done].
  assert (k = BothClient -> exists c, content (ws_stakes s) = Some c) as Hst.
  { intros ->. destruct (content (ws_stakes s)) as [c|] eqn:Hc; [eauto|]. unfold is_taken in Hok. rewrite Hc in Hok.
    destruct (proj1 (wo_stakes _ _ _ _ _ Hok) eq_refl) as [j Hj]. pose proof (wo_one_both _ _ _ _ _ Hok _ _ _ _ Hi Hj) as <-.
    rewrite Hi in Hj. injection Hj as ->. done. }
  unfold take_for, take_both, take_map, is_taken. pose proof (fun st vo got => taken_good s st vo i k pc got Hg Hi Hpc) as Htg.
  destruct k.
  - destruct (content (ws_votes s)) as [c|] eqn:Hc; intros [= <-]; cbn [wait_for_merge_or_get_content].
    + apply (Htg _ _ true); unfold is_taken; rewrite ?Hc; done.
    + rewrite Hn1. apply (Htg _ _ false); unfold is_taken; rewrite ?Hc; done.
  - destruct (Hst eq_refl) as [c1 Hc1]. rewrite Hc1.
    destruct (content (ws_votes s)) as [c|] eqn:Hc; cbn; intros [= <-].
    + apply (Htg _ _ true); unfold is_taken; rewrite ?Hc; done.
    + rewrite Hn1. apply (Htg _ _ false); unfold is_taken; rewrite ?Hc, ?Hc1; done.
Qed.

Lemma poll_good s i s' : wait_good s -> wait_step s (EvPoll i) = Some s' -> wait_good s' /\ wait_measure s' < wait_measure s.
Proof.
  intros (Hn0 & Hn1 & Hw0 & Hok). cbn [wait_step].
  destruct (ws_clients s !! i) as [[k [|ns| | | |]]|] eqn:Hi; try done.
  pose proof (wo_spawned _ _ _ _ _ Hok _ _ _ Hi) as ->. cbn [poll_all].
  destruct (ny_poll (ws_notify s 1) i) as [n ready] eqn:Hp. intros [= <-].
  unfold wait_good, wait_measure. cbn [ws_stakes ws_votes ws_notify ws_clients].
  rewrite (cls_weight_insert _ _ _ _ _ Hi), fn_lookup_insert, fn_lookup_insert_ne by done.
  destruct (ny_permit (ws_notify s 1)) eqn:Hpm.
  - destruct (ny_poll_ready (ws_notify s 1) i Hpm) as (Hr & Hp' & Hw'). rewrite Hp in Hr, Hp', Hw'. cbn in Hr, Hp', Hw'.
    subst ready. rewrite Hp', Hw'. cbn [waits_for]. split; [|cbn; lia]. split_and!; [done..|]. by apply (ok_poll_ready _ _ _ _ _ _ [1]).
  - destruct (ny_poll_waits (ws_notify s 1) i Hpm) as (Hr & Hp' & Hw'). rewrite Hp in Hr, Hp', Hw'. cbn in Hr, Hp', Hw'.
    subst ready. rewrite Hp'. cbn [waits_for]. split; [|cbn; lia]. split_and!; [done..|].
    by apply (ok_poll_waits _ _ (ny_waiters (ws_notify s 1)) _ _ _ _ [1]).
Qed.

(** A notifier nobody waits for stores the permit. *)
Lemma notify_stored (f : Z -> N) z cls :
  ny_waiters (f z) = [] -> exists n, notify z (f, cls) = (<[z := n]> f, cls) /\ ny_waiters n = [] /\ ny_permit n = true.
Proof.
  intros Hw. destruct (ny_notify_stores (f z) Hw) as (Hr & Hp & Hw'). unfold notify. cbn [fst snd].
  destruct (ny_notify_one (f z)) as [n w]. cbn in *. subst w. eauto.
Qed.

(** The votes come back: the request is served, and another one is woken or
    the permit stored. *)
Lemma votes_merged_good sf (f : Z -> N) cls i k :
  ny_waiters (f 0) = [] -> wait_ok sf false (ny_permit (f 1)) (ny_waiters (f 1)) cls -> cls !! i = Some (k, ClHolding) ->
  let p := notify 1 (f, <[i := (k, ClServed)]> cls) in
  ny_waiters (p.1 0) = [] /\ wait_ok true true (ny_permit (p.1 1)) (ny_waiters (p.1 1)) p.2 /\
  2 * Z.b2z (ny_permit (p.1 1)) + cls_weight p.2 < 2 * Z.b2z (ny_permit (f 1)) + cls_weight cls.
Proof.
  intros Hw0 Hok Hi. pose proof (cls_weight_insert _ _ _ _ ClServed Hi) as Hwt. cbn [pc_weight] in Hwt.
  destruct (decide (ny_waiters (f 1) = [])) as [Hw|Hw].
  - destruct (notify_stored f 1 (<[i := (k, ClServed)]> cls) Hw) as (n & -> & Hn & Hp). cbn [fst snd].
    rewrite fn_lookup_insert, fn_lookup_insert_ne, Hn, Hp by done. rewrite Hw in Hok. split_and!; [done|by apply (ok_merge_stores sf _ _ _ _ Hok)|].
    rewrite Hwt. destruct (ny_permit (f 1)); cbn; lia.
  - destruct (ny_notify_wakes (f 1) Hw) as (j & Hr & Hp & Hw').
    destruct (ok_merge_wakes _ _ _ _ _ _ _ _ Hok Hi Hw') as (l & Hj & Hok').
    assert (<[i := (k, ClServed)]> cls !! j = Some (l, ClWaits [1])) as Hj' by (rewrite list_lookup_insert_ne by congruence; done).
    unfold notify. cbn [fst snd]. destruct (ny_notify_one (f 1)) as [n w]. cbn in Hr, Hp, Hw', Hok'. subst w. cbn [fst snd].
    unfold wake. rewrite Hj'. cbn [filter list_filter decide]. rewrite decide_False by (intros Hx; by apply Hx). cbn [waits_for].
    rewrite fn_lookup_insert, fn_lookup_insert_ne, Hp by done. split_and!; [done..|].
    rewrite (cls_weight_insert _ _ _ _ _ Hj'), Hwt. cbn. lia.
Qed.

Lemma merge_good s i c1 c2 s' :
  wait_good s -> wait_step s (EvMerge i c1 c2) = Some s' -> wait_good s' /\ wait_measure s' < wait_measure s.
Proof.
  intros (Hn0 & Hn1 & Hw0 & Hok). cbn [wait_step].
  destruct (ws_clients s !! i) as [[k [| | | | |]]|] eqn:Hi; try done.
  assert (content (ws_votes s) = None) as Hcv.
  { assert (negb (is_taken (ws_votes s)) = false) as Hv by (apply (wo_votes _ _ _ _ _ Hok); eauto).
    unfold is_taken in Hv. by destruct (content (ws_votes s)). }
  assert (match k with BothClient => content (ws_stakes s) = None | VotesClient => content (ws_stakes s) <> None end) as Hcs.
  { destruct k.
    - intros Hc. unfold is_taken in Hok. rewrite Hc in Hok. destruct (proj1 (wo_stakes _ _ _ _ _ Hok) eq_refl) as [j Hj].
      pose proof (wo_holder _ _ _ _ _ Hok _ _ _ _ Hi Hj) as <-. congruence.
    - assert (negb (is_taken (ws_stakes s)) = false) as Hv by (apply (wo_stakes _ _ _ _ _ Hok); eauto).
      unfold is_taken in Hv. by destruct (content (ws_stakes s)). }
  assert (is_taken (ws_votes s) = true) as Ht by (unfold is_taken; by rewrite Hcv). rewrite Ht in Hok. cbn [negb] in Hok.
  unfold merge_notify, merge. rewrite Hcv. unfold wait_good, wait_measure. destruct k.
  - rewrite Hn1. intros [= <-]. cbn [ws_stakes ws_votes ws_notify ws_clients notifier is_taken content negb].
    destruct (votes_merged_good _ (ws_notify s) _ _ _ Hw0 Hok Hi) as (Hw & Hok' & Hm).
    unfold is_taken. destruct (content (ws_stakes s)); [|done]. auto.
  - rewrite Hcs, Hn0, Hn1.
    destruct (notify_stored (ws_notify s) 0 (<[i := (BothClient, ClServed)]> (ws_clients s)) Hw0) as (n & -> & Hn & _).
    intros [= <-]. cbn [ws_stakes ws_votes ws_notify ws_clients notifier is_taken content negb].
    assert ((<[0 := n]> (ws_notify s)) 1 = ws_notify s 1) as Hf1 by (by apply fn_lookup_insert_ne).
    rewrite <- Hf1 in Hok. destruct (votes_merged_good _ (<[0 := n]> (ws_notify s)) _ _ _ ltac:(by rewrite fn_lookup_insert) Hok Hi) as (Hw & Hok' & Hm).
    rewrite Hf1 in Hm. unfold is_taken. cbn [content]. auto.
Qed.

Lemma step_good s e s' : wait_good s -> wait_step s e = Some s' -> wait_good s' /\ wait_measure s' < wait_measure s.
Proof. destruct e; eauto using take_good, poll_good, merge_good. Qed.

Lemma run_good evs s s' :
  wait_good s -> wait_run s evs = Some s' -> wait_good s' /\ wait_measure s' + Z.of_nat (length evs) <= wait_measure s.
Proof.
  revert s. induction evs as [|e evs IH]; intros s Hg; cbn [wait_run length]; [intros [= <-]; split; [done|lia]|].
  destruct (wait_step s e) as [s1|] eqn:He; [|done]. cbn. intros Hr.
  destruct (step_good s e s1 Hg He) as [Hg1 Hm]. destruct (IH s1 Hg1 Hr) as [Hg' Hm']. split; [done|lia].
Qed.

(** As long as a request is not served, some step can be taken. *)
Lemma good_progress s (c1 : C1) (c2 : C2) :
  wait_good s -> Forall (fun c => c.2 = ClServed) (ws_clients s) \/ exists e, is_Some (wait_step s e).
Proof.
  intros (_ & _ & _ & Hok).
  destruct (decide (Forall (fun c => c.2 = ClServed) (ws_clients s))) as [|Hns]; [by left|right].
  apply not_Forall_Exists, Exists_exists in Hns as ([k pc] & Hin & Hpc); [|intros ?; apply _].
  apply list_elem_of_lookup_1 in Hin as [i Hi].
  assert (forall j l q, ws_clients s !! j = Some (l, q) -> may_take q = true -> exists e, is_Some (wait_step s e)) as Htake.
  { intros j l q Hj Hq. exists (EvTake j). cbn. rewrite Hj, Hq. unfold take_for, take_both, take_map, is_taken.
    destruct l, (content (ws_stakes s)), (content (ws_votes s)); cbn; by eexists. }
  destruct pc as [|ns|ns| | |]; [by eapply Htake| | |by eapply Htake| |by destruct Hpc].
  - exists (EvPoll i). cbn. rewrite Hi. destruct (poll_all _ _ _). by eexists.
  - destruct (wo_waits _ _ _ _ _ Hok _ _ _ Hi) as [-> Hw].
    destruct (negb (is_taken (ws_votes s))) eqn:Hv.
    + destruct (wo_no_loss _ _ _ _ _ Hok eq_refl) as [Hp|(j & l & Hj)]; [eauto| |by eapply Htake].
      rewrite (wo_permit _ _ _ _ _ Hok Hp) in Hw. by apply elem_of_nil in Hw.
    + destruct (proj1 (wo_votes _ _ _ _ _ Hok) eq_refl) as (j & l & Hj). exists (EvMerge j c1 c2). cbn. rewrite Hj.
      destruct (match l with BothClient => _ | VotesClient => _ end) as [m p]. destruct (merge_notify _ _ p). by eexists.
  - exists (EvMerge i c1 c2). cbn. rewrite Hi. destruct (match k with BothClient => _ | VotesClient => _ end) as [m p].
    destruct (merge_notify _ _ p). by eexists.
Qed.

Lemma wait_new_good (c1 : C1) (c2 : C2) kinds :
  (forall i j, kinds !! i = Some BothClient -> kinds !! j = Some BothClient -> i = j) ->
  wait_good (wait_new c1 c2 kinds) /\ wait_measure (wait_new c1 c2 kinds : WaitState N T1 C1 T2 C2) = 6 * Z.of_nat (length kinds).
Proof.
  intros Hone. unfold wait_good, wait_measure, wait_new, takable_new. cbn [ws_stakes ws_votes ws_notify ws_clients is_taken content notifier negb].
  rewrite ny_new_permit, ny_new_waiters.
  assert (forall i k pc, ((fun k => (k, ClIdle)) <$> kinds) !! i = Some (k, pc) -> pc = ClIdle /\ kinds !! i = Some k) as Hl.
  { intros i k pc. rewrite list_lookup_fmap. destruct (kinds !! i); naive_solver. }
  split.
  - split_and!; [done..|]. split.
    + intros i j p q [_ Hi]%Hl [_ Hj]%Hl. eauto.
    + by intros i k ns [? _]%Hl.
    + by intros i k ns [? _]%Hl.
    + by intros i Hi%elem_of_nil.
    + constructor.
    + by intros i j k l [? _]%Hl.
    + split; [done|]. by intros (i & k & [? _]%Hl).
    + split; [done|]. by intros (i & [? _]%Hl).
    + done.
    + by intros _ (i & k & [[? _]%Hl|[? _]%Hl]).
  - unfold cls_weight. rewrite <- list_fmap_compose. clear Hone Hl. induction kinds as [|k kinds IH]; [done|].
    rewrite fmap_cons, list_sum_cons. cbn [length Datatypes.length]. cbn in IH |- *. lia.
Qed.
End served.

(** C8. Requests that wait for the stores are all served, however their steps
    interleave: with any number of requests for the vote accounts and one for
    a leader schedule, a run has at most six steps for each request, and as
    long as one is not served there is a step to take (no notification is
    lost, though [notify_one] wakes only one task and permits do not add up). *)
Theorem waiting_requests_served {N T1 C1 T2 C2 : Type} `{NotifyLaws N} `{TakableContent T1 C1} `{TakableContent T2 C2}
    (c1 : C1) (c2 : C2) (kinds : list ClientKind) (evs : list (WaitEvent C1 C2)) (s : WaitState N T1 C1 T2 C2) :
  (forall i j, kinds !! i = Some BothClient -> kinds !! j = Some BothClient -> i = j) ->
  wait_run (wait_new c1 c2 kinds) evs = Some s ->
  Z.of_nat (length evs) <= 6 * Z.of_nat (length kinds) /\
  (Forall (fun c => c.2 = ClServed) (ws_clients s) \/ exists e, is_Some (wait_step s e)).
Proof.
  intros Hone Hrun. destruct (wait_new_good (N := N) (T1 := T1) (T2 := T2) c1 c2 kinds Hone) as [Hg Hm]. destruct (run_good _ _ _ Hg Hrun) as [Hg' Hm'].
  split; [|by apply good_progress].
  assert (0 <= wait_measure s); [|lia]. unfold wait_measure. pose proof (cls_weight_nonneg (ws_clients s)).
  destruct (ny_permit (ws_notify s 1)); cbn; lia.
Qed.

Lemma waiting_requests_served_witness :
  let evs := [EvTake 0; EvTake 1; EvTake 2; EvPoll 1; EvMerge 0 (∅ : StakeMap) ((∅, ∅) : VoteContent); EvPoll 2; EvTake 1] in
  exists s : WaitState FifoNotify StoredStake StakeMap StoredVote VoteContent,
    wait_run (wait_new ∅ (∅, ∅) [VotesClient; BothClient; VotesClient]) evs = Some s /\
    Z.of_nat (length evs) <= 6 * Z.of_nat (length [VotesClient; BothClient; VotesClient]) /\
    (Forall (fun c => c.2 = ClServed) (ws_clients s) \/ exists e, is_Some (wait_step s e)).
Proof.
  cbn zeta. eexists. split; [vm_compute; reflexivity|].
  apply (waiting_requests_served ∅ (∅, ∅) [VotesClient; BothClient; VotesClient] [EvTake 0; EvTake 1; EvTake 2; EvPoll 1;
    EvMerge 0 ∅ (∅, ∅); EvPoll 2; EvTake 1]); [|vm_compute; reflexivity].
  intros [|[|[|i]]] [|[|[|j]]]; done.
Defined.

(** With three leader schedules at once and a request for the vote accounts
    between, two tasks stay behind, each with the notification the other one
    waits for, while both stores have their content. *)
Definition stall_events : list (WaitEvent unit unit) :=
  [EvTake 0; EvTake 1; EvTake 2; EvPoll 1; EvPoll 2; EvMerge 0 () (); EvTake 3; EvTake 1; EvPoll 1; EvMerge 3 () ()].

#[local] Instance unit_content : TakableContent unit unit := fun c _ => c.

Lemma three_schedules_stall :
  exists s : WaitState FifoNotify unit unit unit unit,
    wait_run (wait_new () () [BothClient; BothClient; BothClient; VotesClient]) stall_events = Some s /\
    content (ws_stakes s) = Some () /\ content (ws_votes s) = Some () /\
    ws_clients s = [(BothClient, ClServed); (BothClient, ClWaits [1]); (BothClient, ClWaits [0]); (VotesClient, ClServed)] /\
    forall e, wait_step s e = None.
Proof.
  eexists. split; [vm_compute; reflexivity|]. split_and!; [done..|].
  intros [i|i|i c1 c2]; destruct i as [|[|[|[|i]]]]; done.
Qed.
