(* ===== verification/ProxyLink.v ===== *)
(** * The connection to the proxy

    services/src/tpu_utils: the task that sends to the proxy
    (quic_proxy_connection_manager.rs, modelled in Proxy) together with the
    connection it sends over, the copy of [AutoReconnect] in
    quinn_auto_reconnect.rs.  The copy differs from the proxy's own in what an
    unexpected error does. *)

From S2P Require Import Prelude Types Proxy.

Open Scope Z_scope.

(** ** The connection *)

(** [AutoReconnect::refresh], services/src/tpu_utils/quinn_auto_reconnect.rs:65-165. *)
Definition services_refresh : ConnectionState -> gset Z -> Attempt -> outcome ConnectionState := refresh services_create_connection.

(** [AutoReconnect::refresh_and_get], services/src/tpu_utils/quinn_auto_reconnect.rs:53-63. *)
Definition services_refresh_and_get : ConnectionState -> gset Z -> Attempt -> outcome (ConnectionState * result string Z) :=
  refresh_and_get services_create_connection.

(** How the stream fares once there is a connection. *)
Inductive StreamIo := IoSent | IoOpenTimeout | IoOpenErr | IoWriteErr | IoFinishErr.

(** [AutoReconnect::send_uni], services/src/tpu_utils/quinn_auto_reconnect.rs:44-51. *)
Definition send_uni (st : ConnectionState) (closed : gset Z) (a : Attempt) (io : StreamIo) :
    outcome (ConnectionState * result string unit) :=
  '(st', r) ← services_refresh_and_get st closed a;
  Done (st', _ ← r; match io with
                    | IoSent => Ok tt
                    | IoOpenTimeout => Err "open uni stream for sending"%string
                    | IoOpenErr | IoWriteErr | IoFinishErr => Err "connection lost"%string
                    end).

(** [AutoReconnect::connection_stats], services/src/tpu_utils/quinn_auto_reconnect.rs:193-206; the
    statistics are quinn's. *)
Definition connection_stats (stats : Z -> string) (st : ConnectionState) : string :=
  match st with
  | Connected conn => stats conn
  | NotConnected => "n/c"
  | PermanentError => "n/a (permanent)"
  | FailedAttempt _ => "fail"
  | ShuttingDown => "shutdown"
  end.

(** ** The task *)

(** The task's streams in one round: the connection afterwards, nothing if the
    task panicked, and whether each stream was sent, up to the first that was
    not (a script that has run out does not send). *)
Fixpoint streams_sent (st : ConnectionState) (n : nat) (script : list (gset Z * Attempt * StreamIo)) :
    option ConnectionState * list bool :=
  match n, script with
  | O, _ => (Some st, [])
  | S n, [] => (Some st, [false])
  | S n, (closed, a, io) :: script =>
      match send_uni st closed a io with
      | Panic => (None, [false])
      | Done (st', Err _) => (Some st', [false])
      | Done (st', Ok _) => let '(st'', sent) := streams_sent st' n script in (st'', true :: sent)
      end
  end.

(** The number of streams a round opens. *)
Definition round_streams (per_unistream : nat) (m : ProxyManager) : nat :=
  match pm_task m with
  | Some (RxTransaction first_tx :: queue) =>
      if exit_signal m then 0%nat
      else match current_tpu_nodes m, gather (per_unistream - 1) queue with
           | _ :: _, Some (more, _) =>
               match chunks CHUNK_SIZE_PER_STREAM (first_tx :: more) with Done pieces => length pieces | Panic => 0%nat end
           | _, _ => 0%nat
           end
  | _ => 0%nat
  end.

Record Link := mkLink { lk_manager : ProxyManager; lk_connection : ConnectionState }.

Inductive LinkEvent :=
| LeReceive (r : Received)
| LeUpdate (nodes : list TpuNode)
| LeRound (script : list (gset Z * Attempt * StreamIo))
| LeExit.

(** [QuicProxyConnectionManager::read_transactions_and_broadcast],
    services/src/tpu_utils/quic_proxy_connection_manager.rs:158-238, over its connection; the
    started task has a new one.  A panic while sending ends the task. *)
Definition link_step (wc : WireCodec) (per_unistream : nat) (l : Link) (e : LinkEvent) : outcome (Link * list (list Z)) :=
  let m := lk_manager l in
  match e with
  | LeReceive r => '(m', out) ← proxy_step wc per_unistream m (PeReceive r); Done (mkLink m' (lk_connection l), out)
  | LeUpdate nodes =>
      '(m', out) ← proxy_step wc per_unistream m (PeUpdate nodes);
      Done (mkLink m' (if simple_thread_started m then lk_connection l else NotConnected), out)
  | LeExit => '(m', out) ← proxy_step wc per_unistream m PeExit; Done (mkLink m' (lk_connection l), out)
  | LeRound script =>
      let '(st, sent) := streams_sent (lk_connection l) (round_streams per_unistream m) script in
      '(m', out) ← proxy_step wc per_unistream m (PeRound sent);
      match st with
      | Some st => Done (mkLink m' st, out)
      | None => Done (mkLink (mkProxyManager (simple_thread_started m') (current_tpu_nodes m') (exit_signal m') None) (lk_connection l), out)
      end
  end.

(** ** What ends the task *)

(** The connection cannot be used, but one is still attempted. *)
Definition will_attempt (st : ConnectionState) (closed : gset Z) : Prop :=
  connection_usable st closed = false /\ st <> PermanentError /\ st <> ShuttingDown.

Lemma services_send_uni_panics st closed io : will_attempt st closed -> send_uni st closed AttemptFailed io = Panic.
Proof.
  intros (Hu & H1 & H2). unfold send_uni, services_refresh_and_get, refresh_and_get, refresh. rewrite Hu.
  unfold connection_usable in Hu. destruct st as [|c| |n|]; try done. cbn. destruct (bool_decide (c ∈ closed)); done.
Qed.

Lemma send_uni_done st closed a io : a <> AttemptFailed -> exists r, send_uni st closed a io = Done r.
Proof.
  intros Ha. unfold send_uni, services_refresh_and_get, refresh_and_get, refresh.
  destruct (connection_usable st closed); cbn; [eauto|]. destruct a as [c| |]; [..|done]; destruct st as [|c'| |n|]; cbn; eauto.
  all: destruct (bool_decide (c' ∈ closed)); cbn; eauto.
Qed.

Lemma streams_sent_survives n : forall st script,
  Forall (fun x => x.1.2 <> AttemptFailed) script -> is_Some (streams_sent st n script).1.
Proof.
  induction n as [|n IH]; intros st script Hs; [by eexists|]. destruct Hs as [|[[closed a] io] script Ha Hs]; [by eexists|].
  cbn [streams_sent]. destruct (send_uni_done st closed a io Ha) as [[st' [[]|e]] ->]; [|by eexists].
  pose proof (IH st' script Hs) as H. by destruct (streams_sent st' n script).
Qed.

Lemma ended_link_sends_nothing wc per_unistream evs : forall l,
  simple_thread_started (lk_manager l) = true -> pm_task (lk_manager l) = None ->
  exists l', orun (link_step wc per_unistream) l evs = Done (l', []) /\ pm_task (lk_manager l') = None.
Proof.
  induction evs as [|e evs IH]; intros l H1 H2; [by exists l|]. cbn [orun].
  assert (exists l1, link_step wc per_unistream l e = Done (l1, []) /\
    simple_thread_started (lk_manager l1) = true /\ pm_task (lk_manager l1) = None) as (l1 & -> & H3 & H4).
  { destruct e as [r|nodes|script|]; cbn [link_step]; [..|destruct (streams_sent _ _ _) as [st sent]|].
    all: match goal with |- context[proxy_step _ _ _ ?e] =>
      destruct (ended_task_step wc per_unistream (lk_manager l) e H1 H2) as (m1 & -> & ? & ?) end; cbn [mbind outcome_bind].
    3: destruct st. all: by eexists. }
  cbn [mbind outcome_bind]. destruct (IH l1 H3 H4) as (l' & -> & H5). by exists l'.
Qed.

(** A round with a batch whose first stream is not sent. *)
Lemma unsent_round wc per_unistream m :
  round_streams per_unistream m <> 0%nat ->
  exists m', proxy_step wc per_unistream m (PeRound [false]) = Done (m', []) /\
    simple_thread_started m' = simple_thread_started m.
Proof.
  unfold round_streams. cbn [proxy_step]. unfold proxy_round. destruct (pm_task m) as [[|[t| |] queue]|]; try done.
  destruct (exit_signal m); [done|]. destruct (current_tpu_nodes m) as [|node nodes]; [done|].
  destruct (gather _ queue) as [[more rest]|]; [|done]. unfold send_copy_of_txs_to_quicproxy.
  destruct (chunks _ _) as [[|p pieces]|]; cbn [mbind outcome_bind length]; [done| |done]. intros _. by eexists.
Qed.

(** An unexpected error of a connection attempt (not a timeout) stops the
    forwarding for good: the task that sends to the proxy panics while it has
    a batch to send, what was queued is lost, and nothing that happens
    afterwards makes a transaction reach the proxy. *)
Theorem unexpected_error_stops_forwarding wc per_unistream l closed io script evs :
  simple_thread_started (lk_manager l) = true -> round_streams per_unistream (lk_manager l) <> 0%nat ->
  will_attempt (lk_connection l) closed ->
  exists l', orun (link_step wc per_unistream) l (LeRound ((closed, AttemptFailed, io) :: script) :: evs) = Done (l', []) /\
    pm_task (lk_manager l') = None.
Proof.
  intros Hst Hn Hw. cbn [orun link_step]. destruct (unsent_round wc per_unistream (lk_manager l) Hn) as (m' & Em & Hm').
  destruct (round_streams per_unistream (lk_manager l)) as [|n]; [done|].
  cbn [streams_sent]. rewrite services_send_uni_panics by done. rewrite Em. cbn [mbind outcome_bind].
  set (l1 := mkLink _ _). destruct (ended_link_sends_nothing wc per_unistream evs l1) as (l' & -> & H); [by cbn; rewrite Hm'|done|].
  by exists l'.
Qed.

(** The task runs, and its queue has transactions only. *)
Definition link_runs (l : Link) : Prop :=
  simple_thread_started (lk_manager l) = true /\ exit_signal (lk_manager l) = false /\
  exists q, pm_task (lk_manager l) = Some q /\ Forall (fun r => is_Some (transaction_of r)) q.

Definition survivable (e : LinkEvent) : Prop :=
  match e with
  | LeReceive r => is_Some (transaction_of r)
  | LeUpdate _ => True
  | LeRound script => Forall (fun x => x.1.2 <> AttemptFailed) script
  | LeExit => False
  end.

Lemma proxy_round_runs wc per_unistream m sent q :
  exit_signal m = false -> pm_task m = Some q -> Forall (fun r => is_Some (transaction_of r)) q ->
  exists m' out q', proxy_round wc per_unistream m sent = Done (m', out) /\ simple_thread_started m' = simple_thread_started m /\
    exit_signal m' = false /\ pm_task m' = Some q' /\ Forall (fun r => is_Some (transaction_of r)) q'.
Proof.
  intros Hx Hq Hall. unfold proxy_round. rewrite Hq, Hx. destruct Hall as [|r q Hr Hall]; [by exists m, [], []|].
  destruct r as [t| |]; [|by destruct Hr..].
  destruct (gather_ok (per_unistream - 1) q Hall) as (more & rest & -> & _ & Hrest).
  destruct (current_tpu_nodes m) as [|node nodes]; [by eexists _, _, rest|].
  unfold send_copy_of_txs_to_quicproxy, chunks. rewrite decide_False by done. cbn [mbind outcome_bind].
  destruct (send_chunks _ _ _ _) as [out r]. by eexists _, _, rest.
Qed.

(** Timeouts, failed streams and a proxy that is given up do not stop the
    task: as long as no connection attempt ends in an unexpected error, the
    channel neither lags nor closes and nobody asks it to exit, the task runs
    and never panics. *)
Theorem forwarding_survives_timeouts wc per_unistream l evs :
  link_runs l -> Forall survivable evs ->
  exists l' out, orun (link_step wc per_unistream) l evs = Done (l', out) /\ link_runs l'.
Proof.
  intros Hl Hevs. revert l Hl. induction Hevs as [|e evs He Hevs IH]; intros l Hl; [by exists l, []|]. cbn [orun].
  assert (exists l1 o1, link_step wc per_unistream l e = Done (l1, o1) /\ link_runs l1) as (l1 & o1 & -> & Hl1).
  { destruct Hl as (Hst & Hx & q & Hq & Hall). destruct e as [r|nodes|script|]; cbn [link_step proxy_step]; [..|done].
    - eexists _, _. split; [reflexivity|]. rewrite Hq. split_and!; [done..|]. eexists. split; [done|].
      apply Forall_app. split; [done|by constructor].
    - eexists _, _. split; [reflexivity|]. unfold update_connection. rewrite Hst, Hq. split_and!; [done..|]. by exists q.
    - pose proof (streams_sent_survives (round_streams per_unistream (lk_manager l)) (lk_connection l) script He) as Hs.
      destruct (streams_sent _ _ _) as [[st|] sent]; [|by destruct Hs].
      destruct (proxy_round_runs wc per_unistream (lk_manager l) sent q Hx Hq Hall) as (m' & out & q' & -> & H1 & H2 & H3 & H4).
      eexists _, _. split; [reflexivity|]. split_and!; cbn; [congruence|done|by exists q']. }
  cbn [mbind outcome_bind]. destruct (IH l1 Hl1) as (l' & out & -> & Hl'). by eexists _, _.
Qed.

(** The same attempt is no error for the proxy's own connection. *)
Lemma proxy_counts_unexpected_error closed : refresh create_connection NotConnected closed AttemptFailed = Done (FailedAttempt 1).
Proof. done. Qed.

(** ** Examples *)

Definition sample_link (st : ConnectionState) : Link :=
  mkLink (mkProxyManager true [mkTpuNode 8000 1] false (Some [RxTransaction (mkTxData 40 [0]); RxTransaction (mkTxData 41 [1])])) st.

Lemma unexpected_error_stops_forwarding_witness :
  exists l', orun (link_step sample_wire 1) (sample_link NotConnected)
      (LeRound ((∅, AttemptFailed, IoSent) :: []) :: [LeUpdate [mkTpuNode 8001 2]; LeRound [(∅, AttemptOk 3, IoSent)]]) = Done (l', []) /\
    pm_task (lk_manager l') = None.
Proof. apply (unexpected_error_stops_forwarding sample_wire 1); [reflexivity|vm_compute; discriminate|split_and!; done]. Defined.

Lemma forwarding_survives_timeouts_witness :
  exists l' out, orun (link_step sample_wire 1) (sample_link (FailedAttempt 10))
      [LeRound [(∅, AttemptTimedOut, IoSent)]; LeRound [(∅, AttemptOk 3, IoSent)]] = Done (l', out) /\ link_runs l'.
Proof.
  apply (forwarding_survives_timeouts sample_wire 1).
  - split_and!; [done..|]. eexists. split; [reflexivity|]. repeat constructor; by eexists.
  - repeat constructor; done.
Defined.
