(* ===== verification/Interface.v ===== *)
(** * The interface

    lite-rpc/src/rpc.rs and rpc_pubsub.rs: the methods and subscriptions a
    client calls by name, as [into_rpc] registers them; core/src/encoding.rs
    (and its copy util/src/encoding.rs): the text encodings of binary data.
    The answers are in Bridge and PubSub.

    base58, base64 and bincode are parameters. *)

From S2P Require Import Prelude Types.

Open Scope string_scope.
Open Scope list_scope.

(** ** Encodings *)

(** [BinaryEncoding], core/src/encoding.rs:6-12. *)
Inductive BinaryEncoding := Base58 | Base64.

(** [BinaryCodecError], core/src/encoding.rs:14-22. *)
Inductive BinaryCodecError := Base58DecodeError (e : string) | Base58EncodeError (e : string) | Base64DecodeError (e : string).

Definition BASE64 : BinaryEncoding := Base64.
Definition BASE58 : BinaryEncoding := Base58.

(** The crates the encodings come from. *)
Record TextCodecs := mkTextCodecs {
  bs58_decode : string -> result string (list Z);
  bs58_encode : list Z -> string;
  base64_decode : string -> result string (list Z);
  base64_encode : list Z -> string;
}.

(** What they document: decoding undoes encoding. *)
Class TextCodecsLaws (tc : TextCodecs) : Prop := {
  bs58_law b : bs58_decode tc (bs58_encode tc b) = Ok b;
  base64_law b : base64_decode tc (base64_encode tc b) = Ok b;
}.

(** bincode for one type. *)
Record Bincode (E : Type) := mkBincode { bincode_serialize : E -> result string (list Z); bincode_deserialize : list Z -> result string E }.
Arguments bincode_serialize {E} b x.
Arguments bincode_deserialize {E} b l.

Class BincodeLaws {E : Type} (bc : Bincode E) : Prop :=
  bincode_law x b : bincode_serialize bc x = Ok b -> bincode_deserialize bc b = Ok x.

Section encodings.
Context (tc : TextCodecs).

(** [BinaryEncoding::decode], core/src/encoding.rs:25-30. *)
Definition encoding_decode (enc : BinaryEncoding) (to_decode : string) : result BinaryCodecError (list Z) :=
  match enc with
  | Base58 => match bs58_decode tc to_decode with Ok b => Ok b | Err e => Err (Base58DecodeError e) end
  | Base64 => match base64_decode tc to_decode with Ok b => Ok b | Err e => Err (Base64DecodeError e) end
  end.

(** [BinaryEncoding::encode], core/src/encoding.rs:32-37. *)
Definition encoding_encode (enc : BinaryEncoding) (to_encode : list Z) : string :=
  match enc with Base58 => bs58_encode tc to_encode | Base64 => base64_encode tc to_encode end.

(** [BinaryEncoding::serialize], core/src/encoding.rs:39-42. *)
Definition encoding_serialize {E} (bc : Bincode E) (enc : BinaryEncoding) (to_serialize : E) : result string string :=
  bytes ← bincode_serialize bc to_serialize; Ok (encoding_encode enc bytes).

(** [BinaryEncoding::deserialize], core/src/encoding.rs:44-50. *)
Definition encoding_deserialize {E} (bc : Bincode E) (enc : BinaryEncoding) (to_deserialize : string) : result string E :=
  match encoding_decode enc to_deserialize with
  | Err (Base58DecodeError e) => Err ("Base58DecodeError " +:+ e)
  | Err (Base58EncodeError e) => Err ("Base58EncodeError " +:+ e)
  | Err (Base64DecodeError e) => Err ("Base64DecodeError " +:+ e)
  | Ok bytes => bincode_deserialize bc bytes
  end.
End encodings.

(** What was serialised in an encoding is read back, in the same encoding,
    as it was. *)
Theorem encoding_roundtrip (tc : TextCodecs) {E : Type} (bc : Bincode E) `{!TextCodecsLaws tc} `{!BincodeLaws bc}
    (enc : BinaryEncoding) (x : E) (text : string) :
  encoding_serialize tc bc enc x = Ok text -> encoding_deserialize tc bc enc text = Ok x.
Proof.
  unfold encoding_serialize, encoding_deserialize, encoding_decode, encoding_encode. cbn.
  destruct (bincode_serialize bc x) as [b|] eqn:Hb; [|done]. intros [= <-].
  destruct enc; rewrite ?bs58_law, ?base64_law; by apply bincode_law.
Qed.

(** Codecs for the witness: the bits of a number that stands for the bytes. *)
Fixpoint bit_string (p : positive) : string :=
  match p with xI p => String (Ascii.ascii_of_nat 49) (bit_string p) | xO p => String (Ascii.ascii_of_nat 48) (bit_string p) | xH => EmptyString end.
Fixpoint bit_value (s : string) : positive :=
  match s with EmptyString => xH | String c s => if Ascii.eqb c (Ascii.ascii_of_nat 49) then xI (bit_value s) else xO (bit_value s) end.

Lemma bit_value_string p : bit_value (bit_string p) = p.
Proof. induction p as [p IH|p IH|]; cbn; by rewrite ?IH. Qed.

Definition bits_encode {A} `{Countable A} (x : A) : string := bit_string (encode x).
Definition bits_decode {A} `{Countable A} (s : string) : result string A :=
  match decode (bit_value s) with Some x => Ok x | None => Err "malformed" end.

Lemma bits_law {A} `{Countable A} (x : A) : bits_decode (bits_encode x) = Ok x.
Proof. unfold bits_decode, bits_encode. by rewrite bit_value_string, decode_encode. Qed.

Definition sample_codecs : TextCodecs := mkTextCodecs bits_decode bits_encode bits_decode bits_encode.
Definition sample_bincode : Bincode Z := mkBincode Z (fun x => Ok [x]) (fun b => match b with [x] => Ok x | _ => Err "io error" end).

#[export] Instance sample_codecs_laws : TextCodecsLaws sample_codecs.
Proof. split; intros b; apply bits_law. Qed.
#[export] Instance sample_bincode_laws : BincodeLaws sample_bincode.
Proof. intros x b [= <-]. done. Qed.

Lemma encoding_roundtrip_witness :
  exists text, encoding_serialize sample_codecs sample_bincode BASE64 77%Z = Ok text /\
    encoding_deserialize sample_codecs sample_bincode BASE64 text = Ok 77%Z.
Proof. eexists. split; [reflexivity|]. apply (encoding_roundtrip sample_codecs sample_bincode). reflexivity. Defined.

(** ** Methods *)

(** [LiteRpc], lite-rpc/src/rpc.rs:24-224. *)
Inductive RpcMethod :=
| GetBlock | GetBlocks | GetSignaturesForAddress
| GetClusterNodes
| GetSlot | GetBlockHeight | GetBlockTime | GetFirstAvailableBlock | GetLatestBlockhash | IsBlockhashValid
| GetRecentPerformanceSamples | GetSignatureStatuses | GetRecentPrioritizationFees
| SendTransaction
| GetVersion | RequestAirdrop
| GetEpochInfo | GetLeaderSchedule | GetSlotLeaders | GetVoteAccounts
| GetLatestBlockPriofees | GetLatestAccountPriofees
| GetAccountInfo | GetMultipleAccounts | GetProgramAccounts | GetBalance.

#[export] Instance RpcMethod_eq_dec : EqDecision RpcMethod.
Proof. solve_decision. Defined.

Definition rpc_methods : list RpcMethod :=
  [GetBlock; GetBlocks; GetSignaturesForAddress; GetClusterNodes; GetSlot; GetBlockHeight; GetBlockTime; GetFirstAvailableBlock;
   GetLatestBlockhash; IsBlockhashValid; GetRecentPerformanceSamples; GetSignatureStatuses; GetRecentPrioritizationFees;
   SendTransaction; GetVersion; RequestAirdrop; GetEpochInfo; GetLeaderSchedule; GetSlotLeaders; GetVoteAccounts;
   GetLatestBlockPriofees; GetLatestAccountPriofees; GetAccountInfo; GetMultipleAccounts; GetProgramAccounts; GetBalance].

(** The names of the attributes of [LiteRpc], lite-rpc/src/rpc.rs:24-224. *)
Definition method_name (m : RpcMethod) : string :=
  match m with
  | GetBlock => "getBlock" | GetBlocks => "getBlocks" | GetSignaturesForAddress => "getSignaturesForAddress"
  | GetClusterNodes => "getClusterNodes"
  | GetSlot => "getSlot" | GetBlockHeight => "getBlockHeight" | GetBlockTime => "getBlockTime"
  | GetFirstAvailableBlock => "getFirstAvailableBlock" | GetLatestBlockhash => "getLatestBlockhash"
  | IsBlockhashValid => "isBlockhashValid"
  | GetRecentPerformanceSamples => "getRecentPerformanceSamples" | GetSignatureStatuses => "getSignatureStatuses"
  | GetRecentPrioritizationFees => "getRecentPrioritizationFees"
  | SendTransaction => "sendTransaction"
  | GetVersion => "getVersion" | RequestAirdrop => "requestAirdrop"
  | GetEpochInfo => "getEpochInfo" | GetLeaderSchedule => "getLeaderSchedule" | GetSlotLeaders => "getSlotLeaders"
  | GetVoteAccounts => "getVoteAccounts"
  | GetLatestBlockPriofees => "getLatestBlockPrioFees" | GetLatestAccountPriofees => "getLatestAccountPrioFees"
  | GetAccountInfo => "getAccountInfo" | GetMultipleAccounts => "getMultipleAccounts"
  | GetProgramAccounts => "getProgramAccounts" | GetBalance => "getBalance"
  end.

(** [LiteRpcPubSub], lite-rpc/src/rpc_pubsub.rs:11-72. *)
Inductive PubSubMethod :=
| SlotSubscribe | BlockSubscribe | LogsSubscribe | SignatureSubscribe | SlotUpdatesSubscribe | VoteSubscribe
| LatestBlockPriofeesSubscribe | LatestAccountPriofeesSubscribe | AccountSubscribe | ProgramSubscribe.

#[export] Instance PubSubMethod_eq_dec : EqDecision PubSubMethod.
Proof. solve_decision. Defined.

Definition pubsub_methods : list PubSubMethod :=
  [SlotSubscribe; BlockSubscribe; LogsSubscribe; SignatureSubscribe; SlotUpdatesSubscribe; VoteSubscribe;
   LatestBlockPriofeesSubscribe; LatestAccountPriofeesSubscribe; AccountSubscribe; ProgramSubscribe].

(** The names of the attributes of [LiteRpcPubSub], lite-rpc/src/rpc_pubsub.rs:11-72: to
    subscribe, to unsubscribe, and of the notifications, on one stem. *)
Definition pubsub_stem (m : PubSubMethod) : string :=
  match m with
  | SlotSubscribe => "slot" | BlockSubscribe => "block" | LogsSubscribe => "logs" | SignatureSubscribe => "signature"
  | SlotUpdatesSubscribe => "slotUpdates" | VoteSubscribe => "vote"
  | LatestBlockPriofeesSubscribe => "blockPrioritizationFees" | LatestAccountPriofeesSubscribe => "accountPrioritizationFees"
  | AccountSubscribe => "account" | ProgramSubscribe => "program"
  end.
Definition subscribe_name (m : PubSubMethod) : string := pubsub_stem m +:+ "Subscribe".
Definition unsubscribe_name (m : PubSubMethod) : string := pubsub_stem m +:+ "Unsubscribe".
Definition notification_name (m : PubSubMethod) : string := pubsub_stem m +:+ "Notification".

(** What a name registered with a module calls. *)
Inductive Callback := CallMethod (m : RpcMethod) | CallSubscribe (m : PubSubMethod) | CallUnsubscribe (m : PubSubMethod).

(** jsonrpsee's registration: a name twice is an error, on which [into_rpc]
    panics. *)
Fixpoint register (l : list (string * Callback)) (module : gmap string Callback) : outcome (gmap string Callback) :=
  match l with
  | [] => Done module
  | (name, c) :: l => match module !! name with Some _ => Panic | None => register l (<[name := c]> module) end
  end.

Definition rpc_entries : list (string * Callback) := (fun m => (method_name m, CallMethod m)) <$> rpc_methods.
Definition pubsub_entries : list (string * Callback) :=
  pubsub_methods ≫= fun m => [(subscribe_name m, CallSubscribe m); (unsubscribe_name m, CallUnsubscribe m)].

Definition rpc_into_rpc : outcome (gmap string Callback) := register rpc_entries ∅.
Definition pubsub_into_rpc : outcome (gmap string Callback) := register pubsub_entries ∅.

Lemma register_spec l : forall module,
  NoDup l.*1 -> (forall name, name ∈ l.*1 -> module !! name = None) ->
  exists module', register l module = Done module' /\
    forall name c, module' !! name = Some c <-> (name, c) ∈ l \/ module !! name = Some c.
Proof.
  induction l as [|[name c] l IH]; intros module Hnd Hfresh; cbn [register].
  { exists module. split; [done|]. intros n c. rewrite elem_of_nil. naive_solver. }
  cbn in Hnd. apply NoDup_cons in Hnd as [Hn Hnd]. rewrite (Hfresh name) by (cbn; left).
  destruct (IH (<[name := c]> module) Hnd) as (module' & -> & Hspec).
  { intros n Hin. rewrite lookup_insert_ne by (by intros ->). apply Hfresh. cbn. by right. }
  exists module'. split; [done|]. intros n c'. rewrite Hspec, elem_of_cons, lookup_insert_Some.
  pose proof (Hfresh name ltac:(cbn; left)). split; [intros [?|[[-> ->]|[? ?]]]|intros [[[= -> ->]|?]|Hm]]; auto.
  right. right. split; [congruence|done].
Qed.

(** Both modules register (no name is taken twice, so [into_rpc] does not
    panic), and a name calls a method exactly if it is the name of the
    method: every method and subscription is reachable, under one name. *)
Theorem methods_reachable :
  exists rpc pubsub, rpc_into_rpc = Done rpc /\ pubsub_into_rpc = Done pubsub /\
    (forall name c, rpc !! name = Some c <-> exists m, c = CallMethod m /\ name = method_name m) /\
    (forall name c, pubsub !! name = Some c <->
      exists m, (c = CallSubscribe m /\ name = subscribe_name m) \/ (c = CallUnsubscribe m /\ name = unsubscribe_name m)).
Proof.
  destruct (register_spec rpc_entries ∅) as (rpc & Hr & Hrs); [apply (bool_decide_unpack _); vm_compute; exact I|done|].
  destruct (register_spec pubsub_entries ∅) as (pubsub & Hp & Hps); [apply (bool_decide_unpack _); vm_compute; exact I|done|].
  exists rpc, pubsub. split_and!; [done..| |].
  - intros name c. rewrite Hrs, lookup_empty. unfold rpc_entries. rewrite list_elem_of_fmap. split.
    + intros [(m & [= -> ->] & _)|?]; [eauto|done].
    + intros (m & -> & ->). left. exists m. split; [done|]. destruct m; apply (bool_decide_unpack _); vm_compute; exact I.
  - intros name c. rewrite Hps, lookup_empty. unfold pubsub_entries. rewrite list_elem_of_bind. split.
    + intros [(m & Hin & _)|?]; [|done]. apply elem_of_cons in Hin as [[= -> ->]|Hin]; [eauto|].
      apply list_elem_of_singleton in Hin as [= -> ->]. eauto.
    + intros (m & Hm). left. exists m. split.
      * destruct Hm as [[-> ->]|[-> ->]]; rewrite !elem_of_cons; auto.
      * destruct m; apply (bool_decide_unpack _); vm_compute; exact I.
Qed.
