(* ===== verification/PgStore.v ===== *)
(** * Connecting to the database and starting an epoch

    postgres_session.rs in blockstore/, benchrunner-service/ and
    lite-rpc/src/postgres_logger/ (the same code three times): how a session is
    made from its configuration.  postgres_block_store_writer.rs: the store that
    is built from such sessions, and the creation of the tables of an epoch,
    statement by statement, with the errors the database may answer.  What the
    statements do to the tables is in [BlockStore]; the caches of sessions are
    in [PgSession].

    The driver, its TLS library and base64 are parameters; what the network and
    the database answer is an input of each operation. *)

From S2P Require Import Prelude Types LeaderSchedule BlockStore PgSession Interface.

Open Scope string_scope.
Open Scope list_scope.
Open Scope Z_scope.

(** ** A session *)

(** What a session is made with: no TLS, or a connector of the TLS library. *)
Inductive Connector := NoTls | MakeTlsConnector (tls : Z).

(** The driver and the TLS library: whether the text of a configuration disables
    TLS, and how a connector is built. *)
Record Driver := mkDriver {
  dr_ssl_disabled : string -> result string bool;
  dr_from_pem : list Z -> result string Z;
  dr_from_pkcs12 : list Z -> string -> result string Z;
  dr_build : Z -> Z -> result string Z;
}.

(** [anyhow::Context::context]. *)
Definition context {E A} (text : string) (r : result E A) : result string A :=
  match r with Ok a => Ok a | Err _ => Err text end.

Section sessions.
Context (tc : TextCodecs) (dr : Driver).

(** [PostgresSession::spawn_connection],
    blockstore/src/block_stores/postgres/postgres_session.rs:65-89; [connects] is what the
    server answers, a client on success. *)
Definition spawn_connection (connects : Connector -> result string Z) (connector : Connector) : result string Z :=
  context "Connecting to Postgres failed" (connects connector).

(** [PostgresSession::new],
    blockstore/src/block_stores/postgres/postgres_session.rs:29-63. *)
Definition session_new (connects : Connector -> result string Z) (config : PostgresSessionConfig) : outcome (result string Z) :=
  match dr_ssl_disabled dr (pg_config config) with
  | Err e => Done (Err e)
  | Ok true => Done (spawn_connection connects NoTls)
  | Ok false =>
      ssl ← unwrap (pg_ssl config);
      Done (ca_pem ← context "ca pem decode" (encoding_decode tc Base64 (ca_pem_b64 ssl));
            client_pks ← context "client pks decode" (encoding_decode tc Base64 (client_pks_b64 ssl));
            certificate ← dr_from_pem dr ca_pem;
            identity ← context "Identity" (dr_from_pkcs12 dr client_pks (client_pks_pass ssl));
            connector ← dr_build dr certificate identity;
            spawn_connection connects (MakeTlsConnector connector))
  end.

(** [PostgresSession::new_from_env],
    blockstore/src/block_stores/postgres/postgres_session.rs:22-27. *)
Definition session_new_from_env (connects : Connector -> result string Z) (env : gmap string string) : outcome (result string Z) :=
  match new_from_env (dr_ssl_disabled dr) env with
  | Ok (Some config) => session_new connects config
  | _ => Panic
  end.

(** The copies: [PostgresSession::new],
    benchrunner-service/src/postgres/postgres_session.rs:81-141. *)
Definition bench_session_new := session_new.
(** [PostgresSessionConfig::new_from_env],
    benchrunner-service/src/postgres/postgres_session.rs:28-65. *)
Definition bench_new_from_env := new_from_env.
(** [PostgresSession::new], lite-rpc/src/postgres_logger/postgres_session.rs:18-78. *)
Definition logger_session_new := session_new.
(** [PostgresSessionConfig::new_from_env],
    lite-rpc/src/postgres_logger/postgres_config.rs:19-56. *)
Definition logger_new_from_env := new_from_env.
(** [PostgresSession::multiline_query],
    lite-rpc/src/postgres_logger/postgres_session.rs:96-119. *)
Definition logger_multiline_query := multiline_query.

(** [PostgresSession::execute_prepared],
    blockstore/src/block_stores/postgres/postgres_session.rs:178-185. *)
Definition execute_prepared {Row} (prepare : result string unit) (execute : Row -> result string Z) (params : Row) : result string Z :=
  _ ← prepare; execute params.

(** [PostgresSession::clear_session],
    blockstore/src/block_stores/postgres/postgres_session.rs:133-149; [answer] is the
    database's. *)
Definition clear_session (answer : result string unit) : outcome unit :=
  match answer with Ok _ => Done tt | Err _ => Panic end.

(** ** The store *)

(** [PostgresWriteSession::new],
    blockstore/src/block_stores/postgres/postgres_session.rs:268-283; [setup] is the answer to
    the statements that configure the session. *)
Definition write_session_new (connects : Connector -> result string Z) (setup : result string unit) (config : PostgresSessionConfig) :
    outcome (result string Z) :=
  session ← session_new connects config;
  match session with
  | Err e => Done (Err e)
  | Ok client => match setup with Ok _ => Done (Ok client) | Err _ => Panic end
  end.

(** [Result::unwrap]. *)
Definition expect {E A} (r : result E A) : outcome A := match r with Ok a => Done a | Err _ => Panic end.

(** [PostgresBlockStore],
    blockstore/src/block_stores/postgres/postgres_block_store_writer.rs:22-28. *)
Record PostgresBlockStore := mkBlockStore {
  bs_session_cache : Z;
  bs_write_sessions : list Z;
  bs_epoch_schedule : EpochSchedule;
}.

(** The answers during the start: to each connection and its set-up, and to
    the question for the role. *)
Record StartAnswers := mkStartAnswers {
  sa_connects : nat -> Connector -> result string Z;
  sa_setup : nat -> result string unit;
  sa_session : result string Z;
  sa_roles : result string Z;
}.

(** [PostgresBlockStore::check_write_role],
    blockstore/src/block_stores/postgres/postgres_block_store_writer.rs:57-79. *)
Definition check_write_role (session count : result string Z) : outcome unit :=
  _ ← expect session; n ← expect count; if n =? 0 then Panic else Done tt.

Fixpoint write_sessions_new (ans : StartAnswers) (config : PostgresSessionConfig) (attempts : list nat) : outcome (list Z) :=
  match attempts with
  | [] => Done []
  | i :: attempts =>
      session ← write_session_new (sa_connects ans i) (sa_setup ans i) config;
      client ← expect session;
      rest ← write_sessions_new ans config attempts;
      Done (client :: rest)
  end.

(** [PostgresBlockStore::new],
    blockstore/src/block_stores/postgres/postgres_block_store_writer.rs:31-55: the first
    connection is the cache's. *)
Definition block_store_new (ans : StartAnswers) (es : EpochSchedule) (config : PostgresSessionConfig) : outcome PostgresBlockStore :=
  session ← session_new (sa_connects ans 0%nat) config;
  session_cache ← expect session;
  write_sessions ← write_sessions_new ans config (seq 1 (Z.to_nat PARALLEL_WRITE_SESSIONS));
  match write_sessions with
  | [] => Panic
  | _ =>
      _ ← check_write_role (sa_session ans) (sa_roles ans);
      Done (mkBlockStore session_cache write_sessions es)
  end.



(** ** The tables of an epoch *)

(** What the schema of an epoch has. *)
Record Schema := mkSchema { sch_permissions : bool; sch_blocks : bool; sch_transactions : bool; sch_foreign_key : bool }.

(** The statements that create an epoch. *)
Inductive Ddl := CreateSchema | AssignPermissions | CreateBlocks | CreateTransactions | AddForeignKey.

Inductive SqlError := DuplicateSchema | OtherSqlError.

(** What a statement does to the database: a schema or a table that exists is
    an error, but for the table of blocks ([CREATE TABLE IF NOT EXISTS]); so is
    a statement about a schema or a table that does not. *)
Definition ddl_effect (db : gmap Z Schema) (epoch : Z) (st : Ddl) : gmap Z Schema * result SqlError unit :=
  let update s := (<[epoch := s]> db, Ok tt) in
  match st, db !! epoch with
  | CreateSchema, None => update (mkSchema false false false false)
  | CreateSchema, Some _ => (db, Err DuplicateSchema)
  | _, None => (db, Err OtherSqlError)
  | AssignPermissions, Some s => update (mkSchema true (sch_blocks s) (sch_transactions s) (sch_foreign_key s))
  | CreateBlocks, Some s => update (mkSchema (sch_permissions s) true (sch_transactions s) (sch_foreign_key s))
  | CreateTransactions, Some s =>
      if sch_transactions s then (db, Err OtherSqlError)
      else update (mkSchema (sch_permissions s) (sch_blocks s) true (sch_foreign_key s))
  | AddForeignKey, Some s =>
      if sch_blocks s && sch_transactions s && negb (sch_foreign_key s)
      then update (mkSchema (sch_permissions s) (sch_blocks s) (sch_transactions s) true)
      else (db, Err OtherSqlError)
  end.

(** How a call of the database ends: with the statement's answer, with an error
    before the statement took effect, or with an error after it did (the
    connection broke before the answer). *)
Inductive Reply := Answered | Refused | AnswerLost.

(** [PostgresSession::execute_multiple],
    blockstore/src/block_stores/postgres/postgres_session.rs:160-162. *)
Definition execute_multiple (db : gmap Z Schema) (epoch : Z) (st : Ddl) (reply : Reply) : gmap Z Schema * result SqlError unit :=
  match reply with
  | Answered => ddl_effect db epoch st
  | Refused => (db, Err OtherSqlError)
  | AnswerLost => ((ddl_effect db epoch st).1, Err OtherSqlError)
  end.

(** Statements, each with the context of its error, up to the first error;
    calls beyond the list of replies are answered. *)
Fixpoint execute_in_order (db : gmap Z Schema) (epoch : Z) (sts : list (Ddl * string)) (replies : list Reply) :
    gmap Z Schema * result string unit :=
  match sts with
  | [] => (db, Ok tt)
  | (st, text) :: sts =>
      match execute_multiple db epoch st (default Answered (head replies)) with
      | (db1, Err _) => (db1, Err text)
      | (db1, Ok _) => execute_in_order db1 epoch sts (tail replies)
      end
  end.

Definition epoch_statements : list (Ddl * string) :=
  [(AssignPermissions, "Set postgres permissions for new schema"); (CreateBlocks, "create blocks table for new epoch");
   (CreateTransactions, "create transaction table for new epoch");
   (AddForeignKey, "create foreign key constraint between transactions and blocks")].

(** What a call meets: whether it gets a session, and the replies. *)
Record EpochReplies := mkEpochReplies { er_session : result string unit; er_replies : list Reply }.

(** [PostgresBlockStore::start_new_epoch_if_necessary],
    blockstore/src/block_stores/postgres/postgres_block_store_writer.rs:82-137. *)
Definition start_new_epoch (db : gmap Z Schema) (epoch : EpochRef) (rs : EpochReplies) : gmap Z Schema * outcome (result string bool) :=
  match er_session rs with
  | Err _ => (db, Panic)
  | Ok _ =>
      match execute_multiple db (er_epoch epoch) CreateSchema (default Answered (head (er_replies rs))) with
      | (db1, Err DuplicateSchema) => (db1, Done (Ok false))
      | (db1, Err OtherSqlError) => (db1, Done (Err "create schema for new epoch"))
      | (db1, Ok _) =>
          let '(db2, r) := execute_in_order db1 (er_epoch epoch) epoch_statements (tail (er_replies rs)) in
          (db2, Done (_ ← r; Ok true))
      end
  end.

(** [PostgresBlockStore::prepare_epoch_schema],
    blockstore/src/block_stores/postgres/postgres_block_store_writer.rs:265-274. *)
Definition prepare_epochs (es : EpochSchedule) (db : gmap Z Schema) (slot : Slot) (rs1 rs2 : EpochReplies) :
    gmap Z Schema * outcome (result string bool) :=
  let current := epoch_ref_of (get_epoch_at_slot es slot) in
  match start_new_epoch db current rs1 with
  | (db1, Done (Ok created_current)) =>
      match start_new_epoch db1 (get_next_epoch current) rs2 with
      | (db2, Done (Ok created_next)) => (db2, Done (Ok (created_current || created_next)))
      | failed => failed
      end
  | failed => failed
  end.

(** ** Sessions never lack their certificates *)








End sessions.

(** ** Epochs *)

(** A call that gets a session and only answers. *)
Definition all_answered (rs : EpochReplies) : Prop := er_session rs = Ok tt /\ Forall (eq Answered) (er_replies rs).

Lemma answered_head l : Forall (eq Answered) l -> default Answered (head l) = Answered /\ Forall (eq Answered) (tail l).
Proof. by intros [|x l' <- Hl]. Qed.

(** What an epoch has after the first [n] statements of its creation. *)
Definition objects_after (n : nat) : Schema := mkSchema (2 <=? n)%nat (3 <=? n)%nat (4 <=? n)%nat (5 <=? n)%nat.

Lemma start_new_epoch_answered db epoch rs :
  all_answered rs ->
  start_new_epoch db epoch rs =
    match db !! er_epoch epoch with
    | Some _ => (db, Done (Ok false))
    | None => (<[er_epoch epoch := mkSchema true true true true]> db, Done (Ok true))
    end.
Proof.
  intros [Hs Hr]. unfold start_new_epoch. rewrite Hs. apply answered_head in Hr as [-> Hr]. cbn [execute_multiple ddl_effect].
  destruct (db !! er_epoch epoch) eqn:E; [done|]. unfold epoch_statements.
  do 4 (apply answered_head in Hr as [Hh Hr]; cbn [execute_in_order]; rewrite Hh; cbn [execute_multiple ddl_effect]; clear Hh;
    rewrite lookup_insert_eq; cbn [sch_permissions sch_blocks sch_transactions sch_foreign_key andb negb]; rewrite insert_insert_eq).
  done.
Qed.

(** C15. Preparing a slot creates what is missing of its epoch and the next.  If
    the store gets its sessions and the database answers every statement, then
    afterwards each of the two epochs that had no schema has one with its
    permissions, both tables and the foreign key, all other schemas are as they
    were, and the call reports a creation exactly if one of the two was
    missing. *)
Theorem prepare_epochs_creates (es : EpochSchedule) (db : gmap Z Schema) (slot : Slot) (rs1 rs2 : EpochReplies) :
  all_answered rs1 -> all_answered rs2 ->
  let current := epoch_ref_of (get_epoch_at_slot es slot) in
  let next := get_next_epoch current in
  exists db' created, prepare_epochs es db slot rs1 rs2 = (db', Done (Ok created)) /\
    (forall e, db' !! e = if decide (e = er_epoch current \/ e = er_epoch next)
                          then Some (default (mkSchema true true true true) (db !! e)) else db !! e) /\
    (created = true <-> db !! er_epoch current = None \/ db !! er_epoch next = None).
Proof.
  intros H1 H2. cbn zeta. unfold prepare_epochs. set (current := epoch_ref_of _).
  assert (er_epoch (get_next_epoch current) <> er_epoch current) as Hne.
  { unfold get_next_epoch. cbn [er_epoch]. intros He. apply (f_equal (fun x => (x - er_epoch current) mod u64_size)) in He.
    rewrite Z.sub_diag in He. unfold wrap_u64 in He. rewrite Zminus_mod_idemp_l in He.
    replace (er_epoch current + 1 - er_epoch current) with 1 in He by lia. done. }
  rewrite (start_new_epoch_answered db current rs1 H1). destruct (db !! er_epoch current) as [s|] eqn:Hc.
  - rewrite (start_new_epoch_answered db _ rs2 H2). destruct (db !! er_epoch (get_next_epoch current)) as [s'|] eqn:Hn.
    + eexists db, _. split; [reflexivity|]. split; [|naive_solver]. intros e. case_decide as Hd; [|done]. destruct Hd as [->| ->]; by rewrite ?Hc, ?Hn.
    + eexists _, _. split; [reflexivity|]. split; [|naive_solver]. intros e. case_decide as Hd.
      * destruct Hd as [->| ->]; [by rewrite lookup_insert_ne, Hc|by rewrite lookup_insert_eq, Hn].
      * rewrite lookup_insert_ne; naive_solver.
  - rewrite (start_new_epoch_answered _ _ rs2 H2), lookup_insert_ne by done. destruct (db !! er_epoch (get_next_epoch current)) as [s'|] eqn:Hn.
    + eexists _, _. split; [reflexivity|]. split; [|naive_solver]. intros e. case_decide as Hd.
      * destruct Hd as [->| ->]; [by rewrite lookup_insert_eq, Hc|by rewrite lookup_insert_ne, Hn].
      * rewrite lookup_insert_ne; naive_solver.
    + eexists _, _. split; [reflexivity|]. split; [|naive_solver]. intros e. case_decide as Hd.
      * destruct Hd as [->| ->]; [by rewrite lookup_insert_ne, lookup_insert_eq, Hc|by rewrite lookup_insert_eq, Hn].
      * rewrite !lookup_insert_ne; naive_solver.
Qed.

(** The epochs that have a schema are those [BlockStore] has tables for. *)
Definition same_epochs (db : gmap Z Schema) (d : Database) : Prop := forall e, is_Some (db !! e) <-> is_Some (d !! e).

Lemma start_new_epoch_tables db d epoch rs :
  all_answered rs -> same_epochs db d ->
  same_epochs (start_new_epoch db epoch rs).1 (start_new_epoch_if_necessary d epoch).1 /\
  (start_new_epoch db epoch rs).2 = Done (Ok (start_new_epoch_if_necessary d epoch).2).
Proof.
  intros Hr Hd. rewrite start_new_epoch_answered by done. unfold start_new_epoch_if_necessary. pose proof (Hd (er_epoch epoch)) as He.
  destruct (db !! er_epoch epoch) as [s|] eqn:E, (d !! er_epoch epoch) as [t|] eqn:E'; [done|destruct He as [[? ?] _]; by eexists|destruct He as [_ [? ?]]; by eexists|].
  split; [|done]. intros e. cbn [fst]. destruct (decide (er_epoch epoch = e)) as [<-|Hne]; [rewrite !lookup_insert_eq; by split; eexists|].
  rewrite !lookup_insert_ne by done. apply Hd.
Qed.

Lemma prepare_epochs_tables es db d slot rs1 rs2 :
  all_answered rs1 -> all_answered rs2 -> same_epochs db d ->
  same_epochs (prepare_epochs es db slot rs1 rs2).1 (prepare_epoch_schema es d slot).1 /\
  (prepare_epochs es db slot rs1 rs2).2 = Done (Ok (prepare_epoch_schema es d slot).2).
Proof.
  intros H1 H2 Hd. unfold prepare_epochs, prepare_epoch_schema. set (current := epoch_ref_of _).
  pose proof (start_new_epoch_tables db d current rs1 H1 Hd) as [D1 R1].
  destruct (start_new_epoch db current rs1) as [db1 r1], (start_new_epoch_if_necessary d current) as [d1 c1]. cbn [fst snd] in *. subst r1.
  pose proof (start_new_epoch_tables db1 d1 (get_next_epoch current) rs2 H2 D1) as [D2 R2].
  destruct (start_new_epoch db1 _ rs2) as [db2 r2], (start_new_epoch_if_necessary d1 _) as [d2 c2]. cbn [fst snd] in *. by subst r2.
Qed.

(** A schema that exists is never touched again. *)
Lemma execute_keeps db epoch st reply e s : epoch <> e -> db !! e = Some s -> (execute_multiple db epoch st reply).1 !! e = Some s.
Proof.
  intros Hne H. assert ((ddl_effect db epoch st).1 !! e = Some s) as He.
  { unfold ddl_effect. destruct st, (db !! epoch) as [t|]; cbn [fst]; rewrite ?lookup_insert_ne by done; try done.
    - destruct (sch_transactions t); cbn [fst]; by rewrite ?lookup_insert_ne.
    - destruct (_ && _); cbn [fst]; by rewrite ?lookup_insert_ne. }
  by destruct reply.
Qed.

Lemma execute_in_order_keeps sts : forall db epoch replies e s,
  epoch <> e -> db !! e = Some s -> (execute_in_order db epoch sts replies).1 !! e = Some s.
Proof.
  induction sts as [|[st text] sts IH]; intros db epoch replies e s Hne H; [done|]. cbn [execute_in_order].
  pose proof (execute_keeps db epoch st (default Answered (head replies)) e s Hne H) as H1.
  destruct (execute_multiple _ _ _ _) as [db1 [u|err]]; [by apply IH|done].
Qed.

Lemma start_new_epoch_keeps db epoch rs e s :
  db !! e = Some s -> (start_new_epoch db epoch rs).1 !! e = Some s.
Proof.
  intros H. unfold start_new_epoch. destruct (er_session rs); [|done]. destruct (decide (er_epoch epoch = e)) as [He|Hne].
  - rewrite He. unfold execute_multiple, ddl_effect. rewrite H. by destruct (default _ _).
  - pose proof (execute_keeps db (er_epoch epoch) CreateSchema (default Answered (head (er_replies rs))) e s Hne H) as H1.
    destruct (execute_multiple _ _ _ _) as [db1 [u|[]]]; [|done..].
    pose proof (execute_in_order_keeps epoch_statements db1 (er_epoch epoch) (tail (er_replies rs)) e s Hne H1) as H2.
    by destruct (execute_in_order _ _ _ _).
Qed.

Lemma prepare_epochs_keeps es db slot rs1 rs2 e s :
  db !! e = Some s -> (prepare_epochs es db slot rs1 rs2).1 !! e = Some s.
Proof.
  intros H. unfold prepare_epochs. pose proof (start_new_epoch_keeps db (epoch_ref_of (get_epoch_at_slot es slot)) rs1 e s H) as H1.
  destruct (start_new_epoch db _ rs1) as [db1 [[c1|]|]]; [|done..]. cbn [fst] in H1.
  pose proof (start_new_epoch_keeps db1 (get_next_epoch (epoch_ref_of (get_epoch_at_slot es slot))) rs2 e s H1) as H2.
  by destruct (start_new_epoch db1 _ rs2) as [db2 [[c2|]|]].
Qed.

(** How many statements took effect when the [k]-th call is not answered. *)
Definition effective (k : nat) (reply : Reply) : nat := match reply with AnswerLost => S k | _ => k end.

(** The creation of an epoch that fails at its [k]-th statement. *)
Lemma start_new_epoch_fails db epoch k reply rest :
  db !! er_epoch epoch = None -> (k < 5)%nat -> reply <> Answered -> (0 < effective k reply)%nat ->
  exists e, start_new_epoch db epoch (mkEpochReplies (Ok tt) (replicate k Answered ++ reply :: rest)) =
    (<[er_epoch epoch := objects_after (effective k reply)]> db, Done (Err e)).
Proof.
  intros Hn Hk Hr He. unfold start_new_epoch. cbn [er_session er_replies].
  destruct k as [|[|[|[|[|k]]]]]; [..|lia]; destruct reply; try done; try (cbn in He; lia);
    repeat (cbn [replicate app head tail default from_option id execute_multiple ddl_effect execute_in_order epoch_statements fst];
            rewrite ?Hn, ?lookup_insert_eq, ?insert_insert_eq; cbn [sch_permissions sch_blocks sch_transactions sch_foreign_key andb negb fst]);
    eexists; reflexivity.
Qed.

(** C33. An epoch whose creation fails after its schema exists is never
    finished.  If the statement that fails is the [k]-th and was not carried
    out, or was carried out without an answer, the call reports an error and the
    epoch has what the statements before created, and that one in the second case; whatever
    calls follow, with whatever replies, it has just that, and a call that is answered
    reports that there was nothing to create. *)
Theorem interrupted_epoch_stays (es : EpochSchedule) (db : gmap Z Schema) (epoch : EpochRef) (k : nat) (reply : Reply) (rest : list Reply)
    (calls : list (Slot * EpochReplies * EpochReplies)) (rs : EpochReplies) :
  db !! er_epoch epoch = None -> (k < 5)%nat -> reply <> Answered -> (0 < effective k reply)%nat -> all_answered rs ->
  exists db1 e, start_new_epoch db epoch (mkEpochReplies (Ok tt) (replicate k Answered ++ reply :: rest)) = (db1, Done (Err e)) /\
    let later := foldl (fun db '(slot, rs1, rs2) => (prepare_epochs es db slot rs1 rs2).1) db1 calls in
    later !! er_epoch epoch = Some (objects_after (effective k reply)) /\
    start_new_epoch later epoch rs = (later, Done (Ok false)).
Proof.
  intros Hn Hk Hr He Hrs. destruct (start_new_epoch_fails db epoch k reply rest Hn Hk Hr He) as [e ->]. eexists _, e. split; [done|]. cbn zeta.
  assert (forall db1, db1 !! er_epoch epoch = Some (objects_after (effective k reply)) ->
    foldl (fun db '(slot, rs1, rs2) => (prepare_epochs es db slot rs1 rs2).1) db1 calls !! er_epoch epoch = Some (objects_after (effective k reply))) as Hl.
  { induction calls as [|[[slot r1] r2] calls IH]; intros db1 Hs; [done|]. cbn [foldl]. apply IH. by apply prepare_epochs_keeps. }
  specialize (Hl _ (lookup_insert_eq db _ _)). split; [done|]. by rewrite start_new_epoch_answered, Hl.
Qed.

(** ** Witnesses *)

Definition sample_text_codecs : TextCodecs := mkTextCodecs (fun _ => Ok []) (fun _ => "bs58") (fun _ => Ok [1]) (fun _ => "b64").
Definition sample_driver : Driver :=
  mkDriver (fun text => Ok (String.eqb text "sslmode=disable")) (fun _ => Ok 1) (fun _ _ => Ok 2) (fun _ _ => Ok 3).
Definition sample_answers : StartAnswers :=
  mkStartAnswers (fun i c => match c with NoTls => Err "tls required" | MakeTlsConnector _ => Ok (Z.of_nat i) end) (fun _ => Ok tt) (Ok 0) (Ok 1).
Definition sample_session_config : PostgresSessionConfig := mkSessionConfig "host=db" (Some (mkSslConfig "ca" "pks" "pass")).


(** It starts there. *)
Lemma sample_store_starts :
  block_store_new sample_text_codecs sample_driver sample_answers (fixed_epoch_schedule 1000) sample_session_config =
  Done (mkBlockStore 0 [1; 2; 3; 4] (fixed_epoch_schedule 1000)).
Proof. reflexivity. Qed.

Lemma prepare_epochs_creates_witness :
  let current := epoch_ref_of (get_epoch_at_slot (fixed_epoch_schedule 1000) 5) in
  let next := get_next_epoch current in
  exists db' created, prepare_epochs (fixed_epoch_schedule 1000) ∅ 5 (mkEpochReplies (Ok tt) []) (mkEpochReplies (Ok tt) [Answered]) = (db', Done (Ok created)) /\
    (forall e, db' !! e = if decide (e = er_epoch current \/ e = er_epoch next)
                          then Some (default (mkSchema true true true true) ((∅ : gmap Z Schema) !! e)) else (∅ : gmap Z Schema) !! e) /\
    (created = true <-> (∅ : gmap Z Schema) !! er_epoch current = None \/ (∅ : gmap Z Schema) !! er_epoch next = None).
Proof. apply (prepare_epochs_creates (fixed_epoch_schedule 1000) ∅ 5); split; by repeat constructor. Defined.

Lemma interrupted_epoch_stays_witness :
  exists db1 e, start_new_epoch ∅ (mkEpochRef 0) (mkEpochReplies (Ok tt) [Answered; Answered; Refused]) = (db1, Done (Err e)) /\
    let later := foldl (fun db '(slot, rs1, rs2) => (prepare_epochs (fixed_epoch_schedule 1000) db slot rs1 rs2).1) db1
      [(5, mkEpochReplies (Ok tt) [], mkEpochReplies (Ok tt) []); (1005, mkEpochReplies (Err "no session") [], mkEpochReplies (Ok tt) [])] in
    later !! 0 = Some (mkSchema true false false false) /\
    start_new_epoch later (mkEpochRef 0) (mkEpochReplies (Ok tt) []) = (later, Done (Ok false)).
Proof.
  apply (interrupted_epoch_stays (fixed_epoch_schedule 1000) ∅ (mkEpochRef 0) 2 Refused []); [reflexivity|lia|discriminate|cbn; lia|].
  split; by repeat constructor.
Defined.
