(* ===== verification/Server.v ===== *)
(** * Serving requests

    lite-rpc/src/bridge.rs: one request after the other, each dispatched by the
    name of its method ([Interface]) to its handler ([Bridge]), with the methods
    that the server refuses or passes on.  A handler that panics ends the task
    of its request: the client gets no answer. *)

From S2P Require Import Prelude Types BlockInfoStore LeaderSchedule DataCache TxService.
From S2P Require Import AccountStore AccountService BlockMapping PrioFees PgSession Bridge Interface.

Open Scope string_scope.
Open Scope list_scope.
Open Scope Z_scope.

(** ** Methods that are refused or passed on *)

(** [LiteBridge::get_blocks] and [LiteBridge::get_signatures_for_address],
    lite-rpc/src/bridge.rs:115-132. *)
Definition rpc_get_blocks {A} : result ErrorCode A := Err MethodNotFound.
(** [LiteBridge::get_first_available_block], lite-rpc/src/bridge.rs:180-183. *)
Definition rpc_get_first_available_block {A} : result ErrorCode A := Err MethodNotFound.
(** [LiteBridge::request_airdrop], lite-rpc/src/bridge.rs:424-432. *)
Definition rpc_request_airdrop {A} : result ErrorCode A := Err MethodNotFound.
(** [LiteBridge::get_vote_accounts], lite-rpc/src/bridge.rs:465-471. *)
Definition rpc_get_vote_accounts {A} : result ErrorCode A := Err MethodNotFound.

(** The version of the SDK and what the cluster's RPC node answers. *)
Record ServerEnv := mkServerEnv {
  sv_version : string * Z;
  sv_samples : option Z -> result string (list (Z * Z * Z * Z));
}.

(** [LiteBridge::get_recent_performance_samples], lite-rpc/src/bridge.rs:267-277. *)
Definition rpc_get_recent_performance_samples (env : ServerEnv) (limit : option Z) : result ErrorCode (list (Z * Z * Z * Z)) :=
  match sv_samples env limit with Ok l => Ok l | Err _ => Err InternalError end.

(** [LiteBridge::get_version], lite-rpc/src/bridge.rs:414-422. *)
Definition rpc_get_version (env : ServerEnv) : result ErrorCode (string * option Z) :=
  Ok ((sv_version env).1, Some (sv_version env).2).

(** ** Requests *)

Inductive Request :=
| RqGetBlock (slot : Slot) | RqGetBlocks | RqGetSignaturesForAddress | RqGetFirstAvailableBlock | RqRequestAirdrop | RqGetVoteAccounts
| RqGetClusterNodes
| RqGetSlot (config : option RpcContextConfig) | RqGetBlockHeight (config : option RpcContextConfig) | RqGetBlockTime (slot : Slot)
| RqGetLatestBlockhash (config : option RpcContextConfig) | RqIsBlockhashValid (blockhash : string) (config : option (option CommitmentLevel))
| RqGetRecentPerformanceSamples (limit : option Z) | RqGetSignatureStatuses (sigs : list string)
| RqGetRecentPrioritizationFees (pubkeys : list string)
| RqSendTransaction (tx : string) (config : option RpcSendTransactionConfig)
| RqGetVersion
| RqGetEpochInfo (config : option RpcContextConfig) | RqGetLeaderSchedule (slot : option Slot) (config : option (option CommitmentConfig))
| RqGetSlotLeaders (start_slot : Slot) (limit : Z)
| RqGetLatestBlockPriofees (method : option PrioritizationFeeCalculationMethod)
| RqGetLatestAccountPriofees (account : string) (method : option PrioritizationFeeCalculationMethod)
| RqGetAccountInfo (pubkey : string) (config : option RpcAccountInfoConfig)
| RqGetMultipleAccounts (pubkeys : list string) (config : option RpcAccountInfoConfig)
| RqGetProgramAccounts (program : string) (config : option RpcProgramAccountsConfig)
| RqGetBalance (pubkey : string) (config : option RpcContextConfig).

(** The method of a request. *)
Definition request_method (r : Request) : RpcMethod :=
  match r with
  | RqGetBlock _ => GetBlock | RqGetBlocks => GetBlocks | RqGetSignaturesForAddress => GetSignaturesForAddress
  | RqGetFirstAvailableBlock => GetFirstAvailableBlock | RqRequestAirdrop => RequestAirdrop | RqGetVoteAccounts => GetVoteAccounts
  | RqGetClusterNodes => GetClusterNodes
  | RqGetSlot _ => GetSlot | RqGetBlockHeight _ => GetBlockHeight | RqGetBlockTime _ => GetBlockTime
  | RqGetLatestBlockhash _ => GetLatestBlockhash | RqIsBlockhashValid _ _ => IsBlockhashValid
  | RqGetRecentPerformanceSamples _ => GetRecentPerformanceSamples | RqGetSignatureStatuses _ => GetSignatureStatuses
  | RqGetRecentPrioritizationFees _ => GetRecentPrioritizationFees
  | RqSendTransaction _ _ => SendTransaction
  | RqGetVersion => GetVersion
  | RqGetEpochInfo _ => GetEpochInfo | RqGetLeaderSchedule _ _ => GetLeaderSchedule | RqGetSlotLeaders _ _ => GetSlotLeaders
  | RqGetLatestBlockPriofees _ => GetLatestBlockPriofees | RqGetLatestAccountPriofees _ _ => GetLatestAccountPriofees
  | RqGetAccountInfo _ _ => GetAccountInfo | RqGetMultipleAccounts _ _ => GetMultipleAccounts
  | RqGetProgramAccounts _ _ => GetProgramAccounts | RqGetBalance _ _ => GetBalance
  end.

(** Whether a request reads accounts. *)
Definition reads_accounts (r : Request) : bool :=
  match r with
  | RqGetAccountInfo _ _ | RqGetMultipleAccounts _ _ | RqGetProgramAccounts _ _ | RqGetBalance _ _ => true
  | _ => false
  end.

Section server.
Context (sdk : BridgeSdk) (env : ServerEnv).
Context {S : Type} `{AccountStorage S} {UiAccount : Type}.
Context (base64 : Z) (encode_ui_account : Pubkey -> Account -> Z -> option (Z * Z) -> UiAccount).
Context (ui_lamports : UiAccount -> Z).

Abbreviation Bridge := (LiteBridge (S := S)).

(** What a client gets: the value of its method, an error, or nothing. *)
Inductive Answer :=
| AnNothing
| AnError (e : ErrorCode)
| AnContacts (l : list RpcContactInfo)
| AnNumber (n : Z)
| AnBlockhash (r : RpcResponse (string * Z))
| AnBool (r : RpcResponse bool)
| AnSamples (l : list (Z * Z * Z * Z))
| AnStatuses (r : RpcResponse (list (option TransactionStatus)))
| AnFees (l : list (Slot * Z))
| AnText (s : string)
| AnVersion (v : string * option Z)
| AnEpoch (e : EpochInfo)
| AnSchedule (s : option (gmap string (list Z)))
| AnLeaders (l : list Pubkey)
| AnBlockFees (r : RpcResponse PrioFeesStats)
| AnAccountFees (r : RpcResponse AccountPrioFeesStats)
| AnAccount (r : RpcResponse (option UiAccount))
| AnAccounts (r : RpcResponse (list (option UiAccount)))
| AnProgram (r : option Slot * list (Pubkey * UiAccount))
| AnBalance (r : RpcResponse Z).

Definition answer {A} (value : A -> Answer) (r : result ErrorCode A) : Answer := match r with Ok a => value a | Err e => AnError e end.
Definition panicking_answer {A} (value : A -> Answer) (r : outcome (result ErrorCode A)) : Answer :=
  match r with Done r => answer value r | Panic => AnNothing end.

Definition with_accounts (b : Bridge) (accounts : option S) : Bridge :=
  mkBridge (lb_data_cache b) (lb_transaction_service b) (lb_prio_fees b) (lb_account_priofees b) accounts.
Definition account_answer {A} (b : Bridge) (value : A -> Answer) (r : outcome (result ErrorCode A * option S)) : Bridge * Answer :=
  match r with Done (r, accounts) => (with_accounts b accounts, answer value r) | Panic => (b, AnNothing) end.

(** A request, [LiteRpcServer for LiteBridge], lite-rpc/src/bridge.rs:98-99: its handler's answer,
    with the storage of the accounts afterwards and what sending has put on
    the channels. *)
Definition serve (b : Bridge) (now : Z) (r : Request) : Bridge * Answer * list send_effect :=
  let read (a : Answer) : Bridge * Answer * list send_effect := (b, a, []) in
  match r with
  | RqGetBlock slot => read (answer AnNumber (rpc_get_block slot))
  | RqGetBlocks | RqGetSignaturesForAddress => read (answer AnNumber rpc_get_blocks)
  | RqGetFirstAvailableBlock => read (answer AnNumber rpc_get_first_available_block)
  | RqRequestAirdrop => read (answer AnText rpc_request_airdrop)
  | RqGetVoteAccounts => read (answer AnNumber rpc_get_vote_accounts)
  | RqGetClusterNodes => read (answer AnContacts (rpc_get_cluster_nodes b))
  | RqGetSlot config => read (answer AnNumber (rpc_get_slot b config))
  | RqGetBlockHeight config => read (answer AnNumber (rpc_get_block_height b config))
  | RqGetBlockTime slot => read (answer AnNumber (rpc_get_block_time b slot))
  | RqGetLatestBlockhash config => read (answer AnBlockhash (rpc_get_latest_blockhash sdk b config))
  | RqIsBlockhashValid blockhash config => read (panicking_answer AnBool (rpc_is_blockhash_valid sdk b blockhash config))
  | RqGetRecentPerformanceSamples limit => read (answer AnSamples (rpc_get_recent_performance_samples env limit))
  | RqGetSignatureStatuses sigs => read (panicking_answer AnStatuses (rpc_get_signature_statuses sdk b sigs))
  | RqGetRecentPrioritizationFees pubkeys => read (panicking_answer AnFees (rpc_get_recent_prioritization_fees sdk b pubkeys))
  | RqSendTransaction tx config =>
      match rpc_send_transaction sdk b now tx config with
      | Done (r, out) => (b, answer AnText r, out)
      | Panic => read AnNothing
      end
  | RqGetVersion => read (answer AnVersion (rpc_get_version env))
  | RqGetEpochInfo config => read (answer AnEpoch (rpc_get_epoch_info b config))
  | RqGetLeaderSchedule slot config => read (answer AnSchedule (rpc_get_leader_schedule b slot config))
  | RqGetSlotLeaders start_slot limit => read (answer AnLeaders (rpc_get_slot_leaders b start_slot limit))
  | RqGetLatestBlockPriofees method => read (panicking_answer AnBlockFees (rpc_get_latest_block_priofees b method))
  | RqGetLatestAccountPriofees account method =>
      read (panicking_answer AnAccountFees (rpc_get_latest_account_priofees sdk b account method))
  | RqGetAccountInfo pubkey config => (account_answer b AnAccount (rpc_get_account_info sdk base64 encode_ui_account b pubkey config), [])
  | RqGetMultipleAccounts pubkeys config =>
      (account_answer b AnAccounts (rpc_get_multiple_accounts sdk base64 encode_ui_account b pubkeys config), [])
  | RqGetProgramAccounts program config =>
      (account_answer b AnProgram (rpc_get_program_accounts sdk base64 encode_ui_account b program config), [])
  | RqGetBalance pubkey config =>
      (account_answer b AnBalance (rpc_get_balance sdk base64 encode_ui_account ui_lamports b pubkey config), [])
  end.

(** A request as it arrives: the name is looked up among the registered ones,
    and a name that is not there is not found. *)
Definition serve_named (module : gmap string Callback) (b : Bridge) (now : Z) (name : string) (r : Request) :
    Bridge * Answer * list send_effect :=
  match module !! name with
  | Some (CallMethod m) => if decide (m = request_method r) then serve b now r else (b, AnError InvalidParams, [])
  | _ => (b, AnError MethodNotFound, [])
  end.

(** Requests one after the other. *)
Fixpoint serve_all (b : Bridge) (rs : list (Z * Request)) : Bridge * list Answer * list send_effect :=
  match rs with
  | [] => (b, [], [])
  | (now, r) :: rs =>
      let '(b, a, out) := serve b now r in
      let '(b, l, rest) := serve_all b rs in
      (b, a :: l, out ++ rest)
  end.

(** ** What requests do *)

(** The state requests share, but for the storage of the accounts. *)
Definition same_caches (b b' : Bridge) : Prop := with_accounts b None = with_accounts b' None.

#[export] Instance same_caches_equiv : Equivalence same_caches.
Proof. unfold same_caches. split; [done|by intros ? ? ->|by intros ? ? ? -> ->]. Qed.

Lemma serve_keeps b now r : same_caches b (serve b now r).1.1.
Proof.
  unfold serve. destruct r; try done; unfold account_answer.
  - by destruct (rpc_send_transaction _ _ _ _ _) as [[? ?]|].
  - by destruct (rpc_get_account_info _ _ _ _ _ _) as [[? ?]|].
  - by destruct (rpc_get_multiple_accounts _ _ _ _ _ _) as [[? ?]|].
  - by destruct (rpc_get_program_accounts _ _ _ _ _ _) as [[? ?]|].
  - by destruct (rpc_get_balance _ _ _ _ _ _ _) as [[? ?]|].
Qed.

(** A request that reads no accounts is answered from the caches alone. *)
Lemma serve_reads_caches b b' now r :
  same_caches b b' -> reads_accounts r = false -> (serve b now r).1.2 = (serve b' now r).1.2 /\ (serve b now r).2 = (serve b' now r).2.
Proof.
  intros Hs Hr. destruct b as [d t p a s], b' as [d' t' p' a' s']. injection Hs as -> -> -> ->.
  destruct r; try done. cbn [serve]. unfold rpc_send_transaction. cbn [lb_data_cache lb_transaction_service].
  destruct (_ <? _); [done|]. destruct (match sdk_into_binary_encoding sdk _ with None => _ | Some _ => _ end) as [w|e]; [|done].
  destruct (_ <? _); [done|]. destruct (send_wire_transaction _ _ _ _ _ _ _ _) as [[r out]|]; done.
Qed.

Definition is_send (r : Request) : bool := match r with RqSendTransaction _ _ => true | _ => false end.

Lemma serve_effects b now r : is_send r = false -> (serve b now r).2 = [].
Proof. by destruct r. Qed.

(** The part of a sequence of requests that sends. *)
Definition send_effects (b : Bridge) (rs : list (Z * Request)) : list send_effect :=
  concat ((fun q => (serve b q.1 q.2).2) <$> filter (fun q => is_send q.2 = true) rs).

Lemma serve_all_alone rs : forall b b0,
  same_caches b0 b ->
  let '(b', answers, out) := serve_all b rs in
  same_caches b0 b' /\ out = send_effects b0 rs /\
  Forall2 (fun q a => reads_accounts q.2 = false -> a = (serve b0 q.1 q.2).1.2) rs answers.
Proof.
  induction rs as [|[now r] rs IH]; intros b b0 Hs; [done|]. cbn [serve_all].
  pose proof (serve_keeps b now r) as Hk. pose proof (serve_reads_caches b0 b now r Hs) as Hr.
  pose proof (serve_effects b now r) as He. destruct (serve b now r) as [[b1 a] out] eqn:E. cbn [fst snd] in *.
  specialize (IH b1 b0 ltac:(by etrans)). destruct (serve_all b1 rs) as [[b2 l] rest]. destruct IH as (H1 & -> & H3).
  split; [done|]. split; [|constructor; [intros Ha; symmetry; by apply Hr|done]].
  unfold send_effects. rewrite filter_cons. cbn [snd]. destruct (is_send r) eqn:Hsend.
  - rewrite decide_True by done. cbn [fmap list_fmap concat fst snd]. f_equal. symmetry. apply Hr. by destruct r.
  - rewrite decide_False by done. by rewrite He.
Qed.

(** A block that is newer than the latest of its commitment is the latest, and known. *)
Lemma add_block_newest st (i : BlockInformation) :
  binf_slot (get_latest_block_information st (binf_commitment_config i)) < binf_slot i -> blocks st !! binf_blockhash i = None ->
  get_latest_block_information (add_block st i).2 (binf_commitment_config i) = i /\ blocks (add_block st i).2 !! binf_blockhash i = Some i.
Proof.
  intros Hs Hn. unfold add_block. set (s1 := if _ <? _ then _ else st).
  assert (get_latest_block_information s1 (binf_commitment_config i) = get_latest_block_information st (binf_commitment_config i) /\
    blocks s1 = blocks st) as [E1 E2] by (subst s1; by destruct (_ <? _)).
  rewrite E1, (proj2 (Z.ltb_lt _ _)), update_entry_latest by done. unfold update_entry, set_latest, get_latest_block_information.
  destruct (is_finalized (binf_commitment_config i)); cbn [blocks latest_finalized_block latest_confirmed_block];
    rewrite E2, Hn; cbn [snd set_blocks blocks]; by rewrite lookup_insert_eq.
Qed.

Lemma cache_block_epoch d block : epoch_data (cache_block d block).1 = epoch_data d.
Proof.
  unfold cache_block. apply (cache_transactions_inv (fun d' => epoch_data d' = epoch_data d)); [|done].
  intros d' out tx Hd. unfold cache_transaction. by repeat case_match.
Qed.

(** C19. The server answers from the blocks it sees, whatever other requests it
    serves.  After the caching service has processed a block that is newer than the latest
    of its commitment and has a new blockhash, and then any requests, the
    registered methods asked for that commitment answer: [getSlot] its slot,
    [getBlockHeight] its height, [getLatestBlockhash] its hash with 150 blocks
    more, in the context of its slot, [isBlockhashValid] that the hash it announced is
    valid, and [getEpochInfo] the epoch of its slot; and what the requests put
    on the channels is what their [sendTransaction] requests put there, each as
    if it were alone.  (Heights do not overflow, and printed hashes are read back.) *)
Theorem server_answers_latest_block pubkey_from_str identity sink_closed clean_duration
    (module : gmap string Callback) (d : DataCache) (b : Bridge) (block : ProducedBlock) (rs : list (Z * Request)) (now : Z) :
  let c := pb_commitment_config block in
  let slot := pb_slot (pb_inner block) in
  let height := pb_block_height (pb_inner block) in
  let hash := pb_blockhash (pb_inner block) in
  rpc_into_rpc = Done module ->
  binf_slot (get_latest_block_information (block_information_store d) c) < slot -> blocks (block_information_store d) !! hash = None ->
  0 <= height -> height + 1000 < u64_size -> hash_from_str (sdk_base58 sdk) (sdk_hash_to_string sdk hash) = Ok hash ->
  lb_data_cache b = (caching_step pubkey_from_str identity sink_closed clean_duration d (EvBlock block)).1 ->
  let '(b', _, out) := serve_all b rs in
  let ask name r := (serve_named module b' now name r).1.2 in
  let config := Some (mkContextConfig (Some c) None) in
  ask "getSlot" (RqGetSlot config) = AnNumber slot /\
  ask "getBlockHeight" (RqGetBlockHeight config) = AnNumber height /\
  ask "getLatestBlockhash" (RqGetLatestBlockhash config) = AnBlockhash (mkResponse slot (sdk_hash_to_string sdk hash, height + 150)) /\
  ask "isBlockhashValid" (RqIsBlockhashValid (sdk_hash_to_string sdk hash) (Some (Some (cc_commitment c)))) = AnBool (mkResponse slot true) /\
  ask "getEpochInfo" (RqGetEpochInfo config) = AnEpoch (as_epoch_info (get_epoch_at_slot (epoch_data d) slot) height None) /\
  out = send_effects b rs.
Proof.
  cbn zeta. intros Hm Hslot Hnew Hh Hw Hsdk Hb. pose proof (serve_all_alone rs b b ltac:(done)) as Ha.
  destruct (serve_all b rs) as [[b' answers] out]. destruct Ha as (Hsame & Hout & _). cbn [caching_step] in Hb.
  assert (forall name r, method_name (request_method r) = name -> reads_accounts r = false ->
    (serve_named module b' now name r).1.2 = (serve b now r).1.2) as Hask.
  { intros name r <- Hr. destruct methods_reachable as (rpc & pubsub & Hrpc & _ & Hspec & _). assert (module = rpc) as -> by congruence.
    unfold serve_named. rewrite (proj2 (Hspec (method_name (request_method r)) (CallMethod (request_method r)))) by eauto.
    rewrite decide_True by done. symmetry. by apply (serve_reads_caches b b' now r). }
  destruct (add_block_newest (block_information_store d) (from_block block) Hslot Hnew) as [Hlatest Hentry]. cbn [from_block binf_commitment_config binf_blockhash] in Hlatest, Hentry.
  assert (block_information_store (lb_data_cache b) = (add_block (block_information_store d) (from_block block)).2) as Hbis by (rewrite Hb; apply cache_block_bis).
  assert (latest b (pb_commitment_config block) = from_block block) as Hl by (unfold latest; by rewrite Hbis).
  rewrite !Hask by done. cbn [serve fst snd]. split_and!; [..|done].
  - unfold rpc_get_slot. cbn. by rewrite Hl.
  - unfold rpc_get_block_height. cbn. by rewrite Hl.
  - unfold rpc_get_latest_blockhash. cbn. rewrite Hl. cbn. unfold wrap_u64. by rewrite Z.mod_small by lia.
  - unfold rpc_is_blockhash_valid. rewrite Hsdk. cbn [expect_ok mbind outcome_bind default]. unfold is_blockhash_valid.
    assert (mkCommitmentConfig (cc_commitment (pb_commitment_config block)) = pb_commitment_config block) as Ec by (by destruct (pb_commitment_config block)).
    cbn. rewrite Ec, Hbis, Hentry, Hlatest. cbn. unfold wrap_u64, MAX_RECENT_BLOCKHASHES. rewrite Z.mod_small by lia.
    by rewrite (proj2 (Z.leb_le _ _)) by lia.
  - unfold rpc_get_epoch_info, get_current_epoch. cbn. rewrite Hl. fold (latest b (pb_commitment_config block)). rewrite Hl, Hb, cache_block_epoch. done.
Qed.
End server.

(** The methods the server does not have are refused. *)
Lemma refused_methods {S} `{AccountStorage S} {UiAccount} sdk env base64 (encode_ui_account : _ -> _ -> _ -> _ -> UiAccount) ui_lamports (b : LiteBridge) now r :
  request_method r ∈ [GetBlock; GetBlocks; GetSignaturesForAddress; GetFirstAvailableBlock; RequestAirdrop; GetVoteAccounts] ->
  (serve sdk env base64 encode_ui_account ui_lamports b now r).1.2 = AnError MethodNotFound.
Proof. intros Hr. destruct r; try done; cbn in Hr; repeat (apply elem_of_cons in Hr as [Hr|Hr]; [done|]); by apply not_elem_of_nil in Hr. Qed.

Definition sample_requests : list (Z * Request) :=
  [(5, RqSendTransaction "M" (Some (mkSendConfig (Some UteBase64) (Some 3)))); (6, RqGetBalance "abc" None); (7, RqGetBlocks)].
Abbreviation sample_serve := (serve sample_bridge_sdk (mkServerEnv ("1.17", 5) (fun _ => Ok [])) 0 (fun _ a _ _ => acc_lamports a) id).
Abbreviation sample_serve_all := (serve_all sample_bridge_sdk (mkServerEnv ("1.17", 5) (fun _ => Ok [])) 0 (fun _ a _ _ => acc_lamports a) id).

#[local] Instance sample_storage : AccountStorage InmemoryAccountStore := inmemory_storage (fun _ _ => true).

Lemma server_answers_latest_block_witness :
  let '(b', _, out) := sample_serve_all (bridge_at (caching_step (fun _ => None) "id" (fun _ => false) 5000 sample_cache (EvBlock (sample_produced 11 9 78 cc_confirmed []))).1) sample_requests in
  exists module, rpc_into_rpc = Done module /\
    (serve_named sample_bridge_sdk (mkServerEnv ("1.17", 5) (fun _ => Ok [])) 0 (fun _ a _ _ => acc_lamports a) id module b' 8 "getSlot"
       (RqGetSlot (Some (mkContextConfig (Some cc_confirmed) None)))).1.2 = AnNumber 11.
Proof.
  destruct rpc_into_rpc as [module|] eqn:Em; [|discriminate (eq_trans (eq_sym Em) eq_refl)].
  pose proof (server_answers_latest_block sample_bridge_sdk (mkServerEnv ("1.17", 5) (fun _ => Ok [])) 0 (fun _ a _ _ => acc_lamports a) id
    (fun _ => None) "id" (fun _ => false) 5000 module sample_cache
    (bridge_at (caching_step (fun _ => None) "id" (fun _ => false) 5000 sample_cache (EvBlock (sample_produced 11 9 78 cc_confirmed []))).1)
    (sample_produced 11 9 78 cc_confirmed []) sample_requests 8) as Hr.
  cbn zeta in Hr. specialize (Hr Em). destruct (sample_serve_all _ sample_requests) as [[b' answers] out].
  exists module. split; [reflexivity|]. apply Hr; vm_compute; first [reflexivity|discriminate|lia].
Defined.
