(* ===== verification/BenchService.v ===== *)
(** * The benchmark programs as a whole

    benchrunner-service/src/main.rs: the start of the service and the tasks of
    all tenants, which share one database and whose actions interleave
    ([runner_step]); one task by itself is [tenant_task] of [BenchRunner].
    bench/src/main.rs with bench/src/helpers.rs: the program that runs the
    benchmark several times.  bench/src/benches/confirmation_slot.rs: the
    benchmark that compares two servers. *)

From Stdlib Require Import SpecFloat.
From S2P Require Import Prelude Types Floats Metrics Bench Bench1 PgSession Interface PgStore BenchRunner.

Open Scope string_scope.
Open Scope list_scope.
Open Scope Z_scope.

(** ** The service: start *)

(** [Args], benchrunner-service/src/cli.rs:4-16. *)
Record RunnerArgs := mkRunnerArgs { ra_bench_interval : Z; ra_tx_count : Z; ra_size_tx : TxSize; ra_prio_fees : list Z }.

(** Where the task of a tenant stands: before a run, in it, after its results
    were saved, or over because of a panic. *)
Inductive TenantPhase :=
| RunDue
| RunStarted (impl : BenchImpl) (config : BenchConfig) (env : RunEnv)
| RunSaved (env : RunEnv)
| TaskOver.

Record TenantTask := mkTenantTask { tt_tenant : TenantConfig; tt_run_count : Z; tt_phase : TenantPhase }.

(** The running service: the configurations of the runs, whether there is a
    database, its content, and the tasks. *)
Record Runner := mkRunner {
  rn_configs : list BenchConfig;
  rn_postgres : bool;
  rn_db : BenchDb;
  rn_tasks : list TenantTask;
}.

(** The payer, [get_funded_payer_from_env], benchrunner-service/src/args.rs:12-16; [from_base58]
    is the SDK's, and panics on its own. *)
Definition get_funded_payer_from_env (from_base58 : string -> outcome Pubkey) (env : gmap string string) : outcome Pubkey :=
  text ← unwrap (env !! "FUNDED_PAYER_KEYPAIR58"); from_base58 text.

(** The start, [main], benchrunner-service/src/main.rs:28-90: [None] when there are no
    tenants. *)
Definition runner_start (tc : TextCodecs) (dr : Driver) (connects : Connector -> result string Z)
    (from_base58 : string -> outcome Pubkey) (args : RunnerArgs) (vars : list (string * string)) (db : BenchDb) :
    outcome (option Runner) :=
  let env : gmap string string := list_to_map vars in
  postgres_config ← expect (bench_new_from_env (dr_ssl_disabled dr) env);
  _ ← get_funded_payer_from_env from_base58 env;
  tenants ← read_tenant_configs vars;
  match tenants with
  | [] => Done None
  | _ =>
      postgres ← match postgres_config with
                 | None => Done false
                 | Some x => session ← bench_session_new tc dr connects x; _ ← expect session; Done true
                 end;
      Done (Some (mkRunner (bench_configs_of (ra_prio_fees args) (ra_tx_count args) (ra_size_tx args)) postgres db
                    ((fun t => mkTenantTask t 1 RunDue) <$> tenants)))
  end.

(** ** The service: the tasks *)

(** The next action of a tenant's task, [main],
    benchrunner-service/src/main.rs:91-167; [env] is what a run that begins will meet. *)
Definition task_step (configs : list BenchConfig) (postgres : bool) (env : RunEnv) (task : TenantTask) (db : BenchDb) :
    TenantTask * BenchDb :=
  let t := tt_tenant task in
  match tt_phase task with
  | RunDue =>
      match choose_run (tt_run_count task) configs with
      | Panic => (mkTenantTask t (tt_run_count task) TaskOver, db)
      | Done (impl, c) =>
          (mkTenantTask t (tt_run_count task) (RunStarted impl c env),
           if postgres then (upsert_benchrun_status (re_started env) db t (re_benchrun_at env) STARTED).1 else db)
      end
  | RunStarted impl c env =>
      match (match impl with
             | ConfirmationRateImpl => m ← re_rate env c; Done (save_rate (re_saved env) db t (re_benchrun_at env) c m)
             | Bench1Impl => m ← re_bench1 env c; Done (save_bench1 (re_saved env) db t (re_benchrun_at env) c m)
             end) with
      | Panic => (mkTenantTask t (tt_run_count task) TaskOver, db)
      | Done (saved, _) => (mkTenantTask t (tt_run_count task) (RunSaved env), if postgres then saved else db)
      end
  | RunSaved env =>
      (mkTenantTask t (tt_run_count task +64 1)%rpc RunDue,
       if postgres then (upsert_benchrun_status (re_finished env) db t (re_benchrun_at env) FINISHED).1 else db)
  | TaskOver => (task, db)
  end.

(** An action of one of the tasks. *)
Definition runner_step (r : Runner) (ev : nat * RunEnv) : Runner :=
  match rn_tasks r !! ev.1 with
  | Some task =>
      let '(task, db) := task_step (rn_configs r) (rn_postgres r) ev.2 task (rn_db r) in
      mkRunner (rn_configs r) (rn_postgres r) db (<[ev.1 := task]> (rn_tasks r))
  | None => r
  end.
Definition runner_run : Runner -> list (nat * RunEnv) -> Runner := foldl runner_step.

(** ** The tenants do not interfere *)

(** What the database holds of a tenant. *)
Definition tenant_rows (id : string) (db : BenchDb) : BenchDb :=
  mkBenchDb (filter (fun kv => kv.1.1 = id) (bench_runs db))
    (filter (fun row => b1_tenant row = id) (bench_metrics_bench1 db))
    (filter (fun row => rr_tenant row = id) (bench_metrics_confirmation_rate db)).

Lemma upsert_own a db t at_ status id :
  tenant_rows id (upsert_benchrun_status a db t at_ status).1 =
  if decide (tenant_id t = id) then (upsert_benchrun_status a (tenant_rows id db) t at_ status).1 else tenant_rows id db.
Proof.
  destruct a; cbn [upsert_benchrun_status fst]; [by case_decide..|]. unfold tenant_rows.
  cbn [bench_runs bench_metrics_bench1 bench_metrics_confirmation_rate]. case_decide as Hid.
  - f_equal. by rewrite map_filter_insert_True.
  - f_equal. by rewrite map_filter_insert_not by (intros; exact Hid).
Qed.

Lemma save_rate_own a db t at_ c m id :
  tenant_rows id (save_rate a db t at_ c m).1 =
  if decide (tenant_id t = id) then (save_rate a (tenant_rows id db) t at_ c m).1 else tenant_rows id db.
Proof.
  destruct a; cbn [save_rate fst]; [by case_decide..|]. unfold tenant_rows.
  cbn [bench_runs bench_metrics_bench1 bench_metrics_confirmation_rate]. rewrite filter_app. case_decide as Hid.
  - f_equal. by rewrite (filter_cons_True _ _ []).
  - f_equal. by rewrite (filter_cons_False _ _ []), filter_nil, app_nil_r.
Qed.

Lemma save_bench1_own a db t at_ c m id :
  tenant_rows id (save_bench1 a db t at_ c m).1 =
  if decide (tenant_id t = id) then (save_bench1 a (tenant_rows id db) t at_ c m).1 else tenant_rows id db.
Proof.
  destruct a; cbn [save_bench1 fst]; [by case_decide..|]. unfold tenant_rows.
  cbn [bench_runs bench_metrics_bench1 bench_metrics_confirmation_rate]. rewrite filter_app. case_decide as Hid.
  - f_equal. by rewrite (filter_cons_True _ _ []).
  - f_equal. by rewrite (filter_cons_False _ _ []), filter_nil, app_nil_r.
Qed.

(** What a task does next does not depend on the database, and it writes only
    rows of its own tenant. *)
Lemma task_step_own configs postgres env task db id :
  (task_step configs postgres env task db).1 = (task_step configs postgres env task (tenant_rows id db)).1 /\
  tenant_rows id (task_step configs postgres env task db).2 =
    if decide (tenant_id (tt_tenant task) = id) then (task_step configs postgres env task (tenant_rows id db)).2 else tenant_rows id db.
Proof.
  destruct task as [t run_count phase]. unfold task_step. cbn [tt_tenant tt_run_count tt_phase]. destruct phase as [|impl c env'|env'|].
  - destruct (choose_run run_count configs) as [[impl c]|]; [|by case_decide]. split; [done|]. cbn [snd].
    destruct postgres; [apply upsert_own|by case_decide].
  - destruct impl.
    + destruct (re_rate env' c) as [m|]; cbn [mbind outcome_bind]; [|by case_decide].
      pose proof (save_rate_own (re_saved env') db t (re_benchrun_at env') c m id) as H.
      destruct (save_rate (re_saved env') db t (re_benchrun_at env') c m) as [saved r] eqn:E.
      destruct (save_rate (re_saved env') (tenant_rows id db) t (re_benchrun_at env') c m) as [saved' r'] eqn:E'.
      split; [done|]. destruct postgres; [exact H|by case_decide].
    + destruct (re_bench1 env' c) as [m|]; cbn [mbind outcome_bind]; [|by case_decide].
      pose proof (save_bench1_own (re_saved env') db t (re_benchrun_at env') c m id) as H.
      destruct (save_bench1 (re_saved env') db t (re_benchrun_at env') c m) as [saved r] eqn:E.
      destruct (save_bench1 (re_saved env') (tenant_rows id db) t (re_benchrun_at env') c m) as [saved' r'] eqn:E'.
      split; [done|]. destruct postgres; [exact H|by case_decide].
  - split; [done|]. cbn [snd]. destruct postgres; [apply upsert_own|by case_decide].
  - by case_decide.
Qed.

Lemma task_step_tenant configs postgres env task db :
  tt_tenant (task_step configs postgres env task db).1 = tt_tenant task.
Proof.
  unfold task_step. destruct (tt_phase task) as [|impl c env'|env'|]; [| |done|done].
  - by destruct (choose_run _ _) as [[? ?]|].
  - by destruct (match impl with ConfirmationRateImpl => _ | Bench1Impl => _ end) as [[? ?]|].
Qed.

(** A task by itself. *)
Definition solo_run (configs : list BenchConfig) (postgres : bool) (envs : list RunEnv) (task : TenantTask) (db : BenchDb) :
    TenantTask * BenchDb :=
  foldl (fun '(task, db) env => task_step configs postgres env task db) (task, db) envs.

Lemma solo_run_cons configs postgres env envs task db :
  solo_run configs postgres (env :: envs) task db =
  solo_run configs postgres envs (task_step configs postgres env task db).1 (task_step configs postgres env task db).2.
Proof. unfold solo_run. cbn [foldl]. by destruct (task_step configs postgres env task db). Qed.

(** The actions of a task. *)
Definition own_envs (i : nat) (evs : list (nat * RunEnv)) : list RunEnv := (filter (fun ev => ev.1 = i) evs).*2.

(** Each tenant's task sees the others as if they were not there. *)
Lemma interleaved_is_solo evs r i task db :
  (forall j task', rn_tasks r !! j = Some task' -> j <> i -> tenant_id (tt_tenant task') <> tenant_id (tt_tenant task)) ->
  rn_tasks r !! i = Some task -> tenant_rows (tenant_id (tt_tenant task)) (rn_db r) = tenant_rows (tenant_id (tt_tenant task)) db ->
  let solo := solo_run (rn_configs r) (rn_postgres r) (own_envs i evs) task db in
  rn_tasks (runner_run r evs) !! i = Some solo.1 /\
  tenant_rows (tenant_id (tt_tenant task)) (rn_db (runner_run r evs)) = tenant_rows (tenant_id (tt_tenant task)) solo.2.
Proof.
  cbv zeta. revert r task db. induction evs as [|[j env] evs IH]; intros r task db Hne Hi Hdb; [done|].
  set (id := tenant_id (tt_tenant task)) in *. cbn [runner_run foldl]. fold (runner_run (runner_step r (j, env)) evs).
  unfold runner_step. cbn [fst snd]. unfold own_envs. destruct (decide (j = i)) as [->|Hji].
  - rewrite Hi, filter_cons_True by done. cbn [fmap list_fmap snd]. fold (own_envs i evs). rewrite solo_run_cons.
    destruct (task_step_own (rn_configs r) (rn_postgres r) env task (rn_db r) id) as [Et Ed].
    destruct (task_step_own (rn_configs r) (rn_postgres r) env task db id) as [Et' Ed'].
    rewrite decide_True in Ed, Ed' by done. rewrite Hdb in Et, Ed.
    pose proof (task_step_tenant (rn_configs r) (rn_postgres r) env task db) as Htt.
    destruct (task_step (rn_configs r) (rn_postgres r) env task (rn_db r)) as [task1 db1]. cbn [fst snd] in *.
    assert (task1 = (task_step (rn_configs r) (rn_postgres r) env task db).1) as -> by congruence.
    specialize (IH (mkRunner (rn_configs r) (rn_postgres r) db1 (<[i := (task_step (rn_configs r) (rn_postgres r) env task db).1]> (rn_tasks r)))
      (task_step (rn_configs r) (rn_postgres r) env task db).1 (task_step (rn_configs r) (rn_postgres r) env task db).2).
    rewrite Htt in IH. apply IH; cbn [rn_tasks rn_db].
    + intros k task' Hk Hki. rewrite list_lookup_insert_ne in Hk by done. by apply (Hne k).
    + apply list_lookup_insert_eq. by eapply lookup_lt_Some.
    + fold id. congruence.
  - rewrite filter_cons_False by (exact Hji). fold (own_envs i evs). destruct (rn_tasks r !! j) as [other|] eqn:Ej; [|by apply IH].
    destruct (task_step_own (rn_configs r) (rn_postgres r) env other (rn_db r) id) as [_ Ed].
    rewrite decide_False in Ed by (by apply (Hne j)).
    pose proof (task_step_tenant (rn_configs r) (rn_postgres r) env other (rn_db r)) as Htt.
    destruct (task_step (rn_configs r) (rn_postgres r) env other (rn_db r)) as [other1 db1]. cbn [fst snd] in *.
    apply (IH (mkRunner (rn_configs r) (rn_postgres r) db1 (<[j := other1]> (rn_tasks r)))); cbn [rn_tasks rn_db].
    + intros k task' Hk Hki. destruct (decide (k = j)) as [->|Hkj].
      * rewrite list_lookup_insert_eq in Hk by (by eapply lookup_lt_Some). simplify_eq. rewrite Htt. by apply (Hne j).
      * rewrite list_lookup_insert_ne in Hk by done. by apply (Hne k).
    + by rewrite list_lookup_insert_ne.
    + fold id. congruence.
Qed.

Lemma over_stays configs postgres envs t n db :
  solo_run configs postgres envs (mkTenantTask t n TaskOver) db = (mkTenantTask t n TaskOver, db).
Proof. induction envs as [|env envs IH]; [done|]. rewrite solo_run_cons. exact IH. Qed.

(** Three actions are a run. *)
Lemma three_actions_are_a_run configs postgres env e2 e3 t n db :
  solo_run configs postgres [env; e2; e3] (mkTenantTask t n RunDue) db =
  let '(db', alive) := tenant_run t configs postgres n env db in
  (mkTenantTask t (if alive then (n +64 1)%rpc else n) (if alive then RunDue else TaskOver), db').
Proof.
  rewrite solo_run_cons. unfold tenant_run. destruct (choose_run n configs) as [[impl c]|] eqn:Ec.
  - unfold task_step. cbn [tt_tenant tt_run_count tt_phase]. rewrite Ec. cbn [fst snd]. cbv zeta.
    set (db1 := if postgres then _ else db). rewrite solo_run_cons. unfold task_step. cbn [tt_tenant tt_run_count tt_phase].
    destruct (match impl with ConfirmationRateImpl => _ | Bench1Impl => _ end) as [[saved r]|]; cbn [fst snd]; [|apply over_stays].
    by destruct postgres.
  - unfold task_step. cbn [tt_tenant tt_run_count tt_phase]. rewrite Ec. cbn [fst snd]. apply over_stays.
Qed.

Lemma solo_runs_are_the_task configs postgres runs t n db :
  let solo := solo_run configs postgres (concat ((fun r => [r.1; r.2.1; r.2.2]) <$> runs)) (mkTenantTask t n RunDue) db in
  let '(db', alive) := tenant_task t configs postgres n (fst <$> runs) db in
  solo.2 = db' /\ (tt_phase solo.1 = TaskOver <-> alive = false).
Proof.
  cbv zeta. revert n db. induction runs as [|[env [e2 e3]] runs IH]; intros n db; [done|].
  cbn [fmap list_fmap concat tenant_task fst snd app].
  pose proof (three_actions_are_a_run configs postgres env e2 e3 t n db) as H3.
  rewrite !solo_run_cons in H3 |- *. unfold solo_run at 1 in H3. cbn [foldl] in H3.
  set (s3 := task_step configs postgres e3 _ _) in *. rewrite (surjective_pairing s3) in H3. rewrite (surjective_pairing s3). cbn [fst snd].
  destruct (tenant_run t configs postgres n env db) as [db' [|]]; injection H3 as -> ->.
  - apply IH.
  - rewrite over_stays. done.
Qed.

(** C14. The tenants of the service do not interfere: however the actions of their
    tasks interleave, when tenants have different ids, the database holds of
    each tenant exactly what its task writes when it runs alone, run after run,
    and the task of a tenant is over exactly when it is over alone; in
    particular the panic of one tenant's benchmark stops no other. *)
Theorem tenants_do_not_interfere (r : Runner) (evs : list (nat * RunEnv)) (i : nat) (t : TenantConfig) (n : Z)
    (runs : list (RunEnv * (RunEnv * RunEnv))) :
  (forall j task, rn_tasks r !! j = Some task -> j <> i -> tenant_id (tt_tenant task) <> tenant_id t) ->
  rn_tasks r !! i = Some (mkTenantTask t n RunDue) ->
  own_envs i evs = concat ((fun run => [run.1; run.2.1; run.2.2]) <$> runs) ->
  let '(db, alive) := tenant_task t (rn_configs r) (rn_postgres r) n (fst <$> runs) (rn_db r) in
  tenant_rows (tenant_id t) (rn_db (runner_run r evs)) = tenant_rows (tenant_id t) db /\
  exists task, rn_tasks (runner_run r evs) !! i = Some task /\ (tt_phase task = TaskOver <-> alive = false).
Proof.
  intros Hne Hi Hown.
  destruct (interleaved_is_solo evs r i (mkTenantTask t n RunDue) (rn_db r) Hne Hi eq_refl) as [Ht Hdb]. rewrite Hown in Ht, Hdb.
  cbn [tt_tenant] in Hdb.
  pose proof (solo_runs_are_the_task (rn_configs r) (rn_postgres r) runs t n (rn_db r)) as H. cbv zeta in H.
  destruct (tenant_task _ _ _ _ _ _) as [db alive]. destruct H as [H1 H2].
  split; [by rewrite Hdb, H1|]. eexists. split; [exact Ht|exact H2].
Qed.

(** Two tenants; the first one's benchmark panics. *)
Definition sample_runner : Runner :=
  mkRunner [mkBenchConfig 10 Small 0] true (mkBenchDb ∅ [] [])
    [mkTenantTask (mkTenantConfig "a" "http://a") 1 RunDue; mkTenantTask (mkTenantConfig "b" "http://b") 2 RunDue].

Lemma tenants_do_not_interfere_witness :
  tenant_rows "b" (rn_db (runner_run sample_runner
    [(0%nat, sample_run_env); (1%nat, sample_run_env); (0%nat, sample_run_env); (1%nat, sample_run_env); (0%nat, sample_run_env);
     (1%nat, sample_run_env)])) =
  tenant_rows "b" (tenant_task (mkTenantConfig "b" "http://b") [mkBenchConfig 10 Small 0] true 2 [sample_run_env] (mkBenchDb ∅ [] [])).1.
Proof.
  pose proof (tenants_do_not_interfere sample_runner
    [(0%nat, sample_run_env); (1%nat, sample_run_env); (0%nat, sample_run_env); (1%nat, sample_run_env); (0%nat, sample_run_env);
     (1%nat, sample_run_env)] 1 (mkTenantConfig "b" "http://b") 2 [(sample_run_env, (sample_run_env, sample_run_env))]) as H.
  cbn [fmap list_fmap fst rn_configs rn_postgres rn_db sample_runner] in H.
  destruct (tenant_task (mkTenantConfig "b" "http://b") [mkBenchConfig 10 Small 0] true 2 [sample_run_env] (mkBenchDb ∅ [] [])) as [db alive].
  apply H; [|reflexivity|reflexivity].
  intros [|[|j]] task Hj Hne; [|done|done]. injection Hj as <-. discriminate.
Defined.

(** ** The confirmation slot benchmark *)

(** [Duration::as_secs_f64] of the standard library. *)
Definition as_secs_f64 (d : Z) : f64 :=
  f64_add (f64_of_Z (d / 1000000000)) (f64_div (f64_of_Z (d mod 1000000000)) (f64_of_Z 1000000000)).

(** [Duration::from_secs_f64] panics on a negative number. *)
Definition sleep_secs (secs : f64) : outcome unit := if f_lt secs f_zero then Panic else Done tt.

(** What a run meets: the answers to [getHealth] with their times, the
    blockhashes, and how either transaction is sent and confirmed. *)
Record SlotRunEnv {Tx : Type} := mkSlotRunEnv {
  sr_health_a : result string Z; sr_health_b : result string Z;
  sr_blockhash_a : result string Hash; sr_blockhash_b : result string Hash;
  sr_send_a : Tx -> outcome (result BenchError (ConfirmationResponseFromRpc string));
  sr_send_b : Tx -> outcome (result BenchError (ConfirmationResponseFromRpc string));
}.
Arguments SlotRunEnv : clear implicits.

(** An answer with [?]. *)
Definition or_rpc {A} (r : result string A) : result BenchError A := match r with Ok a => Ok a | Err e => Err (RpcFailed e) end.

(** The result of a task, [a??]: a panic is the error of the join. *)
Definition joined {A} (r : outcome (result BenchError A)) : result BenchError A :=
  match r with Done r => r | Panic => Err (RpcFailed "join error") end.

Section confirmation_slot.
Context {Rng Tx : Type} (sdk : MemoSdk Rng Tx) (payer : Pubkey) (tx_params : BenchmarkTransactionParams).

(** [create_tx], bench/src/benches/confirmation_slot.rs:154-165. *)
Definition create_tx (blockhash : result string Hash) (rng : Rng) : outcome (result BenchError (Tx * Rng)) :=
  match or_rpc blockhash with
  | Err e => Done (Err e)
  | Ok blockhash => tx ← create_memo_tx sdk payer blockhash rng tx_params; Done (Ok tx)
  end.

(** The two tasks, [confirmation_slot], bench/src/benches/confirmation_slot.rs:96-120. *)
Definition send_both (env : SlotRunEnv Tx) (time_a time_b : f64) (tx_a tx_b : Tx) : result BenchError (option (Z * Z)) :=
  let '(a_delay, b_delay) := delays time_a time_b in
  compare_slots (joined (_ ← sleep_secs a_delay; sr_send_a env tx_a)) (joined (_ ← sleep_secs b_delay; sr_send_b env tx_b)).

(** A run, [confirmation_slot], bench/src/benches/confirmation_slot.rs:79-147. *)
Definition slot_run (env : SlotRunEnv Tx) (rng : Rng) : outcome (result BenchError (option (Z * Z) * Rng)) :=
  match or_rpc (sr_health_a env), or_rpc (sr_health_b env) with
  | Err e, _ | _, Err e => Done (Err e)
  | Ok time_a, Ok time_b =>
      a ← create_tx (sr_blockhash_a env) rng;
      match a with
      | Err e => Done (Err e)
      | Ok (tx_a, rng) =>
          b ← create_tx (sr_blockhash_b env) rng;
          match b with
          | Err e => Done (Err e)
          | Ok (tx_b, rng) =>
              match send_both env (as_secs_f64 time_a) (as_secs_f64 time_b) tx_a tx_b with
              | Err e => Done (Err e)
              | Ok landed => Done (Ok (landed, rng))
              end
          end
      end
  end.

Fixpoint slot_runs (envs : list (SlotRunEnv Tx)) (rng : Rng) : outcome (list (option (Z * Z)) * result BenchError unit) :=
  match envs with
  | [] => Done ([], Ok tt)
  | env :: envs =>
      r ← slot_run env rng;
      match r with
      | Err e => Done ([], Err e)
      | Ok (landed, rng) => rest ← slot_runs envs rng; Done (landed :: rest.1, rest.2)
      end
  end.
End confirmation_slot.

(** [confirmation_slot], bench/src/benches/confirmation_slot.rs:45-152: what it logs of each
    run, and its result; the payer is read after the addresses are parsed. *)
Definition confirmation_slot {Rng Tx : Type} (sdk : MemoSdk Rng Tx) (parse_url : string -> result string string)
    (rpc_a rpc_b supportive : string) (payer : option Pubkey) (tx_params : BenchmarkTransactionParams)
    (envs : list (SlotRunEnv Tx)) : outcome (list (option (Z * Z)) * result BenchError unit) :=
  match parse_url rpc_a, parse_url rpc_b, parse_url supportive with
  | Ok _, Ok _, Ok _ => payer ← unwrap payer; slot_runs sdk payer tx_params envs (create_rng sdk None)
  | _, _, _ => Done ([], Err (RpcFailed "Failed to parse RPC URL"))
  end.

Lemma binary_round_aux_positive prec emax m e l : f_lt (binary_round_aux prec emax false m e l) f_zero = false.
Proof.
  unfold binary_round_aux. destruct (shr_fexp prec emax m e l) as [mrs e']. destruct (shr_fexp prec emax _ e' loc_Exact) as [mrs'' e''].
  destruct (shr_m mrs''); [done| |done]. by destruct (e'' <=? emax - prec).
Qed.

(** The sleeps never panic. *)
Lemma delays_not_negative time_a time_b :
  sleep_secs (delays time_a time_b).1 = Done tt /\ sleep_secs (delays time_a time_b).2 = Done tt.
Proof.
  assert (forall x, f_lt (f64_div (SFabs x) (f64_of_Z 2)) f_zero = false) as H.
  { intros x. change (f64_of_Z 2) with (S754_finite false 4503599627370496 (-51)). destruct x as [s|s| |s m e]; [done..|].
    unfold f64_div, SFdiv, SFabs. destruct (SFdiv_core_binary _ _ _ _ _ _) as [[mz ez] lz]. apply binary_round_aux_positive. }
  unfold delays, sleep_secs. destruct (f_lt time_b time_a); cbn [fst snd]; by rewrite H.
Qed.

(** A run whose servers answer logs the slots both transactions took. *)
Lemma send_both_compares {Tx} (env : SlotRunEnv Tx) time_a time_b tx_a tx_b :
  send_both env time_a time_b tx_a tx_b = compare_slots (joined (sr_send_a env tx_a)) (joined (sr_send_b env tx_b)).
Proof.
  unfold send_both. pose proof (delays_not_negative time_a time_b) as [Ha Hb]. destruct (delays time_a time_b) as [a b].
  cbn [fst snd] in *. by rewrite Ha, Hb.
Qed.

(** ** The benchmark program *)

(** [Args], bench/src/lib.rs:35-58. *)
Record BenchArgs := mkBenchArgs {
  ba_tx_count : Z; ba_runs : nat; ba_run_interval_ms : Z; ba_metrics_file_name : string; ba_lite_rpc_addr : string;
  ba_transaction_save_file : string; ba_large_transactions : bool;
}.

(** [BenchHelper::get_payer], bench/src/helpers.rs:34-42: the file, its JSON and its bytes. *)
Definition get_payer (file : result string string) (from_json : string -> result string (list Z))
    (from_bytes : list Z -> result string Pubkey) : result string Pubkey :=
  text ← context "Error reading payer file" file; bytes ← from_json text; from_bytes bytes.

(** [BenchHelper::wait_till_signature_status], bench/src/helpers.rs:44-62: [polls] are the time at
    the head of each iteration and the answer in it; [None] when
    the answers end before the call returns. *)
Definition WAIT_LIMIT_IN_SECONDS : Z := 60.
Fixpoint wait_till_signature_status (polls : list (Z * result string (option (result string unit)))) : option (result string unit) :=
  match polls with
  | [] => None
  | (elapsed, answer) :: polls =>
      if from_secs WAIT_LIMIT_IN_SECONDS <? elapsed then Some (Err "Timedout waiting")
      else match answer with
           | Err e => Some (Err e)
           | Ok (Some (Err e)) => Some (Err e)
           | Ok (Some (Ok _)) => Some (Ok tt)
           | Ok None => wait_till_signature_status polls
           end
  end.

(** What the program meets: the payer, the first answers of the server, and
    whether its files can be written. *)
Record BenchMainEnv := mkBenchMainEnv {
  bm_payer : result string Pubkey;
  bm_blockhash : result string Hash;
  bm_slot : result string Slot;
  bm_metrics_file : bool;
}.

(** [main], bench/src/main.rs:21-145: the rows of the metrics file; [bench] is the outcome of
    [bench1::bench] with a seed, a panic of which is an error of the join. *)
Definition bench_main (args : BenchArgs) (env : BenchMainEnv)
    (bench : TransactionSize -> bool -> Z -> outcome Metric) : outcome (list Metric) :=
  let size := if ba_large_transactions args then TsLarge else TsSmall in
  let log_transactions := negb (String.eqb (ba_transaction_save_file args) EmptyString) in
  _ ← expect (bm_payer env);
  _ ← expect (bm_blockhash env);
  _ ← expect (bm_slot env);
  let join_res := (fun seed => match bench size log_transactions (Z.of_nat seed) with Done m => Some m | Panic => None end) <$>
                    seq 0 (ba_runs args) in
  if bm_metrics_file env then Done (metric_rows join_res) else Panic.

Lemma omap_shorter {A B} (f : A -> option B) (l : list A) : (length (omap f l) <= length l)%nat.
Proof. induction l as [|x l IH]; cbn; [lia|]. destruct (f x); cbn; lia. Qed.

(** The metrics file has a row for every run that did not panic, in the order
    of the runs, and a last one whose counts are the averages over these runs,
    rounded down; runs that panicked are left out of the average. *)
Theorem metrics_file_rows (args : BenchArgs) (env : BenchMainEnv) (bench : TransactionSize -> bool -> Z -> outcome Metric) (rows : list Metric) :
  bench_main args env bench = Done rows ->
  exists ms average, rows = ms ++ [average] /\ (length ms <= ba_runs args)%nat /\
    (forall m, m ∈ ms <-> exists seed size log, (seed < ba_runs args)%nat /\
       size = (if ba_large_transactions args then TsLarge else TsSmall) /\
       log = negb (String.eqb (ba_transaction_save_file args) EmptyString) /\ bench size log (Z.of_nat seed) = Done m) /\
    (Forall counts_ok ms -> Z.of_nat (length ms) < u64_size -> list_sum (txs_sent <$> ms) < u64_size -> ms <> [] ->
       txs_sent average = list_sum (txs_sent <$> ms) / Z.of_nat (length ms) /\
       txs_confirmed average = list_sum (txs_confirmed <$> ms) / Z.of_nat (length ms)).
Proof.
  unfold bench_main. destruct (bm_payer env); [|done]. destruct (bm_blockhash env); [|done]. destruct (bm_slot env); [|done].
  cbn [mbind outcome_bind expect]. destruct (bm_metrics_file env); [|done]. unfold metric_rows.
  set (run := fun seed : nat => _). intros H. injection H as <-. eexists _, _. split; [reflexivity|]. split; [|split].
  - etrans; [apply omap_shorter|]. by rewrite length_fmap, length_seq.
  - intros m. rewrite list_elem_of_omap. split.
    + intros (o & Ho & Hm). apply list_elem_of_fmap in Ho as (seed & -> & Hs). apply elem_of_seq in Hs.
      exists seed. eexists _, _. split; [lia|]. split; [reflexivity|]. split; [reflexivity|]. unfold run, id in Hm.
      destruct (bench _ _ _); by simplify_eq.
    + intros (seed & size & log & Hs & -> & -> & Hb). exists (Some m). split; [|done]. apply list_elem_of_fmap. exists seed.
      split; [unfold run; by rewrite Hb|]. apply elem_of_seq. lia.
  - intros Hc Hl Hsum Hne. by apply (average_metric_counts _ Hc Hl Hsum).
Qed.

Lemma metrics_file_rows_witness :
  exists ms average,
    [mkMetric 1 1 0 f_zero f_zero f_zero f_zero 0 0 0 f_zero; metric_of_avg (avg_metric_add avg_metric_default (mkMetric 1 1 0 f_zero f_zero f_zero f_zero 0 0 0 f_zero))]
    = ms ++ [average] /\ (length ms <= 2)%nat.
Proof.
  destruct (metrics_file_rows (mkBenchArgs 5000 2 1000 "metrics.csv" "http://127.0.0.1:8890" "transactions.csv" false)
    (mkBenchMainEnv (Ok 1) (Ok 2) (Ok 3) true)
    (fun _ _ seed => if seed =? 0 then Panic else Done (mkMetric 1 1 0 f_zero f_zero f_zero f_zero 0 0 0 f_zero)) _ eq_refl)
    as (ms & average & H & Hl & _). exists ms, average. split; [exact H|exact Hl].
Defined.
