(* ===== verification/System.v ===== *)
(** * The server as a whole

    lite-rpc/src/main.rs, service_spawner.rs and start_server.rs, the creation
    of the endpoints' tasks in cluster-endpoints/src, and the capture of metrics
    of services/src/metrics_capture.rs: what [start_lite_rpc] starts for a
    configuration, in which order a start can fail, which tasks it watches, and
    what ends the process.  The tasks themselves are those of the other files. *)

From S2P Require Import Prelude Types BlockInfoStore LeaderSchedule DataCache Tpu PgSession Startup.

Open Scope string_scope.
Open Scope list_scope.
Open Scope Z_scope.

(** ** Tasks *)

(** The tasks of the server. *)
Inductive Task :=
| TpuServiceTask | TxSenderTask | ReplayTask
| PrometheusTask | MetricsTask
| WsServerTask | HttpServerTask
| PostgresTask
| SlotCacheTask | BlockCacheTask | BlockInfoCacheTask | ClusterInfoTask | IdentityStakesTask | CleaningTask
| SlotStreamTask | BlockStreamTask | ClusterInfoPollingTask | VoteAccountsPollingTask | AccountStreamTask
| PollSlotsTask | SlotUpdateTask | BlockPollerTask (i : nat) | BlockReplayTask | BlockSlotTask
| BlockPrioFeesTask | AccountPrioFeesTask
| AccountUpdateTask | AccountBlockTask
| ProgressionInspectorTask (c : CommitmentConfig) | ProgressionWatcherTask (c : CommitmentConfig) | SequenceInspectorTask.

#[export] Instance Task_eq_dec : EqDecision Task.
Proof. solve_decision. Defined.

(** ** The endpoints *)

(** [poll_cluster_info],
    cluster-endpoints/src/rpc_polling/vote_accounts_and_cluster_info_polling.rs:8-32, and in
    the same way [poll_vote_accounts]: one iteration; what is sent, and for how
    many seconds the task sleeps. *)
Definition poll_step {A} (answer : result string A) : list A * Z :=
  match answer with Ok a => ([a], 600) | Err _ => ([], 10) end.

(** [create_json_rpc_polling_subscription],
    cluster-endpoints/src/json_rpc_subscription.rs:13-52: the tasks, and whether
    there is a stream of accounts. *)
Definition create_json_rpc_polling_subscription (num_parallel_tasks : nat) : list Task * bool :=
  ([PollSlotsTask; SlotUpdateTask] ++ (BlockPollerTask <$> seq 0 num_parallel_tasks) ++ [BlockReplayTask; BlockSlotTask] ++
   [ClusterInfoPollingTask; VoteAccountsPollingTask], false).

(** [create_grpc_subscription], cluster-endpoints/src/grpc_subscription.rs:245-307. *)
Definition create_grpc_subscription {F} (accounts_filter : list F) : list Task * bool :=
  match accounts_filter with
  | [] => ([SlotStreamTask; BlockStreamTask; ClusterInfoPollingTask; VoteAccountsPollingTask], false)
  | _ => ([SlotStreamTask; BlockStreamTask; ClusterInfoPollingTask; VoteAccountsPollingTask; AccountStreamTask], true)
  end.

Definition NUM_PARALLEL_TASKS_DEFAULT : nat := 16.

(** What the loop of [create_grpc_account_streaming] receives. *)
Inductive AccountStreamEvent := StreamData | StreamError | StreamSilent | StreamAbort.

(** The loops of [create_grpc_account_streaming],
    cluster-endpoints/src/grpc/grpc_accounts_streaming.rs:231-280: the number of times
    the tasks of the sources were started; every end of the inner loop aborts
    them and starts new ones. *)
Definition account_streaming_step (starts : Z) (e : AccountStreamEvent) : Z :=
  match e with
  | StreamData => starts
  | StreamError | StreamSilent | StreamAbort => starts + 1
  end.

(** ** The servers *)

(** [ServerConfiguration], lite-rpc/src/start_server.rs:12-21. *)
Record ServerConfiguration := mkServerConfiguration {
  max_request_body_size : Z;
  max_response_body_size : Z;
  max_connection : Z;
  max_subscriptions_per_connection : Z;
}.

(** [ServerConfiguration::default], lite-rpc/src/start_server.rs:23-32. *)
Definition server_configuration_default : ServerConfiguration :=
  mkServerConfiguration (50 * Z.shiftl 1 10) (500000 * Z.shiftl 1 10) 1000000 1000.

(** What a server is built with: [None] is the builder's default. *)
Record ServerSettings := mkServerSettings {
  ss_max_connections : Z;
  ss_max_subscriptions : option Z;
  ss_max_request_body_size : option Z;
  ss_max_response_body_size : option Z;
}.

(** [start_servers], lite-rpc/src/start_server.rs:34-94: the settings of the
    websocket and of the HTTP server, or the first address that cannot be bound. *)
Definition start_servers (bind : string -> result string unit) (ws_addr http_addr : string) (c : option ServerConfiguration) :
    result string (ServerSettings * ServerSettings) :=
  let c := default server_configuration_default c in
  _ ← bind ws_addr;
  _ ← bind http_addr;
  Ok (mkServerSettings (max_connection c) (Some (max_subscriptions_per_connection c)) None None,
      mkServerSettings (max_connection c) None (Some (max_response_body_size c)) (Some (max_response_body_size c))).

(** ** Metrics of the store *)

(** [Metrics], services/src/metrics_capture.rs:33-41. *)
Record Metrics := mkMetrics {
  mt_txs_sent : Z; mt_txs_confirmed : Z; mt_txs_finalized : Z;
  mt_txs_ps : Z; mt_txs_confirmed_ps : Z; mt_txs_finalized_ps : Z;
}.

(** The SDK's [TransactionStatus::confirmation_status] of a status that has
    one; every status of the store has one. *)
Definition confirmed_by (c : TransactionConfirmationStatus) (p : TxProps) : bool :=
  match txp_status p ≫= ts_confirmation_status with
  | Some TcsFinalized => true
  | Some TcsConfirmed => match c with TcsConfirmed => true | _ => false end
  | _ => false
  end.

(** One tick of [MetricsCapture::capture], services/src/metrics_capture.rs:65-98. *)
Definition capture_step (store : gmap Signature TxProps) (m : Metrics) : Metrics :=
  let count c := Z.of_nat (length (filter (fun e => confirmed_by c e.2 = true) (map_to_list store))) in
  let txs_sent := Z.of_nat (size store) in
  let txs_confirmed := count TcsConfirmed in
  let txs_finalized := count TcsFinalized in
  mkMetrics txs_sent txs_confirmed txs_finalized
    (default 0 (checked_sub_u64 txs_sent (mt_txs_sent m)))
    (default 0 (checked_sub_u64 txs_confirmed (mt_txs_confirmed m)))
    (default 0 (checked_sub_u64 txs_finalized (mt_txs_finalized m))).

(** ** The start *)

(** What the start meets outside: the key file, the resolver, the parser of
    the filters (a filter is its text), the RPC server, the file of lookup
    tables, the database, and the TPU service. *)
Record StartEnv := mkStartEnv {
  se_keypair : result string unit;
  se_resolve : string -> result string (list string);
  se_parse_filters : string -> option (list string);
  se_populate : result string unit;
  se_blockinfos : list BlockInfoRecv;
  se_epoch : result string EpochSchedule;
  se_open_tables : string -> result string (outcome unit);
  se_postgres : result string unit;
  se_tpu : result string unit;
}.

(** What runs after the start: the tasks that are watched and those that are
    not, whether accounts are loaded on demand and lookup tables are used, and
    the data the caches start from. *)
Record Services := mkServices {
  sv_watched : list Task;
  sv_unwatched : list Task;
  sv_on_demand : bool;
  sv_tables : bool;
  sv_path : TpuConnectionPath;
  sv_data_cache : DataCache;
}.

Inductive StartResult :=
| StartFailed (e : string)
| StartPanicked
| StartWaiting
| Started (s : Services).

Definition or_fail {A} (r : result string A) (f : A -> StartResult) : StartResult :=
  match r with Ok a => f a | Err e => StartFailed e end.
Definition or_panic {A} (r : outcome A) (f : A -> StartResult) : StartResult :=
  match r with Done a => f a | Panic => StartPanicked end.

(** [setup_grpc_stream_debugging], lite-rpc/src/main.rs:419-431. *)
Definition setup_grpc_stream_debugging : list Task :=
  [ProgressionWatcherTask cc_confirmed; ProgressionInspectorTask cc_confirmed;
   ProgressionWatcherTask cc_finalized; ProgressionInspectorTask cc_finalized; SequenceInspectorTask].

(** [start_postgres], lite-rpc/src/main.rs:79-98: without a configuration the
    task never ends. *)
Definition start_postgres (config : option PostgresSessionConfig) (connect : result string unit) : result string (list Task) :=
  match config with None => Ok [] | Some _ => _ ← connect; Ok [PostgresTask] end.

(** The tables, [start_lite_rpc], lite-rpc/src/main.rs:288-311. *)
Definition load_tables (env : StartEnv) (c : Config) (f : bool -> StartResult) : StartResult :=
  if default false (cf_enable_address_lookup_tables c) then
    match cf_address_lookup_tables_binary c with
    | None => f true
    | Some file => or_fail (se_open_tables env file) (fun r => or_panic r (fun _ => f true))
    end
  else f false.

(** [start_lite_rpc], lite-rpc/src/main.rs:100-417, up to the loop that watches
    the tasks. *)
Definition start_lite_rpc (env : StartEnv) (c : Config) : StartResult :=
  or_fail (se_keypair env) (fun _ =>
  or_panic (configure_tpu_connection_path (se_resolve env) (cf_quic_proxy_addr c)) (fun path =>
  or_panic (match cf_account_filters c with None => Done [] | Some text => unwrap (se_parse_filters env text) end) (fun filters =>
  let on_demand := default false (cf_enable_accounts_on_demand_accounts_service c) in
  let '(endpoint_tasks, accounts) :=
    if cf_use_grpc c then create_grpc_subscription filters
    else create_json_rpc_polling_subscription NUM_PARALLEL_TASKS_DEFAULT in
  let inspectors := if cf_enable_grpc_stream_inspection c then setup_grpc_stream_debugging else [] in
  or_fail (if accounts then se_populate env else Ok ()) (fun _ =>
  or_panic (wait_till_block_of_commitment_is_recieved (se_blockinfos env) cc_finalized) (fun info =>
  match info with
  | None => StartWaiting
  | Some finalized_block_info =>
  or_fail (se_epoch env) (fun epoch_data =>
  load_tables env c (fun tables =>
  or_fail (start_postgres (cf_postgres c) (se_postgres env)) (fun postgres =>
  or_fail (se_tpu env) (fun _ =>
  Started (mkServices
    ([TpuServiceTask; TxSenderTask; ReplayTask; PrometheusTask; MetricsTask; WsServerTask; HttpServerTask] ++ postgres ++
     [SlotCacheTask; BlockCacheTask; BlockInfoCacheTask; ClusterInfoTask; IdentityStakesTask; CleaningTask] ++
     endpoint_tasks ++ [BlockPrioFeesTask; AccountPrioFeesTask])
    (inspectors ++ if accounts then [AccountUpdateTask; AccountBlockTask] else [])
    (accounts && on_demand) tables path (initial_data_cache finalized_block_info epoch_data))))))
  end))))).

(** ** The end *)

(** The message with which the end of a task that is watched ends
    [start_lite_rpc], lite-rpc/src/main.rs:387-416.  The tasks of the
    transaction services are selected in transaction_service.rs, lines 86 to
    96, those of the support services in service_spawner.rs, lines 32 to 39. *)
Definition end_message (t : Task) : string :=
  match t with
  | TpuServiceTask | TxSenderTask | ReplayTask => "Tx Services"
  | PrometheusTask | MetricsTask => "Support Services"
  | WsServerTask | HttpServerTask => "Server"
  | PostgresTask => "Postgres service"
  | SlotCacheTask | BlockCacheTask | BlockInfoCacheTask | ClusterInfoTask | IdentityStakesTask | CleaningTask =>
      "Data caching service failed"
  | BlockPrioFeesTask => "block prioritization fees task failed"
  | AccountPrioFeesTask => "account prioritization fees task failed"
  | _ => "cluster endpoint failure"
  end.

(** [setup_tracing_subscriber], lite-rpc/src/main.rs:493-509: whether the closing of spans is
    logged. *)
Definition setup_tracing_subscriber (env : gmap string string) : outcome bool :=
  unwrap (parse_bool (default "false"%string (env !! "ENABLE_INSTRUMENT_TRACING"%string))).

(** The start of [main], lite-rpc/src/main.rs:433-446: a configuration that cannot be loaded ends
    the process. *)
Definition main_start (env : gmap string string) (load : outcome (result string Config)) : outcome (result string Config) :=
  _ ← setup_tracing_subscriber env; load.

Inductive ProcessEvent := TaskEnds (t : Task) | RpcTesterEnds | CtrlC.

(** [main], lite-rpc/src/main.rs:447-463: how the process ends, [None] while it
    runs. *)
Definition main_step (s : Services) (e : ProcessEvent) : option (result string unit) :=
  match e with
  | RpcTesterEnds | CtrlC => Some (Ok ())
  | TaskEnds t => if decide (t ∈ sv_watched s) then Some (Err (end_message t)) else None
  end.

Fixpoint main_run (s : Services) (es : list ProcessEvent) : option (result string unit) :=
  match es with
  | [] => None
  | e :: es => match main_step s e with Some r => Some r | None => main_run s es end
  end.

(** What the slot stream brings. *)
Inductive SlotRecv := SlotReceived (n : SlotNotification) | SlotLagged (missed : Z) | SlotClosed.

(** [TpuService::start], services/src/tpu_utils/tpu_service.rs:176-193: whether
    the task has ended after the given notifications. *)
Fixpoint tpu_service_ended {S : Type} `{LeaderFetcher S} (fanout_slots : Z) (d : DataCache) (active : gmap Pubkey SocketAddr)
    (getter : S) (recvs : list SlotRecv) : bool :=
  match recvs with
  | [] => false
  | SlotReceived n :: recvs =>
      match update_quic_connections fanout_slots d active getter (processed_slot n) (estimated_processed_slot n) with
      | Done (Ok u, getter) => tpu_service_ended fanout_slots d (cu_active u) getter recvs
      | _ => true
      end
  | _ => true
  end.

(** What the process sees of the task. *)
Definition tpu_events {S : Type} `{LeaderFetcher S} (fanout_slots : Z) (d : DataCache) (active : gmap Pubkey SocketAddr)
    (getter : S) (recvs : list SlotRecv) : list ProcessEvent :=
  if tpu_service_ended fanout_slots d active getter recvs then [TaskEnds TpuServiceTask] else [].

(** ** What a start leads to *)

Lemma load_tables_started env c f s : load_tables env c f = Started s -> exists tables, f tables = Started s.
Proof.
  unfold load_tables, or_fail, or_panic. repeat case_match; intros; simplify_eq; eauto.
Qed.

(** A start that succeeds has taken every step. *)
Lemma started_inv env c s :
  start_lite_rpc env c = Started s ->
  exists path filters info epoch tables postgres,
    se_keypair env = Ok () /\ configure_tpu_connection_path (se_resolve env) (cf_quic_proxy_addr c) = Done path /\
    match cf_account_filters c with None => Done [] | Some text => unwrap (se_parse_filters env text) end = Done filters /\
    wait_till_block_of_commitment_is_recieved (se_blockinfos env) cc_finalized = Done (Some info) /\
    se_epoch env = Ok epoch /\ start_postgres (cf_postgres c) (se_postgres env) = Ok postgres /\ se_tpu env = Ok () /\
    let '(endpoint_tasks, accounts) :=
      if cf_use_grpc c then create_grpc_subscription filters else create_json_rpc_polling_subscription NUM_PARALLEL_TASKS_DEFAULT in
    (accounts = true -> se_populate env = Ok ()) /\
    s = mkServices
      ([TpuServiceTask; TxSenderTask; ReplayTask; PrometheusTask; MetricsTask; WsServerTask; HttpServerTask] ++ postgres ++
       [SlotCacheTask; BlockCacheTask; BlockInfoCacheTask; ClusterInfoTask; IdentityStakesTask; CleaningTask] ++
       endpoint_tasks ++ [BlockPrioFeesTask; AccountPrioFeesTask])
      ((if cf_enable_grpc_stream_inspection c then setup_grpc_stream_debugging else []) ++
       if accounts then [AccountUpdateTask; AccountBlockTask] else [])
      (accounts && default false (cf_enable_accounts_on_demand_accounts_service c)) tables path (initial_data_cache info epoch).
Proof.
  unfold start_lite_rpc, or_fail, or_panic.
  destruct (se_keypair env) as [[]|] eqn:Hk; [|done].
  destruct (configure_tpu_connection_path _ _) as [path|] eqn:Hp; [|done].
  destruct (match cf_account_filters c with None => _ | Some text => _ end) as [filters|] eqn:Hf; [|done].
  destruct (if cf_use_grpc c then _ else _) as [tasks accounts] eqn:He.
  destruct (if accounts then se_populate env else Ok ()) as [[]|] eqn:Ha; [|done].
  destruct (wait_till_block_of_commitment_is_recieved _ _) as [[info|]|] eqn:Hw; [|done..].
  destruct (se_epoch env) as [epoch|] eqn:Hep; [|done]. intros [tables H]%load_tables_started.
  destruct (start_postgres _ _) as [postgres|] eqn:Hpg; [|done]. destruct (se_tpu env) as [[]|] eqn:Ht; [|done].
  injection H as <-. exists path, filters, info, epoch, tables, postgres. rewrite He. split_and!; try done.
  intros ->. done.
Qed.

(** The watched tasks of the parts that are always started. *)
Lemma started_watched env c s :
  start_lite_rpc env c = Started s -> TpuServiceTask ∈ sv_watched s /\ NoDup (sv_watched s ++ sv_unwatched s).
Proof.
  intros (path & filters & info & epoch & tables & postgres & _ & _ & _ & _ & _ & Hpg & _ & H)%started_inv.
  assert (postgres = [] \/ postgres = [PostgresTask]) as Hp.
  { unfold start_postgres in Hpg. destruct (cf_postgres c); [|naive_solver]. destruct (se_postgres env); naive_solver. }
  clear Hpg. destruct (cf_use_grpc c); [destruct filters as [|f l]|]; cbn [create_grpc_subscription create_json_rpc_polling_subscription] in H;
    destruct H as (_ & ->); cbn [sv_watched sv_unwatched]; (split; [set_solver|]).
  all: destruct Hp as [->| ->], (cf_enable_grpc_stream_inspection c); apply (bool_decide_unpack _); vm_compute; exact I.
Qed.

(** The process ends exactly when the user interrupts it, when the watch on
    the RPC node gives up, or when a watched task ends, and only in the last
    case with an error, which names the part the task belongs to; a task that
    is not watched may end unnoticed. *)
Theorem process_ends_iff (env : StartEnv) (c : Config) (s : Services) (es : list ProcessEvent) :
  start_lite_rpc env c = Started s ->
  let unnoticed e := match e with TaskEnds t => t ∉ sv_watched s | _ => False end in
  match main_run s es with
  | None => Forall unnoticed es
  | Some r => exists es1 e es2, es = es1 ++ e :: es2 /\ Forall unnoticed es1 /\
      match e with
      | TaskEnds t => t ∈ sv_watched s /\ t ∉ sv_unwatched s /\ r = Err (end_message t)
      | _ => r = Ok ()
      end
  end.
Proof.
  intros [_ Hnd]%started_watched unnoticed. apply NoDup_app in Hnd as (_ & Hdisj & _).
  induction es as [|e es IH]; cbn [main_run]; [constructor|]. destruct (main_step s e) as [r|] eqn:E.
  - exists [], e, es. split; [done|]. split; [constructor|]. destruct e as [t| |]; cbn in E; [|naive_solver..].
    case_decide as Ht; [|done]. injection E as <-. split_and!; [done|by apply Hdisj|done].
  - assert (unnoticed e) as He by (destruct e as [t| |]; cbn in E |- *; [by case_decide|done..]).
    destruct (main_run s es) as [r|].
    + destruct IH as (es1 & e' & es2 & -> & Hes1 & H). exists (e :: es1), e', es2. split; [done|]. split; [by constructor|done].
    + by constructor.
Qed.

(** The tasks that keep the accounts are not watched. *)
Lemma account_tasks_unwatched env c s text filters :
  start_lite_rpc env c = Started s -> cf_use_grpc c = true -> cf_account_filters c = Some text ->
  se_parse_filters env text = Some filters -> filters <> [] ->
  AccountUpdateTask ∈ sv_unwatched s /\ AccountBlockTask ∈ sv_unwatched s /\
  main_run s [TaskEnds AccountUpdateTask; TaskEnds AccountBlockTask] = None.
Proof.
  intros Hs Hg Hf Hp Hne. pose proof (started_watched env c s Hs) as [_ Hnd].
  destruct (started_inv env c s Hs) as (path & filters' & info & epoch & tables & postgres & _ & _ & Hf' & _ & _ & _ & _ & H).
  rewrite Hf, Hp in Hf'. injection Hf' as <-. rewrite Hg in H. destruct filters as [|f l]; [done|]. cbn in H.
  assert (AccountUpdateTask ∈ sv_unwatched s /\ AccountBlockTask ∈ sv_unwatched s) as [H1 H2].
  { destruct H as (_ & ->). cbn [sv_unwatched]. set_solver. }
  split_and!; [done..|]. apply NoDup_app in Hnd as (_ & Hdisj & _). cbn.
  rewrite !decide_False; [done|..]; intros Hin; by apply (Hdisj _ Hin).
Qed.

(** A notification that is not received ends the TPU task. *)
Lemma tpu_service_ended_not_received {S : Type} `{LeaderFetcher S} fanout_slots d recvs1 r recvs2 :
  (forall n, r <> SlotReceived n) ->
  forall active (getter : S), tpu_service_ended fanout_slots d active getter (recvs1 ++ r :: recvs2) = true.
Proof.
  intros Hr. induction recvs1 as [|[n|m|] recvs1 IH]; intros active getter; cbn [app tpu_service_ended]; [|repeat case_match; auto|done..].
  destruct r as [n|m|]; [by destruct (Hr n)|done..].
Qed.

(** C35. A started server does not survive a slow reader of slots: when the TPU
    task falls behind the slot stream (or the stream is closed), whatever it
    received before, the task ends and the process exits with the error of the
    transaction services. *)
Theorem lagged_slots_stop_server {S : Type} `{LeaderFetcher S} (env : StartEnv) (c : Config) (s : Services)
    (active : gmap Pubkey SocketAddr) (getter : S) (recvs1 : list SlotRecv) (r : SlotRecv) (recvs2 : list SlotRecv) :
  start_lite_rpc env c = Started s -> (forall n, r <> SlotReceived n) ->
  main_run s (tpu_events (cf_fanout_size c) (sv_data_cache s) active getter (recvs1 ++ r :: recvs2)) = Some (Err "Tx Services").
Proof.
  intros [Htpu _]%started_watched Hr. unfold tpu_events. rewrite tpu_service_ended_not_received by done.
  cbn. by rewrite decide_True.
Qed.

Definition sample_env : StartEnv :=
  mkStartEnv (Ok ()) (fun h => Ok [h]) (fun text => Some [text]) (Ok ()) [RecvBlockInfo sample_first] (Ok (fixed_epoch_schedule 1000))
    (fun _ => Ok (Done ())) (Ok ()) (Ok ()).

Lemma lagged_slots_stop_server_witness :
  exists s, start_lite_rpc sample_env config_default = Started s /\
    main_run s (tpu_events (cf_fanout_size config_default) (sv_data_cache s) ∅ (mkCalculatedSchedule None None, fixed_epoch_schedule 5)
      ([] ++ SlotLagged 7 :: [])) = Some (Err "Tx Services").
Proof.
  eexists. split; [reflexivity|].
  apply (lagged_slots_stop_server sample_env); [reflexivity|done].
Defined.

Lemma process_ends_iff_witness :
  exists s, start_lite_rpc sample_env config_default = Started s /\
    match main_run s [TaskEnds AccountUpdateTask; TaskEnds PostgresTask; TaskEnds (BlockPollerTask 3)] with
    | None => False
    | Some r => exists es1 e es2, [TaskEnds AccountUpdateTask; TaskEnds PostgresTask; TaskEnds (BlockPollerTask 3)] = es1 ++ e :: es2 /\
        Forall (fun e => match e with TaskEnds t => t ∉ sv_watched s | _ => False end) es1 /\
        match e with TaskEnds t => t ∈ sv_watched s /\ t ∉ sv_unwatched s /\ r = Err (end_message t) | _ => r = Ok () end
    end.
Proof.
  eexists. split; [reflexivity|].
  exact (process_ends_iff sample_env config_default _
    [TaskEnds AccountUpdateTask; TaskEnds PostgresTask; TaskEnds (BlockPollerTask 3)] eq_refl).
Defined.

(** ** Servers and metrics *)

(** The limit on requests is never used: the limit on responses stands in for it. *)
Lemma request_limit_ignored bind ws http c s1 s2 :
  start_servers bind ws http (Some c) = Ok (s1, s2) ->
  ss_max_request_body_size s2 = Some (max_response_body_size c) /\ ss_max_request_body_size s1 = None.
Proof. unfold start_servers. cbn. destruct (bind ws), (bind http); naive_solver. Qed.

Lemma confirmed_by_finalized p : confirmed_by TcsFinalized p = true -> confirmed_by TcsConfirmed p = true.
Proof. unfold confirmed_by. by repeat case_match. Qed.

(** What the metrics show are the transactions of the store: of those sent,
    the confirmed ones are a part and the finalized ones a part of these, and
    each rate is how much its count grew since the last tick, zero when the
    store was cleaned in between. *)
Theorem captured_metrics_nested (store : gmap Signature TxProps) (m : Metrics) :
  let m' := capture_step store m in
  0 <= mt_txs_finalized m' <= mt_txs_confirmed m' /\ mt_txs_confirmed m' <= mt_txs_sent m' /\
  mt_txs_sent m' = Z.of_nat (size store) /\
  mt_txs_ps m' = Z.max 0 (mt_txs_sent m' - mt_txs_sent m) /\
  mt_txs_confirmed_ps m' = Z.max 0 (mt_txs_confirmed m' - mt_txs_confirmed m) /\
  mt_txs_finalized_ps m' = Z.max 0 (mt_txs_finalized m' - mt_txs_finalized m).
Proof.
  assert (forall a b, default 0 (checked_sub_u64 a b) = Z.max 0 (a - b)) as Hsub.
  { intros a b. unfold checked_sub_u64. case_match; cbn; lia. }
  unfold capture_step. cbn. rewrite !Hsub. split_and!; [lia| | |done..].
  - apply inj_le, sublist_length. induction (map_to_list store) as [|e l IH]; [reflexivity|].
    pose proof (confirmed_by_finalized e.2). rewrite !filter_cons. repeat case_decide; first [done|by constructor|naive_solver].
  - rewrite <- length_map_to_list. apply inj_le, length_filter.
Qed.
